(* ===== verification/_CoqProject ===== *)
-Q . S2P
Prelude.v
RustStr.v
BTree.v
Types.v
Workflow.v
Structure.v
Topology.v
Cycle.v
Validation.v
Capability.v
Errors.v
Contract.v
Json.v
Context.v
Message.v
Metadata.v
MetadataJson.v
MetadataSink.v
Rules.v
RuleEval.v
Channel.v
Ports.v
PortsSpec.v
Traffic.v
RuleContract.v
RuleNode.v
RuleDeployment.v
Wiring.v
Engine.v
Runtime.v
RuntimeEntry.v
Format.v
FormatSpec.v
BatchNode.v
EngineRun.v
NodeSystem.v
OneShot.v
RunInvariant.v
RunCompletes.v
RunEnds.v
Introspection.v
IntrospectRules.v
Wasm.v
WasmSpec.v
WasmRules.v
RulesGuest.v
WasmRulesSpec.v
WasmRuleNode.v
FsWatcher.v
CliNode.v
Cli.v
CliExplain.v
CliSchema.v
CliRun.v
CliInspect.v
CliRunSpec.v
CliSystem.v
CliCompletes.v
RuleSystem.v
RuleRun.v
TestKit.v
GuestAlloc.v
UppercaseGuest.v
