(* ===== verification/Prelude.v ===== *)
(** * A verification development for Pureflow

    Pureflow is a flow-based workflow engine.  A workflow is a graph of nodes
    joined by bounded edges; nodes exchange packets through ports, under
    cancellation and with every boundary crossing reported to a metadata sink;
    declarative rule sets route packets; contracts and capability descriptors
    are checked against the graph before anything runs.

    ** Files and the source they model

    All paths are under src/crates.

    - Prelude.v: results, executions with panics and fuel, their monadic
      notations, the loops over lists the code uses, the tactics and the hint
      database.
    - RustStr.v: Rust strings (lists of Unicode scalar values, with their UTF-8
      length and byte order), the Ord trait ([RustOrd]), decimal numbers.
    - BTree.v: BTreeSet and BTreeMap, as the sequences their iterators produce.
    - Types.v: pureflow-types/src/lib.rs, the validated identifiers.
    - Workflow.v: pureflow-workflow/src/lib.rs, node, edge and graph
      construction, the topology tables, Kahn's ordering loop, the cycle search.
      Structure.v, Topology.v and Cycle.v prove its three parts (structural
      checks, ordering, cycle search); Validation.v states the properties.
    - Capability.v, Errors.v: pureflow-core/src/capability.rs and error.rs (with
      the port errors of ports.rs).
    - Contract.v: pureflow-contract/src/lib.rs, contracts against topology and
      capabilities.
    - Json.v: serde_json values and binary64 numbers, as far as the code uses
      them.
    - Context.v: pureflow-core/src/context.rs and lifecycle.rs; cancellation
      tokens alias cells of a store of signals.
    - Message.v: pureflow-core/src/message.rs and batch.rs.
    - Metadata.v, MetadataJson.v, MetadataSink.v: pureflow-core/src/metadata.rs,
      the records, their JSON projection, and the sinks.
    - Rules.v, RuleEval.v: pureflow-rules/src/condition.rs, action.rs, error.rs,
      rule.rs and eval.rs, the rule language, and its properties.
    - Channel.v: the interfaces [Mpsc] and [MpscDrop] of the bounded channel the
      ports use, and of dropping its ends.
      Ports.v: pureflow-core/src/ports.rs, port handles over a store of
      channels.  PortsSpec.v gives each operation's effect on the store;
      Traffic.v states the properties, among them the invariant of every
      interleaving of port operations.
    - RuleContract.v: pureflow-contract/src/rules.rs, rule sets against the
      graph.
    - RuleNode.v: pureflow-rules/src/node.rs, the run of a rule node as a state
      machine over its suspension points.
    - RuleDeployment.v: what the checks of RuleContract.v guarantee of the runs
      of RuleNode.v.
    - Wiring.v: pureflow-engine/src/lib.rs, run policies, the wiring of edges to
      port handles, output contracts, and what each node is started with.
    - Engine.v: the same file, run summaries, the collection of node results and
      the no-progress watchdog.
    - Runtime.v, RuntimeEntry.v: pureflow-runtime/src/lib.rs, the observations
      around the run of one node; the entry points, the owned runtime and tracing.
    - BatchNode.v, EngineRun.v: pureflow-engine/src/lib.rs, the batch node
      adapter, and whole runs from the executor registries to the summary.
    - NodeSystem.v: the node futures of a run together (the futures of
      pureflow-engine/src/lib.rs around run_node_with_observers), behind the interface
      [NodeFuture] of a node's own future, and the collector of their results.
      OneShot.v is what a node promises that sends at most one packet on each output
      port and may fail, RunInvariant.v what holds of a run until a node fails,
      RunCompletes.v what a turn then does, and RunEnds.v that the run ends.
    - Format.v: pureflow-workflow-format/src/lib.rs and rule_source.rs, raw
      documents, their conversion, the resolution of rule sets.  FormatSpec.v
      states the properties.
    - Introspection.v, IntrospectRules.v: pureflow-introspection/src/lib.rs and
      rules.rs, views of workflows and of rule sets, with the analysis of
      unreachable rules.
    - Wasm.v, WasmRules.v: pureflow-wasm/src/lib.rs and rules.rs, the batch and
      the rule boundary to WASM components; the guest and the thread that cancels
      it are a step relation.  RulesGuest.v: the guest of
      pureflow-wasm/fixtures/rules-guest and the types of wit/pureflow-rules.wit.
      WasmSpec.v and WasmRulesSpec.v state the properties of the two boundaries.
    - WasmRuleNode.v: pureflow-wasm/src/rules_node.rs, the rule node with a guest.
    - FsWatcher.v: pureflow-nodes-fs/src/lib.rs, the file watcher node.
    - CliNode.v, Cli.v, CliExplain.v, CliSchema.v, CliRun.v: pureflow-cli/src/main.rs,
      its native nodes and their executors; errors, loading, validation and
      inspection; the explanation; the schemas; the run and the choice of the
      command.  CliInspect.v and CliRunSpec.v state the properties.  CliSystem.v gives
      the nodes of the command line the interfaces of NodeSystem.v and OneShot.v, and
      CliCompletes.v states how its runs end.  RuleSystem.v and RuleRun.v do the same for
      runs with rule nodes.
    - TestKit.v: pureflow-test-kit/src/lib.rs, builders, packets and executors.
    - GuestAlloc.v: the allocator, cabi_realloc and memcmp of the fixtures of
      pureflow-wasm, at 32 bits.  UppercaseGuest.v: the guest of
      pureflow-wasm/fixtures/uppercase-guest.

    A struct is a [Record] and an enum an [Inductive], in a [Module] of its name
    when its fields or constructors need one; functions keep their names.  A
    fallible function returns [result]; a loop that is not structural, or code
    that can overflow, returns [exec].  State that the code shares through an
    [Arc] (channels, sinks, cancellation signals, counters) lives in a store
    that operations take and return.  An async function is given by what it
    does before its first poll and by one poll; between polls anything else may
    happen.

    ** What the theorems show

    - Graphs (Validation.v): which graphs are accepted, with which order and
      which errors; construction always returns.  Two edges between the same two
      nodes are always rejected ([parallel_edges_rejected]).
    - Identifiers (Types.v): which texts are accepted, and which error is
      reported first.
    - Capabilities and contracts (Capability.v, Contract.v): exactly which
      descriptors and contracts are accepted, when no node has two of them.
    - Rules (RuleEval.v): what each strategy decides, that it is the best rule
      of those given, the language of glob patterns, exactness of integer
      comparisons.
    - Ports (Traffic.v): sending is all or nothing, receiving takes the first
      ready edge, and along any interleaving no channel overflows, no
      reservation leaks, and no packet is lost, repeated or reordered.
    - Rule nodes (RuleContract.v, RuleNode.v, RuleDeployment.v): the load-time
      check reports exactly what is wrong; a run refines the pure routing
      function in any environment; an accepted rule set never sends to a missing
      port; what a cancellation during a send does.
    - Engine and runtime (Wiring.v, Engine.v, Runtime.v, RuntimeEntry.v): every node
      starts with its declared ports connected to exactly its edges, which is where
      the port theorems begin; with contracts no node can forge a packet's origin; the
      summary of a run counts every node once and follows the first error; what
      the watchdog and the run policy do; a run is bracketed by its lifecycle
      events, if its observers do not fail; tracing does not change a run.
    - Whole runs (BatchNode.v, EngineRun.v): a batch node sends exactly what its
      executor makes of everything its inputs carried, up to a packet that its ports
      refuse, and it finishes when its neighbours do their part; what a run
      returns for each registry, policy and sequence of events.
    - Runs under every schedule (RunEnds.v, CliCompletes.v, RuleRun.v): a run of native
      nodes, of components that answer with at most one packet for each port, and of
      rule nodes that have one edge into them and rule sets the contract layer accepts,
      completes, and every node has received what was sent to it; when a component or a
      rule set fails instead, the run is cancelled, every node returns, and the error of
      the run is theirs.  Without the bound a run can wait for ever.
    - Documents (FormatSpec.v): which documents become which workflow, where the
      first error is reported, and that a document loads the same after its rule
      sets are resolved, if they are read back as they were written.
    - Views (Introspection.v, IntrospectRules.v): what the view of a workflow
      contains; a rule reported as unreachable never decides, when no tagging rule
      is involved; a condition reads the surfaces its summary names.
    - WASM (WasmSpec.v, WasmRulesSpec.v, WasmRuleNode.v): a batch survives the
      boundary unchanged; what a cancellation does to a guest along every
      interleaving with it; a rule set encoded for the sample guest is decided there
      as the native evaluator decides it, so the WASM rule node routes natively.
    - Guests (GuestAlloc.v, UppercaseGuest.v): allocated blocks are aligned, inside the
      memory and disjoint; what the host gets from the uppercase guest.
    - Test kit (TestKit.v): its identifiers and workflows are valid; what its source
      sends and its sink records.
    - File watcher (FsWatcher.v): which changes are reported, as which packets.
    - Command line (CliNode.v, CliInspect.v, CliRunSpec.v): what a native node sends;
      inspect describes every workflow that loads; a validated manifest gives every
      node an executor; what the exit status says of a run.
    - Cancellation (Context.v): the first request wins, for every clone.
    - Metadata and errors (MetadataJson.v, MetadataSink.v, Errors.v): the JSON
      projection is injective, the tiered sink forwards what it says, an error's
      text determines its policy.

    ** Bounds and fuel

    Kahn's loop and the depth-first search take the number of nodes plus one
    as fuel, the path search the number of edges plus one; Topology.v, Cycle.v
    and RuleContract.v prove that this is enough, so the theorems state results,
    not conditional ones.  The guest of RulesGuest.v recurses over an arena that
    may be circular and takes fuel; WasmRulesSpec.v proves that the number of nodes
    is enough for every arena the host encodes with at most 2^32 nodes, the point
    from which the encoder's indices saturate.  The rounds of turns that a run needs
    ([run_bound]) are computed from the workflow, and proved enough.  Addresses of a
    guest have 32 bits.  [usize] arithmetic that can underflow, and the packet numbers
    of the file watcher, panic in the model; saturating and wrapping counters are
    written at their width.

    ** Parameters

    Code outside the repository is a class with the laws relied on:
    [JsonNumber] (serde_json's numbers), [Mpsc] and [MpscDrop] (the asupersync channel),
    [JsonlWriter] (std::io::Write and the JSON encoder), [FloatDisplay],
    [JsonDisplay] and [DurationDebug] (how an f64, a JSON value and a duration are
    printed), [JsonText] (serde_json's parser and printer), [RuleSetSerde] (the
    derived serialisers of rule sets), [TextFormat] (the JSON, TOML and YAML
    decoders), [CliSerde] (the decoder of manifests and the JSON printer),
    [TracingTargets], [FileSystem], [Wasmtime], [FsPath].  The heap base of a guest and
    the answers of the host to its requests for memory are arguments, as is whether
    the asupersync runtime can be built.  [MetadataSink],
    [LifecycleHook] and [NodeExecutorRegistry] are traits of the source; a node
    executor, a batch executor and a rule set source are arguments.  Each has an
    instance that the examples evaluate.

    ** Not modelled

    Serde derives, Debug output and Error::source; the Arrow payload of a cargo
    feature; the asupersync runtime and the watchdog's thread, Wasmtime, notify and the
    text format parsers, which are libraries; the bindings of the WASM fixtures, which
    are generated; the argument parser and the completion scripts of the command line,
    which are clap.  The facade crate re-exports the others.
    Runs in which a node may send several packets on a port have no completion theorem,
    for they may wait for ever; RuleNode.v, BatchNode.v and WasmRuleNode.v have their
    nodes in any environment. *)

From Stdlib Require Import Lia.
From stdpp Require Export base list gmap strings.

(** ** Results, executions and their monads *)

Declare Scope rust_scope.
Delimit Scope rust_scope with rust.
Open Scope rust_scope.

(** [Result<A, E>] of the Rust standard library. *)
Inductive result (A E : Type) : Type :=
| Ok (a : A)
| Err (e : E).

Arguments Ok {A E} _.
Arguments Err {A E} _.

(** What running a loop or a partial arithmetic operation can do besides
    returning: [Panic] is the arithmetic-overflow panic of [usize], and
    [OutOfFuel] means that the model's bound on a loop was too small. *)
Inductive exec (A : Type) : Type :=
| Done (a : A)
| Panic
| OutOfFuel.

Arguments Done {A} _.
Arguments Panic {A}.
Arguments OutOfFuel {A}.

#[export] Instance result_eq_dec {A E} `{EqDecision A, EqDecision E} :
  EqDecision (result A E).
Proof. solve_decision. Defined.

Definition result_bind {A B E} (r : result A E) (k : A → result B E) : result B E :=
  match r with Ok a => k a | Err e => Err e end.

Definition map_err {A E F} (f : E → F) (r : result A E) : result A F :=
  match r with Ok a => Ok a | Err e => Err (f e) end.

Definition ok_or {A E} (o : option A) (e : E) : result A E :=
  match o with Some a => Ok a | None => Err e end.

Definition is_ok {A E} (r : result A E) : bool :=
  match r with Ok _ => true | Err _ => false end.

Definition exec_bind {A B} (m : exec A) (k : A → exec B) : exec B :=
  match m with Done a => k a | Panic => Panic | OutOfFuel => OutOfFuel end.

(** The [?] operator of Rust, inside a [result] and inside an execution whose
    value is a [result]. *)
Notation "'let?' x := e 'in' k" := (result_bind e (λ x, k))
  (at level 10, x name, e at level 200, k at level 200) : rust_scope.
Notation "'let!' x := e 'in' k" := (exec_bind e (λ x, k))
  (at level 10, x name, e at level 200, k at level 200) : rust_scope.

Definition exec_try {A B E} (m : exec (result A E)) (k : A → exec (result B E)) :
    exec (result B E) :=
  exec_bind m (λ r, match r with Ok a => k a | Err e => Done (Err e) end).

Notation "'let!?' x := e 'in' k" := (exec_try e (λ x, k))
  (at level 10, x name, e at level 200, k at level 200) : rust_scope.

(** [for x in l { f(x)?; }] and [l.iter().map(f).collect::<Result<Vec<_>, _>>()]. *)
Fixpoint try_for_each {A E} (f : A → result unit E) (l : list A) : result unit E :=
  match l with
  | [] => Ok tt
  | x :: l => let? _ := f x in try_for_each f l
  end.

Fixpoint try_collect {A B E} (f : A → result B E) (l : list A) : result (list B) E :=
  match l with
  | [] => Ok []
  | x :: l => let? y := f x in let? ys := try_collect f l in Ok (y :: ys)
  end.

(** [l.iter().enumerate()]. *)
Definition enumerate {A} (l : list A) : list (nat * A) := imap pair l.

(** [l.iter().find(p)], [l.iter().any(p)], [l.iter().all(p)] and [l.contains(x)]. *)
Fixpoint iter_find {A} (p : A → bool) (l : list A) : option A :=
  match l with
  | [] => None
  | x :: l => if p x then Some x else iter_find p l
  end.
Definition vec_contains {A} `{EqDecision A} (x : A) (l : list A) : bool := bool_decide (x ∈ l).
Definition vec_is_empty {A} (l : list A) : bool := match l with [] => true | _ => false end.

(** ** Tactics *)

(** Split every [match] or [if] in the goal or in the hypotheses, closing the
    absurd branches. *)
Ltac split_matches :=
  repeat match goal with
  | H : context [match ?e with _ => _ end] |- _ => destruct e eqn:?; simplify_eq/=
  | |- context [match ?e with _ => _ end] => destruct e eqn:?; simplify_eq/=
  end.

(** Invert [result_bind r k = Ok a]-like hypotheses. *)
Ltac bind_inv :=
  repeat match goal with
  | H : result_bind ?r _ = _ |- _ =>
      let E := fresh "Hr" in destruct r eqn:E; simpl in H; try discriminate H; simplify_eq
  | H : exec_bind ?r _ = _ |- _ =>
      let E := fresh "Hm" in destruct r eqn:E; simpl in H; try discriminate H; simplify_eq
  end.

Create HintDb pureflow.

(** ** Generic lemmas *)

Lemma result_bind_ok {A B E} (r : result A E) (k : A → result B E) b :
  result_bind r k = Ok b ↔ ∃ a, r = Ok a ∧ k a = Ok b.
Proof. destruct r; simpl; naive_solver. Qed.

(** A check followed by the rest of the function. *)
Lemma result_then_ok {B E} (r : result unit E) (k : unit → result B E) b :
  result_bind r k = Ok b ↔ r = Ok tt ∧ k tt = Ok b.
Proof. destruct r as [[]|]; simpl; naive_solver. Qed.

Lemma result_bind_err {A B E} (r : result A E) (k : A → result B E) e :
  result_bind r k = Err e ↔ r = Err e ∨ ∃ a, r = Ok a ∧ k a = Err e.
Proof. destruct r; simpl; naive_solver. Qed.

Lemma map_err_ok {A E F} (f : E → F) (r : result A E) a : map_err f r = Ok a ↔ r = Ok a.
Proof. destruct r; simpl; naive_solver. Qed.

Lemma map_err_err {A E F} (f : E → F) (r : result A E) e' :
  map_err f r = Err e' ↔ ∃ e, r = Err e ∧ f e = e'.
Proof. destruct r; simpl; naive_solver. Qed.

Lemma ok_or_ok {A E} (o : option A) (e : E) a : ok_or o e = Ok a ↔ o = Some a.
Proof. destruct o; simpl; naive_solver. Qed.

Lemma ok_or_err {A E} (o : option A) (e e' : E) : ok_or o e = Err e' ↔ o = None ∧ e = e'.
Proof. destruct o; simpl; naive_solver. Qed.

Section loop_lemmas.
Context {A B E : Type}.

Lemma try_for_each_ok (f : A → result unit E) l u :
  try_for_each f l = Ok u ↔ Forall (λ x, f x = Ok tt) l.
Proof.
  destruct u. induction l as [|x l IH]; simpl.
  - split; [constructor|done].
  - rewrite result_bind_ok, Forall_cons. split.
    + intros ([] & ? & ?%IH). done.
    + intros [? ?%IH]. exists tt. done.
Qed.

(** The error a loop of fallible checks reports is that of the first check
    that fails. *)
Lemma try_for_each_err (f : A → result unit E) l e :
  try_for_each f l = Err e ↔
  ∃ l1 x l2, l = l1 ++ x :: l2 ∧ Forall (λ y, f y = Ok tt) l1 ∧ f x = Err e.
Proof.
  induction l as [|x l IH]; simpl.
  - split; [done|]. intros ([|? ?] & ? & ? & ? & _); discriminate.
  - rewrite result_bind_err. split.
    + intros [Hx | ([] & Hx & Hl)].
      * exists [], x, l. eauto.
      * apply IH in Hl as (l1 & y & l2 & -> & ? & ?).
        exists (x :: l1), y, l2. split_and!; auto.
    + intros ([|z l1] & y & l2 & Heq & Hl1 & Hy); simplify_eq/=; [by left|].
      apply Forall_cons in Hl1 as [Hz Hl1]. right. exists tt. split; [done|].
      apply IH. eauto 10.
Qed.

Lemma try_collect_ok (f : A → result B E) l ys :
  try_collect f l = Ok ys ↔ Forall2 (λ x y, f x = Ok y) l ys.
Proof.
  revert ys. induction l as [|x l IH]; intros ys; simpl.
  - split; [intros; simplify_eq; constructor | by inversion 1].
  - rewrite result_bind_ok. setoid_rewrite result_bind_ok. split.
    + intros (y & Hx & ys' & ?%IH & ?). simplify_eq. by constructor.
    + inversion 1 as [|? y ? ys' Hx Hl]; simplify_eq.
      exists y. split; [done|]. exists ys'. split; [by apply IH|done].
Qed.

Lemma try_collect_err (f : A → result B E) l e :
  try_collect f l = Err e ↔
  ∃ l1 x l2, l = l1 ++ x :: l2 ∧ Forall (λ y, is_ok (f y)) l1 ∧ f x = Err e.
Proof.
  induction l as [|x l IH]; simpl.
  - split; [done|]. intros ([|? ?] & ? & ? & ? & _); discriminate.
  - rewrite result_bind_err. setoid_rewrite result_bind_err. split.
    + intros [Hx | (y & Hx & [Hl | (ys & _ & [=])])].
      * exists [], x, l. eauto.
      * apply IH in Hl as (l1 & z & l2 & -> & ? & ?).
        exists (x :: l1), z, l2. split_and!; auto. constructor; [by rewrite Hx|done].
    + intros ([|z l1] & y & l2 & Heq & Hl1 & Hy); simplify_eq/=; [by left|].
      apply Forall_cons in Hl1 as [Hz Hl1]. destruct (f z) as [b|] eqn:Hfz; [|done].
      right. exists b. split; [done|]. left. apply IH. eauto 10.
Qed.

End loop_lemmas.

Lemma exec_bind_done {A B} (m : exec A) (k : A → exec B) b :
  exec_bind m k = Done b ↔ ∃ a, m = Done a ∧ k a = Done b.
Proof. destruct m; simpl; naive_solver. Qed.

Lemma exec_try_ok {A B E} (m : exec (result A E)) (k : A → exec (result B E)) b :
  exec_try m k = Done (Ok b) ↔ ∃ a, m = Done (Ok a) ∧ k a = Done (Ok b).
Proof. destruct m as [[]| |]; simpl; naive_solver. Qed.

Lemma exec_try_err {A B E} (m : exec (result A E)) (k : A → exec (result B E)) e :
  exec_try m k = Done (Err e) ↔
  m = Done (Err e) ∨ ∃ a, m = Done (Ok a) ∧ k a = Done (Err e).
Proof. destruct m as [[]| |]; simpl; naive_solver. Qed.

Lemma enumerate_lookup {A} (l : list A) i :
  enumerate l !! i = (λ x, (i, x)) <$> l !! i.
Proof. unfold enumerate. by rewrite list_lookup_imap. Qed.

Lemma elem_of_enumerate {A} (l : list A) i x : (i, x) ∈ enumerate l ↔ l !! i = Some x.
Proof.
  rewrite list_elem_of_lookup. setoid_rewrite enumerate_lookup.
  setoid_rewrite fmap_Some. naive_solver.
Qed.

Section find.
Context {A : Type}.
Implicit Types (p : A → bool) (l : list A).

Lemma iter_find_some p l x :
  iter_find p l = Some x ↔
  ∃ l1 l2, l = l1 ++ x :: l2 ∧ p x = true ∧ Forall (λ y, p y = false) l1.
Proof.
  induction l as [|y l IH].
  - split; [done|]. intros ([|??] & ? & ? & _); discriminate.
  - simpl. destruct (p y) eqn:Hy.
    + split.
      * intros [= ->]. by exists [], l.
      * intros ([|z l1] & l2 & ? & ? & Hl1); simplify_eq/=; [done|].
        apply Forall_cons in Hl1 as [??]. congruence.
    + rewrite IH. split.
      * intros (l1 & l2 & -> & ? & ?). exists (y :: l1), l2. auto.
      * intros ([|z l1] & l2 & ? & ? & Hl1); simplify_eq/=; [congruence|].
        apply Forall_cons in Hl1 as [??]. eauto.
Qed.

Lemma iter_find_elem p l x : iter_find p l = Some x → x ∈ l ∧ p x = true.
Proof.
  intros (l1 & l2 & -> & ? & _)%iter_find_some. split; [|done].
  apply elem_of_app. right. left.
Qed.

Lemma iter_find_none p l : iter_find p l = None ↔ Forall (λ y, p y = false) l.
Proof.
  induction l as [|y l IH]; [done|].
  rewrite Forall_cons. simpl. destruct (p y); naive_solver.
Qed.

Lemma iter_find_is_some p l x : x ∈ l → p x = true → is_Some (iter_find p l).
Proof.
  intros Hx Hp. destruct (iter_find p l) eqn:Hf; [eauto|].
  apply iter_find_none in Hf. rewrite Forall_forall in Hf.
  specialize (Hf x Hx). congruence.
Qed.
End find.

Lemma vec_contains_true {A} `{EqDecision A} (x : A) l : vec_contains x l = true ↔ x ∈ l.
Proof. unfold vec_contains. apply bool_decide_eq_true. Qed.

Lemma vec_contains_false {A} `{EqDecision A} (x : A) l : vec_contains x l = false ↔ x ∉ l.
Proof. unfold vec_contains. apply bool_decide_eq_false. Qed.

(** Counting the elements that satisfy a predicate tells whether all do. *)
Lemma length_filter_all {A} (P : A → Prop) `{∀ x, Decision (P x)} (l : list A) :
  Nat.eqb (length (filter P l)) (length l) = bool_decide (Forall P l).
Proof.
  case_bool_decide as Hd.
  - apply Nat.eqb_eq. induction Hd; [done|]. rewrite filter_cons_True by done. simpl. by f_equal.
  - apply Nat.eqb_neq. intros Heq. apply Hd. clear Hd.
    induction l as [|x l IH]; [constructor|]. rewrite filter_cons in Heq.
    pose proof (length_filter P l). case_decide; simpl in Heq; [|lia].
    constructor; [done|]. apply IH. lia.
Qed.

(** ** Repeated elements *)

(** The first element of a list that repeats an earlier one. *)
Fixpoint first_repeat {A} `{EqDecision A} (seen l : list A) : option A :=
  match l with
  | [] => None
  | x :: l => if decide (x ∈ seen) then Some x else first_repeat (x :: seen) l
  end.

Lemma first_repeat_none {A} `{EqDecision A} (seen l : list A) :
  first_repeat seen l = None ↔ NoDup l ∧ ∀ x, x ∈ l → x ∉ seen.
Proof.
  revert seen. induction l as [|x l IH]; intros seen; simpl.
  - split; [|done]. intros _. split; [constructor|set_solver].
  - case_decide as Hx.
    + split; [done|]. intros [_ Hs]. by destruct (Hs x); [left|].
    + rewrite IH, NoDup_cons. set_solver.
Qed.

Lemma first_repeat_some {A} `{EqDecision A} (seen l : list A) x :
  first_repeat seen l = Some x →
  ∃ l1 l2, l = l1 ++ x :: l2 ∧ x ∈ seen ++ l1 ∧ NoDup l1 ∧ ∀ y, y ∈ l1 → y ∉ seen.
Proof.
  revert seen. induction l as [|y l IH]; intros seen; simpl; [done|].
  case_decide as Hy.
  - intros [= ->]. exists [], l. split_and!; [done|set_solver|constructor|set_solver].
  - intros (l1 & l2 & -> & Hx & Hnd & Hl1)%IH. exists (y :: l1), l2.
    split_and!; [done|set_solver| |set_solver]. constructor; set_solver.
Qed.

Lemma first_repeat_proper {A} `{EqDecision A} (s1 s2 l : list A) :
  (∀ x, x ∈ s1 ↔ x ∈ s2) → first_repeat s1 l = first_repeat s2 l.
Proof.
  revert s1 s2. induction l as [|y l IH]; intros s1 s2 Hs; simpl; [done|].
  rewrite (decide_ext _ _ _ _ (Hs y)). case_decide; [done|].
  apply IH. set_solver.
Qed.
