(* ===== verification/RustStr.v ===== *)
(** Rust [char], [String] and [Ord].

    A Rust [String] is a sequence of Unicode scalar values stored as UTF-8.
    The model is the list of its scalar values, as [N]; [str_len] is the
    number of UTF-8 bytes ([str::len]), and the derived order of identifiers,
    which Rust computes on the bytes, is the lexicographic order of the
    scalar values: [str_cmp_utf8] proves that the two agree. *)

From Stdlib Require Import Lia ZArith NArith Ascii String.
From stdpp Require Import pretty.
From S2P Require Import Prelude.

(** ** Total orders: the [Ord] trait *)

Class RustOrd (K : Type) := {
  ord_cmp : K → K → comparison;
  ord_cmp_eq : ∀ x y, ord_cmp x y = Eq ↔ x = y;
  ord_cmp_antisym : ∀ x y, ord_cmp y x = CompOpp (ord_cmp x y);
  ord_cmp_trans : ∀ x y z, ord_cmp x y = Lt → ord_cmp y z = Lt → ord_cmp x z = Lt;
}.

Definition ord_lt {K} `{RustOrd K} (x y : K) : Prop := ord_cmp x y = Lt.

Section ord.
Context {K : Type} `{RustOrd K}.
Implicit Types x y z : K.

Lemma ord_cmp_refl x : ord_cmp x x = Eq.
Proof. by apply ord_cmp_eq. Qed.

#[export] Instance ord_lt_trans : Transitive ord_lt.
Proof. intros x y z. apply ord_cmp_trans. Qed.

#[export] Instance ord_lt_irrefl : Irreflexive ord_lt.
Proof. intros x. unfold ord_lt, complement. by rewrite ord_cmp_refl. Qed.

Lemma ord_lt_ne x y : ord_lt x y → x ≠ y.
Proof. intros Hlt ->. by apply (irreflexivity ord_lt y). Qed.

Lemma ord_cmp_gt x y : ord_cmp x y = Gt ↔ ord_lt y x.
Proof.
  unfold ord_lt. rewrite (ord_cmp_antisym x y). by destruct (ord_cmp x y).
Qed.

Lemma ord_total x y : ord_lt x y ∨ x = y ∨ ord_lt y x.
Proof.
  destruct (ord_cmp x y) eqn:E.
  - right; left. by apply ord_cmp_eq.
  - by left.
  - right; right. by apply ord_cmp_gt.
Qed.
End ord.

(** The order that an injection into an ordered type induces, as [derive(Ord)]
    does with the discriminants of an enum. *)
Definition ord_by {K L} `{RustOrd L} (f : K → L) (Hf : ∀ x y, f x = f y → x = y) : RustOrd K.
Proof.
  refine {| ord_cmp x y := ord_cmp (f x) (f y) |}.
  - intros x y. rewrite ord_cmp_eq. naive_solver.
  - intros x y. apply ord_cmp_antisym.
  - intros x y z. apply ord_cmp_trans.
Defined.

(** ** Lexicographic comparison *)

Fixpoint lex_cmp {A} (cmp : A → A → comparison) (a b : list A) : comparison :=
  match a, b with
  | [], [] => Eq
  | [], _ :: _ => Lt
  | _ :: _, [] => Gt
  | x :: a, y :: b =>
      match cmp x y with Eq => lex_cmp cmp a b | Lt => Lt | Gt => Gt end
  end.

#[export] Program Instance N_RustOrd : RustOrd N := {| ord_cmp := N.compare |}.
Next Obligation. apply N.compare_eq_iff. Qed.
Next Obligation. apply N.compare_antisym. Qed.
Next Obligation. intros x y z. rewrite !N.compare_lt_iff. lia. Qed.

#[export] Program Instance list_RustOrd {A} `{RustOrd A} : RustOrd (list A) :=
  {| ord_cmp := lex_cmp ord_cmp |}.
Next Obligation.
  intros A HO a. induction a as [|x a IH]; intros [|y b]; simpl; try done.
  destruct (ord_cmp x y) eqn:E.
  - rewrite IH. apply ord_cmp_eq in E. naive_solver.
  - split; [done|]. intros [= <- _]. by rewrite ord_cmp_refl in E.
  - split; [done|]. intros [= <- _]. by rewrite ord_cmp_refl in E.
Qed.
Next Obligation.
  intros A HO a. induction a as [|x a IH]; intros [|y b]; simpl; try done.
  rewrite (ord_cmp_antisym x y). destruct (ord_cmp x y); simpl; auto.
Qed.
Next Obligation.
  intros A HO a. induction a as [|x a IH]; intros [|y b] [|z c]; simpl; try done.
  destruct (ord_cmp x y) eqn:Exy, (ord_cmp y z) eqn:Eyz; try done; intros Hab Hbc.
  - apply ord_cmp_eq in Exy as ->, Eyz as ->. rewrite ord_cmp_refl. eauto.
  - apply ord_cmp_eq in Exy as ->. by rewrite Eyz.
  - apply ord_cmp_eq in Eyz as ->. by rewrite Exy.
  - by rewrite (ord_cmp_trans x y z).
Qed.

(** ** Characters and strings *)

Notation rstr := (list N).

(** An ASCII literal of the source. *)
Definition lit (s : string) : rstr := N_of_ascii <$> list_ascii_of_string s.

(** A Unicode scalar value. *)
Definition is_scalar (c : N) : bool := ((c <? 0xD800) || ((0xE000 <=? c) && (c <? 0x110000)))%N.

(** [char::is_whitespace]: the Unicode property [White_Space]. *)
Definition is_whitespace (c : N) : bool :=
  (((0x9 <=? c) && (c <=? 0xD)) || (c =? 0x20) || (c =? 0x85) || (c =? 0xA0)
   || (c =? 0x1680) || ((0x2000 <=? c) && (c <=? 0x200A)) || (c =? 0x2028)
   || (c =? 0x2029) || (c =? 0x202F) || (c =? 0x205F) || (c =? 0x3000))%N.

(** [char::is_control]: the general category [Cc]. *)
Definition is_control (c : N) : bool :=
  ((c <? 0x20) || ((0x7F <=? c) && (c <=? 0x9F)))%N.

(** UTF-8. *)
Definition utf8_encode (c : N) : list N :=
  (if c <? 0x80 then [c]
   else if c <? 0x800 then [0xC0 + c / 64; 0x80 + c mod 64]
   else if c <? 0x10000 then
     [0xE0 + c / 4096; 0x80 + (c / 64) mod 64; 0x80 + c mod 64]
   else
     [0xF0 + c / 262144; 0x80 + (c / 4096) mod 64; 0x80 + (c / 64) mod 64;
      0x80 + c mod 64])%N.

Definition utf8 (s : rstr) : list N := s ≫= utf8_encode.

(** [str::len]: bytes, not characters. *)
Definition str_len (s : rstr) : nat := length (utf8 s).

(** [str::trim]. *)
Fixpoint trim_start (s : rstr) : rstr :=
  match s with
  | [] => []
  | c :: s' => if is_whitespace c then trim_start s' else s
  end.

Definition trim (s : rstr) : rstr := reverse (trim_start (reverse (trim_start s))).

(** [s.split(c)]: always at least one piece. *)
Fixpoint split_on (c : N) (s : rstr) : list rstr :=
  match s with
  | [] => [[]]
  | x :: s =>
      if (x =? c)%N then [] :: split_on c s
      else match split_on c s with
           | [] => [[x]]
           | p :: ps => (x :: p) :: ps
           end
  end.

(** [to_string] of an unsigned integer, and [parts.join(sep)]. *)
Definition show_N (n : N) : rstr := lit (pretty n).
Definition show_nat (n : nat) : rstr := show_N (N.of_nat n).
Definition show_Z (z : Z) : rstr := lit (pretty z).

Fixpoint join (sep : rstr) (parts : list rstr) : rstr :=
  match parts with
  | [] => []
  | [p] => p
  | p :: ps => p ++ sep ++ join sep ps
  end.

(** ** Lemmas *)

Lemma trim_start_empty s : trim_start s = [] ↔ Forall (λ c, is_whitespace c = true) s.
Proof.
  induction s as [|c s IH]; simpl; [done|].
  rewrite Forall_cons. destruct (is_whitespace c); [|naive_solver].
  rewrite IH. naive_solver.
Qed.

Lemma trim_start_suffix s : ∃ ws, s = ws ++ trim_start s ∧ Forall (λ c, is_whitespace c = true) ws.
Proof.
  induction s as [|c s (ws & Hs & Hws)]; simpl; [by exists []|].
  destruct (is_whitespace c) eqn:Hc; [|by exists []].
  exists (c :: ws). simpl. split; [by f_equal|by constructor].
Qed.

(** [s.trim().is_empty()] holds exactly of the strings of white space. *)
Lemma trim_empty s : trim s = [] ↔ Forall (λ c, is_whitespace c = true) s.
Proof.
  unfold trim. split.
  - intros Hr. apply (f_equal reverse) in Hr. rewrite reverse_involutive in Hr.
    apply trim_start_empty in Hr. destruct (trim_start_suffix s) as (ws & -> & Hws).
    apply Forall_app. split; [done|].
    rewrite Forall_forall in Hr |- *. intros c Hc. apply Hr.
    by apply elem_of_reverse.
  - intros Hs. apply trim_start_empty in Hs. by rewrite Hs.
Qed.

Lemma utf8_app a b : utf8 (a ++ b) = utf8 a ++ utf8 b.
Proof. apply bind_app. Qed.

Lemma str_len_app a b : str_len (a ++ b) = str_len a + str_len b.
Proof. unfold str_len. by rewrite utf8_app, length_app. Qed.

Lemma split_on_nonempty c s : split_on c s ≠ [].
Proof. destruct s; simpl; [done|]. case_match; [done|]. by case_match. Qed.

Lemma split_on_join c s : join [c] (split_on c s) = s.
Proof.
  induction s as [|x s IH]; simpl; [done|].
  destruct (N.eqb_spec x c) as [->|].
  - simpl. destruct (split_on c s) eqn:Hs; [by apply split_on_nonempty in Hs|].
    simpl in *. by rewrite <- IH.
  - destruct (split_on c s) as [|p ps] eqn:Hs; [by apply split_on_nonempty in Hs|].
    simpl in *. rewrite <- IH. by destruct ps.
Qed.

Lemma split_on_no_sep c s p : p ∈ split_on c s → c ∉ p.
Proof.
  revert p. induction s as [|x s IH]; intros p; simpl.
  - rewrite list_elem_of_singleton. intros ->. apply not_elem_of_nil.
  - destruct (N.eqb_spec x c) as [->|Hne].
    + intros [->|?]%elem_of_cons; [apply not_elem_of_nil|auto].
    + destruct (split_on c s) as [|q qs] eqn:Hs; [by apply split_on_nonempty in Hs|].
      intros [->|?]%elem_of_cons; [|apply IH; by right].
      apply not_elem_of_cons. split; [done|]. apply IH. left.
Qed.

(** *** The byte order is the scalar-value order *)

Ltac Zify.zify_post_hook ::= Z.to_euclidean_division_equations.

(** One step of a byte comparison: the bytes are equal, or the claim is
    decided, and [lia] refutes the impossible orders. *)
Ltac byte_step :=
  match goal with
  | |- context [N.compare ?p ?q] =>
      destruct (N.compare_spec p q); [|reflexivity|exfalso; lia]
  end.

Lemma utf8_encode_lt (a b : N) x y :
  (a < b)%N → (b < 0x110000)%N →
  lex_cmp N.compare (utf8_encode a ++ x) (utf8_encode b ++ y) = Lt.
Proof.
  intros Hab Hb. unfold utf8_encode.
  destruct (N.ltb_spec a 0x80), (N.ltb_spec b 0x80), (N.ltb_spec a 0x800),
    (N.ltb_spec b 0x800), (N.ltb_spec a 0x10000), (N.ltb_spec b 0x10000);
    try (exfalso; lia); simpl; repeat byte_step; exfalso; lia.
Qed.

Lemma lex_cmp_app_same (p x y : list N) :
  lex_cmp N.compare (p ++ x) (p ++ y) = lex_cmp N.compare x y.
Proof. induction p; simpl; [done|]. by rewrite N.compare_refl. Qed.

Lemma lex_cmp_antisym (x y : list N) :
  lex_cmp N.compare x y = CompOpp (lex_cmp N.compare y x).
Proof. exact (ord_cmp_antisym y x). Qed.

Lemma utf8_encode_nonempty c : utf8_encode c ≠ [].
Proof. unfold utf8_encode. by repeat case_match. Qed.

Definition scalars (s : rstr) : Prop := Forall (λ c, is_scalar c = true) s.

Lemma is_scalar_bound c : is_scalar c = true → (c < 0x110000)%N.
Proof.
  unfold is_scalar. rewrite orb_true_iff, andb_true_iff, !N.ltb_lt. lia.
Qed.

(** Rust orders strings by their UTF-8 bytes; the model orders them by their
    scalar values.  The two comparisons agree on every pair of strings. *)
Lemma str_cmp_utf8 (a b : rstr) :
  scalars a → scalars b → lex_cmp N.compare (utf8 a) (utf8 b) = ord_cmp a b.
Proof.
  simpl. intros Ha. revert b. induction Ha as [|x a Hx Ha IH]; intros b Hb.
  - destruct b as [|y b]; [done|]. simpl.
    destruct (utf8_encode y) eqn:Ey; [by apply utf8_encode_nonempty in Ey|]. done.
  - destruct Hb as [|y b Hy Hb].
    + simpl. destruct (utf8_encode x) eqn:Ex; [by apply utf8_encode_nonempty in Ex|]. done.
    + unfold utf8. simpl. fold (utf8 a). fold (utf8 b).
      apply is_scalar_bound in Hx, Hy.
      destruct (N.compare_spec x y) as [->|Hlt|Hgt].
      * rewrite lex_cmp_app_same. by apply IH.
      * by apply utf8_encode_lt.
      * rewrite lex_cmp_antisym. by rewrite utf8_encode_lt.
Qed.

(** Reading the UTF-8 length off the character classes. *)
Lemma str_len_pos s : s ≠ [] → 0 < str_len s.
Proof.
  destruct s as [|c s]; [done|]. intros _. unfold str_len, utf8. simpl.
  rewrite length_app. pose proof (utf8_encode_nonempty c).
  destruct (utf8_encode c); [done|simpl; lia].
Qed.

(** *** Decimal numbers in texts *)

Lemma lit_inj a b : lit a = lit b → a = b.
Proof.
  assert (Hinj : Inj (=) (=) N_of_ascii).
  { intros x y Hxy. by rewrite <- (ascii_N_embedding x), Hxy, ascii_N_embedding. }
  unfold lit. intros H%(inj (fmap N_of_ascii)).
  rewrite <- (string_of_list_ascii_of_string a), <- (string_of_list_ascii_of_string b).
  by rewrite H.
Qed.

#[export] Instance show_N_inj : Inj (=) (=) show_N.
Proof. intros x y H%lit_inj. by apply (inj pretty). Qed.

Lemma show_N_no_dash n : 45%N ∉ show_N n.
Proof.
  assert (Hgo : ∀ x s, 45%N ∉ lit s → 45%N ∉ lit (pretty_N_go x s)).
  { intros x. induction (N.lt_wf_0 x) as [x _ IH]; intros s Hs.
    destruct (decide (0 < x)%N) as [Hx|Hx].
    - rewrite pretty_N_go_step by done. apply IH; [by apply N.div_lt|].
      change (lit (String ?c s)) with (N_of_ascii c :: lit s).
      rewrite elem_of_cons. intros [Hc|]; [|done]. revert Hc. unfold pretty_N_char.
      by repeat case_match.
    - by assert (x = 0%N) as -> by lia. }
  unfold show_N, pretty, pretty_N. case_decide; [|apply Hgo]; simpl;
    by intros ?%list_elem_of_In; naive_solver.
Qed.

(** A text splits at its last separator in one way. *)
Lemma last_sep_inj {A} (c : A) (a a' b b' : list A) :
  c ∉ b → c ∉ b' → a ++ c :: b = a' ++ c :: b' → a = a' ∧ b = b'.
Proof.
  intros Hb Hb'. revert a'. induction a as [|x a IH]; intros [|x' a']; simpl.
  - by intros [= ->].
  - intros [= -> ->]. destruct Hb. apply elem_of_app. right. left.
  - intros [= -> <-]. destruct Hb'. apply elem_of_app. right. left.
  - intros [= -> H]. by destruct (IH a' H) as [-> ->].
Qed.
