(* ===== verification/BTree.v ===== *)
(** [BTreeSet] and [BTreeMap] of the Rust standard library.

    Both are modelled by the sequence their iterators produce: a list strictly
    increasing in the key order.  Iteration order is what makes the program's
    diagnostics deterministic, so the model keeps it.  Membership and lookup
    laws hold of every list; [sorted_set] and [sorted_map] are the
    representation invariants, which every operation preserves. *)

From stdpp Require Import sorting.
From S2P Require Import Prelude RustStr.

(** ** Sets *)

Module BTreeSet.
Section sets.
Context {K : Type} `{EqDecision K, RustOrd K}.
Implicit Types (k x : K) (s : list K).

(** [set.insert(k)] on the sequence; [true] when the key is new. *)
Fixpoint insert k s : list K :=
  match s with
  | [] => [k]
  | x :: s' =>
      match ord_cmp k x with
      | Eq => s
      | Lt => k :: s
      | Gt => x :: insert k s'
      end
  end.

Definition contains k s : bool := bool_decide (k ∈ s).
Definition insert_new k s : bool * list K := (negb (contains k s), insert k s).

(** [pop_first], and collecting an iterator into a set. *)
Definition pop_first s : option (K * list K) :=
  match s with [] => None | x :: s => Some (x, s) end.
Definition collect (l : list K) : list K := foldl (λ s k, insert k s) [] l.

(** [a.intersection(&b)], in key order. *)
Definition intersection s1 s2 : list K := filter (λ k, k ∈ s2) s1.

(** [for k in l { if !seen.insert(k) { return Err(err(k)); } }]: the check for
    repeated elements that the constructors share. *)
Fixpoint reject_repeats {E} (err : K → E) seen l : result unit E :=
  match l with
  | [] => Ok tt
  | k :: l =>
      let (is_new, seen) := insert_new k seen in
      if is_new then reject_repeats err seen l else Err (err k)
  end.

Definition sorted_set s : Prop := StronglySorted ord_lt s.

Lemma elem_of_insert k x s : x ∈ insert k s ↔ x = k ∨ x ∈ s.
Proof.
  induction s as [|y s IH]; simpl; [set_solver|].
  destruct (ord_cmp k y) eqn:E.
  - apply ord_cmp_eq in E as ->. set_solver.
  - set_solver.
  - rewrite !elem_of_cons, IH. naive_solver.
Qed.

Lemma sorted_insert k s : sorted_set s → sorted_set (insert k s).
Proof.
  unfold sorted_set. induction 1 as [|y s Hs IH Hy]; simpl.
  - repeat constructor.
  - destruct (ord_cmp k y) eqn:E.
    + by constructor.
    + constructor; [by constructor|]. constructor; [done|].
      eapply Forall_impl; [done|]. intros z Hz. by transitivity y.
    + constructor; [done|]. apply Forall_forall. intros z [->|Hz]%elem_of_insert.
      * by apply ord_cmp_gt.
      * rewrite Forall_forall in Hy. auto.
Qed.

Lemma sorted_NoDup s : sorted_set s → NoDup s.
Proof.
  unfold sorted_set. induction 1 as [|y s Hs IH Hy]; constructor; [|done].
  intros Hin. rewrite Forall_forall in Hy. by apply (irreflexivity ord_lt y), Hy.
Qed.

Lemma contains_true k s : contains k s = true ↔ k ∈ s.
Proof. apply bool_decide_eq_true. Qed.

Lemma contains_false k s : contains k s = false ↔ k ∉ s.
Proof. apply bool_decide_eq_false. Qed.

Lemma length_insert_new k s : k ∉ s → length (insert k s) = S (length s).
Proof.
  induction s as [|y s IH]; simpl; [done|]. intros Hk.
  destruct (ord_cmp k y) eqn:E; simpl; [|done|].
  - apply ord_cmp_eq in E as ->. set_solver.
  - rewrite IH; set_solver.
Qed.

Lemma insert_present k s : sorted_set s → k ∈ s → insert k s = s.
Proof.
  unfold sorted_set. induction 1 as [|y s Hs IH Hy]; [set_solver|]. simpl.
  intros [->|Hk]%elem_of_cons; [by rewrite ord_cmp_refl|].
  rewrite Forall_forall in Hy. pose proof (Hy k Hk) as Hlt.
  apply ord_cmp_gt in Hlt. rewrite Hlt. f_equal. auto.
Qed.

Lemma elem_of_foldl_insert x l s : x ∈ foldl (λ s k, insert k s) s l ↔ x ∈ l ∨ x ∈ s.
Proof.
  revert s. induction l as [|y l IH]; intros s; simpl; [set_solver|].
  rewrite IH, elem_of_insert. set_solver.
Qed.

Lemma elem_of_collect x l : x ∈ collect l ↔ x ∈ l.
Proof. unfold collect. rewrite elem_of_foldl_insert. set_solver. Qed.

Lemma sorted_foldl_insert l s : sorted_set s → sorted_set (foldl (λ s k, insert k s) s l).
Proof. revert s. induction l; simpl; auto using sorted_insert. Qed.

Lemma sorted_collect l : sorted_set (collect l).
Proof. apply sorted_foldl_insert. constructor. Qed.

Lemma pop_first_min s x s' :
  sorted_set s → pop_first s = Some (x, s') →
  x ∈ s ∧ sorted_set s' ∧ x ∉ s' ∧ ∀ y, y ∈ s ↔ y = x ∨ y ∈ s'.
Proof.
  unfold sorted_set. intros Hs Hp. destruct Hs as [|z s Hs Hz]; simplify_eq/=.
  split_and!; [left|done| |].
  - intros Hin. rewrite Forall_forall in Hz. by apply (irreflexivity ord_lt x), Hz.
  - set_solver.
Qed.

Lemma sorted_tail x s : sorted_set (x :: s) → sorted_set s.
Proof. by inversion 1. Qed.

Lemma elem_of_intersection s1 s2 k : k ∈ intersection s1 s2 ↔ k ∈ s1 ∧ k ∈ s2.
Proof. unfold intersection. rewrite list_elem_of_filter. naive_solver. Qed.

(** The check reports the first element that repeats an earlier one. *)
Lemma reject_repeats_spec {E} (err : K → E) seen l :
  reject_repeats err seen l =
  match first_repeat seen l with Some k => Err (err k) | None => Ok tt end.
Proof.
  revert seen. induction l as [|k l IH]; intros seen; simpl; [done|].
  unfold contains. case_bool_decide; case_decide; simpl; try done.
  rewrite IH. erewrite first_repeat_proper; [done|].
  intros x. rewrite elem_of_insert. set_solver.
Qed.

Lemma sorted_filter (P : K → Prop) `{∀ k, Decision (P k)} s :
  sorted_set s → sorted_set (filter P s).
Proof.
  unfold sorted_set. induction 1 as [|y s Hs IH Hy]; [constructor|].
  rewrite filter_cons. case_decide; [|done]. constructor; [done|].
  rewrite Forall_forall in *. intros z [? ?]%list_elem_of_filter. auto.
Qed.

End sets.
End BTreeSet.

(** ** Maps *)

Notation btree_map K V := (list (K * V)).

Module BTreeMap.
Section maps.
Context {K V : Type} `{EqDecision K, RustOrd K}.
Implicit Types (k : K) (v : V) (m : btree_map K V).

Fixpoint get k m : option V :=
  match m with
  | [] => None
  | (x, v) :: m => if decide (k = x) then Some v else get k m
  end.

Fixpoint insert k v m : btree_map K V :=
  match m with
  | [] => [(k, v)]
  | (x, w) :: m' =>
      match ord_cmp k x with
      | Eq => (k, v) :: m'
      | Lt => (k, v) :: m
      | Gt => (x, w) :: insert k v m'
      end
  end.

Definition remove k m : btree_map K V := filter (λ kv, kv.1 ≠ k) m.
Definition keys m : list K := m.*1.
Definition contains_key k m : bool := bool_decide (is_Some (get k m)).

(** Collecting an iterator of pairs: a later pair replaces an earlier one. *)
Definition collect (l : list (K * V)) : btree_map K V :=
  foldl (λ m kv, insert kv.1 kv.2 m) [] l.

(** [map.entry(k).or_default()] followed by an update of the entry. *)
Definition entry_update k (d : V) (f : V → V) m : btree_map K V :=
  insert k (f (default d (get k m))) m.

Definition sorted_map m : Prop := BTreeSet.sorted_set (keys m).

Lemma get_insert k k' v m : get k' (insert k v m) = if decide (k' = k) then Some v else get k' m.
Proof.
  induction m as [|[x w] m IH]; simpl; [done|].
  destruct (ord_cmp k x) eqn:E; simpl.
  - apply ord_cmp_eq in E as ->. by repeat case_decide.
  - by repeat case_decide.
  - rewrite IH. repeat case_decide; simplify_eq; try done.
    by rewrite ord_cmp_refl in E.
Qed.

Lemma get_insert_eq k v m : get k (insert k v m) = Some v.
Proof. rewrite get_insert. by case_decide. Qed.

Lemma get_insert_ne k k' v m : k' ≠ k → get k' (insert k v m) = get k' m.
Proof. intros. rewrite get_insert. by case_decide. Qed.

Lemma get_Some_keys k m : is_Some (get k m) ↔ k ∈ keys m.
Proof.
  induction m as [|[x w] m IH]; simpl.
  - split; [by intros []|set_solver].
  - case_decide; simplify_eq; [split; [left|eauto]|].
    rewrite IH. set_solver.
Qed.

Lemma get_None_keys k m : get k m = None ↔ k ∉ keys m.
Proof. rewrite <- get_Some_keys, <- eq_None_not_Some. done. Qed.

Lemma get_elem k v m : get k m = Some v → (k, v) ∈ m.
Proof.
  induction m as [|[x w] m IH]; simpl; [done|].
  case_decide; simplify_eq; [intros [= ->]; left|right; auto].
Qed.

Lemma elem_get k v m : NoDup (keys m) → (k, v) ∈ m → get k m = Some v.
Proof.
  induction m as [|[x w] m IH]; simpl; [set_solver|].
  intros [Hx Hm]%NoDup_cons [?|Hin]%elem_of_cons; simplify_eq.
  - by rewrite decide_True.
  - case_decide; [|auto]. subst. destruct Hx.
    apply list_elem_of_fmap. by exists (x, v).
Qed.

Lemma elem_of_keys_insert k v m x : x ∈ keys (insert k v m) ↔ x = k ∨ x ∈ keys m.
Proof.
  rewrite <- !get_Some_keys, get_insert. case_decide; [|naive_solver].
  split; [by left|eauto].
Qed.

Lemma keys_insert k v m : keys (insert k v m) = BTreeSet.insert k (keys m).
Proof.
  induction m as [|[x w] m IH]; simpl; [done|].
  destruct (ord_cmp k x) eqn:E; simpl; [|done|by f_equal].
  by apply ord_cmp_eq in E as ->.
Qed.

Lemma sorted_map_insert k v m : sorted_map m → sorted_map (insert k v m).
Proof. unfold sorted_map. rewrite keys_insert. apply BTreeSet.sorted_insert. Qed.

Lemma sorted_map_NoDup m : sorted_map m → NoDup (keys m).
Proof. apply BTreeSet.sorted_NoDup. Qed.

Lemma contains_key_true k m : contains_key k m = true ↔ is_Some (get k m).
Proof. apply bool_decide_eq_true. Qed.

Lemma get_remove k k' m : get k' (remove k m) = if decide (k' = k) then None else get k' m.
Proof.
  unfold remove. induction m as [|[x w] m IH]; simpl; [by case_decide|].
  rewrite filter_cons. simpl. repeat case_decide; simplify_eq/=; rewrite ?IH;
    repeat case_decide; naive_solver.
Qed.

Lemma get_entry_update k k' d f m :
  get k' (entry_update k d f m) =
  if decide (k' = k) then Some (f (default d (get k m))) else get k' m.
Proof. unfold entry_update. by rewrite get_insert. Qed.

Lemma sorted_map_collect_aux l m :
  sorted_map m → sorted_map (foldl (λ m kv, insert kv.1 kv.2 m) m l).
Proof. revert m. induction l; simpl; auto using sorted_map_insert. Qed.

Lemma sorted_map_collect l : sorted_map (collect l).
Proof. apply sorted_map_collect_aux. constructor. Qed.

Lemma keys_collect_aux k l m :
  k ∈ keys (foldl (λ m kv, insert kv.1 kv.2 m) m l) ↔ k ∈ l.*1 ∨ k ∈ keys m.
Proof.
  revert m. induction l as [|[x w] l IH]; intros m; simpl; [set_solver|].
  rewrite IH, elem_of_keys_insert. set_solver.
Qed.

Lemma elem_of_keys_collect k l : k ∈ keys (collect l) ↔ k ∈ l.*1.
Proof. unfold collect. rewrite keys_collect_aux. set_solver. Qed.

Lemma get_collect_aux k v l m :
  NoDup l.*1 →
  get k (foldl (λ m kv, insert kv.1 kv.2 m) m l) = Some v ↔
  (k, v) ∈ l ∨ k ∉ l.*1 ∧ get k m = Some v.
Proof.
  revert m. induction l as [|[x w] l IH]; intros m; simpl.
  - set_solver.
  - intros [Hx Hl]%NoDup_cons. rewrite IH by done. rewrite get_insert.
    destruct (decide (k = x)) as [->|Hne].
    + split.
      * intros [Hin|[_ [= ->]]]; [|left; left].
        destruct Hx. apply list_elem_of_fmap. by exists (x, v).
      * intros [[?|Hin]%elem_of_cons|[Hk _]]; simplify_eq; [by right|by left|set_solver].
    + set_solver.
Qed.

(** With distinct keys, collecting keeps every pair. *)
Lemma get_collect k v l : NoDup l.*1 → get k (collect l) = Some v ↔ (k, v) ∈ l.
Proof. intros. unfold collect. rewrite get_collect_aux by done. simpl. naive_solver. Qed.

(** A property of every entry, through lookups. *)
Lemma Forall_get (P : K * V → Prop) m :
  sorted_map m → Forall P m ↔ ∀ k v, get k m = Some v → P (k, v).
Proof.
  intros Hs. rewrite Forall_forall. split.
  - intros HP k v Hg%get_elem. auto.
  - intros HP [k v] Hin. apply HP, elem_get; [|done]. by apply sorted_map_NoDup.
Qed.
End maps.

(** Indexing values by a key of theirs keeps the last value of each key. *)
Lemma get_collect_last {K V} `{EqDecision K, RustOrd K} (f : V → K) (l : list V) k :
  get k (collect ((λ v, (f v, v)) <$> l)) = last (filter (λ v, f v = k) l).
Proof.
  induction l as [|v l IH] using rev_ind; [done|].
  unfold collect in *. rewrite fmap_app, foldl_app, filter_app. simpl.
  rewrite get_insert. case_decide as Hk.
  - rewrite filter_cons_True, filter_nil, last_snoc by done. done.
  - rewrite filter_cons_False, filter_nil, app_nil_r by done. done.
Qed.
End BTreeMap.

#[export] Hint Resolve BTreeSet.sorted_insert BTreeSet.sorted_collect
  BTreeMap.sorted_map_insert BTreeMap.sorted_map_collect : pureflow.
