(* ===== verification/Types.v ===== *)
(** [pureflow-types]: validated identifiers
    (src/crates/pureflow-types/src/lib.rs).

    The macro [id_type!] generates five newtypes over [String], one per
    [IdentifierKind]; here they are one family indexed by the kind.  A value
    of the Rust types always comes from [new], whose acceptance condition is
    [valid_identifier]. *)

From Stdlib Require Import Lia.
From S2P Require Import Prelude RustStr BTree.

Definition MAX_IDENTIFIER_LEN : nat := 256.

Module IdentifierKind.
Inductive IdentifierKind : Set := Workflow | Execution | Message | Node | Port.

Definition label (k : IdentifierKind) : rstr :=
  match k with
  | Workflow => lit "workflow id"
  | Execution => lit "execution id"
  | Message => lit "message id"
  | Node => lit "node id"
  | Port => lit "port id"
  end.
End IdentifierKind.
Notation IdentifierKind := IdentifierKind.IdentifierKind.

#[export] Instance IdentifierKind_eq_dec : EqDecision IdentifierKind.
Proof. solve_decision. Defined.

Module IdentifierError.
Inductive IdentifierError : Set :=
| Empty (kind : IdentifierKind)
| Whitespace (kind : IdentifierKind)
| Control (kind : IdentifierKind)
| TooLong (kind : IdentifierKind) (limit : nat).

(** [impl Display for IdentifierError]. *)
Definition fmt (e : IdentifierError) : rstr :=
  match e with
  | Empty kind => IdentifierKind.label kind ++ lit " must not be empty"
  | Whitespace kind => IdentifierKind.label kind ++ lit " must not contain whitespace"
  | Control kind => IdentifierKind.label kind ++ lit " must not contain control characters"
  | TooLong kind limit =>
      IdentifierKind.label kind ++ lit " must not exceed " ++ show_nat limit ++ lit " bytes"
  end.
End IdentifierError.
Notation IdentifierError := IdentifierError.IdentifierError.

#[export] Instance IdentifierError_eq_dec : EqDecision IdentifierError.
Proof. solve_decision. Defined.

Definition validate_identifier (kind : IdentifierKind) (value : rstr) :
    result unit IdentifierError :=
  if bool_decide (MAX_IDENTIFIER_LEN < str_len value) then
    Err (IdentifierError.TooLong kind MAX_IDENTIFIER_LEN)
  else if vec_is_empty (trim value) then Err (IdentifierError.Empty kind)
  else if existsb is_whitespace value then Err (IdentifierError.Whitespace kind)
  else if existsb is_control value then Err (IdentifierError.Control kind)
  else Ok tt.

(** The newtypes generated by [id_type!]. *)
Record identifier (kind : IdentifierKind) : Set := mk_identifier { as_str : rstr }.
Arguments mk_identifier {kind} _.
Arguments as_str {kind} _.

Definition WorkflowId : Set := identifier IdentifierKind.Workflow.
Definition ExecutionId : Set := identifier IdentifierKind.Execution.
Definition MessageId : Set := identifier IdentifierKind.Message.
Definition NodeId : Set := identifier IdentifierKind.Node.
Definition PortId : Set := identifier IdentifierKind.Port.

(** [new], which [FromStr] and [TryFrom<String>] also call. *)
Definition identifier_new {kind : IdentifierKind} (value : rstr) :
    result (identifier kind) IdentifierError :=
  let? _ := validate_identifier kind value in Ok (mk_identifier value).

(** The identifiers with literal text that the source and the examples use. *)
Definition ident {kind : IdentifierKind} (s : string) : identifier kind := mk_identifier (lit s).

#[export] Instance identifier_eq_dec kind : EqDecision (identifier kind).
Proof. solve_decision. Defined.

(** [derive(PartialOrd, Ord)]: the order of the wrapped string. *)
#[export] Program Instance identifier_RustOrd kind : RustOrd (identifier kind) :=
  {| ord_cmp a b := ord_cmp (as_str a) (as_str b) |}.
Next Obligation.
  intros kind [a] [b]. cbn [as_str]. rewrite ord_cmp_eq. naive_solver.
Qed.
Next Obligation. intros kind [a] [b]. apply ord_cmp_antisym. Qed.
Next Obligation. intros kind [a] [b] [c]. apply ord_cmp_trans. Qed.

#[export] Instance NodeId_eq_dec : EqDecision NodeId := identifier_eq_dec _.
#[export] Instance PortId_eq_dec : EqDecision PortId := identifier_eq_dec _.
#[export] Instance WorkflowId_eq_dec : EqDecision WorkflowId := identifier_eq_dec _.
#[export] Instance ExecutionId_eq_dec : EqDecision ExecutionId := identifier_eq_dec _.
#[export] Instance MessageId_eq_dec : EqDecision MessageId := identifier_eq_dec _.
#[export] Instance NodeId_RustOrd : RustOrd NodeId := identifier_RustOrd _.
#[export] Instance PortId_RustOrd : RustOrd PortId := identifier_RustOrd _.

(** What [new] promises about an identifier's text. *)
Record valid_identifier (value : rstr) : Prop := {
  valid_nonempty : value ≠ [];
  valid_len : str_len value ≤ MAX_IDENTIFIER_LEN;
  valid_no_whitespace : Forall (λ c, is_whitespace c = false) value;
  valid_no_control : Forall (λ c, is_control c = false) value;
}.

(** ** Lemmas *)

Lemma existsb_false_Forall {A} (p : A → bool) l :
  existsb p l = false ↔ Forall (λ x, p x = false) l.
Proof.
  induction l as [|x l IH]; simpl; [done|].
  rewrite orb_false_iff, IH, Forall_cons. done.
Qed.

Lemma existsb_true_elem {A} (p : A → bool) l :
  existsb p l = true ↔ ∃ x, x ∈ l ∧ p x = true.
Proof.
  rewrite existsb_exists. by setoid_rewrite list_elem_of_In.
Qed.

Lemma vec_is_empty_true {A} (l : list A) : vec_is_empty l = true ↔ l = [].
Proof. by destruct l. Qed.

Lemma vec_is_empty_trim value :
  vec_is_empty (trim value) = true ↔ Forall (λ c, is_whitespace c = true) value.
Proof. by rewrite vec_is_empty_true, trim_empty. Qed.

Lemma no_whitespace_not_blank value :
  value ≠ [] → Forall (λ c, is_whitespace c = false) value →
  ¬ Forall (λ c, is_whitespace c = true) value.
Proof.
  destruct value as [|c value]; [done|]. intros _ Hf%Forall_inv Ht%Forall_inv.
  simpl in *. congruence.
Qed.

(** The branches of [validate_identifier], as its own case analysis. *)
Lemma validate_identifier_ok kind value :
  validate_identifier kind value = Ok tt ↔ valid_identifier value.
Proof.
  unfold validate_identifier. split.
  - case_bool_decide as Hlen; [done|].
    destruct (vec_is_empty (trim value)) eqn:Ht; [done|].
    destruct (existsb is_whitespace value) eqn:Hw; [done|].
    destruct (existsb is_control value) eqn:Hc; [done|]. intros _.
    rewrite existsb_false_Forall in Hw, Hc. split; [|lia|done|done].
    intros ->. done.
  - intros [Hne Hlen Hw Hc]. rewrite bool_decide_eq_false_2 by lia.
    destruct (vec_is_empty (trim value)) eqn:Ht.
    { apply vec_is_empty_trim in Ht. by destruct (no_whitespace_not_blank value). }
    apply existsb_false_Forall in Hw as ->. apply existsb_false_Forall in Hc as ->. done.
Qed.

Lemma identifier_new_ok kind value (id : identifier kind) :
  identifier_new value = Ok id ↔ as_str id = value ∧ valid_identifier value.
Proof.
  unfold identifier_new. rewrite result_bind_ok. destruct id as [t]. simpl. split.
  - intros ([] & Hv%validate_identifier_ok & [= ->]). done.
  - intros [-> Hv]. exists tt. by rewrite validate_identifier_ok.
Qed.

(** The error [new] reports: too long before blank, blank before interior
    white space, white space before control characters. *)
Lemma identifier_new_error (kind : IdentifierKind) (value : rstr) (e : IdentifierError) :
  identifier_new (kind := kind) value = Err e ↔
  (256 < str_len value ∧ e = IdentifierError.TooLong kind 256)
  ∨ (str_len value ≤ 256 ∧ Forall (λ c, is_whitespace c = true) value
     ∧ e = IdentifierError.Empty kind)
  ∨ (str_len value ≤ 256
     ∧ (∃ c, c ∈ value ∧ is_whitespace c = true) ∧ (∃ c, c ∈ value ∧ is_whitespace c = false)
     ∧ e = IdentifierError.Whitespace kind)
  ∨ (str_len value ≤ 256 ∧ value ≠ [] ∧ Forall (λ c, is_whitespace c = false) value
     ∧ (∃ c, c ∈ value ∧ is_control c = true) ∧ e = IdentifierError.Control kind).
Proof.
  unfold identifier_new. rewrite result_bind_err. unfold validate_identifier, MAX_IDENTIFIER_LEN.
  case_bool_decide as Hlen; [naive_solver lia|].
  destruct (vec_is_empty (trim value)) eqn:Ht.
  { apply vec_is_empty_trim in Ht. split; [naive_solver lia|].
    rewrite Forall_forall in Ht. intros [?|[?|[(_ & _ & (c & Hc & Hw) & _)|(_ & ? & Hw & _)]]].
    - lia.
    - naive_solver.
    - rewrite Ht in Hw; done.
    - destruct (no_whitespace_not_blank value); [done|done|]. by apply Forall_forall. }
  assert (¬ Forall (λ c, is_whitespace c = true) value) as Hnb.
  { rewrite <- vec_is_empty_trim. congruence. }
  destruct (existsb is_whitespace value) eqn:Hw.
  { apply existsb_true_elem in Hw as (c & Hc & Hw). split.
    - intros [[= <-]|(? & ? & _)]; [|done]. right; right; left.
      split; [lia|]. split; [eauto|]. split; [|done].
      apply not_Forall_Exists, Exists_exists in Hnb as (d & Hd & Hf); [|solve_decision].
      exists d. split; [done|]. by apply not_true_is_false.
    - intros [?|[(_ & ? & _)|[(_ & _ & _ & ->)|(_ & _ & Hf & _)]]]; [lia|done|by left|].
      rewrite Forall_forall in Hf. by rewrite Hf in Hw. }
  assert (Hwf := Hw). rewrite existsb_false_Forall in Hwf.
  assert (value ≠ []) as Hne by (intros ->; by destruct Hnb).
  destruct (existsb is_control value) eqn:Hc.
  { apply existsb_true_elem in Hc as (c & Hc & Hcc). split.
    - intros [[= <-]|(? & ? & _)]; [|done]. right; right; right.
      split_and!; eauto. lia.
    - intros [?|[(_ & ? & _)|[(_ & (d & Hd & Hdw) & _)|(_ & _ & _ & _ & ->)]]];
        [lia|done| |by left].
      rewrite Forall_forall in Hwf. by rewrite Hwf in Hdw. }
  split; [intros [?|([] & _ & ?)]; done|].
  intros [?|[(_ & ? & _)|[(_ & (d & Hd & Hdw) & _)|(_ & _ & _ & (c & Hcv & Hcc) & _)]]];
    [lia|done| |].
  - rewrite Forall_forall in Hwf. by rewrite Hwf in Hdw.
  - apply existsb_false_Forall in Hc. rewrite Forall_forall in Hc. by rewrite Hc in Hcc.
Qed.

(** ** Properties *)

(** C36. What [new] accepts: the string is non-empty, at most 256 UTF-8 bytes long and
    free of white space and control characters, and the identifier carries that very
    string; what [new] rejects lacks one of these. *)
Theorem identifier_new_accepts_iff_valid (kind : IdentifierKind) (value : rstr) :
  match identifier_new (kind := kind) value with
  | Ok id =>
      as_str id = value ∧ value ≠ [] ∧ str_len value ≤ 256
      ∧ ∀ c, c ∈ value → is_whitespace c = false ∧ is_control c = false
  | Err _ =>
      value = [] ∨ 256 < str_len value
      ∨ ∃ c, c ∈ value ∧ (is_whitespace c = true ∨ is_control c = true)
  end.
Proof.
  destruct (identifier_new value) as [id|e] eqn:Hnew.
  - apply identifier_new_ok in Hnew as (Hid & [Hne Hlen Hw Hc]).
    rewrite Forall_forall in Hw, Hc. by split_and!; auto.
  - apply identifier_new_error in Hnew
      as [[? _]|[(_ & Hb & _)|[(_ & (c & ? & ?) & _)|(_ & _ & _ & (c & ? & ?) & _)]]]; [by right; left| | |].
    + destruct value as [|c value]; [by left|]. right; right. exists c.
      apply Forall_inv in Hb. split; [by left|by left].
    + right; right. eauto.
    + right; right. eauto.
Qed.

(** Parsing the text of an identifier gives the identifier back: [FromStr]
    after [Display], and [TryFrom<String>] after [Into<String>]. *)
Theorem identifier_text_roundtrip (kind : IdentifierKind) (value : rstr) (id : identifier kind)
  (Hnew : identifier_new value = Ok id) :
  identifier_new (as_str id) = Ok id.
Proof. apply identifier_new_ok in Hnew as [<- Hv]. by apply identifier_new_ok. Qed.

Lemma identifier_text_roundtrip_witness :
  identifier_new (kind := IdentifierKind.Port) (lit "out-1") = Ok (ident "out-1")
  ∧ identifier_new (kind := IdentifierKind.Port)
      (as_str (kind := IdentifierKind.Port) (ident "out-1")) = Ok (ident "out-1").
Proof.
  split; [reflexivity|]. apply (identifier_text_roundtrip _ (lit "out-1")). reflexivity.
Defined.
