(* ===== verification/Workflow.v ===== *)
(** [pureflow-workflow]: the static workflow graph and its validation
    (src/crates/pureflow-workflow/src/lib.rs).

    Each struct of the source is a [Record] in a [Module] of its name, with
    the source's field names; the construction functions, the duplicate
    checks, the topology tables, Kahn's ordering loop and the cycle search
    follow the source statement by statement.  [kahn_loop] and [dfs] take
    fuel; Topology.v and Cycle.v prove that the fuel given here is enough. *)

From S2P Require Import Prelude RustStr BTree Types.

Module PortDirection.
Inductive PortDirection : Set := Input | Output.
Definition label (d : PortDirection) : rstr :=
  match d with Input => lit "input" | Output => lit "output" end.
End PortDirection.
Notation PortDirection := PortDirection.PortDirection.

Module EdgeEndpointRole.
Inductive EdgeEndpointRole : Set := Source | Target.
Definition label (r : EdgeEndpointRole) : rstr :=
  match r with Source => lit "source" | Target => lit "target" end.
End EdgeEndpointRole.
Notation EdgeEndpointRole := EdgeEndpointRole.EdgeEndpointRole.

#[export] Instance PortDirection_eq_dec : EqDecision PortDirection.
Proof. solve_decision. Defined.
#[export] Instance EdgeEndpointRole_eq_dec : EqDecision EdgeEndpointRole.
Proof. solve_decision. Defined.

Module WorkflowValidationError.
Inductive WorkflowValidationError : Set :=
| DuplicateNode (node_id : NodeId)
| DuplicatePort (node_id : NodeId) (port_id : PortId)
| UnknownNode (edge_index : nat) (endpoint : EdgeEndpointRole) (node_id : NodeId)
| UnknownPort (edge_index : nat) (endpoint : EdgeEndpointRole) (node_id : NodeId)
    (port_id : PortId) (expected : PortDirection)
| CycleDetected (cycle : list NodeId).

(** [impl Display for WorkflowValidationError]. *)
Definition fmt (e : WorkflowValidationError) : rstr :=
  match e with
  | DuplicateNode n => lit "workflow graph contains duplicate node `" ++ as_str n ++ lit "`"
  | DuplicatePort n p =>
      lit "node `" ++ as_str n ++ lit "` contains duplicate port `" ++ as_str p ++ lit "`"
  | UnknownNode i r n =>
      lit "edge " ++ show_nat i ++ lit " " ++ EdgeEndpointRole.label r
      ++ lit " references unknown node `" ++ as_str n ++ lit "`"
  | UnknownPort i r n p d =>
      lit "edge " ++ show_nat i ++ lit " " ++ EdgeEndpointRole.label r
      ++ lit " references unknown " ++ PortDirection.label d ++ lit " port `" ++ as_str p
      ++ lit "` on node `" ++ as_str n ++ lit "`"
  | CycleDetected cycle =>
      lit "workflow graph contains a cycle involving"
      ++ (cycle ≫= λ n, lit " `" ++ as_str n ++ lit "`")
  end.
End WorkflowValidationError.
Notation WorkflowValidationError := WorkflowValidationError.WorkflowValidationError.

#[export] Instance WorkflowValidationError_eq_dec : EqDecision WorkflowValidationError.
Proof. solve_decision. Defined.

(** ** Edges *)

Module EdgeEndpoint.
Record EdgeEndpoint : Set := new { node_id : NodeId; port_id : PortId }.
End EdgeEndpoint.
Notation EdgeEndpoint := EdgeEndpoint.EdgeEndpoint.

(** [NonZeroUsize]. *)
Notation NonZeroUsize := positive.
Definition NonZeroUsize_new (n : N) : option NonZeroUsize :=
  match n with N0 => None | Npos p => Some p end.

Module EdgeCapacity.
Inductive EdgeCapacity : Set := Default | Explicit (capacity : NonZeroUsize).
Definition resolve (c : EdgeCapacity) (default : NonZeroUsize) : NonZeroUsize :=
  match c with Default => default | Explicit capacity => capacity end.
End EdgeCapacity.
Notation EdgeCapacity := EdgeCapacity.EdgeCapacity.

Module EdgeDefinition.
Record EdgeDefinition : Set :=
  mk { source : EdgeEndpoint; target : EdgeEndpoint; capacity : EdgeCapacity }.
Definition new (source target : EdgeEndpoint) : EdgeDefinition :=
  mk source target EdgeCapacity.Default.
Definition with_capacity (source target : EdgeEndpoint) (capacity : NonZeroUsize) :
    EdgeDefinition :=
  mk source target (EdgeCapacity.Explicit capacity).
End EdgeDefinition.
Notation EdgeDefinition := EdgeDefinition.EdgeDefinition.

#[export] Instance EdgeEndpoint_eq_dec : EqDecision EdgeEndpoint.
Proof. solve_decision. Defined.
#[export] Instance EdgeCapacity_eq_dec : EqDecision EdgeCapacity.
Proof. solve_decision. Defined.
#[export] Instance EdgeDefinition_eq_dec : EqDecision EdgeDefinition.
Proof. solve_decision. Defined.

(** ** Nodes *)

Definition reject_duplicate_ports (node_id : NodeId) (input_ports output_ports : list PortId) :
    result unit WorkflowValidationError :=
  BTreeSet.reject_repeats (WorkflowValidationError.DuplicatePort node_id) []
    (input_ports ++ output_ports).

Module NodeDefinition.
Record NodeDefinition : Set :=
  mk { id : NodeId; input_ports : list PortId; output_ports : list PortId }.

Definition new (id : NodeId) (input_ports output_ports : list PortId) :
    result NodeDefinition WorkflowValidationError :=
  let? _ := reject_duplicate_ports id input_ports output_ports in
  Ok (mk id input_ports output_ports).
End NodeDefinition.
Notation NodeDefinition := NodeDefinition.NodeDefinition.

#[export] Instance NodeDefinition_eq_dec : EqDecision NodeDefinition.
Proof. solve_decision. Defined.

Definition reject_duplicate_nodes (nodes : list NodeDefinition) :
    result unit WorkflowValidationError :=
  BTreeSet.reject_repeats WorkflowValidationError.DuplicateNode []
    (NodeDefinition.id <$> nodes).

(** ** Topology tables *)

Module GraphTopology.
Record GraphTopology : Set := mk {
  node_ids : list NodeId;
  inputs_by_node : btree_map NodeId (list PortId);
  outputs_by_node : btree_map NodeId (list PortId);
  outgoing_by_node : btree_map NodeId (list NodeId);
  indegree_by_node : btree_map NodeId nat;
}.

(** The tables of the loop over [nodes]. *)
Definition add_node (t : GraphTopology) (node : NodeDefinition) : GraphTopology :=
  let node_id := NodeDefinition.id node in
  mk (node_ids t ++ [node_id])
     (BTreeMap.insert node_id (BTreeSet.collect (NodeDefinition.input_ports node))
        (inputs_by_node t))
     (BTreeMap.insert node_id (BTreeSet.collect (NodeDefinition.output_ports node))
        (outputs_by_node t))
     (BTreeMap.insert node_id [] (outgoing_by_node t))
     (BTreeMap.insert node_id 0 (indegree_by_node t)).

Definition from_nodes (nodes : list NodeDefinition) : GraphTopology :=
  foldl add_node (mk [] [] [] [] []) nodes.

Definition validate_endpoint (t : GraphTopology) (edge_index : nat)
    (endpoint : EdgeEndpointRole) (edge_endpoint : EdgeEndpoint) (expected : PortDirection) :
    result unit WorkflowValidationError :=
  let ports_by_node :=
    match expected with
    | PortDirection.Input => inputs_by_node t
    | PortDirection.Output => outputs_by_node t
    end in
  let? ports := ok_or (BTreeMap.get (EdgeEndpoint.node_id edge_endpoint) ports_by_node)
    (WorkflowValidationError.UnknownNode edge_index endpoint
       (EdgeEndpoint.node_id edge_endpoint)) in
  if BTreeSet.contains (EdgeEndpoint.port_id edge_endpoint) ports then Ok tt
  else Err (WorkflowValidationError.UnknownPort edge_index endpoint
              (EdgeEndpoint.node_id edge_endpoint) (EdgeEndpoint.port_id edge_endpoint) expected).

(** The body of the loop over [edges]. *)
Definition add_edge (t : GraphTopology) (edge_index : nat) (edge : EdgeDefinition) :
    result GraphTopology WorkflowValidationError :=
  let source := EdgeDefinition.source edge in
  let target := EdgeDefinition.target edge in
  let? _ := validate_endpoint t edge_index EdgeEndpointRole.Source source PortDirection.Output in
  let? _ := validate_endpoint t edge_index EdgeEndpointRole.Target target PortDirection.Input in
  let? outgoing := ok_or (BTreeMap.get (EdgeEndpoint.node_id source) (outgoing_by_node t))
    (WorkflowValidationError.UnknownNode edge_index EdgeEndpointRole.Source
       (EdgeEndpoint.node_id source)) in
  let outgoing_by_node := BTreeMap.insert (EdgeEndpoint.node_id source)
    (BTreeSet.insert (EdgeEndpoint.node_id target) outgoing) (outgoing_by_node t) in
  let? indegree := ok_or (BTreeMap.get (EdgeEndpoint.node_id target) (indegree_by_node t))
    (WorkflowValidationError.UnknownNode edge_index EdgeEndpointRole.Target
       (EdgeEndpoint.node_id target)) in
  let indegree_by_node := BTreeMap.insert (EdgeEndpoint.node_id target) (S indegree)
    (indegree_by_node t) in
  Ok (mk (node_ids t) (inputs_by_node t) (outputs_by_node t) outgoing_by_node indegree_by_node).

Fixpoint add_edges (t : GraphTopology) (edges : list (nat * EdgeDefinition)) :
    result GraphTopology WorkflowValidationError :=
  match edges with
  | [] => Ok t
  | (edge_index, edge) :: edges =>
      let? t := add_edge t edge_index edge in add_edges t edges
  end.

Definition from_graph (nodes : list NodeDefinition) (edges : list EdgeDefinition) :
    result GraphTopology WorkflowValidationError :=
  let? _ := reject_duplicate_nodes nodes in
  add_edges (from_nodes nodes) (enumerate edges).

(** *** Kahn's algorithm *)

(** [*indegree -= 1] on [usize]. *)
Definition usize_decr (n : nat) : exec nat :=
  match n with 0 => Panic | S n => Done n end.

Fixpoint release_children (children : list NodeId)
    (indegree_by_node : btree_map NodeId nat) (ready : list NodeId) :
    exec (btree_map NodeId nat * list NodeId) :=
  match children with
  | [] => Done (indegree_by_node, ready)
  | child :: children =>
      match BTreeMap.get child indegree_by_node with
      | None => release_children children indegree_by_node ready
      | Some indegree =>
          let! indegree := usize_decr indegree in
          let indegree_by_node := BTreeMap.insert child indegree indegree_by_node in
          let ready := if Nat.eqb indegree 0 then BTreeSet.insert child ready else ready in
          release_children children indegree_by_node ready
      end
  end.

Fixpoint kahn_loop (fuel : nat) (outgoing_by_node : btree_map NodeId (list NodeId))
    (indegree_by_node : btree_map NodeId nat) (ready order : list NodeId) :
    exec (list NodeId) :=
  match fuel with
  | 0 => OutOfFuel
  | S fuel =>
      match BTreeSet.pop_first ready with
      | None => Done order
      | Some (node_id, ready) =>
          let order := order ++ [node_id] in
          match BTreeMap.get node_id outgoing_by_node with
          | None => kahn_loop fuel outgoing_by_node indegree_by_node ready order
          | Some children =>
              let! st := release_children children indegree_by_node ready in
              kahn_loop fuel outgoing_by_node st.1 st.2 order
          end
      end
  end.

Definition initial_ready (indegree_by_node : btree_map NodeId nat) : list NodeId :=
  BTreeSet.collect (filter (λ p, p.2 = 0) indegree_by_node).*1.

(** *** The cycle search *)

Inductive VisitState : Set := Visiting | Visited.

(** [stack.iter().position(|entry| entry == child)]. *)
Fixpoint position (child : NodeId) (stack : list NodeId) : option nat :=
  match stack with
  | [] => None
  | entry :: stack => if decide (entry = child) then Some 0 else S <$> position child stack
  end.

Definition cycle_from_stack (stack : list NodeId) (child : NodeId) : option (list NodeId) :=
  (λ start_index, drop start_index stack ++ [child]) <$> position child stack.

Definition stack_pop (stack : list NodeId) : list NodeId := take (pred (length stack)) stack.

(** The cycle found, if any, and the mutated [states] and [stack]. *)
Definition dfs_out : Set := option (list NodeId) * (btree_map NodeId VisitState * list NodeId).

Section dfs.
Variable rec : NodeId → btree_map NodeId VisitState → list NodeId → exec dfs_out.
Variables (remaining : list NodeId) (node_id : NodeId).

(** The loop over [children] and the two statements after it. *)
Fixpoint visit_children (children : list NodeId) (states : btree_map NodeId VisitState)
    (stack : list NodeId) : exec dfs_out :=
  match children with
  | [] => Done (None, (BTreeMap.insert node_id Visited states, stack_pop stack))
  | child :: children =>
      if BTreeSet.contains child remaining then
        match BTreeMap.get child states with
        | Some Visiting =>
            match cycle_from_stack stack child with
            | Some cycle => Done (Some cycle, (states, stack))
            | None => visit_children children states stack
            end
        | Some Visited => visit_children children states stack
        | None =>
            let! out := rec child states stack in
            match out.1 with
            | Some cycle => Done (Some cycle, out.2)
            | None => visit_children children out.2.1 out.2.2
            end
        end
      else visit_children children states stack
  end.
End dfs.

Fixpoint dfs (fuel : nat) (t : GraphTopology) (remaining : list NodeId) (node_id : NodeId)
    (states : btree_map NodeId VisitState) (stack : list NodeId) : exec dfs_out :=
  match fuel with
  | 0 => OutOfFuel
  | S fuel =>
      let states := BTreeMap.insert node_id Visiting states in
      let stack := stack ++ [node_id] in
      match BTreeMap.get node_id (outgoing_by_node t) with
      | None => Done (None, (BTreeMap.insert node_id Visited states, stack_pop stack))
      | Some children =>
          visit_children (dfs fuel t remaining) remaining node_id children states stack
      end
  end.

(** The loop over [self.node_ids] in [find_cycle]. *)
Fixpoint find_cycle_loop (fuel : nat) (t : GraphTopology) (remaining : list NodeId)
    (node_ids : list NodeId) (states : btree_map NodeId VisitState) (stack : list NodeId) :
    exec (list NodeId) :=
  match node_ids with
  | [] => Done remaining
  | node_id :: node_ids =>
      if negb (BTreeSet.contains node_id remaining) || BTreeMap.contains_key node_id states
      then find_cycle_loop fuel t remaining node_ids states stack
      else
        let! out := dfs fuel t remaining node_id states stack in
        match out.1 with
        | Some cycle => Done cycle
        | None => find_cycle_loop fuel t remaining node_ids out.2.1 out.2.2
        end
  end.

(** A depth-first path never repeats a node, so the number of nodes bounds the
    depth of the recursion. *)
Definition find_cycle (t : GraphTopology) (remaining : list NodeId) : exec (list NodeId) :=
  find_cycle_loop (S (length (node_ids t))) t remaining (node_ids t) [] [].

(** Every node enters [ready] at most once, so the loop runs at most once per
    node and once more to see [ready] empty. *)
Definition topological_order (t : GraphTopology) :
    exec (result (list NodeId) WorkflowValidationError) :=
  let ready := initial_ready (indegree_by_node t) in
  let! order := kahn_loop (S (length (node_ids t))) (outgoing_by_node t)
    (indegree_by_node t) ready [] in
  if Nat.eqb (length order) (length (node_ids t)) then Done (Ok order)
  else
    let remaining := BTreeSet.collect (filter (λ n, n ∉ order) (node_ids t)) in
    let! cycle := find_cycle t remaining in
    Done (Err (WorkflowValidationError.CycleDetected cycle)).
End GraphTopology.
Notation GraphTopology := GraphTopology.GraphTopology.

(** ** Graphs and definitions *)

Module WorkflowGraph.
Record WorkflowGraph : Set :=
  mk { nodes : list NodeDefinition; edges : list EdgeDefinition }.

Definition empty : WorkflowGraph := mk [] [].

Definition topological_order (g : WorkflowGraph) :
    exec (result (list NodeId) WorkflowValidationError) :=
  match GraphTopology.from_graph (nodes g) (edges g) with
  | Err e => Done (Err e)
  | Ok topology => GraphTopology.topological_order topology
  end.

Definition validate (g : WorkflowGraph) (allow_cycles : bool) :
    exec (result unit WorkflowValidationError) :=
  match GraphTopology.from_graph (nodes g) (edges g) with
  | Err e => Done (Err e)
  | Ok topology =>
      if negb allow_cycles then
        let!? _ := GraphTopology.topological_order topology in Done (Ok tt)
      else Done (Ok tt)
  end.

Definition build (nodes : list NodeDefinition) (edges : list EdgeDefinition)
    (allow_cycles : bool) : exec (result WorkflowGraph WorkflowValidationError) :=
  let graph := mk nodes edges in
  let!? _ := validate graph allow_cycles in Done (Ok graph).

Definition new (nodes : list NodeDefinition) (edges : list EdgeDefinition) :
    exec (result WorkflowGraph WorkflowValidationError) :=
  build nodes edges false.

Definition with_cycles_allowed (nodes : list NodeDefinition) (edges : list EdgeDefinition) :
    exec (result WorkflowGraph WorkflowValidationError) :=
  build nodes edges true.
End WorkflowGraph.
Notation WorkflowGraph := WorkflowGraph.WorkflowGraph.

Module WorkflowDefinition.
Record WorkflowDefinition : Set := new { id : WorkflowId; graph : WorkflowGraph }.

Definition from_parts (id : WorkflowId) (nodes : list NodeDefinition)
    (edges : list EdgeDefinition) :
    exec (result WorkflowDefinition WorkflowValidationError) :=
  let!? graph := WorkflowGraph.new nodes edges in Done (Ok (new id graph)).

Definition empty (name : rstr) : result WorkflowDefinition IdentifierError :=
  let? id := identifier_new name in Ok (new id WorkflowGraph.empty).

Definition nodes (w : WorkflowDefinition) : list NodeDefinition := WorkflowGraph.nodes (graph w).
Definition edges (w : WorkflowDefinition) : list EdgeDefinition := WorkflowGraph.edges (graph w).
End WorkflowDefinition.
Notation WorkflowDefinition := WorkflowDefinition.WorkflowDefinition.

(** ** Examples from the crate's tests *)

Section examples.
Let n (s : string) : NodeId := ident s.
Let p (s : string) : PortId := ident s.
Let node (s : string) ins outs := NodeDefinition.mk (n s) (p <$> ins) (p <$> outs).
Let edge a ap b bp := EdgeDefinition.new (EdgeEndpoint.new (n a) (p ap)) (EdgeEndpoint.new (n b) (p bp)).

Definition two_cycle_nodes := [node "a" ["in"] ["out"]; node "b" ["in"] ["out"]].
Definition two_cycle_edges := [edge "a" "out" "b" "in"; edge "b" "out" "a" "in"].
Definition diamond_nodes :=
  [node "sink" ["l"; "r"] []; node "left" ["in"] ["out"]; node "right" ["in"] ["out"];
   node "source" [] ["out"]].
Definition diamond_edges :=
  [edge "source" "out" "left" "in"; edge "source" "out" "right" "in";
   edge "left" "out" "sink" "l"; edge "right" "out" "sink" "r"].

(** Two edges between the same two nodes, through different ports. *)
Definition parallel_nodes := [node "a" [] ["x"; "y"]; node "b" ["x"; "y"] []].
Definition parallel_edges := [edge "a" "x" "b" "x"; edge "a" "y" "b" "y"].

Example two_cycle_reported :
  WorkflowGraph.new two_cycle_nodes two_cycle_edges
  = Done (Err (WorkflowValidationError.CycleDetected [n "a"; n "b"; n "a"])).
Proof. vm_compute. reflexivity. Qed.

Example diamond_ordered :
  WorkflowGraph.topological_order (WorkflowGraph.mk diamond_nodes diamond_edges)
  = Done (Ok [n "source"; n "left"; n "right"; n "sink"]).
Proof. vm_compute. reflexivity. Qed.

Example parallel_edges_reported :
  WorkflowGraph.new parallel_nodes parallel_edges
  = Done (Err (WorkflowValidationError.CycleDetected [n "b"])).
Proof. vm_compute. reflexivity. Qed.
End examples.
