(* ===== verification/Structure.v ===== *)
(** Structural validation of workflow graphs: the duplicate checks and the
    edge checks of [GraphTopology::from_graph] against a table-free
    specification.

    [structural_check] looks nodes up in the declared list directly.
    [from_graph_refines] shows that the table-building loop of the source
    reports exactly the same outcome, first error included, and
    [topo_tables] says what the tables contain on success. *)

From Stdlib Require Import Lia.
From S2P Require Import Prelude RustStr BTree Types Workflow.

Import GraphTopology.

(** ** Specification *)

Definition node_names (nodes : list NodeDefinition) : list NodeId := NodeDefinition.id <$> nodes.

Definition node_by_id (nodes : list NodeDefinition) (n : NodeId) : option NodeDefinition :=
  iter_find (λ node, bool_decide (NodeDefinition.id node = n)) nodes.

Definition ports_of (d : PortDirection) (node : NodeDefinition) : list PortId :=
  match d with
  | PortDirection.Input => NodeDefinition.input_ports node
  | PortDirection.Output => NodeDefinition.output_ports node
  end.

Definition endpoint_check (nodes : list NodeDefinition) (edge_index : nat)
    (role : EdgeEndpointRole) (ep : EdgeEndpoint) (expected : PortDirection) :
    result unit WorkflowValidationError :=
  match node_by_id nodes (EdgeEndpoint.node_id ep) with
  | None => Err (WorkflowValidationError.UnknownNode edge_index role (EdgeEndpoint.node_id ep))
  | Some node =>
      if decide (EdgeEndpoint.port_id ep ∈ ports_of expected node) then Ok tt
      else Err (WorkflowValidationError.UnknownPort edge_index role
                  (EdgeEndpoint.node_id ep) (EdgeEndpoint.port_id ep) expected)
  end.

Definition edge_check (nodes : list NodeDefinition) (ie : nat * EdgeDefinition) :
    result unit WorkflowValidationError :=
  let? _ := endpoint_check nodes ie.1 EdgeEndpointRole.Source
              (EdgeDefinition.source ie.2) PortDirection.Output in
  endpoint_check nodes ie.1 EdgeEndpointRole.Target
    (EdgeDefinition.target ie.2) PortDirection.Input.

Definition structural_check (nodes : list NodeDefinition) (edges : list EdgeDefinition) :
    result unit WorkflowValidationError :=
  match first_repeat [] (node_names nodes) with
  | Some n => Err (WorkflowValidationError.DuplicateNode n)
  | None => try_for_each (edge_check nodes) (enumerate edges)
  end.

Definition endpoint_ok (nodes : list NodeDefinition) (ep : EdgeEndpoint) (d : PortDirection) :
    Prop :=
  ∃ node, node ∈ nodes ∧ NodeDefinition.id node = EdgeEndpoint.node_id ep
    ∧ EdgeEndpoint.port_id ep ∈ ports_of d node.

Definition edge_ok (nodes : list NodeDefinition) (e : EdgeDefinition) : Prop :=
  endpoint_ok nodes (EdgeDefinition.source e) PortDirection.Output
  ∧ endpoint_ok nodes (EdgeDefinition.target e) PortDirection.Input.

(** Nodes are uniquely named and every edge runs from a declared output port to
    a declared input port. *)
Definition structurally_valid (nodes : list NodeDefinition) (edges : list EdgeDefinition) :
    Prop :=
  NoDup (node_names nodes) ∧ Forall (edge_ok nodes) edges.

(** The node-level arcs of a graph, one per edge. *)
Definition arc_of (e : EdgeDefinition) : NodeId * NodeId :=
  (EdgeEndpoint.node_id (EdgeDefinition.source e),
   EdgeEndpoint.node_id (EdgeDefinition.target e)).
Definition arcs (edges : list EdgeDefinition) : list (NodeId * NodeId) := arc_of <$> edges.

Definition indeg_count (arcs : list (NodeId * NodeId)) (n : NodeId) : nat :=
  length (filter (λ a, a.2 = n) arcs).

(** What the tables hold after the edges [es] have been added. *)
Record topo_tables (nodes : list NodeDefinition) (es : list (NodeId * NodeId))
    (t : GraphTopology) : Prop := {
  tt_ids : node_ids t = node_names nodes;
  tt_inputs : inputs_by_node t = inputs_by_node (from_nodes nodes);
  tt_outputs : outputs_by_node t = outputs_by_node (from_nodes nodes);
  tt_indegree : ∀ n, BTreeMap.get n (indegree_by_node t) =
    if decide (n ∈ node_names nodes) then Some (indeg_count es n) else None;
  tt_outgoing : ∀ n,
    match BTreeMap.get n (outgoing_by_node t) with
    | Some s => n ∈ node_names nodes ∧ BTreeSet.sorted_set s ∧ ∀ m, m ∈ s ↔ (n, m) ∈ es
    | None => n ∉ node_names nodes
    end;
  tt_sorted : BTreeMap.sorted_map (indegree_by_node t);
}.

(** ** The tables built from the nodes *)

Section from_nodes.
Variable nodes : list NodeDefinition.

Lemma from_nodes_tables :
  from_nodes nodes = GraphTopology.mk (node_names nodes)
    (BTreeMap.collect ((λ nd, (NodeDefinition.id nd,
       BTreeSet.collect (NodeDefinition.input_ports nd))) <$> nodes))
    (BTreeMap.collect ((λ nd, (NodeDefinition.id nd,
       BTreeSet.collect (NodeDefinition.output_ports nd))) <$> nodes))
    (BTreeMap.collect ((λ nd, (NodeDefinition.id nd, [])) <$> nodes))
    (BTreeMap.collect ((λ nd, (NodeDefinition.id nd, 0)) <$> nodes)).
Proof.
  unfold from_nodes, BTreeMap.collect. induction nodes as [|nd l IH] using rev_ind; [done|].
  unfold node_names. rewrite !fmap_app, !foldl_app, IH. done.
Qed.

Lemma fst_pair_fmap {B} (f : NodeDefinition → B) :
  ((λ nd, (NodeDefinition.id nd, f nd)) <$> nodes).*1 = node_names nodes.
Proof. unfold node_names. by rewrite <- list_fmap_compose. Qed.

Lemma get_collect_nodes {B} (f : NodeDefinition → B) n (Hnd : NoDup (node_names nodes)) :
  BTreeMap.get n (BTreeMap.collect ((λ nd, (NodeDefinition.id nd, f nd)) <$> nodes)) =
  f <$> node_by_id nodes n.
Proof.
  unfold node_by_id. destruct (iter_find _ nodes) as [nd|] eqn:Hf.
  - apply iter_find_elem in Hf as [Hin Hid%bool_decide_eq_true]. subst n. simpl.
    apply BTreeMap.get_collect; [by rewrite fst_pair_fmap|].
    apply list_elem_of_fmap. eauto.
  - simpl. apply BTreeMap.get_None_keys. rewrite BTreeMap.elem_of_keys_collect, fst_pair_fmap.
    apply iter_find_none in Hf. rewrite Forall_forall in Hf.
    unfold node_names. intros (nd & -> & Hin)%list_elem_of_fmap.
    specialize (Hf nd Hin). by rewrite bool_decide_eq_false in Hf.
Qed.

Lemma node_by_id_is_some n : is_Some (node_by_id nodes n) ↔ n ∈ node_names nodes.
Proof.
  unfold node_names. rewrite list_elem_of_fmap. split.
  - intros [nd [Hin ?%bool_decide_eq_true]%iter_find_elem]. eauto.
  - intros (nd & -> & Hin). eapply iter_find_is_some; [done|]. by rewrite bool_decide_eq_true.
Qed.

Lemma node_by_id_unique nd (Hnd : NoDup (node_names nodes)) :
  nd ∈ nodes → node_by_id nodes (NodeDefinition.id nd) = Some nd.
Proof.
  intros Hin. destruct (node_by_id nodes (NodeDefinition.id nd)) as [nd'|] eqn:Hf.
  - apply iter_find_elem in Hf as [Hin' Hid%bool_decide_eq_true]. f_equal.
    apply list_elem_of_lookup in Hin as [i Hi], Hin' as [j Hj].
    unfold node_names in Hnd. eapply NoDup_lookup with (i := i) (j := j) in Hnd;
      [|by rewrite list_lookup_fmap, Hi|by rewrite list_lookup_fmap, Hj; simpl; rewrite Hid].
    congruence.
  - apply eq_None_not_Some in Hf. destruct Hf. apply node_by_id_is_some.
    unfold node_names. apply list_elem_of_fmap. eauto.
Qed.

Lemma topo_tables_from_nodes (Hnd : NoDup (node_names nodes)) :
  topo_tables nodes [] (from_nodes nodes).
Proof.
  split; try done; rewrite from_nodes_tables; simpl.
  - done.
  - intros n. rewrite get_collect_nodes by done.
    case_decide as Hn; rewrite <- node_by_id_is_some in Hn.
    + destruct Hn as [nd ->]. done.
    + apply eq_None_not_Some in Hn. by rewrite Hn.
  - intros n. rewrite get_collect_nodes by done.
    destruct (node_by_id nodes n) eqn:Hf; simpl.
    + split_and!; [|constructor|set_solver]. apply node_by_id_is_some. eauto.
    + rewrite <- node_by_id_is_some. by apply eq_None_not_Some.
  - apply BTreeMap.sorted_map_collect.
Qed.
End from_nodes.

(** ** Edge checks *)

Section edges.
Variable nodes : list NodeDefinition.
Hypothesis Hnd : NoDup (node_names nodes).

Lemma validate_endpoint_spec es t i role ep d :
  topo_tables nodes es t →
  validate_endpoint t i role ep d = endpoint_check nodes i role ep d.
Proof using Hnd.
  intros Ht. unfold validate_endpoint, endpoint_check.
  rewrite (tt_inputs _ _ _ Ht), (tt_outputs _ _ _ Ht), from_nodes_tables. simpl.
  destruct d; rewrite get_collect_nodes by done;
    destruct (node_by_id nodes _); simpl; try done;
    unfold BTreeSet.contains; case_bool_decide as Hc; case_decide as Hd;
    rewrite BTreeSet.elem_of_collect in Hc; done.
Qed.

Lemma endpoint_check_ok i role ep d :
  endpoint_check nodes i role ep d = Ok tt ↔ endpoint_ok nodes ep d.
Proof using Hnd.
  unfold endpoint_check, endpoint_ok. destruct (node_by_id nodes _) as [nd|] eqn:Hf.
  - pose proof Hf as [Hin Hid%bool_decide_eq_true]%iter_find_elem. case_decide as Hp.
    + split; [eauto|done].
    + split; [done|]. intros (nd' & Hin' & Hid' & Hp').
      rewrite <- Hid', (node_by_id_unique nodes nd') in Hf by done. by simplify_eq.
  - split; [done|]. intros (nd & Hin & Hid & _). apply eq_None_not_Some in Hf.
    destruct Hf. apply node_by_id_is_some, list_elem_of_fmap. eauto.
Qed.

Lemma edge_check_ok i e : edge_check nodes (i, e) = Ok tt ↔ edge_ok nodes e.
Proof using Hnd.
  unfold edge_check, edge_ok. rewrite result_bind_ok. simpl. split.
  - intros ([] & ?%endpoint_check_ok & ?%endpoint_check_ok). done.
  - intros [? ?]. exists tt. by rewrite !endpoint_check_ok.
Qed.

Lemma endpoint_ok_name ep d :
  endpoint_ok nodes ep d → EdgeEndpoint.node_id ep ∈ node_names nodes.
Proof using. intros (nd & ? & <- & _). apply list_elem_of_fmap. eauto. Qed.

Lemma indeg_count_snoc es a b n :
  indeg_count (es ++ [(a, b)]) n = if decide (n = b) then S (indeg_count es n) else indeg_count es n.
Proof using.
  unfold indeg_count. rewrite filter_app, length_app, filter_cons, filter_nil. simpl.
  repeat case_decide; simplify_eq; simpl; lia.
Qed.

(** One round of the edge loop: it fails exactly as the specification does, and
    on success the tables describe one more arc. *)
Lemma add_edge_spec es t i e :
  topo_tables nodes es t →
  match edge_check nodes (i, e) with
  | Err err => add_edge t i e = Err err
  | Ok _ => ∃ t', add_edge t i e = Ok t' ∧ topo_tables nodes (es ++ [arc_of e]) t'
  end.
Proof using Hnd.
  intros Ht. unfold add_edge. destruct (edge_check nodes (i, e)) as [[]|err] eqn:Hc.
  - pose proof Hc as [Hs Hg]%edge_check_ok.
    erewrite !validate_endpoint_spec by done.
    rewrite (proj2 (endpoint_check_ok _ _ _ _) Hs), (proj2 (endpoint_check_ok _ _ _ _) Hg). simpl.
    apply endpoint_ok_name in Hs, Hg.
    pose proof (tt_outgoing _ _ _ Ht (EdgeEndpoint.node_id (EdgeDefinition.source e))) as Ho.
    destruct (BTreeMap.get _ (outgoing_by_node t)) as [out|]; [simpl|done].
    destruct Ho as (_ & Hso & Hout).
    rewrite (tt_indegree _ _ _ Ht), decide_True by done. simpl.
    eexists; split; [done|]. destruct Ht as [Hids Hin Hou Hdeg Hog Hsrt].
    split; simpl; try done; [| |by apply BTreeMap.sorted_map_insert].
    + intros n. rewrite BTreeMap.get_insert, Hdeg. unfold arc_of. rewrite indeg_count_snoc.
      repeat case_decide; simplify_eq; done.
    + intros n. rewrite BTreeMap.get_insert. case_decide as Hn.
      * subst n. split_and!; [done|by apply BTreeSet.sorted_insert|].
        intros m. rewrite BTreeSet.elem_of_insert, Hout. unfold arc_of. set_solver.
      * pose proof (Hog n) as Hgn. destruct (BTreeMap.get n _); [|done].
        destruct Hgn as (? & ? & Hm). split_and!; [done..|].
        intros m. rewrite Hm. unfold arc_of. set_solver.
  - unfold edge_check in Hc. simpl in Hc. erewrite !validate_endpoint_spec by done.
    destruct (endpoint_check nodes i EdgeEndpointRole.Source _ _); simpl in *; [|congruence].
    by rewrite Hc.
Qed.

Lemma add_edges_spec es t l :
  topo_tables nodes es t →
  match try_for_each (edge_check nodes) l with
  | Err err => add_edges t l = Err err
  | Ok _ => ∃ t', add_edges t l = Ok t' ∧ topo_tables nodes (es ++ arcs l.*2) t'
  end.
Proof using Hnd.
  revert es t. induction l as [|[i e] l IH]; intros es t Ht; cbn [try_for_each add_edges].
  - exists t. rewrite app_nil_r. done.
  - pose proof (add_edge_spec es t i e Ht) as Hstep.
    destruct (edge_check nodes (i, e)) as [[]|err]; cbn [result_bind].
    + destruct Hstep as (t1 & -> & Ht1). cbn [result_bind].
      specialize (IH _ _ Ht1). destruct (try_for_each _ l) as [u|err]; [|done].
      destruct IH as (t' & -> & Ht'). exists t'. split; [done|].
      unfold arcs in *. simpl. by rewrite <- app_assoc in Ht'.
    + by rewrite Hstep.
Qed.
End edges.

Lemma enumerate_snd {A} (l : list A) : (enumerate l).*2 = l.
Proof.
  apply list_eq. intros i. rewrite list_lookup_fmap, enumerate_lookup.
  by destruct (l !! i).
Qed.

Lemma from_graph_spec nodes edges :
  match structural_check nodes edges with
  | Err err => from_graph nodes edges = Err err
  | Ok _ => ∃ t, from_graph nodes edges = Ok t ∧ topo_tables nodes (arcs edges) t
  end.
Proof.
  unfold structural_check, from_graph, reject_duplicate_nodes.
  rewrite BTreeSet.reject_repeats_spec. fold (node_names nodes).
  destruct (first_repeat [] (node_names nodes)) eqn:Hr; [done|]. simpl.
  apply first_repeat_none in Hr as [Hnd _].
  pose proof (add_edges_spec nodes Hnd [] _ (enumerate edges)
                (topo_tables_from_nodes nodes Hnd)) as Hadd.
  rewrite enumerate_snd in Hadd. done.
Qed.

Lemma structural_check_ok nodes edges u :
  structural_check nodes edges = Ok u ↔ structurally_valid nodes edges.
Proof.
  unfold structural_check, structurally_valid.
  destruct (first_repeat [] (node_names nodes)) eqn:Hr.
  - split; [done|]. intros [Hnd _].
    rewrite (proj2 (first_repeat_none [] (node_names nodes))) in Hr; [done|].
    split; [done|set_solver].
  - apply first_repeat_none in Hr as [Hnd _]. rewrite try_for_each_ok.
    assert (Forall (λ x, edge_check nodes x = Ok tt) (enumerate edges) ↔
            Forall (edge_ok nodes) edges) as Hiff.
    { rewrite <- (enumerate_snd edges) at 2. rewrite Forall_fmap.
      apply Forall_iff. intros [i e]. exact (edge_check_ok nodes Hnd i e). }
    rewrite Hiff. split; [done|by intros [_ ?]].
Qed.

Lemma from_graph_valid nodes edges t :
  from_graph nodes edges = Ok t → structurally_valid nodes edges ∧ topo_tables nodes (arcs edges) t.
Proof.
  intros Hf. pose proof (from_graph_spec nodes edges) as Hs.
  destruct (structural_check nodes edges) eqn:Hc.
  - apply structural_check_ok in Hc. destruct Hs as (t' & Hf' & Ht').
    rewrite Hf in Hf'. by injection Hf' as ->.
  - congruence.
Qed.

Lemma arcs_declared nodes edges a b :
  structurally_valid nodes edges → (a, b) ∈ arcs edges →
  a ∈ node_names nodes ∧ b ∈ node_names nodes.
Proof.
  intros [_ He] (e & [= -> ->] & Hin)%list_elem_of_fmap.
  rewrite Forall_forall in He. destruct (He e Hin) as [Hs Ht].
  by eauto using endpoint_ok_name.
Qed.
