(* ===== verification/Topology.v ===== *)
(** Kahn's algorithm of [GraphTopology::topological_order].

    The section fixes a node list and an arc list whose tables are described
    by [topo_tables]-like hypotheses, states the loop invariant [kahn_inv],
    and derives that the loop never underflows an indegree, never runs out of
    fuel, and ends with a node sequence that is closed under predecessors.
    The facts about acceptance follow: the sequence covers every node exactly
    when the arcs have no cycle and no repetition. *)

From Stdlib Require Import Lia.
From stdpp Require Import relations fin_sets.
From S2P Require Import Prelude RustStr BTree Types Workflow Structure.

Import GraphTopology.

(** ** Specification of an order *)

Definition arc (es : list (NodeId * NodeId)) (a b : NodeId) : Prop := (a, b) ∈ es.

Definition acyclic (es : list (NodeId * NodeId)) : Prop := ∀ n, ¬ tc (arc es) n n.

(** Every arc into an element of the list comes from an earlier element. *)
Definition preds_before (es : list (NodeId * NodeId)) (order : list NodeId) : Prop :=
  ∀ l1 b l2 a, order = l1 ++ b :: l2 → (a, b) ∈ es → a ∈ l1.

Definition topological (ids : list NodeId) (es : list (NodeId * NodeId))
    (order : list NodeId) : Prop :=
  order ≡ₚ ids ∧ preds_before es order.

(** Each element is the least of the nodes whose predecessors are all placed. *)
Definition least_available (ids : list NodeId) (es : list (NodeId * NodeId))
    (order : list NodeId) : Prop :=
  ∀ l1 b l2 c, order = l1 ++ b :: l2 → c ∈ ids → c ∉ l1 →
    (∀ a, (a, c) ∈ es → a ∈ l1) → b = c ∨ ord_lt b c.

Section kahn_invariant.
Variable ids : list NodeId.
Variable es : list (NodeId * NodeId).

(** The sources of the arcs into a node, one per arc, and those already placed. *)
Definition srcs (n : NodeId) : list NodeId := (filter (λ a, a.2 = n) es).*1.
Definition settled (n : NodeId) (order : list NodeId) : list NodeId :=
  filter (λ a, (a, n) ∈ es) order.

Lemma length_srcs n : length (srcs n) = indeg_count es n.
Proof. unfold srcs, indeg_count. by rewrite length_fmap. Qed.

Lemma elem_of_srcs n a : a ∈ srcs n ↔ (a, n) ∈ es.
Proof.
  unfold srcs. rewrite list_elem_of_fmap. setoid_rewrite list_elem_of_filter. split.
  - intros ([x y] & -> & <- & ?). done.
  - intros ?. by exists (a, n).
Qed.

Lemma settled_submseteq n order : NoDup order → settled n order ⊆+ srcs n.
Proof.
  intros Ho. apply NoDup_submseteq; [by apply NoDup_filter|].
  intros a [? ?]%list_elem_of_filter. by apply elem_of_srcs.
Qed.

Lemma settled_le n order : NoDup order → length (settled n order) ≤ indeg_count es n.
Proof. intros. rewrite <- length_srcs. by apply submseteq_length, settled_submseteq. Qed.

(** When as many sources are settled as there are arcs, all of them are, and no
    arc is repeated. *)
Lemma settled_full n order :
  NoDup order → length (settled n order) = indeg_count es n →
  NoDup (srcs n) ∧ ∀ a, (a, n) ∈ es → a ∈ order.
Proof.
  intros Ho Hlen. rewrite <- length_srcs in Hlen.
  assert (settled n order ≡ₚ srcs n) as Hp.
  { apply submseteq_length_Permutation; [by apply settled_submseteq|lia]. }
  split.
  - rewrite <- Hp. by apply NoDup_filter.
  - intros a Ha%elem_of_srcs. rewrite <- Hp in Ha. by apply list_elem_of_filter in Ha as [_ ?].
Qed.

Lemma settled_all n order :
  NoDup (srcs n) → (∀ a, (a, n) ∈ es → a ∈ order) → indeg_count es n ≤ length (settled n order).
Proof.
  intros Hn Ha. rewrite <- length_srcs. apply submseteq_length, NoDup_submseteq; [done|].
  intros a Hin%elem_of_srcs. apply list_elem_of_filter. auto.
Qed.

Lemma settled_snoc n order a :
  length (settled n (order ++ [a])) =
  length (settled n order) + (if decide ((a, n) ∈ es) then 1 else 0).
Proof.
  unfold settled. rewrite filter_app, length_app, filter_cons, filter_nil.
  by case_decide.
Qed.

(** *** Invariants *)

(** [pending] holds the children of the node just placed whose indegree has not
    been decremented yet. *)
Record kahn_inv (pending : list NodeId) (deg : btree_map NodeId nat)
    (ready order : list NodeId) : Prop := {
  k_sorted : BTreeSet.sorted_set ready;
  k_nodup : NoDup (order ++ ready);
  k_ids : ∀ n, n ∈ order ++ ready → n ∈ ids;
  k_out : ∀ n, n ∉ ids → BTreeMap.get n deg = None;
  k_deg : ∀ n, n ∈ ids → ∃ d, BTreeMap.get n deg = Some d ∧
    d + length (settled n order) = indeg_count es n + (if decide (n ∈ pending) then 1 else 0);
  k_zero : ∀ n, n ∈ ids → BTreeMap.get n deg = Some 0 ↔ n ∈ order ++ ready;
}.

Lemma kahn_inv_nodup_order pending deg ready order :
  kahn_inv pending deg ready order → NoDup order.
Proof. intros Hk. by apply k_nodup, NoDup_app in Hk as [? _]. Qed.

(** The indegree of a pending child is positive: the decrement cannot
    underflow. *)
Lemma kahn_inv_pending c pending deg ready order :
  kahn_inv (c :: pending) deg ready order → c ∈ ids →
  ∃ d, BTreeMap.get c deg = Some (S d) ∧ d + length (settled c order) = indeg_count es c.
Proof.
  intros Hk Hc. destruct (k_deg _ _ _ _ Hk c Hc) as (d & Hd & Hsum).
  rewrite decide_True in Hsum by set_solver.
  pose proof (settled_le c order (kahn_inv_nodup_order _ _ _ _ Hk)).
  destruct d as [|d]; [lia|]. exists d. split; [done|lia].
Qed.

(** One decrement. *)
Lemma kahn_inv_step c pending deg ready order d :
  kahn_inv (c :: pending) deg ready order → c ∈ ids → c ∉ pending →
  BTreeMap.get c deg = Some (S d) →
  kahn_inv pending (BTreeMap.insert c d deg)
    (if Nat.eqb d 0 then BTreeSet.insert c ready else ready) order.
Proof.
  intros Hk Hc Hcp Hd.
  assert (c ∉ order ++ ready) as Hnew.
  { intros Hin. apply (k_zero _ _ _ _ Hk c Hc) in Hin. congruence. }
  set (ready' := if Nat.eqb d 0 then BTreeSet.insert c ready else ready).
  assert (Hmem : ∀ n, n ∈ order ++ ready' ↔ n ∈ order ++ ready ∨ (n = c ∧ d = 0)).
  { intros n. subst ready'. rewrite !elem_of_app.
    destruct (Nat.eqb_spec d 0); rewrite ?BTreeSet.elem_of_insert; naive_solver. }
  destruct Hk as [Hsrt Hnd Hids Hout Hdeg Hzero]. split.
  - subst ready'. case_match; auto using BTreeSet.sorted_insert.
  - rewrite NoDup_app in Hnd |- *. destruct Hnd as (Ho & Hdis & Hr). split_and!; [done| |].
    + intros n Hn. subst ready'. case_match; [|by apply Hdis].
      rewrite BTreeSet.elem_of_insert. intros [->|?]; [set_solver|by eapply Hdis].
    + subst ready'. case_match; [|done].
      by apply BTreeSet.sorted_NoDup, BTreeSet.sorted_insert.
  - intros n. rewrite Hmem. intros [?|[-> _]]; auto.
  - intros n Hn. rewrite BTreeMap.get_insert_ne by congruence. auto.
  - intros n Hn. rewrite BTreeMap.get_insert. destruct (Hdeg n Hn) as (e & He & Hsum).
    destruct (decide (n = c)) as [->|Hnc].
    + simplify_eq. exists d. split; [done|].
      rewrite decide_True in Hsum by set_solver. rewrite decide_False by done. lia.
    + exists e. split; [done|]. rewrite Hsum. f_equal.
      by rewrite (decide_ext (n ∈ c :: pending) (n ∈ pending)) by set_solver.
  - intros n Hn. rewrite Hmem, BTreeMap.get_insert, <- (Hzero n Hn).
    destruct (decide (n = c)) as [->|Hnc]; [rewrite Hd|]; naive_solver.
Qed.

(** The whole inner loop: it never panics and leaves nothing pending. *)
Lemma release_children_spec children deg ready order :
  kahn_inv children deg ready order → NoDup children → (∀ c, c ∈ children → c ∈ ids) →
  ∃ deg' ready', release_children children deg ready = Done (deg', ready')
    ∧ kahn_inv [] deg' ready' order.
Proof.
  revert deg ready. induction children as [|c children IH]; intros deg ready Hk Hnd Hc; simpl.
  - eauto.
  - apply NoDup_cons in Hnd as [Hcc Hnd].
    destruct (kahn_inv_pending _ _ _ _ _ Hk) as (d & Hd & _); [set_solver|].
    rewrite Hd. simpl. apply IH; [|done|set_solver].
    apply kahn_inv_step; [done|set_solver|done|done].
Qed.

End kahn_invariant.

Arguments k_sorted {ids es}.
Arguments k_nodup {ids es}.
Arguments k_ids {ids es}.
Arguments k_deg {ids es}.
Arguments k_zero {ids es}.
Arguments kahn_inv_nodup_order {ids es}.
Arguments release_children_spec {ids es}.

Section kahn_run.
Variable ids : list NodeId.
Variable es : list (NodeId * NodeId).
Variable outgoing : btree_map NodeId (list NodeId).
Hypothesis es_ids : ∀ a b, (a, b) ∈ es → a ∈ ids ∧ b ∈ ids.
Hypothesis outgoing_spec : ∀ n,
  match BTreeMap.get n outgoing with
  | Some s => n ∈ ids ∧ BTreeSet.sorted_set s ∧ ∀ m, m ∈ s ↔ (n, m) ∈ es
  | None => n ∉ ids
  end.

Notation kahn_inv := (kahn_inv ids es).
Notation settled := (settled es).
Notation srcs := (srcs es).

(** Popping a ready node: its predecessors are all placed, and its children
    become pending. *)
Lemma kahn_inv_pop n ready children deg order :
  kahn_inv [] deg (n :: ready) order →
  BTreeMap.get n outgoing = Some children →
  kahn_inv children deg ready (order ++ [n]) ∧ NoDup children
  ∧ (∀ c, c ∈ children → c ∈ ids) ∧ (∀ a, (a, n) ∈ es → a ∈ order).
Proof.
  intros Hk Hout. pose proof (outgoing_spec n) as Hs. rewrite Hout in Hs.
  destruct Hs as (Hn & Hsrt & Hch).
  pose proof (kahn_inv_nodup_order _ _ _ _ Hk) as Hno.
  assert (Hpreds : ∀ a, (a, n) ∈ es → a ∈ order).
  { destruct (k_deg _ _ _ _ Hk n Hn) as (d & Hd & Hsum).
    rewrite decide_False in Hsum by set_solver.
    assert (BTreeMap.get n deg = Some 0) as H0.
    { apply (k_zero _ _ _ _ Hk n Hn), elem_of_app. right. left. }
    apply settled_full; [done|]. simplify_eq. lia. }
  split_and!; [|by apply BTreeSet.sorted_NoDup| |done].
  2:{ intros c Hc%Hch. by apply es_ids in Hc as [_ ?]. }
  assert (n ∉ order) as Hnn.
  { intros Hin. destruct Hk as [_ Hnd _ _ _ _]. apply NoDup_app in Hnd as (_ & Hd & _).
    apply (Hd n Hin). left. }
  destruct Hk as [Hsr Hnd Hids Hou Hdeg Hzero]. split.
  - by apply BTreeSet.sorted_tail in Hsr.
  - by rewrite <- app_assoc.
  - intros m. rewrite <- app_assoc. apply Hids.
  - done.
  - intros m Hm. destruct (Hdeg m Hm) as (d & Hd & Hsum).
    rewrite decide_False in Hsum by set_solver.
    exists d. split; [done|]. rewrite settled_snoc.
    rewrite (decide_ext _ _ _ _ (Hch m)). case_decide; lia.
  - intros m Hm. rewrite <- app_assoc. by apply Hzero.
Qed.

Lemma preds_before_snoc order n :
  preds_before es order → (∀ a, (a, n) ∈ es → a ∈ order) → preds_before es (order ++ [n]).
Proof.
  intros Hp Hn l1 b l2 a Heq Hab. destruct l2 as [|x l2 _] using rev_ind.
  - apply app_inj_tail in Heq as [-> ->]. auto.
  - rewrite app_comm_cons, app_assoc in Heq. apply app_inj_tail in Heq as [-> _]. eauto.
Qed.

Lemma kahn_order_length pending deg ready order :
  kahn_inv pending deg ready order → length order + length ready ≤ length ids.
Proof.
  intros Hk. rewrite <- length_app. apply submseteq_length, NoDup_submseteq;
    eauto using k_nodup, k_ids.
Qed.

(** The loop as a whole. *)
Lemma kahn_loop_spec fuel deg ready order :
  kahn_inv [] deg ready order → preds_before es order →
  length ids - length order < fuel →
  ∃ deg' order', kahn_loop fuel outgoing deg ready order = Done order'
    ∧ kahn_inv [] deg' [] order' ∧ preds_before es order' ∧ order `prefix_of` order'.
Proof.
  revert deg ready order. induction fuel as [|fuel IH]; intros deg ready order Hk Hp Hf; [lia|].
  destruct ready as [|n ready]; simpl; [by eauto 10|].
  pose proof (kahn_order_length _ _ _ _ Hk) as Hlen. simpl in Hlen.
  pose proof (outgoing_spec n) as Hs.
  destruct (BTreeMap.get n outgoing) as [children|] eqn:Ho.
  2:{ destruct Hs. apply (k_ids _ _ _ _ Hk), elem_of_app. right. left. }
  destruct (kahn_inv_pop _ _ _ _ _ Hk Ho) as (Hk' & Hnd & Hc & Hpred).
  destruct (release_children_spec _ _ _ _ Hk' Hnd Hc) as (deg' & ready' & -> & Hk''). simpl.
  destruct (IH deg' ready' (order ++ [n])) as (deg2 & order2 & -> & ? & ? & Hpre).
  - done.
  - by apply preds_before_snoc.
  - rewrite length_app. simpl. lia.
  - exists deg2, order2. split_and!; try done. etrans; [|done]. by apply prefix_app_r.
Qed.

(** With no repeated arc, the head of [ready] is the least node whose
    predecessors are all placed. *)
Lemma ready_head_least n ready deg order c :
  kahn_inv [] deg (n :: ready) order → NoDup (srcs c) → c ∈ ids → c ∉ order →
  (∀ a, (a, c) ∈ es → a ∈ order) → n = c ∨ ord_lt n c.
Proof.
  intros Hk Hnd Hc Hco Hpre.
  assert (c ∈ n :: ready) as Hin.
  { destruct (k_deg _ _ _ _ Hk c Hc) as (d & Hd & Hsum).
    rewrite decide_False in Hsum by set_solver.
    pose proof (settled_all es c order Hnd Hpre).
    assert (d = 0) as -> by lia. apply (k_zero _ _ _ _ Hk c Hc) in Hd.
    apply elem_of_app in Hd as [?|?]; done. }
  pose proof (k_sorted _ _ _ _ Hk) as Hs. inversion_clear Hs as [|?? _ Hlt].
  rewrite Forall_forall in Hlt. apply elem_of_cons in Hin as [->|?]; auto.
Qed.

Lemma least_available_snoc order n :
  least_available ids es order →
  (∀ c, c ∈ ids → c ∉ order → (∀ a, (a, c) ∈ es → a ∈ order) → n = c ∨ ord_lt n c) →
  least_available ids es (order ++ [n]).
Proof.
  intros Hl Hn l1 b l2 c Heq Hc. destruct l2 as [|x l2 _] using rev_ind.
  - apply app_inj_tail in Heq as [-> ->]. auto.
  - rewrite app_comm_cons, app_assoc in Heq. apply app_inj_tail in Heq as [-> _]. eauto.
Qed.

Lemma kahn_loop_least fuel deg ready order order' :
  (∀ n, NoDup (srcs n)) → kahn_inv [] deg ready order → least_available ids es order →
  kahn_loop fuel outgoing deg ready order = Done order' → least_available ids es order'.
Proof.
  intros Hnd. revert deg ready order. induction fuel as [|fuel IH]; intros deg ready order Hk Hl;
    [done|]. destruct ready as [|n ready]; simpl; [by intros [= <-]|].
  destruct (BTreeMap.get n outgoing) as [children|] eqn:Ho.
  2:{ pose proof (outgoing_spec n) as Hs. rewrite Ho in Hs. destruct Hs.
      apply (k_ids _ _ _ _ Hk), elem_of_app. right. left. }
  destruct (kahn_inv_pop _ _ _ _ _ Hk Ho) as (Hk' & Hndc & Hc & _).
  destruct (release_children_spec _ _ _ _ Hk' Hndc Hc) as (deg' & ready' & -> & Hk''). simpl.
  apply IH; [done|]. apply least_available_snoc; [done|]. intros c ? ? ?.
  by eapply ready_head_least.
Qed.
End kahn_run.

(** *** What the final order says about the graph *)

Section kahn_final.
Variable ids : list NodeId.
Variable es : list (NodeId * NodeId).
Hypothesis es_ids : ∀ a b, (a, b) ∈ es → a ∈ ids ∧ b ∈ ids.

Notation kahn_inv := (kahn_inv ids es).
Notation settled := (settled es).
Notation srcs := (srcs es).

Lemma kahn_final_nodup deg order :
  kahn_inv [] deg [] order → NoDup order ∧ ∀ n, n ∈ order → n ∈ ids.
Proof.
  intros Hk. pose proof (kahn_inv_nodup_order _ _ _ _ Hk). split; [done|].
  intros n Hn. apply (k_ids _ _ _ _ Hk). by rewrite app_nil_r.
Qed.

(** A node stays out of the order only if one of its predecessors does, or if
    two of its arcs are equal. *)
Lemma kahn_final_blocked deg order n :
  kahn_inv [] deg [] order → n ∈ ids → n ∉ order → NoDup (srcs n) →
  ∃ a, (a, n) ∈ es ∧ a ∉ order.
Proof.
  intros Hk Hn Hno Hnd.
  destruct (decide (Exists (λ a, a ∉ order) (srcs n))) as [He|Hall].
  { apply Exists_exists in He as (a & ?%elem_of_srcs & ?). eauto. }
  exfalso. destruct (k_deg _ _ _ _ Hk n Hn) as (d & Hd & Hsum).
  rewrite decide_False in Hsum by set_solver.
  assert (indeg_count es n ≤ length (settled n order)).
  { apply settled_all; [done|]. intros a Ha%elem_of_srcs.
    destruct (decide (a ∈ order)); [done|]. destruct Hall. apply Exists_exists. eauto. }
  assert (d = 0) as -> by lia. apply (k_zero _ _ _ _ Hk n Hn) in Hd.
  by rewrite app_nil_r in Hd.
Qed.

Lemma kahn_final_complete_nodup deg order :
  kahn_inv [] deg [] order → (∀ n, n ∈ ids → n ∈ order) → ∀ n, NoDup (srcs n).
Proof.
  intros Hk Hall n. destruct (decide (n ∈ ids)) as [Hn|Hn].
  - assert (BTreeMap.get n deg = Some 0) as H0.
    { apply (k_zero _ _ _ _ Hk n Hn). rewrite app_nil_r. auto. }
    destruct (k_deg _ _ _ _ Hk n Hn) as (d & Hd & Hsum).
    rewrite decide_False in Hsum by set_solver. simplify_eq.
    eapply (settled_full es n order); [by eapply kahn_inv_nodup_order|lia].
  - replace (srcs n) with (@nil NodeId); [constructor|]. symmetry.
    apply elem_of_nil_inv. intros a Ha%elem_of_srcs. by apply es_ids in Ha as [_ ?].
Qed.
End kahn_final.

(** ** Graph-theoretic facts *)

(** A duplicate-free arc list is one whose source lists are duplicate-free. *)
Lemma NoDup_srcs es : NoDup es ↔ ∀ n, NoDup (srcs es n).
Proof.
  split.
  - intros Hnd n. unfold srcs. apply NoDup_fmap_2_strong; [|by apply NoDup_filter].
    intros [a x] [b y] [? ?]%list_elem_of_filter [? ?]%list_elem_of_filter ?.
    simplify_eq/=. done.
  - induction es as [|[a b] es IH]; intros Hs; [constructor|]. constructor.
    + intros Hin. specialize (Hs b). unfold srcs in Hs.
      rewrite filter_cons_True in Hs by done. simpl in Hs.
      apply NoDup_cons in Hs as [Ha _]. apply Ha, elem_of_srcs. done.
    + apply IH. intros n. specialize (Hs n). unfold srcs in *. rewrite filter_cons in Hs.
      case_decide; [|done]. by apply NoDup_cons in Hs as [_ ?].
Qed.

(** Along an arc chain inside a predecessor-closed order, positions decrease
    backwards: such an order has no cycle. *)
Lemma preds_before_tc es order a b :
  preds_before es order → tc (arc es) a b →
  ∀ l1 l2, order = l1 ++ b :: l2 → a ∈ l1.
Proof.
  intros Hp Htc. induction Htc as [a b Hab|a c b Hac Hcb IH]; intros l1 l2 Heq.
  - by eapply Hp.
  - pose proof (IH _ _ Heq) as Hc. apply list_elem_of_split in Hc as (m1 & m2 & ->).
    rewrite <- app_assoc in Heq. simpl in Heq.
    apply elem_of_app. left. eapply Hp; [exact Heq|done].
Qed.

Lemma preds_before_no_cycle es order n :
  NoDup order → preds_before es order → n ∈ order → ¬ tc (arc es) n n.
Proof.
  intros Hnd Hp (l1 & l2 & ->)%list_elem_of_split Htc.
  pose proof (preds_before_tc _ _ _ _ Hp Htc l1 l2 eq_refl) as Hin.
  apply NoDup_app in Hnd as (_ & Hd & _). apply (Hd n Hin). left.
Qed.

Lemma tc_arc_first es a b : tc (arc es) a b → ∃ x, (a, x) ∈ es.
Proof. induction 1; eauto. Qed.

Lemma topological_acyclic ids es order :
  NoDup ids → (∀ a b, (a, b) ∈ es → a ∈ ids ∧ b ∈ ids) →
  topological ids es order → acyclic es.
Proof.
  intros Hnd Hes [Hp Hb] n Htc. destruct (tc_arc_first _ _ _ Htc) as [x Hx].
  apply (preds_before_no_cycle es order n); [by rewrite Hp|exact Hb| |exact Htc].
  rewrite Hp. by apply Hes in Hx as [? _].
Qed.

Lemma tc_flip_arc es a b : tc (flip (arc es)) a b → tc (arc es) b a.
Proof.
  induction 1 as [a b Hab|a c b Hac _ IH]; [by apply tc_once|]. eapply tc_r; [exact IH|done].
Qed.

(** In an acyclic arc list, a set in which every element has a predecessor is
    empty: going backwards must end. *)
Lemma acyclic_backwards_sn es n : acyclic es → sn (flip (arc es)) n.
Proof.
  intros Hac. apply tc_finite_sn.
  - intros x Hx. apply (Hac x). by apply tc_flip_arc.
  - exists (es.*1). intros x Hx. apply tc_flip_arc in Hx.
    apply tc_arc_first in Hx as [y Hy]. apply list_elem_of_fmap. by exists (x, y).
Qed.

Lemma acyclic_no_blocked_set es (P : NodeId → Prop) n :
  acyclic es → (∀ m, P m → ∃ a, (a, m) ∈ es ∧ P a) → ¬ P n.
Proof.
  intros Hac Hstep. pose proof (acyclic_backwards_sn es n Hac) as Hsn.
  induction Hsn as [m _ IH]. intros (a & Ham & Ha)%Hstep. by apply (IH a).
Qed.

(** ** The order computed from a validated graph *)

Section order.
Variables (nodes : list NodeDefinition) (edges : list EdgeDefinition) (t : GraphTopology).
Hypothesis Hfrom : from_graph nodes edges = Ok t.

Notation ids := (node_names nodes).
Notation es := (arcs edges).

Lemma graph_ids_nodup : NoDup ids.
Proof. by apply from_graph_valid in Hfrom as [[? _] _]. Qed.

Lemma graph_arcs_declared a b : (a, b) ∈ es → a ∈ ids ∧ b ∈ ids.
Proof. apply from_graph_valid in Hfrom as [? _]. by apply arcs_declared. Qed.

Lemma graph_tables : topo_tables nodes es t.
Proof. by apply from_graph_valid in Hfrom as [_ ?]. Qed.

Lemma initial_ready_spec n :
  n ∈ initial_ready (indegree_by_node t) ↔ n ∈ ids ∧ indeg_count es n = 0.
Proof.
  unfold initial_ready. rewrite BTreeSet.elem_of_collect, list_elem_of_fmap.
  pose proof (tt_indegree _ _ _ graph_tables n) as Hg. split.
  - intros ([m d] & -> & [Hd Hin]%list_elem_of_filter). simpl in *. subst d.
    apply BTreeMap.elem_get in Hin;
      [|apply BTreeMap.sorted_map_NoDup; by destruct graph_tables].
    rewrite Hin in Hg. case_decide; [|done]. by injection Hg as <-.
  - intros [Hn H0]. rewrite decide_True in Hg by done. rewrite H0 in Hg.
    exists (n, 0). split; [done|]. apply list_elem_of_filter.
    split; [done|]. by apply BTreeMap.get_elem.
Qed.

Lemma kahn_inv_initial :
  kahn_inv ids es [] (indegree_by_node t) (initial_ready (indegree_by_node t)) [].
Proof.
  pose proof graph_tables as Ht. split.
  - apply BTreeSet.sorted_collect.
  - apply BTreeSet.sorted_NoDup, BTreeSet.sorted_collect.
  - intros n [? _]%initial_ready_spec. done.
  - intros n Hn. by rewrite (tt_indegree _ _ _ Ht), decide_False.
  - intros n Hn. rewrite (tt_indegree _ _ _ Ht), decide_True by done.
    eexists. split; [done|]. rewrite decide_False by set_solver. simpl. lia.
  - intros n Hn. rewrite (tt_indegree _ _ _ Ht), decide_True by done.
    simpl. rewrite initial_ready_spec. naive_solver.
Qed.

(** The ordering loop returns, and what it returns. *)
Lemma kahn_run_spec :
  ∃ deg order,
    kahn_loop (S (length (node_ids t))) (outgoing_by_node t) (indegree_by_node t)
      (initial_ready (indegree_by_node t)) [] = Done order
    ∧ kahn_inv ids es [] deg [] order ∧ preds_before es order.
Proof.
  pose proof graph_tables as Ht. rewrite (tt_ids _ _ _ Ht).
  destruct (kahn_loop_spec ids es (outgoing_by_node t) graph_arcs_declared
    (tt_outgoing _ _ _ Ht) (S (length ids)) _ _ [] kahn_inv_initial)
    as (deg & order & ? & ? & ? & _); [|simpl; lia|by eauto].
  intros [|??] ? ? ? ?; discriminate.
Qed.

Lemma order_complete_iff deg order :
  kahn_inv ids es [] deg [] order →
  length order = length ids ↔ (∀ n, n ∈ ids → n ∈ order).
Proof.
  intros Hk. destruct (kahn_final_nodup _ _ _ _ Hk) as [Hnd Hsub]. split.
  - intros Hlen n Hn. assert (order ≡ₚ ids) as Hp.
    { apply submseteq_length_Permutation; [by apply NoDup_submseteq|lia]. }
    by rewrite Hp.
  - intros Hall. assert (order ≡ₚ ids) as Hp.
    { apply NoDup_Permutation; [done|apply graph_ids_nodup|naive_solver]. }
    by rewrite Hp.
Qed.

(** The loop places every node exactly when the graph is acyclic and has no
    two edges between the same two nodes. *)
Lemma order_complete_acyclic deg order :
  kahn_inv ids es [] deg [] order → preds_before es order →
  (∀ n, n ∈ ids → n ∈ order) ↔ acyclic es ∧ NoDup es.
Proof.
  intros Hk Hp. destruct (kahn_final_nodup _ _ _ _ Hk) as [Hnd Hsub]. split.
  - intros Hall. split.
    + apply (topological_acyclic ids es order); [apply graph_ids_nodup|apply graph_arcs_declared|].
      split; [|done]. apply NoDup_Permutation; [done|apply graph_ids_nodup|naive_solver].
    + apply NoDup_srcs. eapply kahn_final_complete_nodup;
        [apply graph_arcs_declared|exact Hk|exact Hall].
  - intros [Hac Hes] n Hn. destruct (decide (n ∈ order)) as [|Hno]; [done|]. exfalso.
    apply (acyclic_no_blocked_set es (λ m, m ∈ ids ∧ m ∉ order) n Hac); [|done].
    intros m [Hm Hmo]. destruct (kahn_final_blocked ids es graph_arcs_declared deg order m) as (a & Ham & Ha);
      [done..|by apply NoDup_srcs|]. exists a. split; [done|]. split; [|done].
    by apply graph_arcs_declared in Ham as [? _].
Qed.
End order.
