(* ===== verification/Cycle.v ===== *)
(** The cycle search of [GraphTopology::find_cycle].

    [dfs_inv] is the invariant of the depth-first search: the stack is a walk
    of distinct nodes, exactly those in state [Visiting], and the finished
    nodes can be listed so that every arc out of a finished node leads to an
    earlier one.  It gives termination within the fuel, soundness of a
    reported cycle, and completeness: when the search reports nothing, the
    remaining nodes carry no cycle. *)

From Stdlib Require Import Lia.
From stdpp Require Import relations.
From S2P Require Import Prelude RustStr BTree Types Workflow Structure Topology.

Import GraphTopology.

(** Consecutive nodes are joined by arcs. *)
Definition walk (es : list (NodeId * NodeId)) (l : list NodeId) : Prop :=
  ∀ i a b, l !! i = Some a → l !! S i = Some b → (a, b) ∈ es.

(** A directed cycle, reported in traversal order with its start repeated. *)
Definition closed_walk (es : list (NodeId * NodeId)) (c : list NodeId) : Prop :=
  ∃ x l, c = x :: l ++ [x] ∧ walk es c.

Lemma walk_nil es : walk es [].
Proof. intros i a b Ha. done. Qed.

Lemma walk_snoc es l b :
  walk es l → (∀ a, last l = Some a → (a, b) ∈ es) → walk es (l ++ [b]).
Proof.
  intros Hw Hb i x y Hx Hy.
  destruct (decide (S i < length l)).
  - rewrite lookup_app_l in Hx, Hy by lia. by eapply Hw.
  - assert (S i = length l) as Hi.
    { apply lookup_lt_Some in Hy. rewrite length_app in Hy. simpl in Hy. lia. }
    rewrite lookup_app_l in Hx by lia. rewrite lookup_app_r, Hi, Nat.sub_diag in Hy by lia.
    simplify_eq/=. apply Hb. by rewrite last_lookup, <- Hi.
Qed.

Lemma walk_drop es k l : walk es l → walk es (drop k l).
Proof.
  intros Hw i a b. rewrite !lookup_drop. replace (k + S i) with (S (k + i)) by lia. apply Hw.
Qed.

Lemma last_drop_Some (k : nat) (l : list NodeId) a : last (drop k l) = Some a → last l = Some a.
Proof.
  rewrite !last_lookup, lookup_drop, length_drop. intros Ha. rewrite <- Ha.
  f_equal. apply lookup_lt_Some in Ha. lia.
Qed.

Lemma closed_walk_tc es c : closed_walk es c → ∃ n, n ∈ c ∧ tc (arc es) n n.
Proof.
  intros (x & l & -> & Hw). exists x. split; [left|].
  assert (∀ l x z, walk es (x :: l ++ [z]) → tc (arc es) x z) as Haux; [|by eapply Haux].
  clear. intros l. induction l as [|y l IH]; intros x z Hw.
  - apply tc_once. by apply (Hw 0).
  - eapply tc_l; [by apply (Hw 0)|]. apply IH. intros i a b Ha Hb. by apply (Hw (S i)).
Qed.

(** ** [cycle_from_stack] *)

Lemma position_spec child stack i :
  position child stack = Some i → stack !! i = Some child.
Proof.
  revert i. induction stack as [|y stack IH]; intros i; simpl; [done|].
  case_decide; [by intros [= <-]; simplify_eq|].
  intros (j & Hj & ->)%fmap_Some. by apply IH.
Qed.

Lemma position_is_some child stack : child ∈ stack → is_Some (position child stack).
Proof.
  induction stack as [|y stack IH]; simpl; [set_solver|].
  intros [->|Hin]%elem_of_cons; case_decide; try done; try eauto.
  apply fmap_is_Some. auto.
Qed.

Lemma cycle_from_stack_spec es stack child :
  walk es stack → (∀ a, last stack = Some a → (a, child) ∈ es) → child ∈ stack →
  ∃ c, cycle_from_stack stack child = Some c ∧ closed_walk es c.
Proof.
  intros Hw Hlast Hin. unfold cycle_from_stack.
  destruct (position_is_some child stack Hin) as [i Hi]. rewrite Hi. simpl.
  eexists. split; [done|]. apply position_spec in Hi.
  exists child, (drop (S i) stack). split; [by rewrite (drop_S _ _ _ Hi)|].
  apply walk_snoc; [by apply walk_drop|].
  intros a Ha. apply Hlast. by eapply last_drop_Some.
Qed.

Lemma stack_pop_snoc stack n : stack_pop (stack ++ [n]) = stack.
Proof.
  unfold stack_pop. rewrite length_app. simpl. rewrite Nat.add_1_r. simpl.
  by rewrite take_app_length.
Qed.

(** ** The search *)

(** Giving a state to a node takes it out of the nodes without a state. *)
Lemma unknown_insert (states : btree_map NodeId VisitState) n v l :
  length (filter (λ m, BTreeMap.get m (BTreeMap.insert n v states) = None) l)
  + (if decide (n ∈ l ∧ BTreeMap.get n states = None) then 1 else 0)
  ≤ length (filter (λ m, BTreeMap.get m states = None) l).
Proof.
  induction l as [|x l IH]; [by rewrite decide_False by set_solver|].
  rewrite !filter_cons, BTreeMap.get_insert. destruct (decide (x = n)) as [->|Hx].
  - rewrite decide_False by done. destruct (decide (BTreeMap.get n states = None)) as [Hg|Hg].
    + rewrite decide_True by set_solver. simpl. case_decide; lia.
    + rewrite decide_False by naive_solver. rewrite decide_False in IH by naive_solver. lia.
  - rewrite (decide_ext (n ∈ x :: l ∧ BTreeMap.get n states = None)
              (n ∈ l ∧ BTreeMap.get n states = None)) by set_solver.
    destruct (decide (BTreeMap.get x states = None)); simpl; lia.
Qed.

Section dfs_proofs.
Variables (es : list (NodeId * NodeId)) (t : GraphTopology) (remaining : list NodeId).

(** Arcs between remaining nodes, reversed. *)
Definition back_arcs : list (NodeId * NodeId) :=
  (λ a, (a.2, a.1)) <$> filter (λ a, a.1 ∈ remaining ∧ a.2 ∈ remaining) es.

Lemma elem_of_back_arcs a b :
  (b, a) ∈ back_arcs ↔ (a, b) ∈ es ∧ a ∈ remaining ∧ b ∈ remaining.
Proof.
  unfold back_arcs. rewrite list_elem_of_fmap. setoid_rewrite list_elem_of_filter. split.
  - intros ([x y] & [= -> ->] & ? & ?). naive_solver.
  - intros (? & ? & ?). exists (a, b). naive_solver.
Qed.

Definition unvisited (states : btree_map NodeId VisitState) : nat :=
  length (filter (λ n, BTreeMap.get n states = None) remaining).

Record dfs_inv (states : btree_map NodeId VisitState) (stack fin : list NodeId) : Prop := {
  d_visiting : ∀ n, BTreeMap.get n states = Some Visiting ↔ n ∈ stack;
  d_visited : ∀ n, BTreeMap.get n states = Some Visited ↔ n ∈ fin;
  d_nodup : NoDup fin;
  d_walk : walk es stack;
  d_back : preds_before back_arcs fin;
}.

Lemma unvisited_mono states n v :
  unvisited (BTreeMap.insert n v states) ≤ unvisited states.
Proof. pose proof (unknown_insert states n v remaining). unfold unvisited. lia. Qed.

Lemma unvisited_insert states n v :
  n ∈ remaining → BTreeMap.get n states = None →
  unvisited (BTreeMap.insert n v states) < unvisited states.
Proof.
  intros Hn Hg. pose proof (unknown_insert states n v remaining) as Hle.
  rewrite decide_True in Hle by done. unfold unvisited. lia.
Qed.

Lemma dfs_inv_push states stack fin n :
  dfs_inv states stack fin → BTreeMap.get n states = None →
  (∀ a, last stack = Some a → (a, n) ∈ es) →
  dfs_inv (BTreeMap.insert n Visiting states) (stack ++ [n]) fin.
Proof.
  intros [Hvi Hvd Hnd Hw Hb] Hn Hl. split.
  - intros m. rewrite BTreeMap.get_insert, elem_of_app, list_elem_of_singleton, <- Hvi.
    case_decide; naive_solver.
  - intros m. rewrite BTreeMap.get_insert, <- Hvd. case_decide; naive_solver.
  - done.
  - by apply walk_snoc.
  - done.
Qed.

Lemma dfs_inv_finish states stack fin n :
  dfs_inv states (stack ++ [n]) fin → n ∉ stack →
  (∀ m, (n, m) ∈ es → m ∈ remaining → m ∈ fin) →
  dfs_inv (BTreeMap.insert n Visited states) stack (fin ++ [n]).
Proof.
  intros [Hvi Hvd Hnd Hw Hb] Hns Hch.
  assert (BTreeMap.get n states = Some Visiting) as Hn by (apply Hvi; set_solver).
  assert (n ∉ fin) as Hnf by (rewrite <- Hvd; congruence).
  split.
  - intros m. rewrite BTreeMap.get_insert. case_decide as Hm.
    + subst m. naive_solver.
    + rewrite Hvi. set_solver.
  - intros m. rewrite BTreeMap.get_insert. case_decide as Hm.
    + subst m. set_solver.
    + rewrite Hvd. set_solver.
  - apply NoDup_app. split_and!; [done|set_solver|apply NoDup_singleton].
  - intros i a b Ha Hb'. apply (Hw i); by apply lookup_app_l_Some.
  - apply preds_before_snoc; [done|]. intros a (? & ? & ?)%elem_of_back_arcs. auto.
Qed.

(** What a search started at [n] returns. *)
Definition dfs_post (n : NodeId) (states : btree_map NodeId VisitState) (stack : list NodeId)
    (out : dfs_out) : Prop :=
  match out.1 with
  | Some c => closed_walk es c
  | None => out.2.2 = stack ∧ unvisited out.2.1 ≤ unvisited states
      ∧ ∃ fin, dfs_inv out.2.1 stack fin ∧ n ∈ fin
      ∧ ∀ m, BTreeMap.get m states = Some Visited → m ∈ fin
  end.

Definition rec_ok (bound : nat)
    (rec : NodeId → btree_map NodeId VisitState → list NodeId → exec dfs_out) : Prop :=
  ∀ n states stack fin,
    dfs_inv states stack fin → n ∈ remaining → BTreeMap.get n states = None →
    (∀ a, last stack = Some a → (a, n) ∈ es) → unvisited states ≤ bound →
    ∃ out, rec n states stack = Done out ∧ dfs_post n states stack out.

(** The loop over the children: those still to come, and the finished ones. *)
Lemma visit_children_spec bound rec n children states stack fin :
  rec_ok bound rec →
  dfs_inv states (stack ++ [n]) fin → n ∉ stack → unvisited states ≤ bound →
  (∀ m, m ∈ children → (n, m) ∈ es) →
  (∀ m, (n, m) ∈ es → m ∈ remaining → m ∈ children ∨ m ∈ fin) →
  ∃ out, visit_children rec remaining n children states (stack ++ [n]) = Done out
    ∧ match out.1 with
      | Some c => closed_walk es c
      | None => out.2.2 = stack
          ∧ unvisited out.2.1 ≤ unvisited states
          ∧ ∃ fin', dfs_inv out.2.1 stack fin' ∧ n ∈ fin'
          ∧ ∀ m, m ∈ fin → m ∈ fin'
      end.
Proof.
  intros Hrec. revert states fin.
  induction children as [|c children IH]; intros states fin Hd Hns Hu Hch Hall.
  - eexists; split; [done|]. simpl. rewrite stack_pop_snoc. split; [done|]. split; [by apply unvisited_mono|].
    exists (fin ++ [n]). split_and!; [|set_solver..].
    apply dfs_inv_finish; [done|done|]. intros m Hm Hr. destruct (Hall m Hm Hr); set_solver.
  - assert (Hlast : ∀ a, last (stack ++ [n]) = Some a → (a, c) ∈ es).
    { intros a. rewrite last_snoc. intros [= <-]. apply Hch. left. }
    simpl. destruct (BTreeSet.contains c remaining) eqn:Hc.
    2:{ apply BTreeSet.contains_false in Hc. apply IH; [done..|set_solver|].
        intros m Hm Hr. destruct (Hall m Hm Hr) as [[->|?]%elem_of_cons|]; naive_solver. }
    apply BTreeSet.contains_true in Hc.
    destruct (BTreeMap.get c states) as [[]|] eqn:Hg.
    + apply (d_visiting _ _ _ Hd) in Hg.
      destruct (cycle_from_stack_spec es (stack ++ [n]) c) as (cyc & -> & Hcyc);
        [by destruct Hd|done|done|]. eexists; split; [done|]. done.
    + apply (d_visited _ _ _ Hd) in Hg. apply IH; [done..|set_solver|].
      intros m Hm Hr. destruct (Hall m Hm Hr) as [[->|?]%elem_of_cons|]; naive_solver.
    + destruct (Hrec c states (stack ++ [n]) fin) as ([o [st sk]] & -> & Hpost); [done..|].
      unfold dfs_post in Hpost. simpl in *. destruct o as [cyc|].
      { eexists; split; [done|]. done. }
      destruct Hpost as (-> & Hu' & fin1 & Hd1 & Hc1 & Hmono).
      assert (Hm1 : ∀ m, m ∈ fin → m ∈ fin1).
      { intros m Hm. apply Hmono. by apply (d_visited _ _ _ Hd). }
      destruct (IH st fin1) as (out & Ho & Hpost); [done|done|lia|set_solver| |].
      { intros m Hm Hr. destruct (Hall m Hm Hr) as [[->|?]%elem_of_cons|]; naive_solver. }
      exists out. split; [done|]. destruct (out.1); [done|].
      destruct Hpost as (? & ? & fin2 & ? & ? & ?). split_and!; [done|lia|].
      exists fin2. auto.
Qed.

(** The tables of the graph whose arcs are [es]. *)
Hypothesis outgoing_arcs : ∀ n s m,
  BTreeMap.get n (outgoing_by_node t) = Some s → m ∈ s ↔ (n, m) ∈ es.
Hypothesis remaining_declared : ∀ n, n ∈ remaining →
  is_Some (BTreeMap.get n (outgoing_by_node t)).

Lemma dfs_spec fuel : rec_ok fuel (dfs fuel t remaining).
Proof.
  induction fuel as [|fuel IH]; intros n states stack fin Hd Hn Hg Hl Hu.
  { exfalso. pose proof (unvisited_insert states n Visiting Hn Hg). lia. }
  pose proof (unvisited_insert states n Visiting Hn Hg) as Hlt.
  assert (n ∉ stack) as Hns by (rewrite <- (d_visiting _ _ _ Hd); congruence).
  cbn [dfs]. destruct (remaining_declared n Hn) as [children Hc]. rewrite Hc.
  destruct (visit_children_spec fuel (dfs fuel t remaining) n children
    (BTreeMap.insert n Visiting states) stack fin) as (out & -> & Hpost).
  - done.
  - by apply dfs_inv_push.
  - done.
  - lia.
  - intros m. by apply outgoing_arcs.
  - intros m Hm _. left. by eapply outgoing_arcs.
  - exists out. split; [done|]. unfold dfs_post. destruct (out.1); [done|].
    destruct Hpost as (? & ? & fin' & ? & ? & Hmono). split_and!; [done|lia|].
    exists fin'. split_and!; [done..|]. intros m Hm%(d_visited _ _ _ Hd). auto.
Qed.

(** The outer loop: a reported cycle is one, and otherwise every remaining node
    among those tried is finished. *)
Lemma find_cycle_loop_spec fuel ids states fin :
  dfs_inv states [] fin → unvisited states ≤ fuel →
  ∃ c, find_cycle_loop fuel t remaining ids states [] = Done c
    ∧ (closed_walk es c ∨
       c = remaining ∧ ∃ states' fin', dfs_inv states' [] fin'
         ∧ (∀ n, n ∈ fin → n ∈ fin')
         ∧ ∀ n, n ∈ ids → n ∈ remaining → n ∈ fin').
Proof.
  revert states fin. induction ids as [|n ids IH]; intros states fin Hd Hu; cbn [find_cycle_loop].
  { eexists; split; [done|]. right. split; [done|]. exists states, fin. set_solver. }
  destruct (BTreeSet.contains n remaining) eqn:Hn; simpl.
  - apply BTreeSet.contains_true in Hn.
    destruct (BTreeMap.contains_key n states) eqn:Hk.
    + apply BTreeMap.contains_key_true in Hk as [[] Hk].
      { apply (d_visiting _ _ _ Hd) in Hk. set_solver. }
      apply (d_visited _ _ _ Hd) in Hk.
      destruct (IH states fin Hd Hu) as (c & -> & [?|(-> & st' & fin' & ? & Hm & ?)]);
        eexists; (split; [done|]); [by left|]. right. split; [done|]. exists st', fin'.
      split_and!; [done..|]. intros m [->|?]%elem_of_cons; auto.
    + assert (BTreeMap.get n states = None) as Hg.
      { apply eq_None_not_Some. rewrite <- BTreeMap.contains_key_true. congruence. }
      destruct (dfs_spec fuel n states [] fin) as ([o [st sk]] & -> & Hpost); [done..|].
      unfold dfs_post in Hpost. simpl in *. destruct o as [c|]; [by eauto|].
      destruct Hpost as (-> & ? & fin1 & Hd1 & Hn1 & Hmono).
      destruct (IH st fin1) as (c & -> & [?|(-> & st' & fin' & ? & Hm & ?)]);
        [done|lia|eexists; split; [done|by left]|].
      eexists; split; [done|]. right. split; [done|]. exists st', fin'. split_and!; [done| |].
      * intros m ?%(d_visited _ _ _ Hd). auto.
      * intros m [->|?]%elem_of_cons; auto.
  - apply BTreeSet.contains_false in Hn.
    destruct (IH states fin Hd Hu) as (c & -> & [?|(-> & st' & fin' & ? & Hm & ?)]);
      eexists; (split; [done|]); [by left|]. right. split; [done|]. exists st', fin'.
    split_and!; [done..|]. intros m [->|?]%elem_of_cons; auto. done.
Qed.
End dfs_proofs.
