(* ===== verification/Validation.v ===== *)
(** What the workflow validator promises: the properties of
    [WorkflowGraph::new], [with_cycles_allowed], [topological_order] and
    [NodeDefinition::new], obtained from the refinement of Structure.v, the
    loop invariants of Topology.v and the search invariants of Cycle.v. *)

From Stdlib Require Import Lia.
From stdpp Require Import relations.
From S2P Require Import Prelude RustStr BTree Types Workflow Structure Topology Cycle.

Import GraphTopology.

(** ** The outcome of [topological_order] *)

Section outcome.
Variables (nodes : list NodeDefinition) (edges : list EdgeDefinition) (t : GraphTopology).
Hypothesis Hfrom : from_graph nodes edges = Ok t.

Notation ids := (node_names nodes).
Notation es := (arcs edges).

Lemma find_cycle_spec remaining :
  NoDup remaining → (∀ n, n ∈ remaining → n ∈ ids) →
  ∃ c, find_cycle t remaining = Done c
    ∧ (closed_walk es c ∨ c = remaining
        ∧ ∀ n, n ∈ remaining → ¬ tc (arc (back_arcs es remaining)) n n).
Proof.
  intros Hnd Hsub. pose proof (graph_tables _ _ _ Hfrom) as Ht.
  assert (Hunv : unvisited remaining [] ≤ S (length (node_ids t))).
  { unfold unvisited. etrans; [apply length_filter|].
    rewrite (tt_ids _ _ _ Ht). assert (length remaining ≤ length ids); [|lia].
    by apply submseteq_length, NoDup_submseteq. }
  destruct (find_cycle_loop_spec es t remaining) with (fuel := S (length (node_ids t)))
    (ids := node_ids t) (states := @nil (NodeId * VisitState)) (fin := @nil NodeId)
    as (c & Hc & Hcase).
  - intros n s m Hs. pose proof (tt_outgoing _ _ _ Ht n) as Ho. rewrite Hs in Ho. naive_solver.
  - intros n Hn. pose proof (tt_outgoing _ _ _ Ht n) as Ho.
    destruct (BTreeMap.get n _); [eauto|]. by destruct Ho; apply Hsub.
  - split; [set_solver..|constructor|apply walk_nil|]. intros [|??] ? ? ? ?; discriminate.
  - done.
  - exists c. split; [done|]. destruct Hcase as [?|(-> & st & fin & Hd & _ & Hall)]; [by left|].
    right. split; [done|]. intros n Hn.
    eapply preds_before_no_cycle; [by destruct Hd|by destruct Hd|].
    apply Hall; [|done]. rewrite (tt_ids _ _ _ Ht). auto.
Qed.

(** A cycle never leaves the nodes that Kahn's loop could not place. *)
Lemma cycle_stays_remaining deg order n m :
  kahn_inv ids es [] deg [] order → preds_before es order →
  tc (arc es) n m → tc (arc es) m n → n ∈ ids ∧ n ∉ order.
Proof.
  intros Hk Hp Hnm Hmn. split.
  - apply tc_arc_first in Hnm as [x Hx]. by apply (graph_arcs_declared _ _ _ Hfrom) in Hx as [? _].
  - intros Hin. eapply (preds_before_no_cycle es order n); [|done|done|by etrans].
    by apply (kahn_final_nodup _ _ _ _ Hk).
Qed.

Lemma tc_in_remaining (es' : list (NodeId * NodeId)) remaining x y :
  tc (arc es') x y → tc (arc es') y x →
  (∀ n, tc (arc es') n n → n ∈ remaining) →
  tc (arc (back_arcs es' remaining)) y x.
Proof.
  intros Hxy. induction Hxy as [x y Hxy|x z y Hxz Hzy IH]; intros Hyx Hr.
  - apply tc_once. unfold arc. rewrite elem_of_back_arcs. split_and!; [done| |]; apply Hr.
    + eapply tc_l; [exact Hxy|done].
    + eapply tc_r; [exact Hyx|done].
  - assert (tc (arc es') x z) by by apply tc_once.
    assert (tc (arc es') z x) by by etrans.
    eapply tc_r; [apply IH; [|done]|].
    + etrans; [exact Hyx|done].
    + unfold arc. rewrite elem_of_back_arcs. split_and!; [done| |]; apply Hr; by etrans.
Qed.

Definition unplaced (order : list NodeId) : list NodeId :=
  BTreeSet.collect (filter (λ n, n ∉ order) ids).

Lemma elem_of_unplaced order n : n ∈ unplaced order ↔ n ∈ ids ∧ n ∉ order.
Proof. unfold unplaced. rewrite BTreeSet.elem_of_collect, list_elem_of_filter. naive_solver. Qed.

(** The ordering always returns: an order exactly for the acyclic graphs without
    repeated arcs, otherwise a cycle error. *)
Lemma topological_order_outcome :
  (∃ order, GraphTopology.topological_order t = Done (Ok order)
     ∧ topological ids es order ∧ least_available ids es order ∧ acyclic es ∧ NoDup es)
  ∨ (∃ c, GraphTopology.topological_order t = Done (Err (WorkflowValidationError.CycleDetected c))
     ∧ (closed_walk es c ∨ acyclic es ∧ ¬ NoDup es)).
Proof.
  destruct (kahn_run_spec _ _ _ Hfrom) as (deg & order & Hrun & Hk & Hp).
  pose proof (graph_tables _ _ _ Hfrom) as Ht.
  pose proof (order_complete_iff _ _ _ Hfrom _ _ Hk) as Hlen.
  pose proof (order_complete_acyclic _ _ _ Hfrom _ _ Hk Hp) as Hac.
  unfold GraphTopology.topological_order. rewrite Hrun. cbn [exec_bind].
  rewrite (tt_ids _ _ _ Ht). destruct (Nat.eqb_spec (length order) (length ids)) as [He|Hne].
  - left. exists order. split; [done|]. pose proof He as Hall. rewrite Hlen in Hall.
    pose proof (proj1 Hac Hall) as [Hacy Hnd].
    destruct (kahn_final_nodup _ _ _ _ Hk) as [Hno Hsub].
    split_and!; try done.
    + split; [|done]. apply NoDup_Permutation; [done|by eapply graph_ids_nodup|naive_solver].
    + eapply (kahn_loop_least ids es (outgoing_by_node t)); [| | | | |exact Hrun].
      * by eapply graph_arcs_declared.
      * by apply tt_outgoing.
      * by apply NoDup_srcs.
      * by apply kahn_inv_initial.
      * intros [|??] ? ? ? ?; discriminate.
  - right. fold (unplaced order).
    destruct (find_cycle_spec (unplaced order)) as (c & -> & Hc).
    + apply BTreeSet.sorted_NoDup, BTreeSet.sorted_collect.
    + intros n [? _]%elem_of_unplaced. done.
    + cbn [exec_bind]. exists c. split; [done|]. destruct Hc as [?|[-> Hno]]; [by left|]. right.
      assert (acyclic es) as Hacy.
      { intros n Hn. apply (Hno n).
        - apply elem_of_unplaced. by eapply cycle_stays_remaining.
        - apply tc_in_remaining; [done|done|]. intros m Hm.
          apply elem_of_unplaced. by eapply cycle_stays_remaining. }
      split; [done|]. intros Hnd. apply Hne, Hlen, Hac. done.
Qed.
End outcome.

(** Two edges between the same ordered pair of nodes. *)
Definition has_parallel_edges (edges : list EdgeDefinition) : Prop := ¬ NoDup (arcs edges).

Lemma closed_walk_not_acyclic es c : closed_walk es c → ¬ acyclic es.
Proof. intros (n & _ & Hn)%closed_walk_tc Hac. by apply (Hac n). Qed.

(** [WorkflowGraph::new] on any input: an error, or the graph it was given. *)
Lemma graph_new_outcome (nodes : list NodeDefinition) (edges : list EdgeDefinition) :
  (WorkflowGraph.new nodes edges = Done (Ok (WorkflowGraph.mk nodes edges))
     ∧ structurally_valid nodes edges ∧ acyclic (arcs edges) ∧ NoDup (arcs edges))
  ∨ (∃ e, WorkflowGraph.new nodes edges = Done (Err e)
     ∧ (¬ structurally_valid nodes edges ∨ ¬ acyclic (arcs edges) ∨ ¬ NoDup (arcs edges))).
Proof.
  unfold WorkflowGraph.new, WorkflowGraph.build, WorkflowGraph.validate. simpl.
  pose proof (from_graph_spec nodes edges) as Hs.
  destruct (structural_check nodes edges) eqn:Hc.
  - apply structural_check_ok in Hc. destruct Hs as (t & Hf & _). rewrite Hf.
    destruct (topological_order_outcome nodes edges t Hf)
      as [(order & -> & _ & _ & ? & ?)|(c & -> & Hcase)]; simpl; [by left|right].
    eexists. split; [done|]. right.
    destruct Hcase as [Hw%closed_walk_not_acyclic|[_ ?]]; [by left|by right].
  - rewrite Hs. simpl. right. eexists. split; [done|]. left. intros Hv.
    apply (structural_check_ok nodes edges tt) in Hv. congruence.
Qed.

(** ** Properties *)

(** C1. [WorkflowGraph::new] returns on every input, without a panic and within the
    fuel of its loops.  A graph that it accepts has the nodes and edges it was given, is
    structurally valid (no node or port twice, every edge from a declared output port to
    a declared input port) and has no directed cycle.  A graph without two edges between
    the same two nodes is rejected for no other reason.  (One with such edges is always
    rejected, see [parallel_edges_rejected], although the documentation does not say so.) *)
Theorem workflow_graph_new_accepts_iff (nodes : list NodeDefinition)
    (edges : list EdgeDefinition) :
  match WorkflowGraph.new nodes edges with
  | Done (Ok g) =>
      g = WorkflowGraph.mk nodes edges
      ∧ structurally_valid nodes edges ∧ acyclic (arcs edges)
  | Done (Err _) =>
      NoDup (arcs edges) → ¬ structurally_valid nodes edges ∨ ¬ acyclic (arcs edges)
  | _ => False
  end.
Proof.
  destruct (graph_new_outcome nodes edges) as [(-> & ? & ? & _)|(e & -> & Hno)]; [done|].
  intros Hsimple. by destruct Hno as [?|[?|?]]; [left|right|].
Qed.

(** C8. The order [topological_order] returns lists every node once, after all
    its predecessors, and each node it emits is the least available one in the
    identifier order: the result is unique and deterministic. *)
Theorem topological_order_sound (g : WorkflowGraph) (order : list NodeId)
  (Hok : WorkflowGraph.topological_order g = Done (Ok order)) :
  topological (node_names (WorkflowGraph.nodes g)) (arcs (WorkflowGraph.edges g)) order
  ∧ least_available (node_names (WorkflowGraph.nodes g)) (arcs (WorkflowGraph.edges g)) order.
Proof.
  unfold WorkflowGraph.topological_order in Hok.
  destruct (from_graph _ _) as [t|] eqn:Hf; [|done].
  destruct (topological_order_outcome _ _ _ Hf) as [(o & Ho & ? & ? & _)|(c & Ho & _)];
    rewrite Ho in Hok; by simplify_eq.
Qed.

Lemma topological_order_sound_witness :
  WorkflowGraph.topological_order (WorkflowGraph.mk diamond_nodes diamond_edges)
    = Done (Ok [ident "source"; ident "left"; ident "right"; ident "sink"])
  ∧ topological (node_names diamond_nodes) (arcs diamond_edges)
      [ident "source"; ident "left"; ident "right"; ident "sink"].
Proof.
  split; [vm_compute; reflexivity|].
  apply (topological_order_sound (WorkflowGraph.mk diamond_nodes diamond_edges)).
  vm_compute. reflexivity.
Defined.

(** C13. A cyclic graph is rejected with a genuine directed cycle: a closed walk
    along the graph's edges, in traversal order, first node repeated at the
    end. *)
Theorem cyclic_graph_reports_cycle (nodes : list NodeDefinition) (edges : list EdgeDefinition)
  (Hvalid : structurally_valid nodes edges) (Hcyc : ¬ acyclic (arcs edges)) :
  ∃ c, WorkflowGraph.new nodes edges = Done (Err (WorkflowValidationError.CycleDetected c))
    ∧ closed_walk (arcs edges) c.
Proof.
  unfold WorkflowGraph.new, WorkflowGraph.build, WorkflowGraph.validate. simpl.
  pose proof (from_graph_spec nodes edges) as Hs.
  apply (structural_check_ok nodes edges tt) in Hvalid. rewrite Hvalid in Hs.
  destruct Hs as (t & Hf & _). rewrite Hf.
  destruct (topological_order_outcome nodes edges t Hf)
    as [(order & _ & _ & _ & ? & _)|(c & -> & [?|[? _]])]; simpl; [done|by eauto|done].
Qed.

Lemma cyclic_graph_reports_cycle_witness :
  structurally_valid two_cycle_nodes two_cycle_edges
  ∧ ∃ c, WorkflowGraph.new two_cycle_nodes two_cycle_edges
         = Done (Err (WorkflowValidationError.CycleDetected c))
    ∧ closed_walk (arcs two_cycle_edges) c.
Proof.
  assert (Hv : structurally_valid two_cycle_nodes two_cycle_edges).
  { apply (structural_check_ok _ _ tt). vm_compute. reflexivity. }
  split; [exact Hv|]. apply (cyclic_graph_reports_cycle _ _ Hv).
  intros Hac. apply (Hac (ident "a")). apply (tc_l _ _ (ident "b")); [|apply tc_once].
  - apply list_elem_of_In. vm_compute. left. reflexivity.
  - apply list_elem_of_In. vm_compute. right. left. reflexivity.
Defined.

(** A structurally valid graph without any cycle but with two edges between
    the same two nodes is rejected as cyclic, and the reported list is not a
    cycle: the adjacency set keeps one arc where the indegree counts two. *)
Theorem parallel_edges_rejected (nodes : list NodeDefinition) (edges : list EdgeDefinition)
  (Hvalid : structurally_valid nodes edges) (Hac : acyclic (arcs edges))
  (Hpar : has_parallel_edges edges) :
  ∃ c, WorkflowGraph.new nodes edges = Done (Err (WorkflowValidationError.CycleDetected c))
    ∧ ¬ closed_walk (arcs edges) c.
Proof.
  unfold WorkflowGraph.new, WorkflowGraph.build, WorkflowGraph.validate. simpl.
  pose proof (from_graph_spec nodes edges) as Hs.
  apply (structural_check_ok nodes edges tt) in Hvalid. rewrite Hvalid in Hs.
  destruct Hs as (t & Hf & _). rewrite Hf.
  destruct (topological_order_outcome nodes edges t Hf)
    as [(order & _ & _ & _ & _ & ?)|(c & -> & _)]; simpl; [by destruct Hpar|].
  exists c. split; [done|]. intros Hw. by apply closed_walk_not_acyclic in Hw.
Qed.

Lemma parallel_arcs_acyclic : acyclic (arcs parallel_edges).
Proof.
  apply (topological_acyclic [ident "a"; ident "b"] _ [ident "a"; ident "b"]).
  - apply (bool_decide_unpack _). vm_compute. exact I.
  - intros a b. change (arcs parallel_edges)
      with [(ident "a" : NodeId, ident "b" : NodeId); (ident "a", ident "b")]. set_solver.
  - split; [done|]. intros l1 x l2 a Heq Ha.
    change (arcs parallel_edges)
      with [(ident "a" : NodeId, ident "b" : NodeId); (ident "a", ident "b")] in Ha.
    assert (a = ident "a" ∧ x = ident "b") as [-> ->] by set_solver.
    destruct l1 as [|y l1]; simplify_eq/=. left.
Qed.

Lemma parallel_edges_rejected_witness :
  has_parallel_edges parallel_edges
  ∧ ∃ c, WorkflowGraph.new parallel_nodes parallel_edges
         = Done (Err (WorkflowValidationError.CycleDetected c))
    ∧ ¬ closed_walk (arcs parallel_edges) c.
Proof.
  assert (Hp : has_parallel_edges parallel_edges).
  { unfold has_parallel_edges. apply (bool_decide_unpack _). vm_compute. exact I. }
  split; [exact Hp|].
  apply (parallel_edges_rejected parallel_nodes parallel_edges);
    [|exact parallel_arcs_acyclic|exact Hp].
  apply (structural_check_ok _ _ tt). vm_compute. reflexivity.
Defined.

(** C33. The table-building loop of [from_graph] refines the table-free
    [structural_check]: the same graphs are accepted and the same first error
    is reported, with its edge index, role, node, port and direction. *)
Theorem from_graph_refines_structural_check (nodes : list NodeDefinition)
    (edges : list EdgeDefinition) :
  (let? _ := from_graph nodes edges in Ok tt) = structural_check nodes edges.
Proof.
  pose proof (from_graph_spec nodes edges) as Hs.
  destruct (structural_check nodes edges) as [[]|e].
  - destruct Hs as (t & -> & _). done.
  - by rewrite Hs.
Qed.


(** [with_cycles_allowed] accepts exactly the structurally valid graphs. *)
Theorem with_cycles_allowed_accepts_iff (nodes : list NodeDefinition)
    (edges : list EdgeDefinition) :
  WorkflowGraph.with_cycles_allowed nodes edges = Done (Ok (WorkflowGraph.mk nodes edges)) ↔
  structurally_valid nodes edges.
Proof.
  unfold WorkflowGraph.with_cycles_allowed, WorkflowGraph.build, WorkflowGraph.validate. simpl.
  rewrite <- (structural_check_ok nodes edges tt).
  pose proof (from_graph_spec nodes edges) as Hs.
  destruct (structural_check nodes edges) as [[]|e].
  - destruct Hs as (t & -> & _). done.
  - by rewrite Hs.
Qed.

(** [NodeDefinition::new] accepts a node exactly when its ports are pairwise
    distinct across both directions; otherwise it reports the first port, in
    declaration order, inputs before outputs, that repeats an earlier one. *)
Theorem node_definition_new_spec (id : NodeId) (ins outs : list PortId) :
  (NodeDefinition.new id ins outs = Ok (NodeDefinition.mk id ins outs) ↔ NoDup (ins ++ outs))
  ∧ ∀ e, NodeDefinition.new id ins outs = Err e →
      ∃ l1 p l2, ins ++ outs = l1 ++ p :: l2 ∧ NoDup l1 ∧ p ∈ l1
        ∧ e = WorkflowValidationError.DuplicatePort id p.
Proof.
  unfold NodeDefinition.new, reject_duplicate_ports. rewrite BTreeSet.reject_repeats_spec.
  destruct (first_repeat [] (ins ++ outs)) as [p|] eqn:Hr; simpl.
  - apply first_repeat_some in Hr as (l1 & l2 & Heq & Hp & Hnd & _). split.
    + split; [done|]. rewrite Heq. intros (_ & Hd & _)%NoDup_app. destruct (Hd p Hp). left.
    + intros e [= <-]. eauto 10.
  - apply first_repeat_none in Hr as [Hnd _]. done.
Qed.
