(* ===== verification/Capability.v ===== *)
(** [pureflow-core], capability descriptors
    (src/crates/pureflow-core/src/capability.rs).

    A descriptor lists the ports a node may receive from or emit to and the
    host effects it may ask for.  [NodeCapabilities.new] is modelled with its
    three duplicate checks in their order, and
    [validate_workflow_capabilities] with its two nested loops. *)

From stdpp Require Import sorting.
From S2P Require Import Prelude RustStr BTree Types Workflow Structure.

Module PortCapabilityDirection.
Inductive PortCapabilityDirection : Set := Receive | Emit.
Definition label (d : PortCapabilityDirection) : rstr :=
  match d with Receive => lit "receive" | Emit => lit "emit" end.
End PortCapabilityDirection.
Notation PortCapabilityDirection := PortCapabilityDirection.PortCapabilityDirection.

#[export] Instance PortCapabilityDirection_eq_dec : EqDecision PortCapabilityDirection.
Proof. solve_decision. Defined.

Module EffectCapability.
Inductive EffectCapability : Set :=
| FileSystemRead
| FileSystemWrite
| NetworkOutbound
| ExternalEffect
| ProcessSpawn
| EnvironmentRead
| EnvironmentWrite
| Clock.

Definition as_str (e : EffectCapability) : rstr :=
  match e with
  | FileSystemRead => lit "filesystem_read"
  | FileSystemWrite => lit "filesystem_write"
  | NetworkOutbound => lit "network_outbound"
  | ExternalEffect => lit "external_effect"
  | ProcessSpawn => lit "process_spawn"
  | EnvironmentRead => lit "environment_read"
  | EnvironmentWrite => lit "environment_write"
  | Clock => lit "clock"
  end.

(** [derive(Debug)], which the error messages print. *)
Definition debug (e : EffectCapability) : rstr :=
  match e with
  | FileSystemRead => lit "FileSystemRead"
  | FileSystemWrite => lit "FileSystemWrite"
  | NetworkOutbound => lit "NetworkOutbound"
  | ExternalEffect => lit "ExternalEffect"
  | ProcessSpawn => lit "ProcessSpawn"
  | EnvironmentRead => lit "EnvironmentRead"
  | EnvironmentWrite => lit "EnvironmentWrite"
  | Clock => lit "Clock"
  end.

(** The order of [derive(Ord)]: that of the declaration. *)
Definition discriminant (e : EffectCapability) : N :=
  match e with
  | FileSystemRead => 0
  | FileSystemWrite => 1
  | NetworkOutbound => 2
  | ExternalEffect => 3
  | ProcessSpawn => 4
  | EnvironmentRead => 5
  | EnvironmentWrite => 6
  | Clock => 7
  end.
End EffectCapability.
Notation EffectCapability := EffectCapability.EffectCapability.

#[export] Instance EffectCapability_eq_dec : EqDecision EffectCapability.
Proof. solve_decision. Defined.

#[export] Instance EffectCapability_RustOrd : RustOrd EffectCapability.
Proof.
  refine (ord_by EffectCapability.discriminant _). by intros [] [].
Defined.

Module PortCapability.
Record PortCapability : Set :=
  new { port_id : PortId; direction : PortCapabilityDirection }.
End PortCapability.
Notation PortCapability := PortCapability.PortCapability.

#[export] Instance PortCapability_eq_dec : EqDecision PortCapability.
Proof. solve_decision. Defined.

Module CapabilityValidationError.
Inductive CapabilityValidationError : Set :=
| DuplicateEffect (node_id : NodeId) (effect : EffectCapability)
| DuplicatePortCapability (node_id : NodeId) (port_id : PortId)
    (direction : PortCapabilityDirection)
| ConflictingPortDirection (node_id : NodeId) (port_id : PortId)
| UnknownCapabilityNode (node_id : NodeId)
| UnknownCapabilityPort (node_id : NodeId) (port_id : PortId)
| CapabilityDirectionMismatch (node_id : NodeId) (port_id : PortId)
    (claimed declared : PortCapabilityDirection)
| UnenforceableEffectCapability (node_id : NodeId) (effect : EffectCapability).

(** [impl Display for CapabilityValidationError]. *)
Definition fmt (e : CapabilityValidationError) : rstr :=
  match e with
  | DuplicateEffect n eff =>
      lit "node `" ++ as_str n ++ lit "` declares duplicate effect capability `"
      ++ EffectCapability.debug eff ++ lit "`"
  | DuplicatePortCapability n p d =>
      lit "node `" ++ as_str n ++ lit "` declares duplicate "
      ++ PortCapabilityDirection.label d ++ lit " capability for port `" ++ as_str p ++ lit "`"
  | ConflictingPortDirection n p =>
      lit "node `" ++ as_str n ++ lit "` declares port `" ++ as_str p
      ++ lit "` for both receive and emit"
  | UnknownCapabilityNode n =>
      lit "capability descriptor references unknown workflow node `" ++ as_str n ++ lit "`"
  | UnknownCapabilityPort n p =>
      lit "node `" ++ as_str n ++ lit "` capability references unknown workflow port `"
      ++ as_str p ++ lit "`"
  | CapabilityDirectionMismatch n p claimed declared =>
      lit "node `" ++ as_str n ++ lit "` capability claims port `" ++ as_str p ++ lit "` may "
      ++ PortCapabilityDirection.label claimed ++ lit " but workflow declares "
      ++ PortCapabilityDirection.label declared
  | UnenforceableEffectCapability n eff =>
      lit "node `" ++ as_str n ++ lit "` declares effect capability `"
      ++ EffectCapability.debug eff
      ++ lit "` that is not enforceable by its execution boundary"
  end.
End CapabilityValidationError.
Notation CapabilityValidationError := CapabilityValidationError.CapabilityValidationError.

#[export] Instance CapabilityValidationError_eq_dec : EqDecision CapabilityValidationError.
Proof. solve_decision. Defined.

Definition reject_duplicate_effects (node_id : NodeId) (effects : list EffectCapability) :
    result unit CapabilityValidationError :=
  BTreeSet.reject_repeats (CapabilityValidationError.DuplicateEffect node_id) [] effects.

(** The loop of [reject_invalid_port_capabilities], which returns the two sets
    it fills. *)
Fixpoint collect_port_claims (node_id : NodeId) (receives emits : list PortId)
    (ports : list PortCapability) :
    result (list PortId * list PortId) CapabilityValidationError :=
  match ports with
  | [] => Ok (receives, emits)
  | port :: ports =>
      let port_id := PortCapability.port_id port in
      match PortCapability.direction port with
      | PortCapabilityDirection.Receive =>
          let (is_new, receives) := BTreeSet.insert_new port_id receives in
          if is_new then collect_port_claims node_id receives emits ports
          else Err (CapabilityValidationError.DuplicatePortCapability node_id port_id
                      (PortCapability.direction port))
      | PortCapabilityDirection.Emit =>
          let (is_new, emits) := BTreeSet.insert_new port_id emits in
          if is_new then collect_port_claims node_id receives emits ports
          else Err (CapabilityValidationError.DuplicatePortCapability node_id port_id
                      (PortCapability.direction port))
      end
  end.

Definition reject_invalid_port_capabilities (node_id : NodeId) (ports : list PortCapability) :
    result unit CapabilityValidationError :=
  let? sets := collect_port_claims node_id [] [] ports in
  match head (BTreeSet.intersection sets.1 sets.2) with
  | Some port_id => Err (CapabilityValidationError.ConflictingPortDirection node_id port_id)
  | None => Ok tt
  end.

Module NodeCapabilities.
Record NodeCapabilities : Set := mk {
  node_id : NodeId;
  ports : list PortCapability;
  effects : list EffectCapability;
}.

Definition new (node_id : NodeId) (ports : list PortCapability)
    (effects : list EffectCapability) : result NodeCapabilities CapabilityValidationError :=
  let? _ := reject_duplicate_effects node_id effects in
  let? _ := reject_invalid_port_capabilities node_id ports in
  Ok (mk node_id ports effects).

Definition native_passive (node_id : NodeId) (ports : list PortCapability) :
    result NodeCapabilities CapabilityValidationError :=
  new node_id ports [].

Definition allows_effect (c : NodeCapabilities) (effect : EffectCapability) : bool :=
  vec_contains effect (effects c).

Definition allows_port (c : NodeCapabilities) (port_id : PortId)
    (direction : PortCapabilityDirection) : bool :=
  existsb (λ port, bool_decide (PortCapability.port_id port = port_id)
                   && bool_decide (PortCapability.direction port = direction)) (ports c).
End NodeCapabilities.
Notation NodeCapabilities := NodeCapabilities.NodeCapabilities.

Definition workflow_direction_for (node : NodeDefinition) (port_id : PortId) :
    option PortCapabilityDirection :=
  if vec_contains port_id (NodeDefinition.input_ports node) then
    Some PortCapabilityDirection.Receive
  else if vec_contains port_id (NodeDefinition.output_ports node) then
    Some PortCapabilityDirection.Emit
  else None.

(** The body of the loop over [capability.ports()]. *)
Definition validate_port_capability (node : NodeDefinition) (capability : NodeCapabilities)
    (port : PortCapability) : result unit CapabilityValidationError :=
  let? declared := ok_or (workflow_direction_for node (PortCapability.port_id port))
    (CapabilityValidationError.UnknownCapabilityPort (NodeCapabilities.node_id capability)
       (PortCapability.port_id port)) in
  if bool_decide (PortCapability.direction port ≠ declared) then
    Err (CapabilityValidationError.CapabilityDirectionMismatch
           (NodeCapabilities.node_id capability) (PortCapability.port_id port)
           (PortCapability.direction port) declared)
  else Ok tt.

(** The body of the loop over [capabilities]. *)
Definition validate_node_capabilities (workflow : WorkflowDefinition)
    (capability : NodeCapabilities) : result unit CapabilityValidationError :=
  let? node := ok_or
    (iter_find (λ node, bool_decide (NodeDefinition.id node = NodeCapabilities.node_id capability))
       (WorkflowDefinition.nodes workflow))
    (CapabilityValidationError.UnknownCapabilityNode (NodeCapabilities.node_id capability)) in
  try_for_each (validate_port_capability node capability) (NodeCapabilities.ports capability).

Definition validate_workflow_capabilities (workflow : WorkflowDefinition)
    (capabilities : list NodeCapabilities) : result unit CapabilityValidationError :=
  try_for_each (validate_node_capabilities workflow) capabilities.

(** ** Specification *)

Definition claim_of (port : PortCapability) : PortId * PortCapabilityDirection :=
  (PortCapability.port_id port, PortCapability.direction port).

(** A port some claim receives from and some claim emits to. *)
Definition conflicting_port (ports : list PortCapability) (p : PortId) : Prop :=
  PortCapability.new p PortCapabilityDirection.Receive ∈ ports
  ∧ PortCapability.new p PortCapabilityDirection.Emit ∈ ports.

(** The type invariant of [NodeCapabilities]. *)
Record capabilities_wf (c : NodeCapabilities) : Prop := {
  caps_effects : NoDup (NodeCapabilities.effects c);
  caps_ports : NoDup (NodeCapabilities.ports c);
  caps_directed : ∀ p, ¬ conflicting_port (NodeCapabilities.ports c) p;
}.

(** The ports of a node a direction stands for. *)
Definition declared_ports (d : PortCapabilityDirection) (node : NodeDefinition) : list PortId :=
  match d with
  | PortCapabilityDirection.Receive => NodeDefinition.input_ports node
  | PortCapabilityDirection.Emit => NodeDefinition.output_ports node
  end.

Definition node_wf (node : NodeDefinition) : Prop :=
  NoDup (NodeDefinition.input_ports node ++ NodeDefinition.output_ports node).

(** What the construction functions of the workflow crate establish. *)
Definition workflow_wf (w : WorkflowDefinition) : Prop :=
  structurally_valid (WorkflowDefinition.nodes w) (WorkflowDefinition.edges w)
  ∧ Forall node_wf (WorkflowDefinition.nodes w).

(** A descriptor agrees with the topology. *)
Definition capability_aligned (w : WorkflowDefinition) (c : NodeCapabilities) : Prop :=
  ∃ node, node ∈ WorkflowDefinition.nodes w
    ∧ NodeDefinition.id node = NodeCapabilities.node_id c
    ∧ ∀ port, port ∈ NodeCapabilities.ports c →
        PortCapability.port_id port ∈ declared_ports (PortCapability.direction port) node.

(** ** Construction *)

Lemma collect_port_claims_spec node_id receives emits seen ports :
  (∀ p, p ∈ receives ↔ PortCapability.new p PortCapabilityDirection.Receive ∈ seen) →
  (∀ p, p ∈ emits ↔ PortCapability.new p PortCapabilityDirection.Emit ∈ seen) →
  BTreeSet.sorted_set receives →
  match first_repeat seen ports with
  | Some c => collect_port_claims node_id receives emits ports
      = Err (CapabilityValidationError.DuplicatePortCapability node_id
               (PortCapability.port_id c) (PortCapability.direction c))
  | None => ∃ receives' emits',
      collect_port_claims node_id receives emits ports = Ok (receives', emits')
      ∧ BTreeSet.sorted_set receives'
      ∧ (∀ p, p ∈ receives' ↔
           PortCapability.new p PortCapabilityDirection.Receive ∈ seen ++ ports)
      ∧ (∀ p, p ∈ emits' ↔ PortCapability.new p PortCapabilityDirection.Emit ∈ seen ++ ports)
  end.
Proof.
  revert receives emits seen. induction ports as [|[p d] ports IH]; intros R E seen HR HE Hs; simpl.
  { exists R, E. by rewrite app_nil_r. }
  set (S' := PortCapability.new p d :: seen).
  assert (Hgrow : ∀ q d', PortCapability.new q d' ∈ S' ↔
    (q = p ∧ d' = d) ∨ PortCapability.new q d' ∈ seen).
  { intros q d'. unfold S'. rewrite elem_of_cons. naive_solver. }
  assert (Happ : ∀ c, c ∈ S' ++ ports ↔ c ∈ seen ++ PortCapability.new p d :: ports)
    by (unfold S'; set_solver).
  case_decide as Hin; destruct d; unfold BTreeSet.contains; simpl.
  - rewrite bool_decide_eq_true_2; [done|]. by apply HR.
  - rewrite bool_decide_eq_true_2; [done|]. by apply HE.
  - rewrite bool_decide_eq_false_2 by (by rewrite HR). simpl.
    specialize (IH (BTreeSet.insert p R) E S').
    destruct (first_repeat S' ports); [apply IH|setoid_rewrite <- Happ; apply IH];
      intros; rewrite ?Hgrow, ?BTreeSet.elem_of_insert, ?HR, ?HE; naive_solver auto using BTreeSet.sorted_insert.
  - rewrite bool_decide_eq_false_2 by (by rewrite HE). simpl.
    specialize (IH R (BTreeSet.insert p E) S').
    destruct (first_repeat S' ports); [apply IH|setoid_rewrite <- Happ; apply IH];
      intros; rewrite ?Hgrow, ?BTreeSet.elem_of_insert, ?HR, ?HE; naive_solver.
Qed.

(** The port check, outcome by outcome. *)
Lemma reject_invalid_port_capabilities_spec node_id ports :
  match first_repeat [] ports with
  | Some c => reject_invalid_port_capabilities node_id ports
      = Err (CapabilityValidationError.DuplicatePortCapability node_id
               (PortCapability.port_id c) (PortCapability.direction c))
  | None =>
      (reject_invalid_port_capabilities node_id ports = Ok tt
       ∧ ∀ p, ¬ conflicting_port ports p)
      ∨ ∃ p, reject_invalid_port_capabilities node_id ports
             = Err (CapabilityValidationError.ConflictingPortDirection node_id p)
           ∧ conflicting_port ports p
           ∧ ∀ q, conflicting_port ports q → q = p ∨ ord_lt p q
  end.
Proof.
  pose proof (collect_port_claims_spec node_id [] [] [] ports) as Hc.
  unfold reject_invalid_port_capabilities.
  destruct (first_repeat [] ports) as [c|].
  { rewrite Hc; [done|set_solver|set_solver|constructor]. }
  destruct Hc as (R & E & -> & Hsort & HR & HE); [set_solver|set_solver|constructor|].
  simpl in *.
  assert (Hconf : ∀ p, p ∈ BTreeSet.intersection R E ↔ conflicting_port ports p).
  { intros p. unfold conflicting_port. by rewrite BTreeSet.elem_of_intersection, HR, HE. }
  assert (BTreeSet.sorted_set (BTreeSet.intersection R E)) as Hsi
    by (by apply BTreeSet.sorted_filter).
  destruct (BTreeSet.intersection R E) as [|p l]; simpl.
  - left. split; [done|]. intros p. rewrite <- Hconf. set_solver.
  - right. exists p. split; [done|]. split; [apply Hconf; left|].
    intros q Hq%Hconf. apply elem_of_cons in Hq as [->|Hq]; [by left|right].
    apply StronglySorted_inv in Hsi as [_ Hsi]. by eapply Forall_forall in Hsi.
Qed.

(** ** Alignment with the workflow *)

Lemma workflow_direction_for_spec node p d :
  node_wf node → workflow_direction_for node p = Some d ↔ p ∈ declared_ports d node.
Proof.
  intros (_ & Hdis & _)%NoDup_app. unfold workflow_direction_for, vec_contains.
  case_bool_decide as Hi; [|case_bool_decide as Ho]; destruct d; simpl; naive_solver.
Qed.

Lemma validate_port_capability_ok node c port :
  node_wf node →
  validate_port_capability node c port = Ok tt ↔
  PortCapability.port_id port ∈ declared_ports (PortCapability.direction port) node.
Proof.
  intros Hwf. rewrite <- workflow_direction_for_spec by done.
  unfold validate_port_capability. destruct (workflow_direction_for _ _) as [d|]; simpl; [|done].
  case_bool_decide; naive_solver.
Qed.

Lemma validate_node_capabilities_ok w c :
  workflow_wf w → validate_node_capabilities w c = Ok tt ↔ capability_aligned w c.
Proof.
  intros [[Hnd _] Hwf]. unfold validate_node_capabilities, capability_aligned.
  rewrite result_bind_ok. setoid_rewrite ok_or_ok. setoid_rewrite try_for_each_ok.
  rewrite Forall_forall in Hwf. fold (node_by_id (WorkflowDefinition.nodes w) (NodeCapabilities.node_id c)).
  split.
  - intros (node & Hf & Hp). apply iter_find_elem in Hf as [Hin Hid%bool_decide_eq_true].
    exists node. split_and!; [done|done|]. intros port Hport.
    rewrite Forall_forall in Hp. eapply validate_port_capability_ok; eauto.
  - intros (node & Hin & Hid & Hp). exists node. split.
    + rewrite <- Hid. by apply node_by_id_unique.
    + apply Forall_forall. intros port Hport.
      apply validate_port_capability_ok; auto.
Qed.

Lemma allows_port_true c p d :
  NodeCapabilities.allows_port c p d = true ↔ PortCapability.new p d ∈ NodeCapabilities.ports c.
Proof.
  unfold NodeCapabilities.allows_port. rewrite existsb_true_elem. split.
  - intros ([q e] & Hq & [<-%bool_decide_eq_true <-%bool_decide_eq_true]%andb_true_iff). done.
  - intros H. eexists. split; [done|]. simpl. by rewrite !bool_decide_eq_true_2.
Qed.

(** ** Properties *)

(** Every outcome of [NodeCapabilities::new]: a repeated effect is reported
    first (the first one repeated), then a repeated port claim (the first one
    repeated), then the least port claimed in both directions; otherwise the
    descriptor is returned as given and satisfies the type invariant. *)
Theorem node_capabilities_new_spec (node_id : NodeId) (ports : list PortCapability)
  (effects : list EffectCapability) :
  match NodeCapabilities.new node_id ports effects with
  | Ok c => c = NodeCapabilities.mk node_id ports effects ∧ capabilities_wf c
  | Err (CapabilityValidationError.DuplicateEffect n e) =>
      n = node_id ∧ first_repeat [] effects = Some e
  | Err (CapabilityValidationError.DuplicatePortCapability n p d) =>
      n = node_id ∧ NoDup effects ∧ first_repeat [] ports = Some (PortCapability.new p d)
  | Err (CapabilityValidationError.ConflictingPortDirection n p) =>
      n = node_id ∧ NoDup effects ∧ NoDup ports ∧ conflicting_port ports p
      ∧ ∀ q, conflicting_port ports q → q = p ∨ ord_lt p q
  | Err _ => False
  end.
Proof.
  unfold NodeCapabilities.new, reject_duplicate_effects. rewrite BTreeSet.reject_repeats_spec.
  destruct (first_repeat [] effects) as [e|] eqn:He; simpl; [done|].
  apply first_repeat_none in He as [He _].
  pose proof (reject_invalid_port_capabilities_spec node_id ports) as Hp.
  destruct (first_repeat [] ports) as [[p d]|] eqn:Hr.
  { rewrite Hp. simpl. done. }
  apply first_repeat_none in Hr as [Hr _].
  destruct Hp as [[-> Hp]|(p & -> & Hp & Hmin)]; simpl; [|done].
  done.
Qed.

(** On a workflow its constructors built, [validate_workflow_capabilities]
    accepts exactly the descriptor lists in which every descriptor names a
    declared node and claims only ports that node declares in that direction;
    and then no well-formed descriptor allows a port in the direction opposite
    to the declared one. *)
Theorem validate_workflow_capabilities_spec (w : WorkflowDefinition)
  (capabilities : list NodeCapabilities) (Hw : workflow_wf w) :
  (validate_workflow_capabilities w capabilities = Ok tt
   ↔ Forall (capability_aligned w) capabilities)
  ∧ (validate_workflow_capabilities w capabilities = Ok tt →
     ∀ c node p d, c ∈ capabilities → node ∈ WorkflowDefinition.nodes w →
       NodeDefinition.id node = NodeCapabilities.node_id c →
       NodeCapabilities.allows_port c p d = true → p ∈ declared_ports d node).
Proof.
  assert (Hiff : validate_workflow_capabilities w capabilities = Ok tt
    ↔ Forall (capability_aligned w) capabilities).
  { unfold validate_workflow_capabilities. rewrite try_for_each_ok, !Forall_forall.
    split; intros H c Hc; by apply validate_node_capabilities_ok, H. }
  split; [done|]. rewrite Hiff. intros Hall c node p d Hc Hnode Hid Hp%allows_port_true.
  rewrite Forall_forall in Hall. destruct (Hall c Hc) as (node' & Hn' & Hid' & Hports).
  assert (node' = node) as ->; [|by apply (Hports (PortCapability.new p d))].
  destruct Hw as [[Hnd _] _].
  pose proof (node_by_id_unique _ _ Hnd Hnode) as E1.
  pose proof (node_by_id_unique _ _ Hnd Hn') as E2.
  rewrite Hid in E1. rewrite Hid', E1 in E2. by injection E2.
Qed.

(** The diamond workflow of the tests, with a descriptor for its source. *)
Definition diamond_workflow : WorkflowDefinition :=
  WorkflowDefinition.new (ident "flow") (WorkflowGraph.mk diamond_nodes diamond_edges).
Definition left_capabilities : NodeCapabilities :=
  NodeCapabilities.mk (ident "left")
    [PortCapability.new (ident "in") PortCapabilityDirection.Receive;
     PortCapability.new (ident "out") PortCapabilityDirection.Emit] [EffectCapability.Clock].

Lemma diamond_workflow_wf : workflow_wf diamond_workflow.
Proof.
  split; [by apply (structural_check_ok _ _ tt)|].
  unfold node_wf. apply (bool_decide_eq_true_1 _). vm_compute. done.
Qed.

Lemma validate_workflow_capabilities_spec_witness :
  workflow_wf diamond_workflow
  ∧ Forall (capability_aligned diamond_workflow) [left_capabilities].
Proof.
  split; [exact diamond_workflow_wf|].
  apply (validate_workflow_capabilities_spec diamond_workflow [left_capabilities]
           diamond_workflow_wf).
  reflexivity.
Defined.
