(* ===== verification/Errors.v ===== *)
(** [pureflow-core], the shared error model
    (src/crates/pureflow-core/src/error.rs) and the port errors it absorbs
    (src/crates/pureflow-core/src/ports.rs).

    The error enums, their stable codes, visibility and retry guidance, the
    [Display] texts and every [From] conversion.  The channel and task errors
    of the [asupersync] runtime appear here only as the enums the conversions
    match on. *)

From S2P Require Import Prelude RustStr BTree Types Workflow Capability.

Module ErrorCode.
Inductive ErrorCode : Set :=
| InvalidIdentifier
| InvalidCapabilities
| NodeExecutionFailed
| ExecutionCancelled
| LifecycleObservationFailed
| MetadataCollectionFailed.

Definition as_str (c : ErrorCode) : rstr :=
  match c with
  | InvalidIdentifier => lit "CDT-VAL-001"
  | InvalidCapabilities => lit "CDT-VAL-002"
  | NodeExecutionFailed => lit "CDT-EXEC-001"
  | ExecutionCancelled => lit "CDT-CANCEL-001"
  | LifecycleObservationFailed => lit "CDT-LIFE-001"
  | MetadataCollectionFailed => lit "CDT-META-001"
  end.
End ErrorCode.
Notation ErrorCode := ErrorCode.ErrorCode.

Module ErrorVisibility.
Inductive ErrorVisibility : Set := User | Internal.
End ErrorVisibility.
Notation ErrorVisibility := ErrorVisibility.ErrorVisibility.

Module RetryDisposition.
Inductive RetryDisposition : Set := Never | Safe | Unknown.
End RetryDisposition.
Notation RetryDisposition := RetryDisposition.RetryDisposition.

#[export] Instance ErrorCode_eq_dec : EqDecision ErrorCode.
Proof. solve_decision. Defined.
#[export] Instance ErrorVisibility_eq_dec : EqDecision ErrorVisibility.
Proof. solve_decision. Defined.
#[export] Instance RetryDisposition_eq_dec : EqDecision RetryDisposition.
Proof. solve_decision. Defined.

Module ValidationError.
Inductive ValidationError : Set :=
| Identifier (err : IdentifierError)
| Capability (err : CapabilityValidationError).

Definition code (e : ValidationError) : ErrorCode :=
  match e with
  | Identifier _ => ErrorCode.InvalidIdentifier
  | Capability _ => ErrorCode.InvalidCapabilities
  end.

Definition fmt (e : ValidationError) : rstr :=
  match e with
  | Identifier err => lit "identifier validation failed: " ++ IdentifierError.fmt err
  | Capability err => lit "capability validation failed: " ++ CapabilityValidationError.fmt err
  end.
End ValidationError.
Notation ValidationError := ValidationError.ValidationError.

#[export] Instance ValidationError_eq_dec : EqDecision ValidationError.
Proof. solve_decision. Defined.

Module ExecutionError.
Record ExecutionError : Set := new { message : rstr }.
Definition fmt (e : ExecutionError) : rstr := lit "node execution failed: " ++ message e.
End ExecutionError.
Notation ExecutionError := ExecutionError.ExecutionError.

Module CancellationError.
Record CancellationError : Set := new { reason : rstr }.
Definition fmt (e : CancellationError) : rstr := lit "execution cancelled: " ++ reason e.
End CancellationError.
Notation CancellationError := CancellationError.CancellationError.

Module LifecycleError.
Record LifecycleError : Set := new { message : rstr }.
Definition fmt (e : LifecycleError) : rstr := lit "lifecycle observation failed: " ++ message e.
End LifecycleError.
Notation LifecycleError := LifecycleError.LifecycleError.

Module MetadataError.
Record MetadataError : Set := new { message : rstr }.
Definition fmt (e : MetadataError) : rstr := lit "metadata collection failed: " ++ message e.
End MetadataError.
Notation MetadataError := MetadataError.MetadataError.

#[export] Instance ExecutionError_eq_dec : EqDecision ExecutionError.
Proof. solve_decision. Defined.
#[export] Instance CancellationError_eq_dec : EqDecision CancellationError.
Proof. solve_decision. Defined.
#[export] Instance LifecycleError_eq_dec : EqDecision LifecycleError.
Proof. solve_decision. Defined.
#[export] Instance MetadataError_eq_dec : EqDecision MetadataError.
Proof. solve_decision. Defined.

(** ** Port errors (ports.rs) *)

Module PortSendError.
Inductive PortSendError : Set :=
| UnknownPort (port_id : PortId)
| Disconnected (port_id : PortId)
| Full (port_id : PortId)
| Cancelled (port_id : PortId)
| Rejected (port_id : PortId) (reason : rstr).

Definition fmt (e : PortSendError) : rstr :=
  match e with
  | UnknownPort p => lit "output port `" ++ as_str p ++ lit "` is not declared"
  | Disconnected p => lit "output port `" ++ as_str p ++ lit "` is disconnected"
  | Full p => lit "output port `" ++ as_str p ++ lit "` is full"
  | Cancelled p => lit "output port `" ++ as_str p ++ lit "` send cancelled"
  | Rejected p reason =>
      lit "output port `" ++ as_str p ++ lit "` rejected packet: " ++ reason
  end.
End PortSendError.
Notation PortSendError := PortSendError.PortSendError.

Module PortRecvError.
Inductive PortRecvError : Set :=
| UnknownPort (port_id : PortId)
| Disconnected (port_id : PortId)
| Cancelled (port_id : PortId).

Definition fmt (e : PortRecvError) : rstr :=
  match e with
  | UnknownPort p => lit "input port `" ++ as_str p ++ lit "` is not declared"
  | Disconnected p => lit "input port `" ++ as_str p ++ lit "` is disconnected"
  | Cancelled p => lit "input port `" ++ as_str p ++ lit "` receive cancelled"
  end.
End PortRecvError.
Notation PortRecvError := PortRecvError.PortRecvError.

#[export] Instance PortSendError_eq_dec : EqDecision PortSendError.
Proof. solve_decision. Defined.
#[export] Instance PortRecvError_eq_dec : EqDecision PortRecvError.
Proof. solve_decision. Defined.

(** ** The shared error *)

(** The cases of [asupersync]'s error enums the conversions distinguish; the
    texts of a cancel reason and of a panic payload are theirs to render. *)
Module JoinError.
Inductive JoinError : Set :=
| Cancelled (reason : rstr)
| Panicked (payload : rstr)
| PolledAfterCompletion.
End JoinError.
Notation JoinError := JoinError.JoinError.

Module SendError.
Inductive SendError : Set := Disconnected | Cancelled | Full.
End SendError.
Notation SendError := SendError.SendError.

Module RecvError.
Inductive RecvError : Set := Disconnected | Cancelled | Empty.
End RecvError.
Notation RecvError := RecvError.RecvError.

#[export] Instance SendError_eq_dec : EqDecision SendError.
Proof. solve_decision. Defined.
#[export] Instance RecvError_eq_dec : EqDecision RecvError.
Proof. solve_decision. Defined.

Module PureflowError.
Inductive PureflowError : Set :=
| Validation (err : ValidationError)
| Execution (err : ExecutionError)
| Cancellation (err : CancellationError)
| Lifecycle (err : LifecycleError)
| Metadata (err : MetadataError).

Definition execution (message : rstr) : PureflowError := Execution (ExecutionError.new message).
Definition cancelled (reason : rstr) : PureflowError :=
  Cancellation (CancellationError.new reason).
Definition lifecycle (message : rstr) : PureflowError := Lifecycle (LifecycleError.new message).
Definition metadata (message : rstr) : PureflowError := Metadata (MetadataError.new message).

Definition code (e : PureflowError) : ErrorCode :=
  match e with
  | Validation err => ValidationError.code err
  | Execution _ => ErrorCode.NodeExecutionFailed
  | Cancellation _ => ErrorCode.ExecutionCancelled
  | Lifecycle _ => ErrorCode.LifecycleObservationFailed
  | Metadata _ => ErrorCode.MetadataCollectionFailed
  end.

Definition visibility (e : PureflowError) : ErrorVisibility :=
  match e with
  | Validation _ | Cancellation _ => ErrorVisibility.User
  | Execution _ | Lifecycle _ | Metadata _ => ErrorVisibility.Internal
  end.

Definition retry_disposition (e : PureflowError) : RetryDisposition :=
  match e with
  | Validation _ => RetryDisposition.Never
  | Execution _ | Lifecycle _ | Metadata _ => RetryDisposition.Unknown
  | Cancellation _ => RetryDisposition.Safe
  end.

Definition fmt (e : PureflowError) : rstr :=
  ErrorCode.as_str (code e) ++ lit ": " ++
  match e with
  | Validation err => ValidationError.fmt err
  | Execution err => ExecutionError.fmt err
  | Cancellation err => CancellationError.fmt err
  | Lifecycle err => LifecycleError.fmt err
  | Metadata err => MetadataError.fmt err
  end.

(** The [From] conversions. *)
Definition from_identifier (e : IdentifierError) : PureflowError :=
  Validation (ValidationError.Identifier e).
Definition from_capability (e : CapabilityValidationError) : PureflowError :=
  Validation (ValidationError.Capability e).

Definition from_join (e : JoinError) : PureflowError :=
  match e with
  | JoinError.Cancelled reason => cancelled reason
  | JoinError.Panicked payload => execution (lit "asupersync task panicked: " ++ payload)
  | JoinError.PolledAfterCompletion =>
      execution (lit "asupersync task join polled after completion")
  end.

Definition from_send (e : SendError) : PureflowError :=
  match e with
  | SendError.Disconnected => execution (lit "asupersync send failed: receiver disconnected")
  | SendError.Cancelled => cancelled (lit "asupersync send cancelled")
  | SendError.Full => execution (lit "asupersync send failed: bounded channel full")
  end.

Definition from_recv (e : RecvError) : PureflowError :=
  match e with
  | RecvError.Disconnected => execution (lit "asupersync receive failed: sender disconnected")
  | RecvError.Cancelled => cancelled (lit "asupersync receive cancelled")
  | RecvError.Empty => execution (lit "asupersync receive failed: channel empty")
  end.

Definition from_port_send (e : PortSendError) : PureflowError :=
  match e with
  | PortSendError.Cancelled _ => cancelled (PortSendError.fmt e)
  | _ => execution (PortSendError.fmt e)
  end.

Definition from_port_recv (e : PortRecvError) : PureflowError :=
  match e with
  | PortRecvError.Cancelled _ => cancelled (PortRecvError.fmt e)
  | _ => execution (PortRecvError.fmt e)
  end.
End PureflowError.
Notation PureflowError := PureflowError.PureflowError.

#[export] Instance PureflowError_eq_dec : EqDecision PureflowError.
Proof. solve_decision. Defined.

(** ** Properties *)

Lemma error_code_as_str_inj c1 c2 :
  ErrorCode.as_str c1 = ErrorCode.as_str c2 → c1 = c2.
Proof. by destruct c1, c2. Qed.

(** No code contains a colon, so a rendered error splits at its first colon
    into code and description. *)
Fixpoint before_colon (s : rstr) : rstr :=
  match s with
  | [] => []
  | c :: s => if N.eqb c 58 then [] else c :: before_colon s
  end.

Lemma before_colon_code c rest :
  before_colon (ErrorCode.as_str c ++ lit ": " ++ rest) = ErrorCode.as_str c.
Proof. by destruct c. Qed.

(** The rendered text identifies the error's code, and with it the user
    visibility and the retry guidance: two errors that render alike agree on
    all three; retrying is called safe exactly for cancellations, and a channel
    or port failure becomes a cancellation exactly when the channel reported
    one. *)
Theorem error_text_determines_policy (e1 e2 : PureflowError) :
  (PureflowError.fmt e1 = PureflowError.fmt e2 →
   PureflowError.code e1 = PureflowError.code e2
   ∧ PureflowError.visibility e1 = PureflowError.visibility e2
   ∧ PureflowError.retry_disposition e1 = PureflowError.retry_disposition e2)
  ∧ (PureflowError.retry_disposition e1 = RetryDisposition.Safe
     ↔ PureflowError.code e1 = ErrorCode.ExecutionCancelled)
  ∧ (∀ e, PureflowError.code (PureflowError.from_port_send e) = ErrorCode.ExecutionCancelled
       ↔ ∃ p, e = PortSendError.Cancelled p)
  ∧ (∀ e, PureflowError.code (PureflowError.from_port_recv e) = ErrorCode.ExecutionCancelled
       ↔ ∃ p, e = PortRecvError.Cancelled p).
Proof.
  split_and!.
  - intros Heq%(f_equal before_colon). unfold PureflowError.fmt in Heq.
    rewrite !before_colon_code in Heq. apply error_code_as_str_inj in Heq.
    split; [done|]. destruct e1 as [[]| | | |], e2 as [[]| | | |]; simpl in *; done.
  - by destruct e1 as [[]| | | |].
  - intros []; simpl; naive_solver.
  - intros []; simpl; naive_solver.
Qed.
