(* ===== verification/Contract.v ===== *)
(** [pureflow-contract], node contracts
    (src/crates/pureflow-contract/src/lib.rs).

    A contract restates a node's ports with optional schema references and
    declares how the node runs.  [validate_workflow_contracts] is modelled
    with its maps, its three loops and their order; the specification says it
    with list lookups only. *)

From S2P Require Import Prelude RustStr BTree Types Workflow Structure Capability Errors.

Module PortContract.
(** [SchemaRef] is a newtype over [String]. *)
Record SchemaRef : Set := mk_schema { schema_str : rstr }.
Record PortContract : Set :=
  new { port_id : PortId; direction : PortDirection; schema : option SchemaRef }.
End PortContract.
Notation SchemaRef := PortContract.SchemaRef.
Notation PortContract := PortContract.PortContract.

Module ExecutionMode.
Inductive ExecutionMode : Set := Native | Wasm | Process.
End ExecutionMode.
Notation ExecutionMode := ExecutionMode.ExecutionMode.

Module Determinism.
Inductive Determinism : Set := Deterministic | NonDeterministic | Unknown.
End Determinism.
Notation Determinism := Determinism.Determinism.

#[export] Instance SchemaRef_eq_dec : EqDecision SchemaRef.
Proof. solve_decision. Defined.
#[export] Instance PortContract_eq_dec : EqDecision PortContract.
Proof. solve_decision. Defined.
#[export] Instance ExecutionMode_eq_dec : EqDecision ExecutionMode.
Proof. solve_decision. Defined.
#[export] Instance Determinism_eq_dec : EqDecision Determinism.
Proof. solve_decision. Defined.

Module ContractValidationError.
Inductive ContractValidationError : Set :=
| EmptySchemaRef
| DuplicatePortContract (node_id : NodeId) (port_id : PortId)
| UnknownWorkflowNode (node_id : NodeId)
| UnknownWorkflowPort (node_id : NodeId) (port_id : PortId) (direction : PortDirection)
| PortDirectionMismatch (node_id : NodeId) (port_id : PortId)
    (workflow contract : PortDirection)
| MissingCapabilityDescriptor (node_id : NodeId)
| SchemaMismatch (edge_index : nat) (source_node_id : NodeId) (source_port_id : PortId)
    (target_node_id : NodeId) (target_port_id : PortId)
| Capability (error : CapabilityValidationError).

(** [impl Display for ContractValidationError]. *)
Definition fmt (e : ContractValidationError) : rstr :=
  match e with
  | EmptySchemaRef => lit "schema reference cannot be empty"
  | DuplicatePortContract n p =>
      lit "node `" ++ as_str n ++ lit "` declares duplicate contract port `" ++ as_str p ++ lit "`"
  | UnknownWorkflowNode n =>
      lit "contract references unknown workflow node `" ++ as_str n ++ lit "`"
  | UnknownWorkflowPort n p d =>
      lit "node `" ++ as_str n ++ lit "` contract references unknown " ++ PortDirection.label d
      ++ lit " workflow port `" ++ as_str p ++ lit "`"
  | PortDirectionMismatch n p workflow contract =>
      lit "node `" ++ as_str n ++ lit "` contract port `" ++ as_str p ++ lit "` is "
      ++ PortDirection.label contract ++ lit " but workflow declares "
      ++ PortDirection.label workflow
  | MissingCapabilityDescriptor n =>
      lit "no capability descriptor supplied for workflow node `" ++ as_str n ++ lit "`"
  | SchemaMismatch i sn sp tn tp =>
      lit "edge " ++ show_nat i ++ lit " from `" ++ as_str sn ++ lit ":" ++ as_str sp
      ++ lit "` to `" ++ as_str tn ++ lit ":" ++ as_str tp
      ++ lit "` has incompatible schemas"
  | Capability error =>
      lit "capability validation failed: " ++ CapabilityValidationError.fmt error
  end.
End ContractValidationError.
Notation ContractValidationError := ContractValidationError.ContractValidationError.

#[export] Instance ContractValidationError_eq_dec : EqDecision ContractValidationError.
Proof. solve_decision. Defined.

Definition SchemaRef_new (value : rstr) : result SchemaRef ContractValidationError :=
  if vec_is_empty (trim value) then Err ContractValidationError.EmptySchemaRef
  else Ok (PortContract.mk_schema value).

(** [reject_duplicate_ports]: the source keeps a map, of which only the keys
    matter. *)
Definition reject_duplicate_contract_ports (node_id : NodeId) (ports : list PortContract) :
    result unit ContractValidationError :=
  BTreeSet.reject_repeats (ContractValidationError.DuplicatePortContract node_id) []
    (PortContract.port_id <$> ports).

Module NodeContract.
Record NodeContract : Set := mk {
  id : NodeId;
  ports : list PortContract;
  execution_mode : ExecutionMode;
  determinism : Determinism;
  retry : RetryDisposition;
}.

Definition new (id : NodeId) (ports : list PortContract) (execution_mode : ExecutionMode)
    (determinism : Determinism) (retry : RetryDisposition) :
    result NodeContract ContractValidationError :=
  let? _ := reject_duplicate_contract_ports id ports in
  Ok (mk id ports execution_mode determinism retry).

Definition port_map (c : NodeContract) : btree_map PortId PortContract :=
  BTreeMap.collect ((λ port, (PortContract.port_id port, port)) <$> ports c).
End NodeContract.
Notation NodeContract := NodeContract.NodeContract.

#[export] Instance NodeContract_eq_dec : EqDecision NodeContract.
Proof. solve_decision. Defined.

(** The current strict boundaries import no host effects. *)
Definition strict_boundary_supports_effect (_execution_mode : ExecutionMode)
    (_effect : EffectCapability) : bool := false.

Definition validate_enforceable_capabilities (contract : NodeContract)
    (capability : NodeCapabilities) : result unit ContractValidationError :=
  match NodeContract.execution_mode contract with
  | ExecutionMode.Native => Ok tt
  | ExecutionMode.Wasm | ExecutionMode.Process =>
      try_for_each (λ effect,
        if negb (strict_boundary_supports_effect (NodeContract.execution_mode contract) effect)
        then Err (ContractValidationError.Capability
                    (CapabilityValidationError.UnenforceableEffectCapability
                       (NodeCapabilities.node_id capability) effect))
        else Ok tt) (NodeCapabilities.effects capability)
  end.

Definition workflow_port_map (node : NodeDefinition) : btree_map PortId PortDirection :=
  BTreeMap.collect
    (((λ p, (p, PortDirection.Input)) <$> NodeDefinition.input_ports node)
     ++ ((λ p, (p, PortDirection.Output)) <$> NodeDefinition.output_ports node)).

Definition validate_node_contract (node : NodeDefinition) (contract : NodeContract) :
    result unit ContractValidationError :=
  let workflow_ports := workflow_port_map node in
  let contract_ports := NodeContract.port_map contract in
  let? _ := try_for_each (λ '(port_id, workflow_direction),
    let? contract_port := ok_or (BTreeMap.get port_id contract_ports)
      (ContractValidationError.UnknownWorkflowPort (NodeDefinition.id node) port_id
         workflow_direction) in
    if bool_decide (PortContract.direction contract_port ≠ workflow_direction) then
      Err (ContractValidationError.PortDirectionMismatch (NodeDefinition.id node) port_id
             workflow_direction (PortContract.direction contract_port))
    else Ok tt) workflow_ports in
  try_for_each (λ '(port_id, contract_port),
    if negb (BTreeMap.contains_key port_id workflow_ports) then
      Err (ContractValidationError.UnknownWorkflowPort (NodeDefinition.id node) port_id
             (PortContract.direction contract_port))
    else Ok tt) contract_ports.

Definition port_schema (contract : NodeContract) (port_id : PortId) : option SchemaRef :=
  match iter_find (λ port, bool_decide (PortContract.port_id port = port_id))
          (NodeContract.ports contract) with
  | Some port => PortContract.schema port
  | None => None
  end.

(** The body of the loop of [validate_edge_schema_compatibility]. *)
Definition validate_edge_schema (contracts : btree_map NodeId NodeContract)
    (ie : nat * EdgeDefinition) : result unit ContractValidationError :=
  let source := EdgeDefinition.source ie.2 in
  let target := EdgeDefinition.target ie.2 in
  let? source_contract := ok_or (BTreeMap.get (EdgeEndpoint.node_id source) contracts)
    (ContractValidationError.UnknownWorkflowNode (EdgeEndpoint.node_id source)) in
  let? target_contract := ok_or (BTreeMap.get (EdgeEndpoint.node_id target) contracts)
    (ContractValidationError.UnknownWorkflowNode (EdgeEndpoint.node_id target)) in
  match port_schema source_contract (EdgeEndpoint.port_id source),
        port_schema target_contract (EdgeEndpoint.port_id target) with
  | Some source_schema, Some target_schema =>
      if bool_decide (source_schema ≠ target_schema) then
        Err (ContractValidationError.SchemaMismatch ie.1
               (EdgeEndpoint.node_id source) (EdgeEndpoint.port_id source)
               (EdgeEndpoint.node_id target) (EdgeEndpoint.port_id target))
      else Ok tt
  | _, _ => Ok tt
  end.

Definition validate_edge_schema_compatibility (workflow : WorkflowDefinition)
    (contracts : btree_map NodeId NodeContract) : result unit ContractValidationError :=
  try_for_each (validate_edge_schema contracts) (enumerate (WorkflowDefinition.edges workflow)).

Definition validate_workflow_contracts (workflow : WorkflowDefinition)
    (contracts : list NodeContract) (capabilities : list NodeCapabilities) :
    result unit ContractValidationError :=
  let? _ := map_err ContractValidationError.Capability
    (validate_workflow_capabilities workflow capabilities) in
  let contract_map := BTreeMap.collect ((λ c, (NodeContract.id c, c)) <$> contracts) in
  let capability_map :=
    BTreeMap.collect ((λ c, (NodeCapabilities.node_id c, c)) <$> capabilities) in
  let? _ := try_for_each (λ node,
    let? contract := ok_or (BTreeMap.get (NodeDefinition.id node) contract_map)
      (ContractValidationError.UnknownWorkflowNode (NodeDefinition.id node)) in
    let? capability := ok_or (BTreeMap.get (NodeDefinition.id node) capability_map)
      (ContractValidationError.MissingCapabilityDescriptor (NodeDefinition.id node)) in
    let? _ := validate_node_contract node contract in
    validate_enforceable_capabilities contract capability) (WorkflowDefinition.nodes workflow) in
  let? _ := try_for_each (λ contract,
    if forallb (λ node, bool_decide (NodeDefinition.id node ≠ NodeContract.id contract))
         (WorkflowDefinition.nodes workflow)
    then Err (ContractValidationError.UnknownWorkflowNode (NodeContract.id contract))
    else Ok tt) contracts in
  validate_edge_schema_compatibility workflow contract_map.

(** ** Specification *)

Definition contract_wf (c : NodeContract) : Prop :=
  NoDup (PortContract.port_id <$> NodeContract.ports c).

(** The contract a node is checked against: the last one with its identifier. *)
Definition contract_for (contracts : list NodeContract) (n : NodeId) : option NodeContract :=
  last (filter (λ c, NodeContract.id c = n) contracts).
Definition capability_for (capabilities : list NodeCapabilities) (n : NodeId) :
    option NodeCapabilities :=
  last (filter (λ c, NodeCapabilities.node_id c = n) capabilities).

(** A contract declares the ports of its node, each in its direction, and no
    others. *)
Definition contract_matches (node : NodeDefinition) (c : NodeContract) : Prop :=
  ∀ p d, p ∈ ports_of d node ↔ ∃ s, PortContract.new p d s ∈ NodeContract.ports c.

(** Only native nodes may declare host effects. *)
Definition effects_enforceable (c : NodeContract) (cap : NodeCapabilities) : Prop :=
  NodeContract.execution_mode c = ExecutionMode.Native ∨ NodeCapabilities.effects cap = [].

Definition schemas_compatible (contracts : list NodeContract) (e : EdgeDefinition) : Prop :=
  ∀ cs ct ss ts,
    contract_for contracts (EdgeEndpoint.node_id (EdgeDefinition.source e)) = Some cs →
    contract_for contracts (EdgeEndpoint.node_id (EdgeDefinition.target e)) = Some ct →
    PortContract.new (EdgeEndpoint.port_id (EdgeDefinition.source e)) PortDirection.Output (Some ss)
      ∈ NodeContract.ports cs →
    PortContract.new (EdgeEndpoint.port_id (EdgeDefinition.target e)) PortDirection.Input (Some ts)
      ∈ NodeContract.ports ct →
    ss = ts.

(** A node has a matching contract and an enforceable descriptor. *)
Definition node_covered (contracts : list NodeContract) (capabilities : list NodeCapabilities)
    (node : NodeDefinition) : Prop :=
  ∃ c cap, contract_for contracts (NodeDefinition.id node) = Some c
    ∧ capability_for capabilities (NodeDefinition.id node) = Some cap
    ∧ contract_matches node c ∧ effects_enforceable c cap.

Record contracts_valid (w : WorkflowDefinition) (contracts : list NodeContract)
    (capabilities : list NodeCapabilities) : Prop := {
  cv_capabilities : Forall (capability_aligned w) capabilities;
  cv_nodes : ∀ node, node ∈ WorkflowDefinition.nodes w →
    node_covered contracts capabilities node;
  cv_known : ∀ c, c ∈ contracts → NodeContract.id c ∈ node_names (WorkflowDefinition.nodes w);
  cv_schemas : Forall (schemas_compatible contracts) (WorkflowDefinition.edges w);
}.

(** ** Node contracts *)

Lemma workflow_port_map_get node p d :
  node_wf node →
  BTreeMap.get p (workflow_port_map node) = Some d ↔ p ∈ ports_of d node.
Proof.
  intros Hwf. unfold workflow_port_map. rewrite BTreeMap.get_collect.
  - rewrite elem_of_app, !list_elem_of_fmap. destruct d; simpl; naive_solver.
  - rewrite fmap_app, <- !list_fmap_compose. unfold compose. simpl.
    by rewrite !list_fmap_id.
Qed.

Lemma port_map_get c p port :
  contract_wf c →
  BTreeMap.get p (NodeContract.port_map c) = Some port ↔
  port ∈ NodeContract.ports c ∧ PortContract.port_id port = p.
Proof.
  intros Hwf. unfold NodeContract.port_map. rewrite BTreeMap.get_collect.
  - rewrite list_elem_of_fmap. naive_solver.
  - rewrite <- list_fmap_compose. done.
Qed.

(** The check of one declared port. *)
Definition port_declared_as (contract_ports : btree_map PortId PortContract) (p : PortId)
    (d : PortDirection) : Prop :=
  ∃ port, BTreeMap.get p contract_ports = Some port ∧ PortContract.direction port = d.

Lemma validate_node_contract_maps node c u :
  validate_node_contract node c = Ok u ↔
  (∀ p d, BTreeMap.get p (workflow_port_map node) = Some d →
     port_declared_as (NodeContract.port_map c) p d)
  ∧ (∀ p port, BTreeMap.get p (NodeContract.port_map c) = Some port →
     is_Some (BTreeMap.get p (workflow_port_map node))).
Proof.
  unfold validate_node_contract. rewrite result_then_ok, !try_for_each_ok.
  rewrite !BTreeMap.Forall_get by (unfold workflow_port_map, NodeContract.port_map; auto with pureflow).
  unfold port_declared_as. split.
  - intros [Hfwd Hbwd]. split.
    + intros p d Hp. specialize (Hfwd p d Hp). apply result_bind_ok in Hfwd as (port & Hg & Hd).
      apply ok_or_ok in Hg. exists port. split; [done|].
      by case_bool_decide.
    + intros p port Hp. specialize (Hbwd p port Hp). simpl in Hbwd.
      apply BTreeMap.contains_key_true. by destruct (BTreeMap.contains_key _ _).
  - intros [Hfwd Hbwd]. split.
    + intros p d (port & Hg & <-)%Hfwd. rewrite Hg. simpl. by rewrite bool_decide_eq_false_2 by naive_solver.
    + intros p port Hk%Hbwd%BTreeMap.contains_key_true. by rewrite Hk.
Qed.

Lemma validate_node_contract_ok node c u :
  node_wf node → contract_wf c →
  validate_node_contract node c = Ok u ↔ contract_matches node c.
Proof.
  intros Hn Hc. rewrite validate_node_contract_maps. unfold port_declared_as, contract_matches.
  unfold is_Some. setoid_rewrite (λ p d, workflow_port_map_get node p d Hn).
  setoid_rewrite (λ p d, port_map_get c p d Hc). split.
  - intros [Hfwd Hbwd] p d. split.
    + intros ([q e s] & [? ?] & ?)%Hfwd. naive_solver.
    + intros (s & Hin). destruct (Hbwd p (PortContract.new p d s)) as [d' Hd']; [done|].
      destruct (Hfwd p d' Hd') as (port & [Hport Hp] & <-).
      assert (port = PortContract.new p d s) as ->; [|done].
      apply (inj Some). rewrite <- (proj2 (port_map_get c p port Hc)) by done.
      by apply port_map_get.
  - intros Hm. split.
    + intros p d (s & Hin)%Hm. by exists (PortContract.new p d s).
    + intros p [q d s] [Hin Hq]. simpl in Hq. subst q. exists d. apply Hm. eauto.
Qed.

Lemma validate_enforceable_capabilities_ok c cap u :
  validate_enforceable_capabilities c cap = Ok u ↔ effects_enforceable c cap.
Proof.
  unfold validate_enforceable_capabilities, effects_enforceable, strict_boundary_supports_effect.
  destruct u, (NodeContract.execution_mode c); [naive_solver|..];
    destruct (NodeCapabilities.effects cap); simpl; naive_solver.
Qed.

Lemma contract_for_wf contracts n c :
  Forall contract_wf contracts → contract_for contracts n = Some c → contract_wf c.
Proof.
  intros Hwf Hl%last_Some_elem_of. apply list_elem_of_filter in Hl as [Hid Hin].
  rewrite Forall_forall in Hwf. auto.
Qed.

Lemma port_schema_spec c p d s :
  contract_wf c → (∃ s', PortContract.new p d s' ∈ NodeContract.ports c) →
  port_schema c p = Some s ↔ PortContract.new p d (Some s) ∈ NodeContract.ports c.
Proof.
  intros Hwf (s' & Hin). unfold port_schema.
  assert (Huniq : ∀ port, port ∈ NodeContract.ports c → PortContract.port_id port = p →
    port = PortContract.new p d s').
  { intros port Hport Hp.
    pose proof (proj2 (port_map_get c p port Hwf) (conj Hport Hp)) as E1.
    pose proof (proj2 (port_map_get c p _ Hwf) (conj Hin eq_refl)) as E2. congruence. }
  destruct (iter_find _ _) as [port|] eqn:Hf.
  - apply iter_find_elem in Hf as [Hport Hp%bool_decide_eq_true].
    rewrite (Huniq port) by done. simpl. split; [by intros ->|].
    intros Hs. apply Huniq in Hs; [congruence|done].
  - apply iter_find_none in Hf. rewrite Forall_forall in Hf. specialize (Hf _ Hin).
    simpl in Hf. apply bool_decide_eq_false in Hf. done.
Qed.

(** ** The whole validation *)

Section workflow.
Variables (w : WorkflowDefinition) (contracts : list NodeContract)
  (capabilities : list NodeCapabilities).
Hypothesis Hw : workflow_wf w.
Hypothesis Hwf : Forall contract_wf contracts.

Notation contract_map := (BTreeMap.collect ((λ c, (NodeContract.id c, c)) <$> contracts)).

(** The loop over the workflow's nodes. *)
Lemma node_check_ok node u :
  node ∈ WorkflowDefinition.nodes w →
  (let? contract := ok_or (BTreeMap.get (NodeDefinition.id node) contract_map)
     (ContractValidationError.UnknownWorkflowNode (NodeDefinition.id node)) in
   let? capability := ok_or (BTreeMap.get (NodeDefinition.id node)
       (BTreeMap.collect ((λ c, (NodeCapabilities.node_id c, c)) <$> capabilities)))
     (ContractValidationError.MissingCapabilityDescriptor (NodeDefinition.id node)) in
   let? _ := validate_node_contract node contract in
   validate_enforceable_capabilities contract capability) = Ok u ↔
  node_covered contracts capabilities node.
Proof.
  intros Hin. unfold node_covered. rewrite !BTreeMap.get_collect_last.
  fold (contract_for contracts (NodeDefinition.id node)).
  fold (capability_for capabilities (NodeDefinition.id node)).
  assert (Hnode : node_wf node).
  { destruct Hw as [_ Hn]. rewrite Forall_forall in Hn. auto. }
  destruct (contract_for _ _) as [c|] eqn:Hc; simpl; [|naive_solver].
  destruct (capability_for _ _) as [cap|]; simpl; [|naive_solver].
  apply contract_for_wf in Hc; [|done].
  rewrite result_then_ok, validate_node_contract_ok, validate_enforceable_capabilities_ok by done.
  naive_solver.
Qed.

Lemma known_contract_ok c u :
  (if forallb (λ node, bool_decide (NodeDefinition.id node ≠ NodeContract.id c))
        (WorkflowDefinition.nodes w)
   then Err (ContractValidationError.UnknownWorkflowNode (NodeContract.id c))
   else Ok tt) = Ok u ↔ NodeContract.id c ∈ node_names (WorkflowDefinition.nodes w).
Proof.
  destruct u. unfold node_names. rewrite list_elem_of_fmap. destruct (forallb _ _) eqn:Hf.
  - split; [done|]. intros (node & Hid & Hin). rewrite forallb_forall in Hf.
    apply list_elem_of_In, Hf, bool_decide_eq_true in Hin. done.
  - split; [intros _|done]. destruct (decide (Exists (λ node, NodeContract.id c = NodeDefinition.id node)
      (WorkflowDefinition.nodes w))) as [(node & ? & ?)%Exists_exists|Hne]; [by exists node|].
    assert (forallb (λ node, bool_decide (NodeDefinition.id node ≠ NodeContract.id c))
      (WorkflowDefinition.nodes w) = true); [|congruence].
    apply forallb_forall. intros node Hin%list_elem_of_In. apply bool_decide_eq_true.
    intros Heq. apply Hne, Exists_exists. by exists node.
Qed.

(** An endpoint of an edge names a port its node's contract declares. *)
Lemma endpoint_contract ep d :
  endpoint_ok (WorkflowDefinition.nodes w) ep d →
  (∀ node, node ∈ WorkflowDefinition.nodes w → node_covered contracts capabilities node) →
  ∃ c, contract_for contracts (EdgeEndpoint.node_id ep) = Some c
    ∧ ∀ s, port_schema c (EdgeEndpoint.port_id ep) = Some s ↔
           PortContract.new (EdgeEndpoint.port_id ep) d (Some s) ∈ NodeContract.ports c.
Proof.
  intros (node & Hin & Hid & Hport) Hnodes.
  destruct (Hnodes node Hin) as (c & cap & Hc & _ & Hm & _). rewrite <- Hid.
  exists c. split; [done|]. intros s. apply port_schema_spec; [by eapply contract_for_wf|].
  by apply Hm.
Qed.

Lemma edge_schema_ok i e u :
  e ∈ WorkflowDefinition.edges w →
  (∀ node, node ∈ WorkflowDefinition.nodes w → node_covered contracts capabilities node) →
  validate_edge_schema contract_map (i, e) = Ok u ↔ schemas_compatible contracts e.
Proof.
  intros He Hnodes. destruct Hw as [[_ Hedges] _]. rewrite Forall_forall in Hedges.
  destruct (Hedges e He) as [Hs Ht].
  apply endpoint_contract in Hs as (cs & Hcs & Hss); [|done].
  apply endpoint_contract in Ht as (ct & Hct & Htt); [|done].
  unfold validate_edge_schema, schemas_compatible. simpl.
  rewrite !BTreeMap.get_collect_last.
  fold (contract_for contracts (EdgeEndpoint.node_id (EdgeDefinition.source e))).
  fold (contract_for contracts (EdgeEndpoint.node_id (EdgeDefinition.target e))).
  rewrite Hcs, Hct. simpl.
  destruct u, (port_schema cs _) as [ss|] eqn:Es, (port_schema ct _) as [ts|] eqn:Et;
    [case_bool_decide|..]; naive_solver.
Qed.

Lemma validate_workflow_contracts_ok :
  validate_workflow_contracts w contracts capabilities = Ok tt ↔
  contracts_valid w contracts capabilities.
Proof.
  unfold validate_workflow_contracts.
  rewrite !result_then_ok, map_err_ok. unfold validate_workflow_capabilities.
  unfold validate_edge_schema_compatibility. rewrite !try_for_each_ok, !Forall_forall.
  setoid_rewrite known_contract_ok. split.
  - intros (Hcap & Hn & Hk & He).
    assert (Hn' : ∀ node, node ∈ WorkflowDefinition.nodes w →
      node_covered contracts capabilities node).
    { intros node Hin. apply (node_check_ok node tt); auto. }
    split; [|done|done|]; apply Forall_forall.
    + intros c Hc. apply validate_node_capabilities_ok; auto.
    + intros e (i & Hi)%list_elem_of_lookup. eapply (edge_schema_ok i e tt); [|done|].
      * by eapply list_elem_of_lookup_2.
      * apply He. by apply elem_of_enumerate.
  - intros [Hcap Hn Hk He]. rewrite Forall_forall in Hcap; rewrite Forall_forall in He. split_and!.
    + intros c Hc. apply validate_node_capabilities_ok; auto.
    + intros node Hin. apply node_check_ok; auto.
    + done.
    + intros [i e] Hi%elem_of_enumerate%list_elem_of_lookup_2.
      apply edge_schema_ok; auto.
Qed.
End workflow.

(** ** Lists in which every contract and every descriptor counts *)

(** The contracts and descriptors fit a workflow: all of them do, not only those that a
    lookup by node finds. *)
Record contracts_fit (w : WorkflowDefinition) (contracts : list NodeContract)
    (capabilities : list NodeCapabilities) : Prop := {
  fit_capabilities : ∀ cap, cap ∈ capabilities → capability_aligned w cap;
  fit_known : ∀ c, c ∈ contracts → NodeContract.id c ∈ node_names (WorkflowDefinition.nodes w);
  fit_contracts : ∀ c node, c ∈ contracts → node ∈ WorkflowDefinition.nodes w →
    NodeContract.id c = NodeDefinition.id node → contract_matches node c;
  fit_effects : ∀ c cap, c ∈ contracts → cap ∈ capabilities →
    NodeContract.id c = NodeCapabilities.node_id cap → effects_enforceable c cap;
  fit_covered : ∀ node, node ∈ WorkflowDefinition.nodes w →
    (∃ c, c ∈ contracts ∧ NodeContract.id c = NodeDefinition.id node)
    ∧ ∃ cap, cap ∈ capabilities ∧ NodeCapabilities.node_id cap = NodeDefinition.id node;
  fit_schemas : ∀ e cs ct ss ts, e ∈ WorkflowDefinition.edges w → cs ∈ contracts → ct ∈ contracts →
    NodeContract.id cs = EdgeEndpoint.node_id (EdgeDefinition.source e) →
    NodeContract.id ct = EdgeEndpoint.node_id (EdgeDefinition.target e) →
    PortContract.new (EdgeEndpoint.port_id (EdgeDefinition.source e)) PortDirection.Output (Some ss)
      ∈ NodeContract.ports cs →
    PortContract.new (EdgeEndpoint.port_id (EdgeDefinition.target e)) PortDirection.Input (Some ts)
      ∈ NodeContract.ports ct →
    ss = ts;
}.

Section last_of_key.
Context {A K : Type} `{EqDecision K} (key : A → K).
Implicit Types (l : list A) (k : K).

Lemma last_key_elem l k x : last (filter (λ y, key y = k) l) = Some x → x ∈ l ∧ key x = k.
Proof. intros [? ?]%last_Some_elem_of%list_elem_of_filter. done. Qed.

Lemma last_key_some l k x : x ∈ l → key x = k → is_Some (last (filter (λ y, key y = k) l)).
Proof.
  intros Hx Hk. destruct (last _) eqn:Hl; [eauto|]. apply last_None in Hl.
  assert (x ∈ filter (λ y, key y = k) l) as Hf by by apply list_elem_of_filter.
  rewrite Hl in Hf. by inversion Hf.
Qed.

(** With distinct keys the last element of a key is the only one. *)
Lemma last_key_unique l k x :
  NoDup (key <$> l) → x ∈ l → key x = k → last (filter (λ y, key y = k) l) = Some x.
Proof.
  intros Hnd Hx Hk. destruct (last_key_some l k x Hx Hk) as [y Hy]. rewrite Hy. f_equal.
  apply last_key_elem in Hy as [Hy Hky]. clear -Hnd Hx Hy Hk Hky.
  induction l as [|z l IH]; [by inversion Hx|].
  simpl in Hnd. apply NoDup_cons in Hnd as [Hz Hnd]. rewrite list_elem_of_fmap in Hz.
  apply elem_of_cons in Hx as [->|Hx], Hy as [->|Hy]; [done|destruct Hz|destruct Hz|auto].
  - exists y. by rewrite Hk, Hky.
  - exists x. by rewrite Hk, Hky.
Qed.
End last_of_key.

Lemma contracts_fit_valid w contracts capabilities :
  contracts_fit w contracts capabilities → contracts_valid w contracts capabilities.
Proof.
  intros [Hcap Hk Hm Heff Hcov Hs]. split; [by apply Forall_forall| |done|].
  - intros node Hn. destruct (Hcov node Hn) as [(c & Hc & Hid) (cap & Hca & Hida)].
    destruct (last_key_some NodeContract.id contracts _ c Hc Hid) as [c' Hc'].
    destruct (last_key_some NodeCapabilities.node_id capabilities _ cap Hca Hida) as [cap' Hcap'].
    exists c', cap'. split; [done|]. split; [done|].
    apply last_key_elem in Hc' as [Hc' Hid']. apply last_key_elem in Hcap' as [Hcap' Hida'].
    split; [by apply Hm|]. apply Heff; [done|done|congruence].
  - apply Forall_forall. intros e He cs ct ss ts [Hcs Hids]%last_key_elem [Hct Hidt]%last_key_elem.
    by apply (Hs e cs ct).
Qed.

Lemma contracts_valid_fit w contracts capabilities :
  NoDup (NodeContract.id <$> contracts) → NoDup (NodeCapabilities.node_id <$> capabilities) →
  contracts_valid w contracts capabilities → contracts_fit w contracts capabilities.
Proof.
  intros Hc Hcap [Ha Hn Hk Hs]. rewrite Forall_forall in Ha. rewrite Forall_forall in Hs.
  assert (Hfind : ∀ c node, c ∈ contracts → node ∈ WorkflowDefinition.nodes w →
    NodeContract.id c = NodeDefinition.id node → contract_matches node c
    ∧ ∀ cap, cap ∈ capabilities → NodeCapabilities.node_id cap = NodeDefinition.id node →
        effects_enforceable c cap).
  { intros c node Hin Hnode Hid. destruct (Hn node Hnode) as (c' & cap' & E1 & E2 & Hm & He).
    unfold contract_for in E1. rewrite (last_key_unique NodeContract.id _ _ c) in E1 by done.
    injection E1 as <-. split; [done|]. intros cap Hca Hida. unfold capability_for in E2.
    rewrite (last_key_unique NodeCapabilities.node_id _ _ cap) in E2 by done. by injection E2 as <-. }
  split; [done|done| | | |].
  - intros c node ???. by apply Hfind.
  - intros c cap Hin Hca Hid. specialize (Hk c Hin). unfold node_names in Hk.
    apply list_elem_of_fmap in Hk as (node & Hid' & Hnode).
    apply (Hfind c node); [done..|congruence].
  - intros node Hnode. destruct (Hn node Hnode) as (c & cap & E1%last_key_elem & E2%last_key_elem & _).
    split; [by exists c|by exists cap].
  - intros e cs ct ss ts He Hcs Hct Hids Hidt. apply (Hs e He); by apply last_key_unique.
Qed.

(** ** Properties *)

(** C21. For a workflow and contracts that their constructors accepted,
    [validate_workflow_contracts] accepts every pair of lists of contracts and capability
    descriptors that fits the workflow: every descriptor agrees with the topology, every
    contract is that of a declared node and declares its ports and directions and no
    others, every descriptor has only effects that the execution mode of its node can
    enforce, every node has a contract and a descriptor, and no edge joins two ports with
    different schemas.  And what it accepts fits, provided that no node has two contracts
    or two descriptors: of several for one node only the last is looked at, as
    [shadowed_descriptor_unchecked] shows. *)
Theorem validate_workflow_contracts_accepts_iff (w : WorkflowDefinition)
  (contracts : list NodeContract) (capabilities : list NodeCapabilities)
  (Hw : workflow_wf w) (Hwf : Forall contract_wf contracts) :
  (contracts_fit w contracts capabilities →
     validate_workflow_contracts w contracts capabilities = Ok tt)
  ∧ (NoDup (NodeContract.id <$> contracts) → NoDup (NodeCapabilities.node_id <$> capabilities) →
     validate_workflow_contracts w contracts capabilities = Ok tt →
     contracts_fit w contracts capabilities).
Proof.
  rewrite validate_workflow_contracts_ok by done.
  split; [apply contracts_fit_valid|apply contracts_valid_fit].
Qed.

(** A contract that [NodeContract::new] accepts is well formed, and one it
    rejects is reported with the first port it repeats. *)
Theorem node_contract_new_spec (id : NodeId) (ports : list PortContract)
  (mode : ExecutionMode) (det : Determinism) (retry : RetryDisposition) :
  match NodeContract.new id ports mode det retry with
  | Ok c => c = NodeContract.mk id ports mode det retry ∧ contract_wf c
  | Err e => ∃ p, first_repeat [] (PortContract.port_id <$> ports) = Some p
      ∧ e = ContractValidationError.DuplicatePortContract id p
  end.
Proof.
  unfold NodeContract.new, reject_duplicate_contract_ports.
  rewrite BTreeSet.reject_repeats_spec. destruct (first_repeat _ _) as [p|] eqn:Hr; simpl.
  - by exists p.
  - apply first_repeat_none in Hr as [Hnd _]. done.
Qed.

(** A two-node pipeline whose edge carries one schema. *)
Section pipeline.
Let a : NodeId := ident "a".
Let b : NodeId := ident "b".
Let out : PortId := ident "out".
Let inp : PortId := ident "in".
Let schema : option SchemaRef := Some (PortContract.mk_schema (lit "schema:v1")).

Definition pipeline : WorkflowDefinition :=
  WorkflowDefinition.new (ident "flow")
    (WorkflowGraph.mk [NodeDefinition.mk a [] [out]; NodeDefinition.mk b [inp] []]
       [EdgeDefinition.new (EdgeEndpoint.new a out) (EdgeEndpoint.new b inp)]).
Definition pipeline_contracts : list NodeContract :=
  [NodeContract.mk a [PortContract.new out PortDirection.Output schema] ExecutionMode.Native
     Determinism.Deterministic RetryDisposition.Safe;
   NodeContract.mk b [PortContract.new inp PortDirection.Input schema] ExecutionMode.Wasm
     Determinism.Unknown RetryDisposition.Never].
Definition pipeline_capabilities : list NodeCapabilities :=
  [NodeCapabilities.mk a [PortCapability.new out PortCapabilityDirection.Emit]
     [EffectCapability.Clock];
   NodeCapabilities.mk b [PortCapability.new inp PortCapabilityDirection.Receive] []].

Lemma pipeline_wf : workflow_wf pipeline.
Proof.
  split; [by apply (structural_check_ok _ _ tt)|].
  unfold node_wf. apply (bool_decide_eq_true_1 _). vm_compute. done.
Qed.

Lemma validate_workflow_contracts_accepts_iff_witness :
  Forall contract_wf pipeline_contracts
  ∧ contracts_fit pipeline pipeline_contracts pipeline_capabilities.
Proof.
  assert (Hwf : Forall contract_wf pipeline_contracts).
  { unfold contract_wf. apply (bool_decide_eq_true_1 _). vm_compute. done. }
  split; [exact Hwf|].
  apply (validate_workflow_contracts_accepts_iff pipeline pipeline_contracts
           pipeline_capabilities pipeline_wf Hwf).
  - apply (bool_decide_eq_true_1 _). vm_compute. reflexivity.
  - apply (bool_decide_eq_true_1 _). vm_compute. reflexivity.
  - vm_compute. reflexivity.
Defined.
End pipeline.

(** A later descriptor for the same node hides an earlier one: the effects of
    the first are never checked against the execution mode. *)
Section examples.
Let n : NodeId := ident "n".
Let single : WorkflowDefinition :=
  WorkflowDefinition.new (ident "flow") (WorkflowGraph.mk [NodeDefinition.mk n [] []] []).
Let wasm : NodeContract :=
  NodeContract.mk n [] ExecutionMode.Wasm Determinism.Unknown RetryDisposition.Never.
Let spawning : NodeCapabilities :=
  NodeCapabilities.mk n [] [EffectCapability.ProcessSpawn].
Let passive : NodeCapabilities := NodeCapabilities.mk n [] [].

Example shadowed_descriptor_unchecked :
  validate_workflow_contracts single [wasm] [spawning; passive] = Ok tt
  ∧ validate_workflow_contracts single [wasm] [passive; spawning]
    = Err (ContractValidationError.Capability
             (CapabilityValidationError.UnenforceableEffectCapability n
                EffectCapability.ProcessSpawn)).
Proof. split; vm_compute; reflexivity. Qed.
End examples.
