(* ===== verification/Json.v ===== *)
(** JSON values and binary64 numbers.

    [f64] is the IEEE 754 binary64 format of the Standard Library's
    specification of floats: [i64 as f64] rounds to nearest, ties to even,
    and [partial_cmp] and [==] are the IEEE comparisons.

    [serde_json::Value] is the enum the program matches on; its number type is
    opaque there, so it is a parameter here ([JsonNumber]), with the accessors
    the program calls and the documented laws it relies on.  [Instance
    literal_number] is a concrete instance, used to evaluate examples. *)

From Stdlib Require Import Lia ZArith Floats.SpecFloat.
From S2P Require Import Prelude RustStr BTree.

Local Open Scope Z_scope.

(** ** binary64 *)

Notation f64 := spec_float.

(** [i as f64] for an integer of any width. *)
Definition f64_of_int (i : Z) : f64 := binary_normalize 53 1024 i 0 false.

(** [a.partial_cmp(&b)] and [a == b]. *)
Definition f64_partial_cmp (a b : f64) : option comparison := SFcompare a b.
Definition f64_eqb (a b : f64) : bool := SFeqb a b.
Definition f64_is_finite (a : f64) : bool :=
  match a with S754_zero _ | S754_finite _ _ _ => true | _ => false end.

#[export] Instance spec_float_eq_dec : EqDecision f64.
Proof. solve_decision. Defined.

(** *** Integers below [2^53] are exact *)

Lemma pos_iter_xO m d : Zpos (Pos.iter xO m d) = Zpos m * 2 ^ Zpos d.
Proof.
  induction d as [|d IH] using Pos.peano_ind; [simpl; lia|].
  rewrite Pos.iter_succ, Pos2Z.inj_xO, IH, Pos2Z.inj_succ, Z.pow_succ_r by lia. lia.
Qed.

Lemma digits2_pos_size m : digits2_pos m = Pos.size m.
Proof. induction m as [m IH|m IH|]; simpl; congruence. Qed.

Lemma digits2_pos_bounds m :
  2 ^ (Zpos (digits2_pos m) - 1) <= Zpos m < 2 ^ Zpos (digits2_pos m).
Proof.
  rewrite digits2_pos_size. pose proof (Pos.size_gt m). pose proof (Pos.size_le m) as Hle.
  assert (Hd : 2 ^ Zpos (Pos.size m) = 2 * 2 ^ (Zpos (Pos.size m) - 1)).
  { rewrite <- Z.pow_succ_r by lia. f_equal. lia. }
  assert (Hp : 2 ^ Zpos (Pos.size m) = Zpos (2 ^ Pos.size m)) by (rewrite Pos2Z.inj_pow; done).
  lia.
Qed.

Lemma digits2_pos_unique m d :
  0 < d → 2 ^ (d - 1) <= Zpos m < 2 ^ d → Zpos (digits2_pos m) = d.
Proof.
  intros Hd [Hlo Hhi]. pose proof (digits2_pos_bounds m) as [Hlo' Hhi'].
  set (k := Zpos (digits2_pos m)) in *. assert (0 < k) by (unfold k; lia).
  destruct (Z.lt_trichotomy k d) as [?|[?|?]]; [|done|].
  - assert (2 ^ k <= 2 ^ (d - 1)) by (apply Z.pow_le_mono_r; lia). lia.
  - assert (2 ^ d <= 2 ^ (k - 1)) by (apply Z.pow_le_mono_r; lia). lia.
Qed.

(** A significand of 53 bits is already rounded. *)
Lemma binary_round_aux_exact s m e :
  Zpos (digits2_pos m) = 53 → -1074 <= e <= 971 →
  binary_round_aux 53 1024 s (Zpos m) e loc_Exact = S754_finite s m e.
Proof.
  intros Hd He.
  assert (Hshr : shr_fexp 53 1024 (Zpos m) e loc_Exact =
                 (Build_shr_record (Zpos m) false false, e)).
  { unfold shr_fexp, fexp, emin, Zdigits2. rewrite Hd.
    replace (Z.max (53 + e - 53) (3 - 1024 - 53) - e) with 0 by lia. done. }
  unfold binary_round_aux. rewrite Hshr. cbn [shr_m loc_of_shr_record round_nearest_even].
  rewrite Hshr. cbn [shr_m]. by rewrite (proj2 (Z.leb_le e (1024 - 53))) by lia.
Qed.

Lemma binary_round_int s m :
  Zpos (digits2_pos m) <= 53 →
  ∃ m', binary_round 53 1024 s m 0 = S754_finite s m' (Zpos (digits2_pos m) - 53)
    ∧ Zpos m' = Zpos m * 2 ^ (53 - Zpos (digits2_pos m)).
Proof.
  intros Hd. set (d := Zpos (digits2_pos m)) in *.
  assert (Hd0 : 0 < d) by (unfold d; lia).
  assert (∃ m', shl_align m 0 (fexp 53 1024 (d + 0)) = (m', d - 53)
    ∧ Zpos m' = Zpos m * 2 ^ (53 - d)) as (m' & Hal & Hm').
  { unfold shl_align, fexp, emin.
    replace (Z.max (d + 0 - 53) (3 - 1024 - 53) - 0) with (d - 53) by lia.
    replace (Z.max (d + 0 - 53) (3 - 1024 - 53)) with (d - 53) by lia.
    destruct (d - 53) as [|p|p] eqn:Ed; [|lia|].
    - exists m. split; [done|]. replace (53 - d) with 0 by lia. lia.
    - exists (Pos.iter xO m p). split; [done|]. rewrite pos_iter_xO. do 2 f_equal. lia. }
  exists m'. split; [|done]. unfold binary_round. fold d. rewrite Hal.
  apply binary_round_aux_exact; [|lia].
  apply digits2_pos_unique; [lia|]. rewrite Hm'.
  pose proof (digits2_pos_bounds m) as [Hlo Hhi]. fold d in Hlo, Hhi.
  assert (2 ^ (53 - 1) = 2 ^ (d - 1) * 2 ^ (53 - d)) as ->
    by (rewrite <- Z.pow_add_r by lia; f_equal; lia).
  assert (2 ^ 53 = 2 ^ d * 2 ^ (53 - d)) as -> by (rewrite <- Z.pow_add_r by lia; f_equal; lia).
  assert (0 < 2 ^ (53 - d)) by (apply Z.pow_pos_nonneg; lia). nia.
Qed.

(** Comparing two finite floats of one sign obtained from integers compares
    the integers. *)
Lemma int_significand_compare m1 m2 p1 p2 :
  Zpos (digits2_pos m1) <= 53 → Zpos (digits2_pos m2) <= 53 →
  Zpos p1 = Zpos m1 * 2 ^ (53 - Zpos (digits2_pos m1)) →
  Zpos p2 = Zpos m2 * 2 ^ (53 - Zpos (digits2_pos m2)) →
  match Z.compare (Zpos (digits2_pos m1) - 53) (Zpos (digits2_pos m2) - 53) with
  | Lt => Lt
  | Gt => Gt
  | Eq => Pos.compare_cont Eq p1 p2
  end = Z.compare (Zpos m1) (Zpos m2).
Proof.
  intros Hd1 Hd2 Hp1 Hp2.
  pose proof (digits2_pos_bounds m1) as [Hlo1 Hhi1].
  pose proof (digits2_pos_bounds m2) as [Hlo2 Hhi2].
  set (d1 := Zpos (digits2_pos m1)) in *. set (d2 := Zpos (digits2_pos m2)) in *.
  destruct (Z.compare_spec (d1 - 53) (d2 - 53)) as [Heq|Hlt|Hgt].
  - assert (d1 = d2) as Hd by lia. rewrite Hd in Hp1.
    assert (0 < 2 ^ (53 - d2)) by (apply Z.pow_pos_nonneg; lia).
    change (Z.compare (Zpos p1) (Zpos p2) = Z.compare (Zpos m1) (Zpos m2)).
    rewrite Hp1, Hp2. destruct (Z.compare_spec (Zpos m1) (Zpos m2)) as [->|?|?];
      [by rewrite Z.compare_refl|apply Z.compare_lt_iff; nia|apply Z.compare_gt_iff; nia].
  - assert (2 ^ d1 <= 2 ^ (d2 - 1)) by (apply Z.pow_le_mono_r; lia).
    symmetry. apply Z.compare_lt_iff. lia.
  - assert (2 ^ d2 <= 2 ^ (d1 - 1)) by (apply Z.pow_le_mono_r; lia).
    symmetry. apply Z.compare_gt_iff. lia.
Qed.

Lemma digits_below m : Zpos m < 2 ^ 53 → Zpos (digits2_pos m) <= 53.
Proof.
  intros Hm. pose proof (digits2_pos_bounds m) as [Hlo _].
  destruct (Z.le_gt_cases (Zpos (digits2_pos m)) 53); [done|].
  assert (2 ^ 53 <= 2 ^ (Zpos (digits2_pos m) - 1)) by (apply Z.pow_le_mono_r; lia). lia.
Qed.

Lemma f64_of_int_compare i j :
  Z.abs i < 2 ^ 53 → Z.abs j < 2 ^ 53 →
  f64_partial_cmp (f64_of_int i) (f64_of_int j) = Some (Z.compare i j).
Proof.
  intros Hi Hj. unfold f64_partial_cmp, f64_of_int, binary_normalize.
  destruct i as [|m1|m1], j as [|m2|m2]; try done;
    repeat match goal with
    | |- context [binary_round _ _ ?s ?m 0] =>
        let p := fresh "p" in let E := fresh "E" in let Hp := fresh "Hp" in
        destruct (binary_round_int s m) as (p & E & Hp); [apply digits_below; lia|]; rewrite E; clear E
    end; try done; simpl SFcompare; f_equal.
  - apply int_significand_compare; try done; apply digits_below; lia.
  - change (Z.compare (Zneg m1) (Zneg m2)) with (CompOpp (Z.compare (Zpos m1) (Zpos m2))).
    rewrite <- (int_significand_compare m1 m2 p p0); try done; try (apply digits_below; lia).
    by destruct (Z.compare _ _).
Qed.

(** ** JSON values *)

(** [serde_json::Number] with the conversions and accessors the program uses.
    The laws are the documented behaviour: an integer number is read back by
    the integer accessors, and its [as_f64] is the nearest binary64; a finite
    float is a number, NaN and the infinities are not. *)
Class JsonNumber := {
  Number : Type;
  number_of_i64 : Z → Number;
  number_of_u64 : N → Number;
  number_of_f64 : f64 → option Number;
  as_i64 : Number → option Z;
  as_u64 : Number → option N;
  as_f64 : Number → option f64;
  number_to_string : Number → rstr;
  as_i64_of_i64 : ∀ i, - 2 ^ 63 <= i < 2 ^ 63 → as_i64 (number_of_i64 i) = Some i;
  as_u64_of_u64 : ∀ n, (n < 2 ^ 64)%N → as_u64 (number_of_u64 n) = Some n;
  as_f64_integer : ∀ n i, as_i64 n = Some i → as_f64 n = Some (f64_of_int i);
  number_of_f64_finite : ∀ f, is_Some (number_of_f64 f) ↔ f64_is_finite f = true;
  as_f64_of_f64 : ∀ f n, number_of_f64 f = Some n → as_f64 n = Some f;
}.

Module Value.
Section value.
Context `{J : JsonNumber}.

Inductive Value : Type :=
| Null
| Bool (b : bool)
| Num (n : Number)
| String (s : rstr)
| Array (items : list Value)
| Object (fields : list (rstr * Value)).

(** [value.get(key)] with a string key: a field of an object, nothing of any
    other value. *)
Definition get (v : Value) (key : rstr) : option Value :=
  match v with Object fields => BTreeMap.get key fields | _ => None end.

Definition is_null (v : Value) : bool := match v with Null => true | _ => false end.
Definition as_str (v : Value) : option rstr :=
  match v with String s => Some s | _ => None end.
Definition value_as_f64 (v : Value) : option f64 :=
  match v with Num n => as_f64 n | _ => None end.

(** The values [json!] builds. *)
Definition object (fields : list (rstr * Value)) : Value := Object (BTreeMap.collect fields).
Definition of_option {A} (f : A → Value) (o : option A) : Value :=
  match o with Some a => f a | None => Null end.
Definition of_usize (n : N) : Value := Num (number_of_u64 n).
Definition of_i64 (i : Z) : Value := Num (number_of_i64 i).
Definition of_f64 (f : f64) : Value := of_option Num (number_of_f64 f).

Lemma get_object fields k : get (object fields) k = BTreeMap.get k (BTreeMap.collect fields).
Proof. done. Qed.
End value.
End Value.
Notation Value := Value.Value.

(** ** A concrete number type *)

Inductive literal : Set := PosInt (n : N) | NegInt (i : Z) | Float (f : f64).

Module Literal.
Definition of_i64 (i : Z) : literal := if Z.leb 0 i then PosInt (Z.to_N i) else NegInt i.
Definition of_f64 (f : f64) : option literal :=
  if f64_is_finite f then Some (Float f) else None.
Definition as_i64 (l : literal) : option Z :=
  match l with
  | PosInt n => if Z.ltb (Z.of_N n) (2 ^ 63) then Some (Z.of_N n) else None
  | NegInt i => Some i
  | Float _ => None
  end.
Definition as_u64 (l : literal) : option N := match l with PosInt n => Some n | _ => None end.
Definition as_f64 (l : literal) : option f64 :=
  match l with
  | PosInt n => Some (f64_of_int (Z.of_N n))
  | NegInt i => Some (f64_of_int i)
  | Float f => Some f
  end.
Definition to_string (l : literal) : rstr :=
  match l with PosInt n => show_N n | NegInt i => show_Z i | Float _ => lit "float" end.

Lemma as_i64_of_i64 i : - 2 ^ 63 <= i < 2 ^ 63 → as_i64 (of_i64 i) = Some i.
Proof.
  intros Hi. unfold of_i64. destruct (Z.leb_spec 0 i); simpl; [|done].
  rewrite Z2N.id by done. by rewrite (proj2 (Z.ltb_lt i _)) by lia.
Qed.
Lemma as_u64_of_u64 n : (n < 2 ^ 64)%N → as_u64 (PosInt n) = Some n.
Proof. done. Qed.
Lemma as_f64_integer l i : as_i64 l = Some i → as_f64 l = Some (f64_of_int i).
Proof. destruct l; simpl; [destruct (Z.ltb _ _)|..]; congruence. Qed.
Lemma of_f64_finite f : is_Some (of_f64 f) ↔ f64_is_finite f = true.
Proof.
  unfold of_f64. destruct (f64_is_finite f); [by split|]. split; [|done]. by intros [? ?].
Qed.
Lemma as_f64_of_f64 f l : of_f64 f = Some l → as_f64 l = Some f.
Proof. unfold of_f64. destruct (f64_is_finite f); [by intros [= <-]|done]. Qed.
End Literal.

#[export] Instance literal_number : JsonNumber := {|
  Number := literal;
  number_of_i64 := Literal.of_i64;
  number_of_u64 := PosInt;
  number_of_f64 := Literal.of_f64;
  as_i64 := Literal.as_i64;
  as_u64 := Literal.as_u64;
  as_f64 := Literal.as_f64;
  number_to_string := Literal.to_string;
  as_i64_of_i64 := Literal.as_i64_of_i64;
  as_u64_of_u64 := Literal.as_u64_of_u64;
  as_f64_integer := Literal.as_f64_integer;
  number_of_f64_finite := Literal.of_f64_finite;
  as_f64_of_f64 := Literal.as_f64_of_f64;
|}.
