(* ===== verification/Context.v ===== *)
(** [pureflow-core], execution contexts and the cancellation signal
    (src/crates/pureflow-core/src/context.rs) and lifecycle events
    (src/crates/pureflow-core/src/lifecycle.rs).

    A [CancellationToken] is an [Arc] to a mutex-protected request, shared by
    every clone of the token, of the handle and of the contexts that carry it.
    The model keeps the signals in a store and a token is the index of its
    signal, so that clones alias the same cell; each operation is one critical
    section of the mutex, whose poisoning the source ignores. *)

From Stdlib Require Import Lia.
From S2P Require Import Prelude RustStr BTree Types.

Module ExecutionAttempt.
(** [NonZeroU32]. *)
Record ExecutionAttempt : Set := new { value : positive }.
Definition first : ExecutionAttempt := new 1.
Definition get (a : ExecutionAttempt) : N := Npos (value a).
End ExecutionAttempt.
Notation ExecutionAttempt := ExecutionAttempt.ExecutionAttempt.

Module ExecutionMetadata.
Record ExecutionMetadata : Set :=
  new { execution_id : ExecutionId; attempt : ExecutionAttempt }.
Definition first_attempt (execution_id : ExecutionId) : ExecutionMetadata :=
  new execution_id ExecutionAttempt.first.
End ExecutionMetadata.
Notation ExecutionMetadata := ExecutionMetadata.ExecutionMetadata.

Module CancellationRequest.
Record CancellationRequest : Set := new { reason : rstr }.
End CancellationRequest.
Notation CancellationRequest := CancellationRequest.CancellationRequest.

#[export] Instance ExecutionAttempt_eq_dec : EqDecision ExecutionAttempt.
Proof. solve_decision. Defined.
#[export] Instance ExecutionMetadata_eq_dec : EqDecision ExecutionMetadata.
Proof. solve_decision. Defined.
#[export] Instance CancellationRequest_eq_dec : EqDecision CancellationRequest.
Proof. solve_decision. Defined.

Module CancellationState.
Inductive CancellationState : Set :=
| Active
| Requested (request : CancellationRequest).
Definition is_requested (s : CancellationState) : bool :=
  match s with Requested _ => true | Active => false end.
End CancellationState.
Notation CancellationState := CancellationState.CancellationState.

#[export] Instance CancellationState_eq_dec : EqDecision CancellationState.
Proof. solve_decision. Defined.

(** The store of signals: what each [Arc<CancellationSignal>] holds. *)
Notation signals := (list (option CancellationRequest)).

Module CancellationToken.
Record CancellationToken : Set := mk { signal : nat }.

Definition active (s : signals) : CancellationToken * signals :=
  (mk (length s), s ++ [None]).

Definition request (s : signals) (t : CancellationToken) : option CancellationRequest :=
  match s !! signal t with Some r => r | None => None end.

Definition state (s : signals) (t : CancellationToken) : CancellationState :=
  match request s t with
  | None => CancellationState.Active
  | Some request => CancellationState.Requested request
  end.

Definition is_cancelled (s : signals) (t : CancellationToken) : bool :=
  bool_decide (is_Some (request s t)).

Definition request_cancellation (s : signals) (t : CancellationToken)
    (req : CancellationRequest) : bool * signals :=
  match request s t with
  | Some _ => (false, s)
  | None => (true, <[signal t := Some req]> s)
  end.

Definition cancelled (s : signals) (req : CancellationRequest) : CancellationToken * signals :=
  let (token, s) := active s in
  let (_first_request, s) := request_cancellation s token req in
  (token, s).

(** [impl PartialEq]: by current request, not by identity. *)
Definition eq (s : signals) (a b : CancellationToken) : bool :=
  bool_decide (request s a = request s b).
End CancellationToken.
Notation CancellationToken := CancellationToken.CancellationToken.

Module CancellationHandle.
Record CancellationHandle : Set := mk { token : CancellationToken }.

Definition new (s : signals) : CancellationHandle * signals :=
  let (token, s) := CancellationToken.active s in (mk token, s).

Definition cancel (s : signals) (h : CancellationHandle) (req : CancellationRequest) :
    bool * signals :=
  CancellationToken.request_cancellation s (token h) req.

Definition is_cancelled (s : signals) (h : CancellationHandle) : bool :=
  CancellationToken.is_cancelled s (token h).
Definition request (s : signals) (h : CancellationHandle) : option CancellationRequest :=
  CancellationToken.request s (token h).
End CancellationHandle.
Notation CancellationHandle := CancellationHandle.CancellationHandle.

#[export] Instance CancellationToken_eq_dec : EqDecision CancellationToken.
Proof. solve_decision. Defined.

Module NodeContext.
Record NodeContext : Set := mk {
  workflow_id : WorkflowId;
  node_id : NodeId;
  execution : ExecutionMetadata;
  cancellation_token : CancellationToken;
}.

Definition new (s : signals) (workflow_id : WorkflowId) (node_id : NodeId)
    (execution : ExecutionMetadata) : NodeContext * signals :=
  let (token, s) := CancellationToken.active s in
  (mk workflow_id node_id execution token, s).

Definition with_cancellation_token (c : NodeContext) (token : CancellationToken) : NodeContext :=
  mk (workflow_id c) (node_id c) (execution c) token.

Definition with_cancellation (s : signals) (c : NodeContext) (req : CancellationRequest) :
    NodeContext * signals :=
  let (token, s) := CancellationToken.cancelled s req in (with_cancellation_token c token, s).

Definition cancellation (s : signals) (c : NodeContext) : CancellationState :=
  CancellationToken.state s (cancellation_token c).
Definition is_cancelled (s : signals) (c : NodeContext) : bool :=
  CancellationToken.is_cancelled s (cancellation_token c).
End NodeContext.
Notation NodeContext := NodeContext.NodeContext.

#[export] Instance NodeContext_eq_dec : EqDecision NodeContext.
Proof. solve_decision. Defined.

(** ** Lifecycle events *)

Module LifecycleEventKind.
Inductive LifecycleEventKind : Set :=
| NodeScheduled
| NodeStarted
| NodeCompleted
| NodeFailed
| NodeCancelled.
End LifecycleEventKind.
Notation LifecycleEventKind := LifecycleEventKind.LifecycleEventKind.

#[export] Instance LifecycleEventKind_eq_dec : EqDecision LifecycleEventKind.
Proof. solve_decision. Defined.

Module LifecycleEvent.
Record LifecycleEvent : Set := new { kind : LifecycleEventKind; context : NodeContext }.
End LifecycleEvent.
Notation LifecycleEvent := LifecycleEvent.LifecycleEvent.

#[export] Instance LifecycleEvent_eq_dec : EqDecision LifecycleEvent.
Proof. solve_decision. Defined.

(** ** Sequences of requests *)

(** The calls of [cancel] on any handles, in the order they take the locks:
    what each returned, and the signals afterwards. *)
Fixpoint cancel_all (s : signals) (calls : list (CancellationHandle * CancellationRequest)) :
    list bool * signals :=
  match calls with
  | [] => ([], s)
  | (h, req) :: calls =>
      let (first, s) := CancellationHandle.cancel s h req in
      let (rest, s) := cancel_all s calls in
      (first :: rest, s)
  end.

Definition calls_on (t : CancellationToken)
    (calls : list (CancellationHandle * CancellationRequest)) : list CancellationRequest :=
  (filter (λ c, CancellationHandle.token c.1 = t) calls).*2.

Lemma request_cancellation_request s t t' req :
  CancellationToken.signal t < length s →
  CancellationToken.request (CancellationToken.request_cancellation s t req).2 t' =
  if decide (t' = t) then
    match CancellationToken.request s t with Some r => Some r | None => Some req end
  else CancellationToken.request s t'.
Proof.
  intros Ht. unfold CancellationToken.request_cancellation.
  destruct (CancellationToken.request s t) eqn:Hr; simpl.
  - case_decide; congruence.
  - unfold CancellationToken.request in *. case_decide as Hd.
    + subst. by rewrite list_lookup_insert_eq.
    + rewrite list_lookup_insert_ne; [done|]. destruct t, t'; simpl in *; congruence.
Qed.

Lemma request_cancellation_length s t req :
  length (CancellationToken.request_cancellation s t req).2 = length s.
Proof.
  unfold CancellationToken.request_cancellation. destruct (CancellationToken.request s t); simpl;
    [done|by rewrite length_insert].
Qed.

Lemma cancel_all_request s calls t :
  Forall (λ c, CancellationToken.signal (CancellationHandle.token c.1) < length s) calls →
  CancellationToken.request (cancel_all s calls).2 t =
  match CancellationToken.request s t with Some r => Some r | None => head (calls_on t calls) end.
Proof.
  revert s. induction calls as [|[h req] calls IH]; intros s Hv.
  - simpl. by destruct (CancellationToken.request s t).
  - apply Forall_cons in Hv as [Hh Hv]. unfold calls_on. rewrite filter_cons. simpl in *.
    pose proof (request_cancellation_length s (CancellationHandle.token h) req) as Hlen.
    pose proof (request_cancellation_request s (CancellationHandle.token h) t req Hh) as Hreq.
    unfold CancellationHandle.cancel in *.
    destruct (CancellationToken.request_cancellation s (CancellationHandle.token h) req) as [b s'].
    simpl in *. specialize (IH s'). rewrite Hlen, Hreq in IH. specialize (IH Hv).
    destruct (cancel_all s' calls). simpl in *. rewrite IH.
    destruct (decide (t = CancellationHandle.token h)) as [->|Hne].
    + rewrite decide_True by done. by destruct (CancellationToken.request s _).
    + by rewrite decide_False by congruence.
Qed.

(** C22. First request wins, for every interleaving of requests through any
    handles: a signal that already holds a request keeps it, otherwise it ends
    up with the first request made on it and with none if there was none; all
    clones of a token see the same state, and [cancel] reports [true] to
    exactly the call that recorded the request. *)
Theorem first_cancellation_wins (s : signals)
  (calls : list (CancellationHandle * CancellationRequest))
  (Hvalid : Forall (λ c, CancellationToken.signal (CancellationHandle.token c.1) < length s) calls) :
  (∀ t, CancellationToken.request (cancel_all s calls).2 t =
     match CancellationToken.request s t with
     | Some r => Some r
     | None => head (calls_on t calls)
     end)
  ∧ (∀ i h req, calls !! i = Some (h, req) →
       (cancel_all s calls).1 !! i =
       Some (bool_decide (CancellationHandle.request s h = None
               ∧ calls_on (CancellationHandle.token h) (take i calls) = []))).
Proof.
  split; [intros t; by apply cancel_all_request|].
  revert s Hvalid. induction calls as [|[h0 req0] calls IH]; intros s Hv i h req Hi; [done|].
  apply Forall_cons in Hv as [Hh Hv]. simpl in Hh.
  pose proof (request_cancellation_length s (CancellationHandle.token h0) req0) as Hlen.
  pose proof (λ t', request_cancellation_request s (CancellationHandle.token h0) t' req0 Hh) as Hreq.
  cbn [cancel_all]. unfold CancellationHandle.cancel.
  destruct (CancellationToken.request_cancellation s (CancellationHandle.token h0) req0)
    as [b s'] eqn:Hc. simpl in Hlen, Hreq.
  specialize (IH s'). rewrite Hlen in IH. specialize (IH Hv).
  destruct (cancel_all s' calls) as [bs s'']. simpl in *.
  destruct i as [|i]; simpl in *.
  - simplify_eq. f_equal. unfold CancellationHandle.request, CancellationToken.request_cancellation in *.
    destruct (CancellationToken.request s _); simplify_eq;
      [by rewrite bool_decide_eq_false_2 by naive_solver|by rewrite bool_decide_eq_true_2].
  - rewrite (IH i h req Hi). f_equal. apply bool_decide_ext.
    unfold CancellationHandle.request. rewrite Hreq.
    unfold calls_on. rewrite filter_cons. simpl.
    destruct (decide (CancellationHandle.token h = CancellationHandle.token h0)) as [E|E].
    + rewrite decide_True by done. rewrite E.
      destruct (CancellationToken.request s _); naive_solver.
    + rewrite decide_False by congruence. done.
Qed.

Lemma first_cancellation_wins_witness :
  let h0 := CancellationHandle.mk (CancellationToken.mk 0) in
  let h1 := CancellationHandle.mk (CancellationToken.mk 1) in
  let stop r := CancellationRequest.new (lit r) in
  CancellationToken.request
    (cancel_all [None; None] [(h1, stop "a"); (h0, stop "b"); (h1, stop "c")]).2
    (CancellationToken.mk 1) = Some (stop "a"%string).
Proof.
  simpl. apply (first_cancellation_wins [None; None]
    [(CancellationHandle.mk (CancellationToken.mk 1), CancellationRequest.new (lit "a"));
     (CancellationHandle.mk (CancellationToken.mk 0), CancellationRequest.new (lit "b"));
     (CancellationHandle.mk (CancellationToken.mk 1), CancellationRequest.new (lit "c"))]).
  repeat constructor.
Defined.
