(* ===== verification/Message.v ===== *)
(** [pureflow-core], message envelopes and batches
    (src/crates/pureflow-core/src/message.rs and batch.rs).

    The payload enum is the one of the default build: the Arrow variant exists
    only under an optional feature. *)

From Stdlib Require Import Strings.Byte.
From S2P Require Import Prelude RustStr BTree Types Json Context.

Module PacketPayload.
Section payload.
Context `{J : JsonNumber}.

Inductive PacketPayload : Type :=
| Bytes (bytes : list byte)
| Control (value : Value).

Definition as_bytes (p : PacketPayload) : option (list byte) :=
  match p with Bytes bytes => Some bytes | Control _ => None end.
Definition as_control (p : PacketPayload) : option Value :=
  match p with Bytes _ => None | Control value => Some value end.
End payload.
End PacketPayload.
Notation PacketPayload := PacketPayload.PacketPayload.

Module MessageEndpoint.
Record MessageEndpoint : Set := new { node_id : NodeId; port_id : PortId }.
End MessageEndpoint.
Notation MessageEndpoint := MessageEndpoint.MessageEndpoint.

Module MessageRoute.
Record MessageRoute : Set :=
  new { source : option MessageEndpoint; target : MessageEndpoint }.
End MessageRoute.
Notation MessageRoute := MessageRoute.MessageRoute.

Module MessageMetadata.
Record MessageMetadata : Set := new {
  message_id : MessageId;
  workflow_id : WorkflowId;
  execution : ExecutionMetadata;
  route : MessageRoute;
}.
End MessageMetadata.
Notation MessageMetadata := MessageMetadata.MessageMetadata.

#[export] Instance MessageEndpoint_eq_dec : EqDecision MessageEndpoint.
Proof. solve_decision. Defined.
#[export] Instance MessageRoute_eq_dec : EqDecision MessageRoute.
Proof. solve_decision. Defined.
#[export] Instance MessageMetadata_eq_dec : EqDecision MessageMetadata.
Proof. solve_decision. Defined.

Module MessageEnvelope.
Section envelope.
Context {P Q : Type}.

Record MessageEnvelope : Type := new { metadata : MessageMetadata; payload : P }.

Definition into_payload (m : MessageEnvelope) : P := payload m.
End envelope.
Arguments MessageEnvelope P : clear implicits.

Definition map_payload {P Q} (f : P → Q) (m : MessageEnvelope P) : MessageEnvelope Q :=
  new (metadata m) (f (payload m)).
End MessageEnvelope.
Notation MessageEnvelope := MessageEnvelope.MessageEnvelope.

(** [PortPacket] (ports.rs). *)
Notation PortPacket := (MessageEnvelope PacketPayload).

(** ** Batches *)

(** [BatchInputs] and [BatchOutputs] are the same structure: packets grouped by
    port, in insertion order within a port. *)
Module Batch.
Section batch.
Context `{J : JsonNumber}.

Record Batch : Type := from_packets { packets_by_port : btree_map PortId (list PortPacket) }.

Definition new : Batch := from_packets [].

Definition push (b : Batch) (port_id : PortId) (packet : PortPacket) : Batch :=
  from_packets (BTreeMap.entry_update port_id [] (λ packets, packets ++ [packet])
                  (packets_by_port b)).

Definition packets (b : Batch) (port_id : PortId) : list PortPacket :=
  match BTreeMap.get port_id (packets_by_port b) with Some packets => packets | None => [] end.

Lemma packets_push b p q packet :
  packets (push b p packet) q = packets b q ++ (if decide (q = p) then [packet] else []).
Proof.
  unfold packets, push. simpl. rewrite BTreeMap.get_entry_update.
  case_decide as Hq; [|by rewrite app_nil_r]. subst.
  by destruct (BTreeMap.get p (packets_by_port b)).
Qed.

(** Pushing a sequence of packets groups it by port and keeps the order of each
    port's packets. *)
Lemma packets_pushes l b q :
  packets (foldl (λ b pp, push b pp.1 pp.2) b l) q =
  packets b q ++ (filter (λ pp, pp.1 = q) l).*2.
Proof.
  revert b. induction l as [|[p packet] l IH]; intros b; simpl.
  - by rewrite app_nil_r.
  - rewrite IH, packets_push, filter_cons. simpl.
    repeat case_decide; simplify_eq/=; by rewrite <- ?app_assoc, ?app_nil_r.
Qed.
End batch.
End Batch.
Notation Batch := Batch.Batch.
