(* ===== verification/Metadata.v ===== *)
(** [pureflow-core], runtime metadata records and sinks
    (src/crates/pureflow-core/src/metadata.rs).

    The record types, their JSON projection and the sinks.  A record that
    carries a [NodeContext] carries its cancellation token, so the projection
    reads the signal store at the time it runs.  [MetadataSink] is the
    interface every producer of records is written against. *)

From Stdlib Require Import Lia.
From S2P Require Import Prelude RustStr BTree Types Workflow Capability Errors Json Context Message.

(** [usize] and its saturating addition, on a 64-bit target. *)
Definition USIZE_MAX : N := (2 ^ 64 - 1)%N.
Definition usize_saturating_add (a b : N) : N := N.min (a + b) USIZE_MAX.

Module MessageBoundaryKind.
Inductive MessageBoundaryKind : Set := Enqueued | Dequeued | Dropped.
Definition label (k : MessageBoundaryKind) : rstr :=
  match k with
  | Enqueued => lit "enqueued" | Dequeued => lit "dequeued" | Dropped => lit "dropped"
  end.
End MessageBoundaryKind.
Notation MessageBoundaryKind := MessageBoundaryKind.MessageBoundaryKind.

Module MessageBoundaryRecord.
Record MessageBoundaryRecord : Set :=
  new { kind : MessageBoundaryKind; metadata : MessageMetadata }.
End MessageBoundaryRecord.
Notation MessageBoundaryRecord := MessageBoundaryRecord.MessageBoundaryRecord.

Module QueuePortDirection.
Inductive QueuePortDirection : Set := Input | Output.
Definition label (d : QueuePortDirection) : rstr :=
  match d with Input => lit "input" | Output => lit "output" end.
End QueuePortDirection.
Notation QueuePortDirection := QueuePortDirection.QueuePortDirection.

Module QueuePressureBoundaryKind.
Inductive QueuePressureBoundaryKind : Set :=
| ReceiveAttempted
| ReceiveReady
| ReceiveEmpty
| ReceiveClosed
| ReserveAttempted
| ReserveReady
| ReserveFull
| SendCommitted
| SendDropped.
Definition label (k : QueuePressureBoundaryKind) : rstr :=
  match k with
  | ReceiveAttempted => lit "receive_attempted"
  | ReceiveReady => lit "receive_ready"
  | ReceiveEmpty => lit "receive_empty"
  | ReceiveClosed => lit "receive_closed"
  | ReserveAttempted => lit "reserve_attempted"
  | ReserveReady => lit "reserve_ready"
  | ReserveFull => lit "reserve_full"
  | SendCommitted => lit "send_committed"
  | SendDropped => lit "send_dropped"
  end.
End QueuePressureBoundaryKind.
Notation QueuePressureBoundaryKind := QueuePressureBoundaryKind.QueuePressureBoundaryKind.

Module QueuePressureRecord.
Record QueuePressureRecord : Set := new {
  context : option NodeContext;
  direction : QueuePortDirection;
  port_id : PortId;
  kind : QueuePressureBoundaryKind;
  connected_edge_count : N;
  capacity : option N;
  queued_count : option N;
}.
End QueuePressureRecord.
Notation QueuePressureRecord := QueuePressureRecord.QueuePressureRecord.

#[export] Instance MessageBoundaryKind_eq_dec : EqDecision MessageBoundaryKind.
Proof. solve_decision. Defined.
#[export] Instance MessageBoundaryRecord_eq_dec : EqDecision MessageBoundaryRecord.
Proof. solve_decision. Defined.
#[export] Instance QueuePortDirection_eq_dec : EqDecision QueuePortDirection.
Proof. solve_decision. Defined.
#[export] Instance QueuePressureBoundaryKind_eq_dec : EqDecision QueuePressureBoundaryKind.
Proof. solve_decision. Defined.
#[export] Instance QueuePressureRecord_eq_dec : EqDecision QueuePressureRecord.
Proof. solve_decision. Defined.

(** ** Errors *)

Module DeadlockDiagnosticMetadata.
Record DeadlockDiagnosticMetadata : Set := mk {
  scheduled_node_count : N;
  pending_node_count : N;
  completed_node_count : N;
  failed_node_count : N;
  cancelled_node_count : N;
  bounded_edge_count : N;
  no_progress_timeout_ms : N;
  cycle_policy : rstr;
  feedback_loop_startup : option rstr;
  feedback_loop_termination : option rstr;
}.

Definition new (scheduled_node_count pending_node_count bounded_edge_count
    no_progress_timeout_ms : N) (cycle_policy : rstr) : DeadlockDiagnosticMetadata :=
  mk scheduled_node_count pending_node_count 0 0 0 bounded_edge_count no_progress_timeout_ms
    cycle_policy None None.

Definition with_terminal_counts (d : DeadlockDiagnosticMetadata)
    (completed failed cancelled : N) : DeadlockDiagnosticMetadata :=
  mk (scheduled_node_count d) (pending_node_count d) completed failed cancelled
    (bounded_edge_count d) (no_progress_timeout_ms d) (cycle_policy d)
    (feedback_loop_startup d) (feedback_loop_termination d).

Definition with_feedback_loop (d : DeadlockDiagnosticMetadata) (startup termination : rstr) :
    DeadlockDiagnosticMetadata :=
  mk (scheduled_node_count d) (pending_node_count d) (completed_node_count d)
    (failed_node_count d) (cancelled_node_count d) (bounded_edge_count d)
    (no_progress_timeout_ms d) (cycle_policy d) (Some startup) (Some termination).
End DeadlockDiagnosticMetadata.
Notation DeadlockDiagnosticMetadata := DeadlockDiagnosticMetadata.DeadlockDiagnosticMetadata.

Module ErrorMetadataRecord.
Inductive ErrorMetadataKind : Set := NodeFailed | WorkflowFailed.
Definition kind_label (k : ErrorMetadataKind) : rstr :=
  match k with NodeFailed => lit "node_failed" | WorkflowFailed => lit "workflow_failed" end.

Inductive ErrorDiagnosticMetadata : Set :=
| WorkflowDeadlock (diagnostic : DeadlockDiagnosticMetadata).

Record ErrorMetadataRecord : Set := mk {
  kind : ErrorMetadataKind;
  workflow_id : WorkflowId;
  node_id : option NodeId;
  execution : ExecutionMetadata;
  error : PureflowError;
  diagnostic : option ErrorDiagnosticMetadata;
}.

Definition node_failed (context : NodeContext) (error : PureflowError) : ErrorMetadataRecord :=
  mk NodeFailed (NodeContext.workflow_id context) (Some (NodeContext.node_id context))
    (NodeContext.execution context) error None.

Definition workflow_failed (workflow_id : WorkflowId) (execution : ExecutionMetadata)
    (error : PureflowError) : ErrorMetadataRecord :=
  mk WorkflowFailed workflow_id None execution error None.

Definition workflow_failed_with_diagnostic (workflow_id : WorkflowId)
    (execution : ExecutionMetadata) (error : PureflowError)
    (diagnostic : ErrorDiagnosticMetadata) : ErrorMetadataRecord :=
  mk WorkflowFailed workflow_id None execution error (Some diagnostic).
End ErrorMetadataRecord.
Notation ErrorMetadataRecord := ErrorMetadataRecord.ErrorMetadataRecord.

#[export] Instance DeadlockDiagnosticMetadata_eq_dec : EqDecision DeadlockDiagnosticMetadata.
Proof. solve_decision. Defined.
#[export] Instance ErrorMetadataKind_eq_dec : EqDecision ErrorMetadataRecord.ErrorMetadataKind.
Proof. solve_decision. Defined.
#[export] Instance ErrorDiagnosticMetadata_eq_dec :
  EqDecision ErrorMetadataRecord.ErrorDiagnosticMetadata.
Proof. solve_decision. Defined.
#[export] Instance ErrorMetadataRecord_eq_dec : EqDecision ErrorMetadataRecord.
Proof. solve_decision. Defined.

(** ** External effects *)

Module ExternalEffectMetadataRecord.
Inductive ExternalEffectMetadataKind : Set := Requested | Completed | Failed.
Definition kind_label (k : ExternalEffectMetadataKind) : rstr :=
  match k with
  | Requested => lit "external_effect_requested"
  | Completed => lit "external_effect_completed"
  | Failed => lit "external_effect_failed"
  end.

Record ExternalEffectMetadataRecord : Set := new {
  kind : ExternalEffectMetadataKind;
  context : NodeContext;
  effect : EffectCapability;
  operation : rstr;
  target : rstr;
  response_status : option rstr;
}.

Definition requested (context : NodeContext) (effect : EffectCapability)
    (operation target : rstr) : ExternalEffectMetadataRecord :=
  new Requested context effect operation target None.
Definition completed (context : NodeContext) (effect : EffectCapability)
    (operation target response_status : rstr) : ExternalEffectMetadataRecord :=
  new Completed context effect operation target (Some response_status).
Definition failed (context : NodeContext) (effect : EffectCapability)
    (operation target : rstr) (response_status : option rstr) : ExternalEffectMetadataRecord :=
  new Failed context effect operation target response_status.
End ExternalEffectMetadataRecord.
Notation ExternalEffectMetadataRecord := ExternalEffectMetadataRecord.ExternalEffectMetadataRecord.

(** ** Rule evaluations *)

Module RuleEvalStrategy.
Inductive RuleEvalStrategy : Set := FirstMatch | AllMatches | Score.
Definition label (s : RuleEvalStrategy) : rstr :=
  match s with
  | FirstMatch => lit "first_match" | AllMatches => lit "all_matches" | Score => lit "score"
  end.
End RuleEvalStrategy.
Notation RuleEvalStrategy := RuleEvalStrategy.RuleEvalStrategy.

Module RuleEvalAction.
Inductive RuleEvalAction : Set :=
| Route (port : PortId)
| Drop
| DeadLetter (reason : rstr)
| Tag (key value : rstr)
| Halt (msg : rstr)
| Default.
End RuleEvalAction.
Notation RuleEvalAction := RuleEvalAction.RuleEvalAction.

Module ConditionTrace.
Inductive ConditionSurfaceRecord : Set :=
| Payload | Tag | Provenance | ExecutionContext | Combinator | Constant.
Definition surface_label (s : ConditionSurfaceRecord) : rstr :=
  match s with
  | Payload => lit "payload"
  | Tag => lit "tag"
  | Provenance => lit "provenance"
  | ExecutionContext => lit "execution_context"
  | Combinator => lit "combinator"
  | Constant => lit "constant"
  end.

Record ConditionTrace : Set := new {
  rule_id : rstr;
  condition_description : rstr;
  matched : bool;
  surface : ConditionSurfaceRecord;
}.
End ConditionTrace.
Notation ConditionTrace := ConditionTrace.ConditionTrace.

#[export] Instance RuleEvalAction_eq_dec : EqDecision RuleEvalAction.
Proof. solve_decision. Defined.
#[export] Instance ConditionSurfaceRecord_eq_dec : EqDecision ConditionTrace.ConditionSurfaceRecord.
Proof. solve_decision. Defined.
#[export] Instance ConditionTrace_eq_dec : EqDecision ConditionTrace.
Proof. solve_decision. Defined.

Module RuleEvalRecord.
Section record.
Context `{J : JsonNumber}.
Record RuleEvalRecord : Type := mk {
  node_id : NodeId;
  workflow_id : WorkflowId;
  execution : ExecutionMetadata;
  rule_set_id : rstr;
  strategy : RuleEvalStrategy;
  matched_rule : option rstr;
  action_taken : RuleEvalAction;
  rules_evaluated : N;
  tags_applied : list (rstr * Value);
  source_node : option NodeId;
  arrival_port : option PortId;
  hop_count : N;
  tags_present_at_eval : list (rstr * Value);
  conditions_evaluated : list ConditionTrace;
}.
End record.
End RuleEvalRecord.
Notation RuleEvalRecord := RuleEvalRecord.RuleEvalRecord.

Module MetadataRecord.
Section record.
Context `{J : JsonNumber}.
Inductive MetadataRecord : Type :=
| ExecutionContext (context : NodeContext)
| Lifecycle (event : LifecycleEvent)
| Message (message : MessageBoundaryRecord)
| QueuePressure (queue : QueuePressureRecord)
| Error (error : ErrorMetadataRecord)
| ExternalEffect (effect : ExternalEffectMetadataRecord)
| RuleEval (rule_eval : RuleEvalRecord).
End record.
End MetadataRecord.
Notation MetadataRecord := MetadataRecord.MetadataRecord.
