(* ===== verification/MetadataJson.v ===== *)
(** The JSON projection of metadata records
    ([metadata_record_to_json_value], src/crates/pureflow-core/src/metadata.rs),
    and that it loses nothing an observer could compare. *)

From Stdlib Require Import Lia.
From S2P Require Import Prelude RustStr BTree Types Workflow Capability Errors Json Context Message Metadata.

Definition lifecycle_event_kind_label (k : LifecycleEventKind) : rstr :=
  match k with
  | LifecycleEventKind.NodeScheduled => lit "node_scheduled"
  | LifecycleEventKind.NodeStarted => lit "node_started"
  | LifecycleEventKind.NodeCompleted => lit "node_completed"
  | LifecycleEventKind.NodeFailed => lit "node_failed"
  | LifecycleEventKind.NodeCancelled => lit "node_cancelled"
  end.

Definition error_visibility_label (v : ErrorVisibility) : rstr :=
  match v with
  | ErrorVisibility.User => lit "user"
  | ErrorVisibility.Internal => lit "internal"
  end.

Definition retry_disposition_label (d : RetryDisposition) : rstr :=
  match d with
  | RetryDisposition.Never => lit "never"
  | RetryDisposition.Safe => lit "safe"
  | RetryDisposition.Unknown => lit "unknown"
  end.

Section projection.
Context `{J : JsonNumber}.

Notation str := Value.String.
Notation obj := Value.object.

Definition execution_metadata_to_json_value (e : ExecutionMetadata) : Value :=
  obj [(lit "execution_id", str (as_str (ExecutionMetadata.execution_id e)));
       (lit "attempt", Value.of_usize (ExecutionAttempt.get (ExecutionMetadata.attempt e)))].

Definition cancellation_state_to_json_value (c : CancellationState) : Value :=
  match c with
  | CancellationState.Active => obj [(lit "state", str (lit "active"))]
  | CancellationState.Requested request =>
      obj [(lit "state", str (lit "requested"));
           (lit "reason", str (CancellationRequest.reason request))]
  end.

Definition node_context_to_json_value (s : signals) (c : NodeContext) : Value :=
  obj [(lit "workflow_id", str (as_str (NodeContext.workflow_id c)));
       (lit "node_id", str (as_str (NodeContext.node_id c)));
       (lit "execution", execution_metadata_to_json_value (NodeContext.execution c));
       (lit "cancellation", cancellation_state_to_json_value (NodeContext.cancellation s c))].

Definition message_endpoint_to_json_value (e : MessageEndpoint) : Value :=
  obj [(lit "node_id", str (as_str (MessageEndpoint.node_id e)));
       (lit "port_id", str (as_str (MessageEndpoint.port_id e)))].

Definition message_route_to_json_value (r : MessageRoute) : Value :=
  obj [(lit "source", Value.of_option message_endpoint_to_json_value (MessageRoute.source r));
       (lit "target", message_endpoint_to_json_value (MessageRoute.target r))].

Definition message_metadata_to_json_value (m : MessageMetadata) : Value :=
  obj [(lit "message_id", str (as_str (MessageMetadata.message_id m)));
       (lit "workflow_id", str (as_str (MessageMetadata.workflow_id m)));
       (lit "execution", execution_metadata_to_json_value (MessageMetadata.execution m));
       (lit "route", message_route_to_json_value (MessageMetadata.route m))].

Definition pureflow_error_to_json_value (e : PureflowError) : Value :=
  obj [(lit "code", str (ErrorCode.as_str (PureflowError.code e)));
       (lit "message", str (PureflowError.fmt e));
       (lit "visibility", str (error_visibility_label (PureflowError.visibility e)));
       (lit "retry_disposition",
        str (retry_disposition_label (PureflowError.retry_disposition e)))].

Definition error_diagnostic_metadata_to_json_value
    (d : ErrorMetadataRecord.ErrorDiagnosticMetadata) : Value :=
  match d with
  | ErrorMetadataRecord.WorkflowDeadlock d =>
      obj [(lit "type", str (lit "workflow_deadlock"));
           (lit "scheduled_node_count",
            Value.of_usize (DeadlockDiagnosticMetadata.scheduled_node_count d));
           (lit "pending_node_count",
            Value.of_usize (DeadlockDiagnosticMetadata.pending_node_count d));
           (lit "completed_node_count",
            Value.of_usize (DeadlockDiagnosticMetadata.completed_node_count d));
           (lit "failed_node_count",
            Value.of_usize (DeadlockDiagnosticMetadata.failed_node_count d));
           (lit "cancelled_node_count",
            Value.of_usize (DeadlockDiagnosticMetadata.cancelled_node_count d));
           (lit "bounded_edge_count",
            Value.of_usize (DeadlockDiagnosticMetadata.bounded_edge_count d));
           (lit "no_progress_timeout_ms",
            Value.of_usize (DeadlockDiagnosticMetadata.no_progress_timeout_ms d));
           (lit "cycle_policy", str (DeadlockDiagnosticMetadata.cycle_policy d));
           (lit "feedback_loop_startup",
            Value.of_option str (DeadlockDiagnosticMetadata.feedback_loop_startup d));
           (lit "feedback_loop_termination",
            Value.of_option str (DeadlockDiagnosticMetadata.feedback_loop_termination d))]
  end.

Definition rule_eval_action_to_json_value (a : RuleEvalAction) : Value :=
  match a with
  | RuleEvalAction.Route port =>
      obj [(lit "kind", str (lit "route")); (lit "port", str (as_str port))]
  | RuleEvalAction.Drop => obj [(lit "kind", str (lit "drop"))]
  | RuleEvalAction.DeadLetter reason =>
      obj [(lit "kind", str (lit "dead_letter")); (lit "reason", str reason)]
  | RuleEvalAction.Tag key value =>
      obj [(lit "kind", str (lit "tag")); (lit "key", str key); (lit "value", str value)]
  | RuleEvalAction.Halt msg =>
      obj [(lit "kind", str (lit "halt")); (lit "message", str msg)]
  | RuleEvalAction.Default => obj [(lit "kind", str (lit "default"))]
  end.

Definition condition_trace_to_json_value (t : ConditionTrace) : Value :=
  obj [(lit "rule_id", str (ConditionTrace.rule_id t));
       (lit "condition", str (ConditionTrace.condition_description t));
       (lit "matched", Value.Bool (ConditionTrace.matched t));
       (lit "surface", str (ConditionTrace.surface_label (ConditionTrace.surface t)))].

Definition tag_to_json_value (kv : rstr * Value) : Value :=
  obj [(lit "key", str kv.1); (lit "value", kv.2)].

Definition metadata_record_to_json_value (s : signals) (record : MetadataRecord) : Value :=
  match record with
  | MetadataRecord.ExecutionContext context =>
      obj [(lit "record_type", str (lit "execution_context"));
           (lit "kind", str (lit "execution_context"));
           (lit "context", node_context_to_json_value s context)]
  | MetadataRecord.Lifecycle event =>
      obj [(lit "record_type", str (lit "lifecycle"));
           (lit "kind", str (lifecycle_event_kind_label (LifecycleEvent.kind event)));
           (lit "context", node_context_to_json_value s (LifecycleEvent.context event))]
  | MetadataRecord.Message message =>
      obj [(lit "record_type", str (lit "message"));
           (lit "kind", str (MessageBoundaryKind.label (MessageBoundaryRecord.kind message)));
           (lit "message",
            message_metadata_to_json_value (MessageBoundaryRecord.metadata message))]
  | MetadataRecord.QueuePressure queue =>
      obj [(lit "record_type", str (lit "queue_pressure"));
           (lit "kind", str (QueuePressureBoundaryKind.label (QueuePressureRecord.kind queue)));
           (lit "direction",
            str (QueuePortDirection.label (QueuePressureRecord.direction queue)));
           (lit "port_id", str (as_str (QueuePressureRecord.port_id queue)));
           (lit "context",
            Value.of_option (node_context_to_json_value s) (QueuePressureRecord.context queue));
           (lit "connected_edge_count",
            Value.of_usize (QueuePressureRecord.connected_edge_count queue));
           (lit "capacity", Value.of_option Value.of_usize (QueuePressureRecord.capacity queue));
           (lit "queued_count",
            Value.of_option Value.of_usize (QueuePressureRecord.queued_count queue))]
  | MetadataRecord.Error error =>
      obj [(lit "record_type", str (lit "error"));
           (lit "kind",
            str (ErrorMetadataRecord.kind_label (ErrorMetadataRecord.kind error)));
           (lit "workflow_id", str (as_str (ErrorMetadataRecord.workflow_id error)));
           (lit "node_id",
            Value.of_option (λ n, str (as_str n)) (ErrorMetadataRecord.node_id error));
           (lit "execution",
            execution_metadata_to_json_value (ErrorMetadataRecord.execution error));
           (lit "error", pureflow_error_to_json_value (ErrorMetadataRecord.error error));
           (lit "diagnostic",
            Value.of_option error_diagnostic_metadata_to_json_value
              (ErrorMetadataRecord.diagnostic error))]
  | MetadataRecord.ExternalEffect effect =>
      obj [(lit "record_type", str (lit "external_effect"));
           (lit "kind", str (ExternalEffectMetadataRecord.kind_label
                               (ExternalEffectMetadataRecord.kind effect)));
           (lit "context",
            node_context_to_json_value s (ExternalEffectMetadataRecord.context effect));
           (lit "effect",
            str (EffectCapability.as_str (ExternalEffectMetadataRecord.effect effect)));
           (lit "operation", str (ExternalEffectMetadataRecord.operation effect));
           (lit "target", str (ExternalEffectMetadataRecord.target effect));
           (lit "response_status",
            Value.of_option str (ExternalEffectMetadataRecord.response_status effect))]
  | MetadataRecord.RuleEval r =>
      obj [(lit "record_type", str (lit "rule_eval"));
           (lit "node_id", str (as_str (RuleEvalRecord.node_id r)));
           (lit "workflow_id", str (as_str (RuleEvalRecord.workflow_id r)));
           (lit "execution", execution_metadata_to_json_value (RuleEvalRecord.execution r));
           (lit "rule_set_id", str (RuleEvalRecord.rule_set_id r));
           (lit "strategy", str (RuleEvalStrategy.label (RuleEvalRecord.strategy r)));
           (lit "matched_rule", Value.of_option str (RuleEvalRecord.matched_rule r));
           (lit "action_taken", rule_eval_action_to_json_value (RuleEvalRecord.action_taken r));
           (lit "rules_evaluated", Value.of_usize (RuleEvalRecord.rules_evaluated r));
           (lit "tags_applied",
            Value.Array (tag_to_json_value <$> RuleEvalRecord.tags_applied r));
           (lit "source_node",
            Value.of_option (λ n, str (as_str n)) (RuleEvalRecord.source_node r));
           (lit "arrival_port",
            Value.of_option (λ p, str (as_str p)) (RuleEvalRecord.arrival_port r));
           (lit "hop_count", Value.of_usize (RuleEvalRecord.hop_count r));
           (lit "tags_present_at_eval",
            Value.Array (tag_to_json_value <$> RuleEvalRecord.tags_present_at_eval r));
           (lit "conditions_evaluated",
            Value.Array (condition_trace_to_json_value <$>
                           RuleEvalRecord.conditions_evaluated r))]
  end.
End projection.

(** ** What an observer can compare *)

Section observation.
Context `{J : JsonNumber}.

(** A context through its tokens: identity, attempt and cancellation state. *)
Definition context_view (s : signals) (c : NodeContext) :
    WorkflowId * NodeId * ExecutionMetadata * CancellationState :=
  (NodeContext.workflow_id c, NodeContext.node_id c, NodeContext.execution c,
   NodeContext.cancellation s c).

Definition effect_view (s : signals) (e : ExternalEffectMetadataRecord) :=
  (ExternalEffectMetadataRecord.kind e, context_view s (ExternalEffectMetadataRecord.context e),
   ExternalEffectMetadataRecord.effect e, ExternalEffectMetadataRecord.operation e,
   ExternalEffectMetadataRecord.target e, ExternalEffectMetadataRecord.response_status e).

Definition queue_view (s : signals) (q : QueuePressureRecord) :=
  (context_view s <$> QueuePressureRecord.context q, QueuePressureRecord.direction q,
   QueuePressureRecord.port_id q, QueuePressureRecord.kind q,
   QueuePressureRecord.connected_edge_count q, QueuePressureRecord.capacity q,
   QueuePressureRecord.queued_count q).

(** An error through its code and rendered text. *)
Definition error_view (e : ErrorMetadataRecord) :=
  (ErrorMetadataRecord.kind e, ErrorMetadataRecord.workflow_id e, ErrorMetadataRecord.node_id e,
   ErrorMetadataRecord.execution e, PureflowError.code (ErrorMetadataRecord.error e),
   PureflowError.fmt (ErrorMetadataRecord.error e), ErrorMetadataRecord.diagnostic e).

Definition same_observation (s : signals) (r1 r2 : MetadataRecord) : Prop :=
  match r1, r2 with
  | MetadataRecord.ExecutionContext c1, MetadataRecord.ExecutionContext c2 =>
      context_view s c1 = context_view s c2
  | MetadataRecord.Lifecycle e1, MetadataRecord.Lifecycle e2 =>
      LifecycleEvent.kind e1 = LifecycleEvent.kind e2
      ∧ context_view s (LifecycleEvent.context e1) = context_view s (LifecycleEvent.context e2)
  | MetadataRecord.Message m1, MetadataRecord.Message m2 => m1 = m2
  | MetadataRecord.QueuePressure q1, MetadataRecord.QueuePressure q2 =>
      queue_view s q1 = queue_view s q2
  | MetadataRecord.Error e1, MetadataRecord.Error e2 => error_view e1 = error_view e2
  | MetadataRecord.ExternalEffect e1, MetadataRecord.ExternalEffect e2 =>
      effect_view s e1 = effect_view s e2
  | MetadataRecord.RuleEval r1, MetadataRecord.RuleEval r2 => r1 = r2
  | _, _ => False
  end.

(** The machine widths of the counters in a record. *)
Definition fits (n : N) : Prop := (n < 2 ^ 64)%N.
Definition fits_option (o : option N) : Prop := match o with Some n => fits n | None => True end.
Definition execution_fits (e : ExecutionMetadata) : Prop :=
  fits (ExecutionAttempt.get (ExecutionMetadata.attempt e)).
Definition diagnostic_fits (d : ErrorMetadataRecord.ErrorDiagnosticMetadata) : Prop :=
  let 'ErrorMetadataRecord.WorkflowDeadlock d := d in
  fits (DeadlockDiagnosticMetadata.scheduled_node_count d)
  ∧ fits (DeadlockDiagnosticMetadata.pending_node_count d)
  ∧ fits (DeadlockDiagnosticMetadata.completed_node_count d)
  ∧ fits (DeadlockDiagnosticMetadata.failed_node_count d)
  ∧ fits (DeadlockDiagnosticMetadata.cancelled_node_count d)
  ∧ fits (DeadlockDiagnosticMetadata.bounded_edge_count d)
  ∧ fits (DeadlockDiagnosticMetadata.no_progress_timeout_ms d).
Definition record_fits (r : MetadataRecord) : Prop :=
  match r with
  | MetadataRecord.ExecutionContext c => execution_fits (NodeContext.execution c)
  | MetadataRecord.Lifecycle e => execution_fits (NodeContext.execution (LifecycleEvent.context e))
  | MetadataRecord.Message m =>
      execution_fits (MessageMetadata.execution (MessageBoundaryRecord.metadata m))
  | MetadataRecord.QueuePressure q =>
      match QueuePressureRecord.context q with
      | Some c => execution_fits (NodeContext.execution c)
      | None => True
      end
      ∧ fits (QueuePressureRecord.connected_edge_count q)
      ∧ fits_option (QueuePressureRecord.capacity q)
      ∧ fits_option (QueuePressureRecord.queued_count q)
  | MetadataRecord.Error e =>
      execution_fits (ErrorMetadataRecord.execution e)
      ∧ match ErrorMetadataRecord.diagnostic e with
        | Some d => diagnostic_fits d
        | None => True
        end
  | MetadataRecord.ExternalEffect e =>
      execution_fits (NodeContext.execution (ExternalEffectMetadataRecord.context e))
  | MetadataRecord.RuleEval r =>
      execution_fits (RuleEvalRecord.execution r)
      ∧ fits (RuleEvalRecord.rules_evaluated r) ∧ fits (RuleEvalRecord.hop_count r)
  end.

(** *** Injectivity of the pieces *)

(** Two objects built from the same distinct keys agree field by field. *)
Lemma object_inj l1 l2 :
  NoDup l1.*1 → l1.*1 = l2.*1 → Value.object l1 = Value.object l2 → l1 = l2.
Proof.
  intros Hnd Hk [= Heq].
  assert (Hsub : ∀ k v, (k, v) ∈ l1 ↔ (k, v) ∈ l2).
  { intros k v. rewrite <- (BTreeMap.get_collect k v l1), <- (BTreeMap.get_collect k v l2), Heq;
      [done|congruence|done]. }
  clear Heq. revert l2 Hk Hsub. induction l1 as [|[k v] l1 IH]; intros [|[k2 v2] l2] Hk Hsub;
    simpl in Hk; try discriminate Hk; [done|]. injection Hk as <- Hk.
  apply NoDup_cons in Hnd as [Hn Hnd].
  assert (v = v2) as <-.
  { assert ((k, v) ∈ (k, v2) :: l2) as [?|Hin]%elem_of_cons by (apply Hsub; left); [congruence|].
    destruct Hn. change (k ∈ l1.*1). replace (l1.*1) with (l2.*1) by (symmetry; exact Hk).
    apply list_elem_of_fmap. by exists (k, v). }
  f_equal. apply IH; [done|done|]. intros k' v'. split; intros Hin.
  - assert ((k', v') ∈ (k, v) :: l2) as [?|?]%elem_of_cons by (apply Hsub; by right); [|done].
    simplify_eq. destruct Hn. apply list_elem_of_fmap. by exists (k, v).
  - assert ((k', v') ∈ (k, v) :: l1) as [?|?]%elem_of_cons by (apply Hsub; by right); [|done].
    simplify_eq. destruct Hn. change (k ∈ l1.*1). replace (l1.*1) with (l2.*1) by (symmetry; exact Hk).
    apply list_elem_of_fmap. by exists (k, v).
Qed.

Lemma number_of_u64_inj n m :
  fits n → fits m → number_of_u64 n = number_of_u64 m → n = m.
Proof.
  intros Hn Hm Heq%(f_equal as_u64). rewrite !as_u64_of_u64 in Heq by done. congruence.
Qed.

Lemma of_option_inj {A B} (f : A → Value) (g : A → B) o1 o2 :
  (∀ a, f a ≠ Value.Null) →
  (∀ a b, o1 = Some a → o2 = Some b → f a = f b → g a = g b) →
  Value.of_option f o1 = Value.of_option f o2 → g <$> o1 = g <$> o2.
Proof.
  intros Hn Hf. destruct o1 as [a|], o2 as [b|]; simpl; intros E.
  - f_equal. eauto.
  - by destruct (Hn a).
  - by destruct (Hn b).
  - done.
Qed.

Lemma of_option_str_inj {A} (f : A → rstr) o1 o2 :
  (∀ a b, f a = f b → a = b) →
  Value.of_option (λ a, Value.String (f a)) o1 = Value.of_option (λ a, Value.String (f a)) o2 →
  o1 = o2.
Proof.
  intros Hf. destruct o1, o2; simpl; intros E; simplify_eq; [|done].
  f_equal. auto.
Qed.

Lemma of_option_usize_inj o1 o2 :
  fits_option o1 → fits_option o2 →
  Value.of_option Value.of_usize o1 = Value.of_option Value.of_usize o2 → o1 = o2.
Proof.
  intros H1 H2. destruct o1, o2; simpl in *; intros E; try done.
  f_equal. apply number_of_u64_inj; [done..|]. by injection E.
Qed.

Lemma identifier_str_inj {kind} (a b : identifier kind) : as_str a = as_str b → a = b.
Proof. destruct a, b. simpl. congruence. Qed.
End observation.

Lemma cons_pair_inj {A B} (k : A) (v1 v2 : B) l1 l2 :
  (k, v1) :: l1 = (k, v2) :: l2 → v1 = v2 ∧ l1 = l2.
Proof. by intros [= -> ->]. Qed.

(** Take an equality of two [json!] objects apart, field by field. *)
Ltac json_fields H :=
  apply object_inj in H;
  [ repeat (let Hf := fresh "Hf" in apply cons_pair_inj in H as [Hf H]); clear H
  | simpl; apply (bool_decide_eq_true_1 _); vm_compute; reflexivity
  | reflexivity ];
  repeat match goal with
  | E : Value.String ?a = Value.String ?b |- _ => assert (a = b) by congruence; clear E
  | E : Value.Bool ?a = Value.Bool ?b |- _ => assert (a = b) by congruence; clear E
  | E : Value.Array ?a = Value.Array ?b |- _ => assert (a = b) by congruence; clear E
  | E : Value.of_usize ?a = Value.of_usize ?b |- _ =>
      assert (number_of_u64 a = number_of_u64 b) by (unfold Value.of_usize in E; congruence);
      clear E
  end.

(** Close a field of a projected record from the equality of its projection. *)
Ltac json_close :=
  first [ done | apply identifier_str_inj; done | apply number_of_u64_inj; done ].

Ltac split_pairs := repeat match goal with |- (_, _) = (_, _) => f_equal end.

Section projection_injective.
Context `{J : JsonNumber}.

Lemma execution_json_inj e1 e2 :
  execution_fits e1 → execution_fits e2 →
  execution_metadata_to_json_value e1 = execution_metadata_to_json_value e2 → e1 = e2.
Proof.
  intros H1 H2 H. json_fields H.
  destruct e1 as [i1 [a1]], e2 as [i2 [a2]]. simpl in *.
  f_equal; [json_close|]. unfold ExecutionAttempt.get in *. simpl in *.
  assert (Npos a1 = Npos a2) by json_close. congruence.
Qed.

Lemma cancellation_json_inj c1 c2 :
  cancellation_state_to_json_value c1 = cancellation_state_to_json_value c2 → c1 = c2.
Proof.
  assert (Hk : ∀ r, cancellation_state_to_json_value CancellationState.Active ≠
    cancellation_state_to_json_value (CancellationState.Requested r)).
  { intros r H%(f_equal (λ v, Value.get v (lit "state"))). vm_compute in H. congruence. }
  destruct c1 as [|[r1]], c2 as [|[r2]]; intros H; [done|by apply Hk in H| |].
  - symmetry in H. by apply Hk in H.
  - json_fields H. simpl in *. congruence.
Qed.

Lemma context_json_inj s c1 c2 :
  execution_fits (NodeContext.execution c1) → execution_fits (NodeContext.execution c2) →
  node_context_to_json_value s c1 = node_context_to_json_value s c2 →
  context_view s c1 = context_view s c2.
Proof.
  intros H1 H2 H. json_fields H. unfold context_view.
  split_pairs; first [json_close | by apply execution_json_inj | by apply cancellation_json_inj].
Qed.

Lemma endpoint_json_inj e1 e2 :
  message_endpoint_to_json_value e1 = message_endpoint_to_json_value e2 → e1 = e2.
Proof.
  intros H. json_fields H. destruct e1, e2. simpl in *. f_equal; json_close.
Qed.

Lemma route_json_inj r1 r2 :
  message_route_to_json_value r1 = message_route_to_json_value r2 → r1 = r2.
Proof.
  intros H. json_fields H. destruct r1 as [s1 t1], r2 as [s2 t2]. simpl in *.
  f_equal; [|by apply endpoint_json_inj].
  apply (of_option_inj _ id) in Hf; [by rewrite !option_fmap_id in Hf|done|].
  intros. by apply endpoint_json_inj.
Qed.

Lemma message_json_inj m1 m2 :
  execution_fits (MessageMetadata.execution m1) → execution_fits (MessageMetadata.execution m2) →
  message_metadata_to_json_value m1 = message_metadata_to_json_value m2 → m1 = m2.
Proof.
  intros H1 H2 H. json_fields H. destruct m1, m2. simpl in *.
  f_equal; first [json_close | by apply execution_json_inj | by apply route_json_inj].
Qed.

Lemma diagnostic_json_inj d1 d2 :
  diagnostic_fits d1 → diagnostic_fits d2 →
  error_diagnostic_metadata_to_json_value d1 = error_diagnostic_metadata_to_json_value d2 →
  d1 = d2.
Proof.
  destruct d1 as [d1], d2 as [d2]. intros H1 H2 H. json_fields H.
  destruct d1, d2. unfold diagnostic_fits in *. simpl in *. destruct_and!.
  do 2 f_equal; first [json_close | by apply (of_option_str_inj id)].
Qed.

Lemma action_json_inj a1 a2 :
  rule_eval_action_to_json_value a1 = rule_eval_action_to_json_value a2 → a1 = a2.
Proof.
  intros H. pose proof (f_equal (λ v, Value.get v (lit "kind")) H) as Hk.
  destruct a1, a2; vm_compute in Hk; try congruence; clear Hk; try done;
    json_fields H; f_equal; json_close.
Qed.

Lemma trace_json_inj t1 t2 :
  condition_trace_to_json_value t1 = condition_trace_to_json_value t2 → t1 = t2.
Proof.
  intros H. json_fields H. destruct t1 as [? ? ? s1], t2 as [? ? ? s2]. simpl in *.
  f_equal; first [json_close | by destruct s1, s2].
Qed.

Lemma tag_json_inj kv1 kv2 : tag_to_json_value kv1 = tag_to_json_value kv2 → kv1 = kv2.
Proof. intros H. json_fields H. destruct kv1, kv2. simpl in *. f_equal; json_close. Qed.

Lemma array_json_inj {A} (f : A → Value) (l1 l2 : list A) :
  (∀ a b, f a = f b → a = b) → f <$> l1 = f <$> l2 → l1 = l2.
Proof. intros Hf. apply list_fmap_eq_inj. intros a b. apply Hf. Qed.

(** *** One lemma per record type *)

Lemma queue_json_inj s q1 q2 :
  record_fits (MetadataRecord.QueuePressure q1) → record_fits (MetadataRecord.QueuePressure q2) →
  metadata_record_to_json_value s (MetadataRecord.QueuePressure q1) =
  metadata_record_to_json_value s (MetadataRecord.QueuePressure q2) →
  queue_view s q1 = queue_view s q2.
Proof.
  intros (Hc1 & He1 & Hp1 & Hq1) (Hc2 & He2 & Hp2 & Hq2) H. json_fields H.
  destruct q1 as [c1 d1 p1 k1 e1 cap1 n1], q2 as [c2 d2 p2 k2 e2 cap2 n2].
  unfold queue_view. simpl in *. split_pairs;
    first [json_close | by apply of_option_usize_inj | by destruct d1, d2 | by destruct k1, k2 | idtac].
  eapply of_option_inj; [|intros a b -> ->; apply context_json_inj|]; done.
Qed.

Lemma error_json_inj s e1 e2 :
  record_fits (MetadataRecord.Error e1) → record_fits (MetadataRecord.Error e2) →
  metadata_record_to_json_value s (MetadataRecord.Error e1) =
  metadata_record_to_json_value s (MetadataRecord.Error e2) →
  error_view e1 = error_view e2.
Proof.
  intros [Hx1 Hd1] [Hx2 Hd2] H. json_fields H.
  match goal with E : pureflow_error_to_json_value _ = _ |- _ => json_fields E end.
  destruct e1 as [k1 w1 n1 x1 err1 d1], e2 as [k2 w2 n2 x2 err2 d2].
  unfold error_view. simpl in *. split_pairs;
    first [json_close | by apply execution_json_inj | by destruct k1, k2
          | by apply error_code_as_str_inj
          | by apply (of_option_str_inj as_str); [apply identifier_str_inj|] | idtac].
  apply (of_option_inj _ id) in Hf5; [by rewrite !option_fmap_id in Hf5|by intros []|].
  intros a b -> ->. by apply diagnostic_json_inj.
Qed.

Lemma effect_json_inj s e1 e2 :
  record_fits (MetadataRecord.ExternalEffect e1) → record_fits (MetadataRecord.ExternalEffect e2) →
  metadata_record_to_json_value s (MetadataRecord.ExternalEffect e1) =
  metadata_record_to_json_value s (MetadataRecord.ExternalEffect e2) →
  effect_view s e1 = effect_view s e2.
Proof.
  intros H1 H2 H. simpl in H1, H2. json_fields H.
  destruct e1 as [k1 c1 f1 o1 t1 r1], e2 as [k2 c2 f2 o2 t2 r2].
  unfold effect_view. simpl in *. split_pairs;
    first [json_close | by apply context_json_inj | by destruct k1, k2 | by destruct f1, f2
          | by apply (of_option_str_inj id)].
Qed.

Lemma rule_eval_json_inj s r1 r2 :
  record_fits (MetadataRecord.RuleEval r1) → record_fits (MetadataRecord.RuleEval r2) →
  metadata_record_to_json_value s (MetadataRecord.RuleEval r1) =
  metadata_record_to_json_value s (MetadataRecord.RuleEval r2) → r1 = r2.
Proof.
  intros (Hx1 & Hn1 & Hh1) (Hx2 & Hn2 & Hh2) H. json_fields H.
  destruct r1 as [? ? ? ? s1], r2 as [? ? ? ? s2]. simpl in *.
  f_equal; first [json_close | by apply execution_json_inj | by destruct s1, s2
    | by apply (of_option_str_inj id) | by apply action_json_inj
    | by apply (array_json_inj tag_to_json_value); [apply tag_json_inj|]
    | by apply (array_json_inj condition_trace_to_json_value); [apply trace_json_inj|]
    | by apply (of_option_str_inj as_str); [apply identifier_str_inj|] ].
Qed.

(** The [record_type] field tells the variants apart. *)
Definition record_type (r : MetadataRecord) : rstr :=
  match r with
  | MetadataRecord.ExecutionContext _ => lit "execution_context"
  | MetadataRecord.Lifecycle _ => lit "lifecycle"
  | MetadataRecord.Message _ => lit "message"
  | MetadataRecord.QueuePressure _ => lit "queue_pressure"
  | MetadataRecord.Error _ => lit "error"
  | MetadataRecord.ExternalEffect _ => lit "external_effect"
  | MetadataRecord.RuleEval _ => lit "rule_eval"
  end.

Lemma get_record_type s r :
  Value.get (metadata_record_to_json_value s r) (lit "record_type")
  = Some (Value.String (record_type r)).
Proof.
  destruct r; unfold metadata_record_to_json_value; rewrite Value.get_object;
    (apply BTreeMap.get_collect;
     [simpl; apply (bool_decide_eq_true_1 _); vm_compute; reflexivity|left]).
Qed.

(** C37. The JSON projection of a metadata record keeps everything an observer
    of the run can compare: two records whose counters fit their machine widths
    and that project to the same JSON, at the same moment, are of the same
    variant and agree on every field, contexts being compared through their
    identity, attempt and current cancellation state and errors through their
    code and text. *)
Theorem metadata_projection_injective (s : signals) (r1 r2 : MetadataRecord)
  (H1 : record_fits r1) (H2 : record_fits r2)
  (H : metadata_record_to_json_value s r1 = metadata_record_to_json_value s r2) :
  same_observation s r1 r2.
Proof.
  assert (Ht : record_type r1 = record_type r2).
  { pose proof (get_record_type s r1) as E. rewrite H, get_record_type in E. congruence. }
  destruct r1, r2; try discriminate Ht; clear Ht; simpl in H1, H2; cbn [same_observation].
  - json_fields H. by apply context_json_inj.
  - json_fields H. destruct event as [k1 c1], event0 as [k2 c2]. simpl in *.
    split; [by destruct k1, k2|by apply context_json_inj].
  - json_fields H. destruct message as [k1 m1], message0 as [k2 m2]. simpl in *.
    f_equal; [by destruct k1, k2|by apply message_json_inj].
  - by apply queue_json_inj.
  - by eapply error_json_inj.
  - by apply effect_json_inj.
  - by eapply rule_eval_json_inj.
Qed.
End projection_injective.

(** Two clones of a context, with distinct cancellation signals that are both
    still active. *)
Section examples.
Let context (signal : nat) : NodeContext :=
  NodeContext.mk (ident "flow") (ident "node")
    (ExecutionMetadata.first_attempt (ident "run-1")) (CancellationToken.mk signal).
Let started (signal : nat) : MetadataRecord :=
  MetadataRecord.Lifecycle
    (LifecycleEvent.new LifecycleEventKind.NodeStarted (context signal)).

Lemma metadata_projection_injective_witness :
  record_fits (started 0) ∧ record_fits (started 1)
  ∧ same_observation [None; None] (started 0) (started 1).
Proof.
  assert (H0 : record_fits (started 0)) by (vm_compute; reflexivity).
  assert (H1 : record_fits (started 1)) by (vm_compute; reflexivity).
  split; [exact H0|split; [exact H1|]].
  apply (metadata_projection_injective [None; None] (started 0) (started 1) H0 H1).
  reflexivity.
Defined.
End examples.
