(* ===== verification/MetadataSink.v ===== *)
(** Metadata sinks (src/crates/pureflow-core/src/metadata.rs): the
    [MetadataSink] interface, the no-op sink, the tiered sink and the JSONL
    sink.

    A sink is a state with one operation.  The [Mutex] around a sink's state
    serialises calls, so a run is a sequence of them; poisoning needs a panic
    inside a critical section, and none of them can panic. *)

From Stdlib Require Import Lia.
From S2P Require Import Prelude RustStr BTree Types Workflow Capability Errors Json Context Message Metadata MetadataJson.

(** [trait MetadataSink]: what the port layer, the runtime and the engine call.
    Recording a context reads its cancellation signal. *)
Class MetadataSink `{J : JsonNumber} (S : Type) :=
  sink_record : signals → S → MetadataRecord → result unit PureflowError * S.

(** [NoopMetadataSink]. *)
Inductive NoopMetadataSink : Set := noop_sink.
#[export] Instance noop_metadata_sink `{J : JsonNumber} : MetadataSink NoopMetadataSink :=
  λ _ sink _, (Ok tt, sink).

(** ** Tiered sampling *)

Module MetadataTier.
Inductive MetadataTier : Set := Control | Data | HighCostData.
End MetadataTier.
Notation MetadataTier := MetadataTier.MetadataTier.

#[export] Instance MetadataTier_eq_dec : EqDecision MetadataTier.
Proof. solve_decision. Defined.

Module TieredMetadataPolicy.
Record TieredMetadataPolicy : Set := mk {
  data_sample_rate : option NonZeroUsize;
  record_high_cost_data : bool;
}.
Definition control_only : TieredMetadataPolicy := mk None false.
Definition record_data : TieredMetadataPolicy := mk (Some 1%positive) false.
Definition sample_data_every (sample_rate : NonZeroUsize) : TieredMetadataPolicy :=
  mk (Some sample_rate) false.
Definition with_high_cost_data (p : TieredMetadataPolicy) : TieredMetadataPolicy :=
  mk (data_sample_rate p) true.

Definition should_record_data (p : TieredMetadataPolicy) (ordinal : N) : bool :=
  match data_sample_rate p with
  | Some sample_rate => N.eqb (ordinal mod Npos sample_rate) 0
  | None => false
  end.
Definition should_record_high_cost_data (p : TieredMetadataPolicy) : bool :=
  record_high_cost_data p.
End TieredMetadataPolicy.
Notation TieredMetadataPolicy := TieredMetadataPolicy.TieredMetadataPolicy.

Module TieredMetadataSink.
Section tiered.
Context `{J : JsonNumber} {S : Type}.

Record TieredMetadataSink : Type := mk {
  inner : S;
  policy : TieredMetadataPolicy;
  data_seen : N;
}.

Definition with_policy (inner : S) (policy : TieredMetadataPolicy) : TieredMetadataSink :=
  mk inner policy 0.
Definition new (inner : S) : TieredMetadataSink :=
  with_policy inner TieredMetadataPolicy.control_only.

Definition should_record (sink : TieredMetadataSink) (tier : MetadataTier) :
    bool * TieredMetadataSink :=
  match tier with
  | MetadataTier.Control => (true, sink)
  | MetadataTier.Data =>
      let ordinal := data_seen sink in
      (TieredMetadataPolicy.should_record_data (policy sink) ordinal,
       mk (inner sink) (policy sink) (usize_saturating_add (data_seen sink) 1))
  | MetadataTier.HighCostData =>
      (TieredMetadataPolicy.should_record_high_cost_data (policy sink), sink)
  end.

Definition record_with_tier `{!MetadataSink S} (sig : signals) (sink : TieredMetadataSink)
    (tier : MetadataTier) (record : MetadataRecord) :
    result unit PureflowError * TieredMetadataSink :=
  let (selected, sink) := should_record sink tier in
  if selected then
    let (r, inner) := sink_record sig (inner sink) record in
    (r, mk inner (policy sink) (data_seen sink))
  else (Ok tt, sink).
End tiered.
Arguments TieredMetadataSink S : clear implicits.
End TieredMetadataSink.
Notation TieredMetadataSink := TieredMetadataSink.TieredMetadataSink.

(** [impl MetadataSink for TieredMetadataSink]. *)
#[export] Instance tiered_metadata_sink `{J : JsonNumber} {S} `{!MetadataSink S} :
    MetadataSink (TieredMetadataSink S) :=
  λ sig sink record, TieredMetadataSink.record_with_tier sig sink MetadataTier.Control record.

(** ** JSONL *)

(** The writer and the encoder: [std::io::Write] for the wrapped writer and
    [serde_json::to_writer] into it, each with the error text it reports. *)
Class JsonlWriter `{J : JsonNumber} (W : Type) := {
  to_writer : W → Value → result unit rstr * W;
  write_all : W → rstr → result unit rstr * W;
}.

Module JsonlMetadataSink.
Section jsonl.
Context `{J : JsonNumber} {W : Type} `{!JsonlWriter W}.

Record JsonlMetadataSink : Type := new { writer : W }.

Definition record (sig : signals) (sink : JsonlMetadataSink) (r : MetadataRecord) :
    result unit PureflowError * JsonlMetadataSink :=
  let value := metadata_record_to_json_value sig r in
  let (written, w) := to_writer (writer sink) value in
  match written with
  | Err source =>
      (Err (PureflowError.metadata (lit "failed to encode metadata JSONL record: " ++ source)),
       new w)
  | Ok _ =>
      let (ended, w) := write_all w [10%N] in
      (map_err (λ source,
         PureflowError.metadata (lit "failed to write metadata JSONL newline: " ++ source)) ended,
       new w)
  end.
End jsonl.
Arguments JsonlMetadataSink W : clear implicits.
End JsonlMetadataSink.
Notation JsonlMetadataSink := JsonlMetadataSink.JsonlMetadataSink.

#[export] Instance jsonl_metadata_sink `{J : JsonNumber} {W} `{!JsonlWriter W} :
    MetadataSink (JsonlMetadataSink W) := JsonlMetadataSink.record.

(** ** What the tiered sink lets through *)

#[export] Instance N_divide_dec r n : Decision (N.divide (Npos r) n).
Proof.
  refine (cast_if (decide (n mod Npos r = 0)%N)).
  - by apply N.Lcm0.mod_divide.
  - by rewrite <- N.Lcm0.mod_divide.
Defined.

(** The records of a tiered run a policy selects, [seen] data-tier records
    having gone before. *)
Fixpoint selected `{J : JsonNumber} (policy : TieredMetadataPolicy) (seen : N)
    (l : list (MetadataTier * MetadataRecord)) : list MetadataRecord :=
  match l with
  | [] => []
  | (MetadataTier.Control, r) :: l => r :: selected policy seen l
  | (MetadataTier.HighCostData, r) :: l =>
      if TieredMetadataPolicy.record_high_cost_data policy then r :: selected policy seen l
      else selected policy seen l
  | (MetadataTier.Data, r) :: l =>
      match TieredMetadataPolicy.data_sample_rate policy with
      | Some rate =>
          if decide (N.divide (Npos rate) seen) then r :: selected policy (seen + 1) l
          else selected policy (seen + 1) l
      | None => selected policy (seen + 1) l
      end
  end.

Definition data_count `{J : JsonNumber} (l : list (MetadataTier * MetadataRecord)) : nat :=
  length (filter (λ tr, tr.1 = MetadataTier.Data) l).

Section tiered.
Context `{J : JsonNumber} {S : Type} `{!MetadataSink S}.
Implicit Types (sink : TieredMetadataSink S) (l : list (MetadataTier * MetadataRecord)).

(** A run of a sink, and of a tiered sink through its explicit tiers. *)
Definition record_all {T} `{!MetadataSink T} (sig : signals) (st : T)
    (rs : list MetadataRecord) : T :=
  foldl (λ st r, (sink_record sig st r).2) st rs.
Definition tiered_record_all (sig : signals) sink l : TieredMetadataSink S :=
  foldl (λ sink tr, (TieredMetadataSink.record_with_tier sig sink tr.1 tr.2).2) sink l.

Lemma should_record_data_spec p ordinal :
  TieredMetadataPolicy.should_record_data p ordinal =
  match TieredMetadataPolicy.data_sample_rate p with
  | Some rate => bool_decide (N.divide (Npos rate) ordinal)
  | None => false
  end.
Proof.
  unfold TieredMetadataPolicy.should_record_data.
  destruct (TieredMetadataPolicy.data_sample_rate p) as [rate|]; [|done].
  case_bool_decide as Hd; rewrite <- N.Lcm0.mod_divide in Hd.
  - by apply N.eqb_eq.
  - by apply N.eqb_neq.
Qed.

Lemma tiered_run_inner sig sink l :
  (TieredMetadataSink.data_seen sink + N.of_nat (data_count l) <= USIZE_MAX)%N →
  TieredMetadataSink.inner (tiered_record_all sig sink l) =
  record_all sig (TieredMetadataSink.inner sink)
    (selected (TieredMetadataSink.policy sink) (TieredMetadataSink.data_seen sink) l).
Proof.
  unfold tiered_record_all, record_all, data_count.
  revert sink. induction l as [|[tier r] l IH]; intros [inner policy seen] Hmax; [done|].
  rewrite filter_cons in Hmax. simpl in Hmax. simpl foldl.
  unfold TieredMetadataSink.record_with_tier, TieredMetadataSink.should_record. simpl.
  destruct tier; simpl in *.
  - destruct (sink_record sig inner r) as [res inner'] eqn:Hr. simpl.
    rewrite IH by (simpl; lia). simpl. by rewrite ?Hr.
  - rewrite should_record_data_spec.
    assert (Hsat : usize_saturating_add seen 1 = (seen + 1)%N)
      by (unfold usize_saturating_add; lia).
    rewrite Hsat.
    destruct (TieredMetadataPolicy.data_sample_rate policy) as [rate|];
      [|rewrite IH by (simpl; lia); done].
    case_bool_decide as Hd; [rewrite decide_True by done|rewrite decide_False by done].
    + destruct (sink_record sig inner r) as [res inner'] eqn:Hr. simpl.
      rewrite IH by (simpl; lia). simpl. by rewrite ?Hr.
    + simpl. rewrite IH by (simpl; lia). done.
  - unfold TieredMetadataPolicy.should_record_high_cost_data.
    destruct (TieredMetadataPolicy.record_high_cost_data policy).
    + destruct (sink_record sig inner r) as [res inner'] eqn:Hr. simpl.
      rewrite IH by (simpl; lia). simpl. by rewrite ?Hr.
    + simpl. rewrite IH by (simpl; lia). done.
Qed.

(** A run of the tiered sink leaves the wrapped sink as if exactly the
    records the policy selects had been recorded in it, in order: every
    control-tier record, the data-tier records whose ordinal is a multiple of
    the sample rate, and high-cost records when the policy allows them; while a
    run through the [MetadataSink] trait, which always uses the control tier,
    forwards every record whatever the policy. *)
Theorem tiered_sink_forwards (sig : signals) (inner : S) (policy : TieredMetadataPolicy)
  (l : list (MetadataTier * MetadataRecord))
  (Hmax : (N.of_nat (data_count l) <= USIZE_MAX)%N) :
  TieredMetadataSink.inner
    (tiered_record_all sig (TieredMetadataSink.with_policy inner policy) l)
  = record_all sig inner (selected policy 0 l)
  ∧ TieredMetadataSink.inner
      (record_all sig (TieredMetadataSink.with_policy inner policy) l.*2)
    = record_all sig inner l.*2.
Proof.
  split; [by apply (tiered_run_inner sig (TieredMetadataSink.with_policy inner policy))|].
  clear Hmax. unfold TieredMetadataSink.with_policy. generalize 0%N as seen. intros seen.
  unfold record_all. revert inner. induction (l.*2) as [|r rs IH]; intros inner; [done|].
  simpl. unfold sink_record at 2, tiered_metadata_sink, TieredMetadataSink.record_with_tier.
  simpl. destruct (sink_record sig inner r) as [res inner']. simpl. apply IH.
Qed.
End tiered.

(** A sink that keeps what it is given. *)
#[export] Instance collecting_sink `{J : JsonNumber} : MetadataSink (list MetadataRecord) :=
  λ _ records record, (Ok tt, records ++ [record]).

Section examples.
Let fact (n : string) : MetadataRecord :=
  MetadataRecord.ExecutionContext
    (NodeContext.mk (ident "flow") (ident n) (ExecutionMetadata.first_attempt (ident "run-1"))
       (CancellationToken.mk 0)).
Let run : list (MetadataTier * MetadataRecord) :=
  [(MetadataTier.Data, fact "d0"); (MetadataTier.Control, fact "c");
   (MetadataTier.Data, fact "d1"); (MetadataTier.HighCostData, fact "h");
   (MetadataTier.Data, fact "d2")].

Lemma tiered_sink_forwards_witness :
  TieredMetadataSink.inner
    (tiered_record_all [None]
       (TieredMetadataSink.with_policy [] (TieredMetadataPolicy.sample_data_every 2)) run)
  = [fact "d0"; fact "c"; fact "d2"].
Proof.
  destruct (tiered_sink_forwards [None] [] (TieredMetadataPolicy.sample_data_every 2) run)
    as [H _]; [vm_compute; discriminate|].
  exact H.
Defined.
End examples.
