(* ===== verification/Rules.v ===== *)
(** [pureflow-rules]: conditions, actions, rule sets and the evaluator
    (src/crates/pureflow-rules/src/condition.rs, action.rs, error.rs, rule.rs
    and eval.rs).

    [eval_condition], [condition_description] and the three evaluation
    strategies follow the source case by case.  How Rust prints an [f64] is a
    parameter ([FloatDisplay]): it only reaches the description texts. *)

From Stdlib Require Import ZArith Floats.SpecFloat.
From S2P Require Import Prelude RustStr BTree Types Json Context Message Metadata.

(** [impl Display for f64]. *)
Class FloatDisplay := f64_display : f64 → rstr.

Module ScalarValue.
Inductive ScalarValue : Set :=
| String (s : rstr)
| Integer (i : Z)
| Float (f : f64)
| Boolean (b : bool)
| Null.

Definition fmt `{FloatDisplay} (v : ScalarValue) : rstr :=
  match v with
  | String s => [34%N] ++ s ++ [34%N]
  | Integer n => show_Z n
  | Float n => f64_display n
  | Boolean b => if b then lit "true" else lit "false"
  | Null => lit "null"
  end.
End ScalarValue.
Notation ScalarValue := ScalarValue.ScalarValue.

#[export] Instance ScalarValue_eq_dec : EqDecision ScalarValue.
Proof. solve_decision. Defined.

(** ** Actions and errors *)

Module RuleAction.
Inductive RuleAction : Set :=
| Route (port : PortId)
| Drop
| DeadLetter (reason : rstr)
| Tag (key : rstr) (value : ScalarValue)
| Halt (msg : rstr).

Definition is_terminal (a : RuleAction) : bool := match a with Tag _ _ => false | _ => true end.

Definition fmt `{FloatDisplay} (a : RuleAction) : rstr :=
  match a with
  | Route port => lit "Route(" ++ as_str port ++ lit ")"
  | Drop => lit "Drop"
  | DeadLetter reason => lit "DeadLetter(" ++ reason ++ lit ")"
  | Tag key value => lit "Tag(" ++ key ++ lit "=" ++ ScalarValue.fmt value ++ lit ")"
  | Halt msg => lit "Halt(" ++ msg ++ lit ")"
  end.
End RuleAction.
Notation RuleAction := RuleAction.RuleAction.

#[export] Instance RuleAction_eq_dec : EqDecision RuleAction.
Proof. solve_decision. Defined.

Module RuleError.
Inductive RuleError : Set :=
| AllMatchesTerminalAction (rule_id : rstr) (action : RuleAction)
| EmptyRuleId
| EmptyRuleSetId
| EmptyFieldPath.

Definition fmt `{FloatDisplay} (e : RuleError) : rstr :=
  match e with
  | AllMatchesTerminalAction rule_id action =>
      lit "rule `" ++ rule_id ++ lit "` in AllMatches rule set uses terminal action `"
      ++ RuleAction.fmt action ++ lit "`: AllMatches rules may only use Tag actions"
  | EmptyRuleId => lit "rule id must not be empty"
  | EmptyRuleSetId => lit "rule set id must not be empty"
  | EmptyFieldPath => lit "field path must not be empty"
  end.
End RuleError.
Notation RuleError := RuleError.RuleError.

#[export] Instance RuleError_eq_dec : EqDecision RuleError.
Proof. solve_decision. Defined.

(** ** Paths and patterns *)

Module FieldPath.
Record FieldPath : Set := mk { path : rstr }.

Definition new (value : rstr) : result FieldPath RuleError :=
  if vec_is_empty (trim value) then Err RuleError.EmptyFieldPath else Ok (mk value).

(** The loop of [resolve] over the segments. *)
Fixpoint resolve_segments `{J : JsonNumber} (segments : list rstr) (current : Value) :
    option Value :=
  match segments with
  | [] => Some current
  | segment :: segments =>
      match Value.get current segment with
      | Some current => resolve_segments segments current
      | None => None
      end
  end.

Definition resolve `{J : JsonNumber} (p : FieldPath) (root : Value) : option Value :=
  resolve_segments (split_on 46%N (path p)) root.
End FieldPath.
Notation FieldPath := FieldPath.FieldPath.

Module GlobPattern.
Record GlobPattern : Set := new { pattern : rstr }.

Definition STAR : N := 42.
Definition QUESTION : N := 63.

(** [glob_match_inner]: the recursion shrinks the pattern, or keeps it and
    shrinks the value (the inner loop, for a leading star). *)
Fixpoint glob_match_inner (pattern value : rstr) : bool :=
  match pattern with
  | [] => match value with [] => true | _ => false end
  | p :: rest_p =>
      if N.eqb p STAR then
        (fix star (value : rstr) : bool :=
           if glob_match_inner rest_p value then true
           else match value with [] => false | _ :: value => star value end) value
      else if N.eqb p QUESTION then
        match value with [] => false | _ :: rest_v => glob_match_inner rest_p rest_v end
      else
        match value with
        | [] => false
        | v :: rest_v => if N.eqb p v then glob_match_inner rest_p rest_v else false
        end
  end.

Definition matches (g : GlobPattern) (value : rstr) : bool := glob_match_inner (pattern g) value.
End GlobPattern.
Notation GlobPattern := GlobPattern.GlobPattern.

#[export] Instance FieldPath_eq_dec : EqDecision FieldPath.
Proof. solve_decision. Defined.
#[export] Instance GlobPattern_eq_dec : EqDecision GlobPattern.
Proof. solve_decision. Defined.

(** ** Conditions *)

Module ConditionSurface.
Inductive ConditionSurface : Set :=
| Payload | Tag | Provenance | ExecutionContext | Combinator | Constant.
End ConditionSurface.
Notation ConditionSurface := ConditionSurface.ConditionSurface.

Module EvalContext.
Record EvalContext : Set := mk {
  tags : btree_map rstr ScalarValue;
  source_node : option NodeId;
  arrival_port : option PortId;
  hop_count : N;
  workflow_id : WorkflowId;
  execution_metadata : btree_map rstr ScalarValue;
}.
End EvalContext.
Notation EvalContext := EvalContext.EvalContext.

Module Condition.
Inductive Condition : Set :=
| FieldEq (path : FieldPath) (value : ScalarValue)
| FieldNeq (path : FieldPath) (value : ScalarValue)
| FieldGt (path : FieldPath) (value : ScalarValue)
| FieldLt (path : FieldPath) (value : ScalarValue)
| FieldGte (path : FieldPath) (value : ScalarValue)
| FieldLte (path : FieldPath) (value : ScalarValue)
| FieldIn (path : FieldPath) (values : list ScalarValue)
| FieldExists (path : FieldPath)
| FieldAbsent (path : FieldPath)
| FieldMatches (path : FieldPath) (pattern : GlobPattern)
| TagEq (key : rstr) (value : ScalarValue)
| TagExists (key : rstr)
| TagAbsent (key : rstr)
| SourceNode (node_id : NodeId)
| ArrivedOnPort (port_id : PortId)
| HopCountGt (n : N)
| HopCountLte (n : N)
| WorkflowIs (workflow_id : WorkflowId)
| ExecutionMetadataEq (key : rstr) (value : ScalarValue)
| And (conditions : list Condition)
| Or (conditions : list Condition)
| Not (inner : Condition)
| Always
| Never.

Definition surface (c : Condition) : ConditionSurface :=
  match c with
  | FieldEq _ _ | FieldNeq _ _ | FieldGt _ _ | FieldLt _ _ | FieldGte _ _ | FieldLte _ _
  | FieldIn _ _ | FieldExists _ | FieldAbsent _ | FieldMatches _ _ => ConditionSurface.Payload
  | TagEq _ _ | TagExists _ | TagAbsent _ => ConditionSurface.Tag
  | SourceNode _ | ArrivedOnPort _ | HopCountGt _ | HopCountLte _ => ConditionSurface.Provenance
  | WorkflowIs _ | ExecutionMetadataEq _ _ => ConditionSurface.ExecutionContext
  | And _ | Or _ | Not _ => ConditionSurface.Combinator
  | Always | Never => ConditionSurface.Constant
  end.
End Condition.
Notation Condition := Condition.Condition.

(** ** Rules and rule sets *)

Module EvaluationStrategy.
Inductive EvaluationStrategy : Set := FirstMatch | AllMatches | Score.
End EvaluationStrategy.
Notation EvaluationStrategy := EvaluationStrategy.EvaluationStrategy.

#[export] Instance EvaluationStrategy_eq_dec : EqDecision EvaluationStrategy.
Proof. solve_decision. Defined.

Module Rule.
Record Rule : Set := mk {
  id : rstr;
  condition : Condition;
  action : RuleAction;
  priority : N;
  description : rstr;
}.

Definition new (id : rstr) (condition : Condition) (action : RuleAction) (priority : N)
    (description : rstr) : result Rule RuleError :=
  if vec_is_empty (trim id) then Err RuleError.EmptyRuleId
  else Ok (mk id condition action priority description).
End Rule.
Notation Rule := Rule.Rule.

(** [rules.sort_by_key(|r| r.priority)], a stable sort. *)
Fixpoint insert_by_priority (r : Rule) (l : list Rule) : list Rule :=
  match l with
  | [] => [r]
  | x :: l' =>
      if N.leb (Rule.priority r) (Rule.priority x) then r :: l else x :: insert_by_priority r l'
  end.
Definition sort_by_priority (l : list Rule) : list Rule := foldr insert_by_priority [] l.

Module RuleSet.
Record RuleSet : Set := mk {
  id : rstr;
  strategy : EvaluationStrategy;
  rules : list Rule;
  default_action : RuleAction;
  trace_conditions : bool;
}.

Definition new (id : rstr) (strategy : EvaluationStrategy) (rules : list Rule)
    (default_action : RuleAction) (trace_conditions : bool) : result RuleSet RuleError :=
  if vec_is_empty (trim id) then Err RuleError.EmptyRuleSetId
  else
    let? _ :=
      if decide (strategy = EvaluationStrategy.AllMatches) then
        try_for_each (λ rule,
          if RuleAction.is_terminal (Rule.action rule) then
            Err (RuleError.AllMatchesTerminalAction (Rule.id rule) (Rule.action rule))
          else Ok tt) rules
      else Ok tt in
    Ok (mk id strategy (sort_by_priority rules) default_action trace_conditions).
End RuleSet.
Notation RuleSet := RuleSet.RuleSet.

Module RuleDecision.
Record RuleDecision : Set := mk {
  action : RuleAction;
  matched_rule : option rstr;
  tags_applied : list (rstr * ScalarValue);
  conditions_evaluated : list ConditionTrace;
}.
End RuleDecision.
Notation RuleDecision := RuleDecision.RuleDecision.

(** ** Evaluation *)

Section eval.
Context `{J : JsonNumber}.

Definition resolve_payload (payload : PacketPayload) (path : FieldPath) : option Value :=
  match payload with
  | PacketPayload.Control value => FieldPath.resolve path value
  | PacketPayload.Bytes _ => None
  end.

Definition json_value_eq_scalar (json : Value) (scalar : ScalarValue) : bool :=
  match json, scalar with
  | Value.String s, ScalarValue.String r => bool_decide (s = r)
  | Value.Num n, ScalarValue.Integer i => bool_decide (as_i64 n = Some i)
  | Value.Num n, ScalarValue.Float f =>
      match as_f64 n with Some v => f64_eqb v f | None => false end
  | Value.Bool b, ScalarValue.Boolean r => Bool.eqb b r
  | Value.Null, ScalarValue.Null => true
  | _, _ => false
  end.

Definition json_value_cmp_scalar (json : Value) (scalar : ScalarValue) : option comparison :=
  match Value.value_as_f64 json with
  | None => None
  | Some json_f =>
      match scalar with
      | ScalarValue.Integer i => f64_partial_cmp json_f (f64_of_int i)
      | ScalarValue.Float f => f64_partial_cmp json_f f
      | _ => None
      end
  end.

Definition scalar_eq (a b : ScalarValue) : bool :=
  match a, b with
  | ScalarValue.String s1, ScalarValue.String s2 => bool_decide (s1 = s2)
  | ScalarValue.Integer i1, ScalarValue.Integer i2 => Z.eqb i1 i2
  | ScalarValue.Float f1, ScalarValue.Float f2 => f64_eqb f1 f2
  | ScalarValue.Boolean b1, ScalarValue.Boolean b2 => Bool.eqb b1 b2
  | ScalarValue.Null, ScalarValue.Null => true
  | _, _ => false
  end.

(** [o.is_some_and(p)]. *)
Definition is_some_and {A} (o : option A) (p : A → bool) : bool :=
  match o with Some a => p a | None => false end.

Definition field_cmp (payload : PacketPayload) (path : FieldPath) (value : ScalarValue)
    (p : comparison → bool) : bool :=
  is_some_and (match resolve_payload payload path with
               | Some v => json_value_cmp_scalar v value
               | None => None
               end) p.

Fixpoint eval_condition (c : Condition) (payload : PacketPayload) (context : EvalContext) :
    bool :=
  match c with
  | Condition.FieldEq path value =>
      is_some_and (resolve_payload payload path) (λ v, json_value_eq_scalar v value)
  | Condition.FieldNeq path value =>
      is_some_and (resolve_payload payload path) (λ v, negb (json_value_eq_scalar v value))
  | Condition.FieldGt path value =>
      field_cmp payload path value (λ ord, match ord with Gt => true | _ => false end)
  | Condition.FieldLt path value =>
      field_cmp payload path value (λ ord, match ord with Lt => true | _ => false end)
  | Condition.FieldGte path value =>
      field_cmp payload path value (λ ord, match ord with Lt => false | _ => true end)
  | Condition.FieldLte path value =>
      field_cmp payload path value (λ ord, match ord with Gt => false | _ => true end)
  | Condition.FieldIn path values =>
      is_some_and (resolve_payload payload path)
        (λ v, existsb (λ s, json_value_eq_scalar v s) values)
  | Condition.FieldExists path => is_some_and (resolve_payload payload path) (λ _, true)
  | Condition.FieldAbsent path =>
      match resolve_payload payload path with None => true | Some v => Value.is_null v end
  | Condition.FieldMatches path pattern =>
      is_some_and (match resolve_payload payload path with
                   | Some v => Value.as_str v
                   | None => None
                   end) (GlobPattern.matches pattern)
  | Condition.TagEq key value =>
      is_some_and (BTreeMap.get key (EvalContext.tags context)) (λ v, scalar_eq v value)
  | Condition.TagExists key => BTreeMap.contains_key key (EvalContext.tags context)
  | Condition.TagAbsent key => negb (BTreeMap.contains_key key (EvalContext.tags context))
  | Condition.SourceNode node_id =>
      is_some_and (EvalContext.source_node context) (λ n, bool_decide (n = node_id))
  | Condition.ArrivedOnPort port_id =>
      is_some_and (EvalContext.arrival_port context) (λ p, bool_decide (p = port_id))
  | Condition.HopCountGt n => N.ltb n (EvalContext.hop_count context)
  | Condition.HopCountLte n => N.leb (EvalContext.hop_count context) n
  | Condition.WorkflowIs workflow_id => bool_decide (EvalContext.workflow_id context = workflow_id)
  | Condition.ExecutionMetadataEq key value =>
      is_some_and (BTreeMap.get key (EvalContext.execution_metadata context))
        (λ v, scalar_eq v value)
  | Condition.And conditions => forallb (λ c, eval_condition c payload context) conditions
  | Condition.Or conditions => existsb (λ c, eval_condition c payload context) conditions
  | Condition.Not inner => negb (eval_condition inner payload context)
  | Condition.Always => true
  | Condition.Never => false
  end.
End eval.

Section evaluator.
Context `{J : JsonNumber, FloatDisplay}.

Fixpoint condition_description (c : Condition) : rstr :=
  match c with
  | Condition.FieldEq p v => FieldPath.path p ++ lit " == " ++ ScalarValue.fmt v
  | Condition.FieldNeq p v => FieldPath.path p ++ lit " != " ++ ScalarValue.fmt v
  | Condition.FieldGt p v => FieldPath.path p ++ lit " > " ++ ScalarValue.fmt v
  | Condition.FieldLt p v => FieldPath.path p ++ lit " < " ++ ScalarValue.fmt v
  | Condition.FieldGte p v => FieldPath.path p ++ lit " >= " ++ ScalarValue.fmt v
  | Condition.FieldLte p v => FieldPath.path p ++ lit " <= " ++ ScalarValue.fmt v
  | Condition.FieldIn p values =>
      FieldPath.path p ++ lit " in [" ++ join (lit ", ") (ScalarValue.fmt <$> values) ++ lit "]"
  | Condition.FieldExists p => FieldPath.path p ++ lit " exists"
  | Condition.FieldAbsent p => FieldPath.path p ++ lit " absent"
  | Condition.FieldMatches p pattern =>
      FieldPath.path p ++ lit " matches " ++ GlobPattern.pattern pattern
  | Condition.TagEq key v => lit "tag:" ++ key ++ lit " == " ++ ScalarValue.fmt v
  | Condition.TagExists key => lit "tag:" ++ key ++ lit " exists"
  | Condition.TagAbsent key => lit "tag:" ++ key ++ lit " absent"
  | Condition.SourceNode n => lit "source_node == " ++ as_str n
  | Condition.ArrivedOnPort p => lit "arrived_on == " ++ as_str p
  | Condition.HopCountGt n => lit "hop_count > " ++ show_N n
  | Condition.HopCountLte n => lit "hop_count <= " ++ show_N n
  | Condition.WorkflowIs w => lit "workflow == " ++ as_str w
  | Condition.ExecutionMetadataEq key v =>
      lit "exec_meta:" ++ key ++ lit " == " ++ ScalarValue.fmt v
  | Condition.And inner =>
      lit "(" ++ join (lit " AND ") (map condition_description inner) ++ lit ")"
  | Condition.Or inner =>
      lit "(" ++ join (lit " OR ") (map condition_description inner) ++ lit ")"
  | Condition.Not inner => lit "NOT (" ++ condition_description inner ++ lit ")"
  | Condition.Always => lit "always"
  | Condition.Never => lit "never"
  end.

Definition surface_to_record (s : ConditionSurface) : ConditionTrace.ConditionSurfaceRecord :=
  match s with
  | ConditionSurface.Payload => ConditionTrace.Payload
  | ConditionSurface.Tag => ConditionTrace.Tag
  | ConditionSurface.Provenance => ConditionTrace.Provenance
  | ConditionSurface.ExecutionContext => ConditionTrace.ExecutionContext
  | ConditionSurface.Combinator => ConditionTrace.Combinator
  | ConditionSurface.Constant => ConditionTrace.Constant
  end.

Definition condition_trace (rule : Rule) (c : Condition) (matched : bool) : ConditionTrace :=
  ConditionTrace.new (Rule.id rule) (condition_description c) matched
    (surface_to_record (Condition.surface c)).

(** [tags_applied.push(..)] for a [Tag] action. *)
Definition apply_terminal_or_tag (rule : Rule) (tags : list (rstr * ScalarValue)) :
    list (rstr * ScalarValue) :=
  match Rule.action rule with
  | RuleAction.Tag key value => tags ++ [(key, value)]
  | _ => tags
  end.

Definition push_trace (rule_set : RuleSet) (rule : Rule) (matched : bool)
    (traces : list ConditionTrace) : list ConditionTrace :=
  if RuleSet.trace_conditions rule_set then
    traces ++ [condition_trace rule (Rule.condition rule) matched]
  else traces.

(** The loop of [evaluate_first_match]. *)
Fixpoint first_match_loop (rule_set : RuleSet) (payload : PacketPayload) (context : EvalContext)
    (rules : list Rule) (tags : list (rstr * ScalarValue)) (traces : list ConditionTrace) :
    RuleDecision :=
  match rules with
  | [] => RuleDecision.mk (RuleSet.default_action rule_set) None tags traces
  | rule :: rules =>
      let matched := eval_condition (Rule.condition rule) payload context in
      let traces := push_trace rule_set rule matched traces in
      if matched then
        let tags := apply_terminal_or_tag rule tags in
        if RuleAction.is_terminal (Rule.action rule) then
          RuleDecision.mk (Rule.action rule) (Some (Rule.id rule)) tags traces
        else first_match_loop rule_set payload context rules tags traces
      else first_match_loop rule_set payload context rules tags traces
  end.

Definition evaluate_first_match (rule_set : RuleSet) (packet : PortPacket)
    (context : EvalContext) : result RuleDecision RuleError :=
  Ok (first_match_loop rule_set (MessageEnvelope.payload packet) context
        (RuleSet.rules rule_set) [] []).

(** The loop of [evaluate_all_matches]. *)
Fixpoint all_matches_loop (rule_set : RuleSet) (payload : PacketPayload) (context : EvalContext)
    (rules : list Rule) (tags : list (rstr * ScalarValue)) (traces : list ConditionTrace) :
    list (rstr * ScalarValue) * list ConditionTrace :=
  match rules with
  | [] => (tags, traces)
  | rule :: rules =>
      let matched := eval_condition (Rule.condition rule) payload context in
      let traces := push_trace rule_set rule matched traces in
      let tags := if matched then apply_terminal_or_tag rule tags else tags in
      all_matches_loop rule_set payload context rules tags traces
  end.

Definition evaluate_all_matches (rule_set : RuleSet) (packet : PortPacket)
    (context : EvalContext) : result RuleDecision RuleError :=
  let (tags, traces) := all_matches_loop rule_set (MessageEnvelope.payload packet) context
    (RuleSet.rules rule_set) [] [] in
  Ok (RuleDecision.mk (RuleSet.default_action rule_set) None tags traces).

(** The loop of [evaluate_score]. *)
Fixpoint score_loop (rule_set : RuleSet) (payload : PacketPayload) (context : EvalContext)
    (rules : list Rule) (best_match : option Rule) (tags : list (rstr * ScalarValue))
    (traces : list ConditionTrace) :
    option Rule * list (rstr * ScalarValue) * list ConditionTrace :=
  match rules with
  | [] => (best_match, tags, traces)
  | rule :: rules =>
      let matched := eval_condition (Rule.condition rule) payload context in
      let traces := push_trace rule_set rule matched traces in
      if matched then
        let tags := apply_terminal_or_tag rule tags in
        let best_match :=
          match best_match with
          | None => if RuleAction.is_terminal (Rule.action rule) then Some rule else None
          | Some best => Some best
          end in
        score_loop rule_set payload context rules best_match tags traces
      else score_loop rule_set payload context rules best_match tags traces
  end.

Definition evaluate_score (rule_set : RuleSet) (packet : PortPacket) (context : EvalContext) :
    result RuleDecision RuleError :=
  let '(best_match, tags, traces) := score_loop rule_set (MessageEnvelope.payload packet) context
    (RuleSet.rules rule_set) None [] [] in
  match best_match with
  | Some rule => Ok (RuleDecision.mk (Rule.action rule) (Some (Rule.id rule)) tags traces)
  | None => Ok (RuleDecision.mk (RuleSet.default_action rule_set) None tags traces)
  end.

Definition evaluate (rule_set : RuleSet) (packet : PortPacket) (context : EvalContext) :
    result RuleDecision RuleError :=
  match RuleSet.strategy rule_set with
  | EvaluationStrategy.FirstMatch => evaluate_first_match rule_set packet context
  | EvaluationStrategy.AllMatches => evaluate_all_matches rule_set packet context
  | EvaluationStrategy.Score => evaluate_score rule_set packet context
  end.
End evaluator.
