(* ===== verification/RuleEval.v ===== *)
(** What rule evaluation promises: glob patterns against their language, the
    stable priority sort of [RuleSet::new], the decision of each evaluation
    strategy, and numeric comparisons against the integers. *)

From Stdlib Require Import Lia ZArith Floats.SpecFloat.
From stdpp Require Import sorting.
From S2P Require Import Prelude RustStr BTree Types Json Context Message Metadata Rules.

(** ** Glob patterns *)

(** The language of a pattern: a star stands for any string, a question mark
    for any one character, any other character for itself. *)
Inductive glob_language : rstr → rstr → Prop :=
| glob_nil : glob_language [] []
| glob_star s ps v : glob_language ps v → glob_language (GlobPattern.STAR :: ps) (s ++ v)
| glob_question c ps v :
    glob_language ps v → glob_language (GlobPattern.QUESTION :: ps) (c :: v)
| glob_char c ps v :
    c ≠ GlobPattern.STAR → c ≠ GlobPattern.QUESTION →
    glob_language ps v → glob_language (c :: ps) (c :: v).

Lemma glob_match_star ps v :
  GlobPattern.glob_match_inner (GlobPattern.STAR :: ps) v = true ↔
  ∃ s v', v = s ++ v' ∧ GlobPattern.glob_match_inner ps v' = true.
Proof.
  simpl. induction v as [|c v IH].
  - destruct (GlobPattern.glob_match_inner ps []) eqn:E.
    + split; [|done]. intros _. by exists [], [].
    + split; [done|]. intros ([|??] & [|??] & ? & ?); simplify_eq/=; congruence.
  - destruct (GlobPattern.glob_match_inner ps (c :: v)) eqn:E.
    + split; [|done]. intros _. by exists [], (c :: v).
    + rewrite IH. split.
      * intros (s & v' & -> & ?). by exists (c :: s), v'.
      * intros ([|d s] & v' & ? & ?); simplify_eq/=; [congruence|eauto].
Qed.

Lemma glob_match_language ps v :
  GlobPattern.glob_match_inner ps v = true ↔ glob_language ps v.
Proof.
  revert v. induction ps as [|p ps IH]; intros v.
  - destruct v; split; intros H; try done; [constructor|by inversion H].
  - destruct (decide (p = GlobPattern.STAR)) as [->|Hs].
    { rewrite glob_match_star. setoid_rewrite IH. split.
      - intros (s & v' & -> & ?). by constructor.
      - inversion 1; simplify_eq; eauto; done. }
    simpl. apply N.eqb_neq in Hs as Hs'. rewrite Hs'.
    destruct (decide (p = GlobPattern.QUESTION)) as [->|Hq].
    { destruct v as [|c v]; simpl.
      - split; [done|]. by inversion 1.
      - rewrite IH. split; [by constructor|]. inversion 1; simplify_eq; done. }
    apply N.eqb_neq in Hq as Hq'. rewrite Hq'. destruct v as [|c v].
    { split; [done|]. inversion 1; simplify_eq; done. }
    destruct (N.eqb_spec p c) as [->|Hc].
    + rewrite IH. split; [by constructor|]. inversion 1; simplify_eq; done.
    + split; [done|]. inversion 1; simplify_eq; done.
Qed.

(** ** The priority sort *)

Definition priority_le (r1 r2 : Rule) : Prop := (Rule.priority r1 <= Rule.priority r2)%N.

Lemma insert_by_priority_Permutation r l : insert_by_priority r l ≡ₚ r :: l.
Proof.
  induction l as [|x l IH]; simpl; [done|]. destruct (N.leb _ _); [done|].
  rewrite IH. apply Permutation_swap.
Qed.

Lemma sort_by_priority_Permutation l : sort_by_priority l ≡ₚ l.
Proof.
  induction l as [|x l IH]; simpl; [done|]. by rewrite insert_by_priority_Permutation, IH.
Qed.

Lemma insert_by_priority_sorted r l :
  StronglySorted priority_le l → StronglySorted priority_le (insert_by_priority r l).
Proof.
  induction 1 as [|x l Hs IH Hx]; simpl; [repeat constructor|].
  destruct (N.leb_spec (Rule.priority r) (Rule.priority x)) as [Hle|Hlt].
  - constructor; [by constructor|]. constructor; [done|].
    eapply Forall_impl; [done|]. unfold priority_le in *. lia.
  - constructor; [done|]. rewrite insert_by_priority_Permutation. constructor; [|done].
    unfold priority_le. lia.
Qed.

Lemma sort_by_priority_sorted l : StronglySorted priority_le (sort_by_priority l).
Proof.
  induction l; simpl; [constructor|]. by apply insert_by_priority_sorted.
Qed.

(** The sort is stable: rules of one priority keep their order. *)
Lemma insert_by_priority_stable p r l :
  filter (λ x, Rule.priority x = p) (insert_by_priority r l) =
  filter (λ x, Rule.priority x = p) (r :: l).
Proof.
  induction l as [|x l IH]; [done|]. simpl insert_by_priority.
  destruct (N.leb_spec (Rule.priority r) (Rule.priority x)) as [Hle|Hlt]; [done|].
  rewrite filter_cons, IH, !filter_cons. repeat case_decide; try done. lia.
Qed.

Lemma sort_by_priority_stable p l :
  filter (λ x, Rule.priority x = p) (sort_by_priority l) = filter (λ x, Rule.priority x = p) l.
Proof.
  induction l as [|x l IH]; [done|]. simpl. rewrite insert_by_priority_stable, !filter_cons, IH.
  done.
Qed.

(** ** Searching the sorted rules *)

(** The first rule of least priority among those that satisfy [p], in the
    original list. *)
Fixpoint best_rule (p : Rule → bool) (l : list Rule) : option Rule :=
  match l with
  | [] => None
  | r :: l =>
      if p r then
        match best_rule p l with
        | Some b => if N.leb (Rule.priority r) (Rule.priority b) then Some r else Some b
        | None => Some r
        end
      else best_rule p l
  end.

Lemma iter_find_insert p r l :
  StronglySorted priority_le l →
  iter_find p (insert_by_priority r l) =
  if p r then
    match iter_find p l with
    | Some b => if N.leb (Rule.priority r) (Rule.priority b) then Some r else Some b
    | None => Some r
    end
  else iter_find p l.
Proof.
  induction 1 as [|x l Hs IH Hx]; simpl; [done|].
  destruct (N.leb_spec (Rule.priority r) (Rule.priority x)) as [Hle|Hlt]; simpl.
  - destruct (p r) eqn:Hr; [|done]. destruct (p x) eqn:Hpx.
    + by rewrite (proj2 (N.leb_le _ _)).
    + destruct (iter_find p l) as [b|] eqn:Hb; [|done].
      apply iter_find_elem in Hb as [Hb _]. rewrite Forall_forall in Hx.
      specialize (Hx b Hb). unfold priority_le in Hx. by rewrite (proj2 (N.leb_le _ _)) by lia.
  - rewrite IH. destruct (p x) eqn:Hpx; [|done].
    destruct (p r); [|done]. by rewrite (proj2 (N.leb_gt _ _)).
Qed.

Lemma iter_find_sorted p l : iter_find p (sort_by_priority l) = best_rule p l.
Proof.
  induction l as [|r l IH]; simpl; [done|].
  rewrite iter_find_insert by apply sort_by_priority_sorted. by rewrite IH.
Qed.

Lemma best_rule_spec p l r :
  best_rule p l = Some r →
  ∃ l1 l2, l = l1 ++ r :: l2 ∧ p r = true
    ∧ (∀ x, x ∈ l1 → p x = true → (Rule.priority r < Rule.priority x)%N)
    ∧ (∀ x, x ∈ l2 → p x = true → (Rule.priority r <= Rule.priority x)%N).
Proof.
  revert r. induction l as [|x l IH]; intros r; simpl; [done|].
  destruct (p x) eqn:Hx.
  - destruct (best_rule p l) as [b|] eqn:Hb.
    + destruct (N.leb_spec (Rule.priority x) (Rule.priority b)) as [Hle|Hlt]; intros [= <-].
      * exists [], l. split_and!; [done|done|set_solver|].
        destruct (IH b eq_refl) as (l1 & l2 & -> & Hpb & H1 & H2).
        intros y [Hy|[->|Hy]%elem_of_cons]%elem_of_app Hpy; [|done|];
          [specialize (H1 y Hy Hpy)|specialize (H2 y Hy Hpy)]; lia.
      * destruct (IH b eq_refl) as (l1 & l2 & -> & Hpb & H1 & H2).
        exists (x :: l1), l2. split_and!; [done|done| |done].
        intros y [->|Hy]%elem_of_cons Hpy; auto.
    + intros [= <-]. exists [], l. split_and!; [done|done|set_solver|].
      intros y Hy Hpy. exfalso. revert Hb. clear IH.
      induction l as [|z l IHl]; simpl; [set_solver|]. destruct (p z) eqn:Hz.
      { by destruct (best_rule p l) as [b|]; [destruct (N.leb _ _)|]. }
      apply IHl. apply elem_of_cons in Hy as [->|]; [congruence|done].
  - intros (l1 & l2 & -> & Hpr & H1 & H2)%IH. exists (x :: l1), l2.
    split_and!; [done|done| |done]. intros y [->|Hy]%elem_of_cons Hpy; [congruence|auto].
Qed.

(** ** Decisions *)

(** The elements before the first one that satisfies [p], all of them if there
    is none; and the same with that element. *)
Fixpoint before_first {A} (p : A → bool) (l : list A) : list A :=
  match l with [] => [] | x :: l => if p x then [] else x :: before_first p l end.
Fixpoint through_first {A} (p : A → bool) (l : list A) : list A :=
  match l with [] => [] | x :: l => if p x then [x] else x :: through_first p l end.

Definition tag_of (r : Rule) : option (rstr * ScalarValue) :=
  match Rule.action r with RuleAction.Tag key value => Some (key, value) | _ => None end.

Section decisions.
Context `{J : JsonNumber, FloatDisplay}.
Variables (rule_set : RuleSet) (payload : PacketPayload) (context : EvalContext).

Definition rule_matches (r : Rule) : bool := eval_condition (Rule.condition r) payload context.
(** A rule that ends evaluation: it matches and its action is terminal. *)
Definition decisive (r : Rule) : bool :=
  rule_matches r && RuleAction.is_terminal (Rule.action r).
(** The tags the matching rules of a list apply. *)
Definition tags_from (rules : list Rule) : list (rstr * ScalarValue) :=
  omap tag_of (filter (λ r, rule_matches r = true) rules).
Definition trace_of (r : Rule) : ConditionTrace :=
  condition_trace r (Rule.condition r) (rule_matches r).
Definition traces_from (rules : list Rule) : list ConditionTrace :=
  if RuleSet.trace_conditions rule_set then trace_of <$> rules else [].

(** The decision a strategy stands for. *)
Definition decision_of (decider : option Rule) (tagging traced : list Rule) : RuleDecision :=
  RuleDecision.mk
    (match decider with
     | Some r => Rule.action r
     | None => RuleSet.default_action rule_set
     end)
    (Rule.id <$> decider) (tags_from tagging) (traces_from traced).

Lemma tags_from_cons r rules :
  tags_from (r :: rules) =
  (if rule_matches r then match tag_of r with Some t => [t] | None => [] end else [])
  ++ tags_from rules.
Proof.
  unfold tags_from. rewrite filter_cons. case_decide as Hm.
  - rewrite Hm. simpl. by destruct (tag_of r).
  - by destruct (rule_matches r).
Qed.

Lemma apply_tag r tags :
  apply_terminal_or_tag r tags = tags ++ match tag_of r with Some t => [t] | None => [] end.
Proof.
  unfold apply_terminal_or_tag, tag_of. destruct (Rule.action r); simpl; by rewrite ?app_nil_r.
Qed.

Lemma push_trace_app r rules traces :
  push_trace rule_set r (rule_matches r) traces ++ traces_from rules
  = traces ++ traces_from (r :: rules).
Proof.
  unfold push_trace, traces_from. destruct (RuleSet.trace_conditions rule_set); simpl; [|done].
  by rewrite <- app_assoc.
Qed.

Lemma terminal_no_tag r : RuleAction.is_terminal (Rule.action r) = true → tag_of r = None.
Proof. unfold tag_of. by destruct (Rule.action r). Qed.

Lemma first_match_loop_spec rules tags traces :
  first_match_loop rule_set payload context rules tags traces =
  RuleDecision.mk
    (match iter_find decisive rules with
     | Some r => Rule.action r
     | None => RuleSet.default_action rule_set
     end)
    (Rule.id <$> iter_find decisive rules)
    (tags ++ tags_from (before_first decisive rules))
    (traces ++ traces_from (through_first decisive rules)).
Proof.
  revert tags traces. induction rules as [|r rules IH]; intros tags traces; simpl.
  - unfold tags_from, traces_from. simpl. destruct (RuleSet.trace_conditions _);
      by rewrite !app_nil_r.
  - fold (rule_matches r).
    assert (Hd : decisive r = rule_matches r && RuleAction.is_terminal (Rule.action r)) by done.
    destruct (rule_matches r) eqn:Hm; simpl in Hd;
      [destruct (RuleAction.is_terminal (Rule.action r)) eqn:Ht|]; rewrite Hd.
    + rewrite apply_tag, terminal_no_tag, <- (push_trace_app r [] traces), Hm by done.
      unfold tags_from, traces_from. simpl.
      by destruct (RuleSet.trace_conditions _); rewrite !app_nil_r.
    + by rewrite IH, apply_tag, tags_from_cons, <- (push_trace_app r), Hm, <- app_assoc.
    + by rewrite IH, tags_from_cons, <- (push_trace_app r), Hm.
Qed.

Lemma all_matches_loop_spec rules tags traces :
  all_matches_loop rule_set payload context rules tags traces =
  (tags ++ tags_from rules, traces ++ traces_from rules).
Proof.
  revert tags traces. induction rules as [|r rules IH]; intros tags traces; simpl.
  - unfold tags_from, traces_from. simpl. destruct (RuleSet.trace_conditions _);
      by rewrite !app_nil_r.
  - fold (rule_matches r). rewrite IH, tags_from_cons, <- push_trace_app. f_equal.
    destruct (rule_matches r); [|done]. by rewrite apply_tag, <- app_assoc.
Qed.

Lemma score_loop_spec rules best tags traces :
  score_loop rule_set payload context rules best tags traces =
  (match best with Some b => Some b | None => iter_find decisive rules end,
   tags ++ tags_from rules, traces ++ traces_from rules).
Proof.
  revert best tags traces. induction rules as [|r rules IH]; intros best tags traces; simpl.
  - unfold tags_from, traces_from. simpl. destruct best, (RuleSet.trace_conditions _);
      by rewrite !app_nil_r.
  - fold (rule_matches r).
    assert (Hd : decisive r = rule_matches r && RuleAction.is_terminal (Rule.action r)) by done.
    rewrite Hd, tags_from_cons, <- (push_trace_app r).
    destruct (rule_matches r) eqn:Hm; rewrite IH; simpl.
    + rewrite apply_tag, <- app_assoc. do 2 f_equal.
      by destruct best, (RuleAction.is_terminal (Rule.action r)).
    + by destruct best.
Qed.
End decisions.

(** ** Properties *)

(** A glob pattern matches exactly the strings of its language. *)
Theorem glob_matches_iff (g : GlobPattern) (value : rstr) :
  GlobPattern.matches g value = true ↔ glob_language (GlobPattern.pattern g) value.
Proof. apply glob_match_language. Qed.

(** [RuleSet::new] rejects a blank identifier first, then the first
    terminal action of an [AllMatches] set; otherwise it returns the given
    rules sorted by ascending priority, rules of equal priority in the given
    order. *)
Theorem rule_set_new_spec (id : rstr) (strategy : EvaluationStrategy) (rules : list Rule)
  (default_action : RuleAction) (trace : bool) :
  match RuleSet.new id strategy rules default_action trace with
  | Err RuleError.EmptyRuleSetId => Forall (λ c, is_whitespace c = true) id
  | Err (RuleError.AllMatchesTerminalAction rule_id action) =>
      strategy = EvaluationStrategy.AllMatches
      ∧ ∃ l1 r l2, rules = l1 ++ r :: l2
          ∧ Forall (λ x, is_Some (tag_of x)) l1 ∧ tag_of r = None
          ∧ Rule.id r = rule_id ∧ Rule.action r = action
  | Err _ => False
  | Ok rs =>
      RuleSet.id rs = id ∧ RuleSet.strategy rs = strategy
      ∧ RuleSet.default_action rs = default_action ∧ RuleSet.trace_conditions rs = trace
      ∧ ¬ Forall (λ c, is_whitespace c = true) id
      ∧ (strategy = EvaluationStrategy.AllMatches → Forall (λ x, is_Some (tag_of x)) rules)
      ∧ RuleSet.rules rs ≡ₚ rules ∧ StronglySorted priority_le (RuleSet.rules rs)
      ∧ ∀ p, filter (λ x, Rule.priority x = p) (RuleSet.rules rs)
             = filter (λ x, Rule.priority x = p) rules
  end.
Proof.
  assert (Htag : ∀ r, (if RuleAction.is_terminal (Rule.action r)
      then Err (RuleError.AllMatchesTerminalAction (Rule.id r) (Rule.action r))
      else Ok tt) = Ok tt ↔ is_Some (tag_of r)).
  { intros r. unfold tag_of. destruct (Rule.action r); simpl; split; try done; by intros [? ?]. }
  unfold RuleSet.new. destruct (vec_is_empty (trim id)) eqn:Hid.
  { by apply vec_is_empty_trim. }
  assert (¬ Forall (λ c, is_whitespace c = true) id) as Hblank
    by (rewrite <- vec_is_empty_trim; congruence).
  case_decide as Hs; simpl.
  - destruct (try_for_each _ rules) as [u|e] eqn:Ht; simpl.
    + apply try_for_each_ok in Ht.
      assert (Forall (λ x, is_Some (tag_of x)) rules).
      { eapply Forall_impl; [exact Ht|]. intros r. apply Htag. }
      split_and!; auto using sort_by_priority_Permutation, sort_by_priority_sorted,
        sort_by_priority_stable.
    + apply try_for_each_err in Ht as (l1 & r & l2 & -> & Hl1 & Hr).
      destruct (RuleAction.is_terminal (Rule.action r)) eqn:Hterm; simplify_eq.
      split; [done|]. exists l1, r, l2. split_and!; try done.
      * eapply Forall_impl; [exact Hl1|]. intros x. apply Htag.
      * by apply terminal_no_tag.
  - split_and!; auto using sort_by_priority_Permutation, sort_by_priority_sorted,
      sort_by_priority_stable; done.
Qed.

Section evaluation.
Context `{J : JsonNumber, FloatDisplay}.

Lemma evaluate_spec rs packet context :
  evaluate rs packet context =
  let payload := MessageEnvelope.payload packet in
  let decider := iter_find (decisive payload context) (RuleSet.rules rs) in
  Ok (match RuleSet.strategy rs with
      | EvaluationStrategy.FirstMatch =>
          decision_of rs payload context decider
            (before_first (decisive payload context) (RuleSet.rules rs))
            (through_first (decisive payload context) (RuleSet.rules rs))
      | EvaluationStrategy.AllMatches =>
          decision_of rs payload context None (RuleSet.rules rs) (RuleSet.rules rs)
      | EvaluationStrategy.Score =>
          decision_of rs payload context decider (RuleSet.rules rs) (RuleSet.rules rs)
      end).
Proof.
  unfold evaluate, evaluate_first_match, evaluate_all_matches, evaluate_score.
  destruct (RuleSet.strategy rs); cbv zeta.
  - by rewrite first_match_loop_spec.
  - by rewrite all_matches_loop_spec.
  - rewrite score_loop_spec. by destruct (iter_find _ _).
Qed.

(** Evaluation always decides, and each strategy decides as follows.
    [FirstMatch] and [Score] take the action of the first rule, in priority
    order, that matches and is terminal, and the default action if there is
    none; [AllMatches] always takes the default action.  [FirstMatch] applies
    the tags of the matching rules before the deciding one and traces the rules
    up to it; the other two apply the tags of all matching rules and trace all
    rules.  Nothing is traced when tracing is off. *)
Theorem evaluate_decides (rs : RuleSet) (packet : PortPacket) (context : EvalContext) :
  let payload := MessageEnvelope.payload packet in
  let decider := iter_find (decisive payload context) (RuleSet.rules rs) in
  evaluate rs packet context = Ok
    match RuleSet.strategy rs with
    | EvaluationStrategy.FirstMatch =>
        decision_of rs payload context decider
          (before_first (decisive payload context) (RuleSet.rules rs))
          (through_first (decisive payload context) (RuleSet.rules rs))
    | EvaluationStrategy.AllMatches =>
        decision_of rs payload context None (RuleSet.rules rs) (RuleSet.rules rs)
    | EvaluationStrategy.Score =>
        decision_of rs payload context decider (RuleSet.rules rs) (RuleSet.rules rs)
    end.
Proof. apply evaluate_spec. Qed.

(** C7. The rule that decides, in terms of the rules given to [RuleSet::new]:
    of the rules that match and are terminal, one of the least priority value,
    and the first such in the order given; when no rule is both, the default
    action is taken and no rule is named. *)
Theorem deciding_rule_is_best (id : rstr) (strategy : EvaluationStrategy) (rules : list Rule)
  (default_action : RuleAction) (trace : bool) (rs : RuleSet) (packet : PortPacket)
  (context : EvalContext) (d : RuleDecision)
  (Hnew : RuleSet.new id strategy rules default_action trace = Ok rs)
  (Hstrategy : strategy ≠ EvaluationStrategy.AllMatches)
  (Heval : evaluate rs packet context = Ok d) :
  let deciding := decisive (MessageEnvelope.payload packet) context in
  (∃ l1 r l2, rules = l1 ++ r :: l2 ∧ deciding r = true
    ∧ (∀ x, x ∈ l1 → deciding x = true → (Rule.priority r < Rule.priority x)%N)
    ∧ (∀ x, x ∈ l2 → deciding x = true → (Rule.priority r <= Rule.priority x)%N)
    ∧ RuleDecision.action d = Rule.action r
    ∧ RuleDecision.matched_rule d = Some (Rule.id r))
  ∨ ((∀ r, r ∈ rules → deciding r = false)
     ∧ RuleDecision.action d = default_action ∧ RuleDecision.matched_rule d = None).
Proof.
  unfold RuleSet.new in Hnew. destruct (vec_is_empty (trim id)); [done|].
  rewrite decide_False in Hnew by done. simpl in Hnew. injection Hnew as <-.
  rewrite evaluate_spec in Heval. cbn [RuleSet.rules RuleSet.strategy] in Heval.
  rewrite iter_find_sorted in Heval. cbv zeta in *.
  set (p := decisive (MessageEnvelope.payload packet) context) in *.
  assert (Hd : RuleDecision.action d = match best_rule p rules with
      | Some r => Rule.action r | None => default_action end
    ∧ RuleDecision.matched_rule d = Rule.id <$> best_rule p rules)
    by (destruct strategy; injection Heval as <-; done).
  destruct Hd as [Ha Hm]. destruct (best_rule p rules) as [r|] eqn:Hb.
  - left. apply best_rule_spec in Hb as (l1 & l2 & ? & ? & ? & ?). exists l1, r, l2. done.
  - right. split; [|done]. intros r Hr. destruct (p r) eqn:Hp; [|done]. exfalso.
    rewrite <- iter_find_sorted in Hb. apply iter_find_none in Hb.
    rewrite Forall_forall in Hb. specialize (Hb r). rewrite Hb in Hp; [done|].
    by rewrite sort_by_priority_Permutation.
Qed.

(** [Score] and [FirstMatch] take the same action and name the same rule on
    every packet: priority, not a score, selects the winner; they differ only
    in that [FirstMatch] applies a prefix of the tags [Score] applies. *)
Theorem score_decides_like_first_match (id : rstr) (rules : list Rule)
  (default_action : RuleAction) (trace : bool) (packet : PortPacket) (context : EvalContext) :
  let rule_set strategy := RuleSet.mk id strategy rules default_action trace in
  ∃ first score,
    evaluate (rule_set EvaluationStrategy.FirstMatch) packet context = Ok first
    ∧ evaluate (rule_set EvaluationStrategy.Score) packet context = Ok score
    ∧ RuleDecision.action first = RuleDecision.action score
    ∧ RuleDecision.matched_rule first = RuleDecision.matched_rule score
    ∧ RuleDecision.tags_applied first `prefix_of` RuleDecision.tags_applied score.
Proof.
  cbv zeta. rewrite !evaluate_spec. do 2 eexists.
  split; [reflexivity|]. split; [reflexivity|]. split; [reflexivity|]. split; [reflexivity|]. simpl.
  set (p := decisive _ _). clearbody p. unfold tags_from.
  induction rules as [|r l IH]; simpl; [done|].
  destruct (p r); [apply prefix_nil|]. rewrite !filter_cons. case_decide; [|exact IH].
  simpl. destruct (tag_of r) as [t|]; [apply prefix_cons|]; exact IH.
Qed.

(** ** Numeric comparisons *)

Section comparison.
Variables (payload : PacketPayload) (context : EvalContext) (path : FieldPath).

Lemma field_cmp_integer n i j p :
  resolve_payload payload path = Some (Value.Num n) → as_i64 n = Some i →
  field_cmp payload path (ScalarValue.Integer j) p
  = is_some_and (f64_partial_cmp (f64_of_int i) (f64_of_int j)) p.
Proof.
  intros Hr Hi. unfold field_cmp. rewrite Hr. unfold json_value_cmp_scalar. simpl.
  by rewrite (as_f64_integer _ _ Hi).
Qed.
End comparison.

(** On an integer field and an integer threshold below [2^53] in absolute
    value, the six comparison conditions are the comparisons of the integers,
    although the ordered ones go through [f64]. *)
Theorem integer_comparisons_exact (payload : PacketPayload) (context : EvalContext)
  (path : FieldPath) (n : Number) (i j : Z)
  (Hfield : resolve_payload payload path = Some (Value.Num n)) (Hint : as_i64 n = Some i)
  (Hi : (Z.abs i < 2 ^ 53)%Z) (Hj : (Z.abs j < 2 ^ 53)%Z) :
  let eval c := eval_condition (c path (ScalarValue.Integer j)) payload context in
  eval Condition.FieldEq = Z.eqb i j ∧ eval Condition.FieldNeq = negb (Z.eqb i j)
  ∧ eval Condition.FieldGt = Z.ltb j i ∧ eval Condition.FieldLt = Z.ltb i j
  ∧ eval Condition.FieldGte = Z.leb j i ∧ eval Condition.FieldLte = Z.leb i j.
Proof.
  cbv zeta. unfold eval_condition. rewrite !(field_cmp_integer _ _ _ _ _ _ Hfield Hint).
  rewrite f64_of_int_compare by done. rewrite Hfield. simpl. rewrite Hint.
  assert (bool_decide (Some i = Some j) = Z.eqb i j) as ->.
  { case_bool_decide; symmetry; [apply Z.eqb_eq|apply Z.eqb_neq]; congruence. }
  split_and!; [done..| | | |];
    destruct (Z.compare_spec i j); symmetry;
    first [apply Z.ltb_lt | apply Z.ltb_ge | apply Z.leb_le | apply Z.leb_gt]; lia.
Qed.

(** Beyond that range they are not: for the field value [2^53 + 1] and the
    threshold [2^53] the greater-than condition is false and less-or-equal is
    true, while equality is false. *)
Theorem large_integers_compare_rounded (context : EvalContext) :
  let payload :=
    PacketPayload.Control (Value.object [(lit "n", Value.of_i64 (2 ^ 53 + 1))]) in
  let eval c := eval_condition
    (c (FieldPath.mk (lit "n")) (ScalarValue.Integer (2 ^ 53))) payload context in
  eval Condition.FieldGt = false ∧ eval Condition.FieldLte = true
  ∧ eval Condition.FieldEq = false.
Proof.
  cbv zeta. set (payload := PacketPayload.Control _).
  assert (Hf : resolve_payload payload (FieldPath.mk (lit "n"))
    = Some (Value.Num (number_of_i64 (2 ^ 53 + 1)))) by reflexivity.
  assert (Hi : as_i64 (number_of_i64 (2 ^ 53 + 1)) = Some (2 ^ 53 + 1)%Z)
    by (apply as_i64_of_i64; lia).
  unfold eval_condition. rewrite !(field_cmp_integer _ _ _ _ _ _ Hf Hi), Hf. simpl is_some_and.
  unfold json_value_eq_scalar. rewrite Hi. split_and!; vm_compute; reflexivity.
Qed.

(** A field that is present and null satisfies both [FieldExists] and
    [FieldAbsent]; a field that is not null satisfies exactly one of them. *)
Theorem null_field_exists_and_absent (payload : PacketPayload) (context : EvalContext)
  (path : FieldPath) :
  let eval c := eval_condition (c path) payload context in
  match resolve_payload payload path with
  | Some Value.Null =>
      eval Condition.FieldExists = true ∧ eval Condition.FieldAbsent = true
  | Some _ => eval Condition.FieldExists = true ∧ eval Condition.FieldAbsent = false
  | None => eval Condition.FieldExists = false ∧ eval Condition.FieldAbsent = true
  end.
Proof.
  cbv zeta. simpl. destruct (resolve_payload payload path) as [[]|]; done.
Qed.
End evaluation.

(** ** Examples *)

Section examples.
Let rule (id : string) (c : Condition) (a : RuleAction) (priority : N) : Rule :=
  Rule.mk (lit id) c a priority [].
Let route (p : string) : RuleAction := RuleAction.Route (ident p).
Let above (n : Z) : Condition :=
  Condition.FieldGt (FieldPath.mk (lit "order.total")) (ScalarValue.Integer n).
Let rules : list Rule :=
  [rule "default" Condition.Always (route "low") 20;
   rule "large" (above 100) (route "high") 10;
   rule "mark" Condition.Always (RuleAction.Tag (lit "seen") (ScalarValue.Boolean true)) 0;
   rule "also" (above 10) (route "mid") 10].
Let order (total : Z) : PacketPayload :=
  PacketPayload.Control
    (Value.object [(lit "order", Value.object [(lit "total", Value.of_i64 total)])]).
Let packet (total : Z) : PortPacket :=
  MessageEnvelope.new
    (MessageMetadata.new (ident "m1") (ident "flow")
       (ExecutionMetadata.first_attempt (ident "run-1"))
       (MessageRoute.new None (MessageEndpoint.new (ident "router") (ident "in"))))
    (order total).
Let context : EvalContext :=
  EvalContext.mk [] None (Some (ident "in")) 0 (ident "flow") [].
#[local] Instance no_floats : FloatDisplay := λ _, lit "float".

Lemma deciding_rule_is_best_witness :
  let deciding := decisive (order 250) context in
  let d := RuleDecision.mk (route "high") (Some (lit "large"))
             [(lit "seen", ScalarValue.Boolean true)] [] in
  (∃ l1 r l2, rules = l1 ++ r :: l2 ∧ deciding r = true
    ∧ (∀ x, x ∈ l1 → deciding x = true → (Rule.priority r < Rule.priority x)%N)
    ∧ (∀ x, x ∈ l2 → deciding x = true → (Rule.priority r <= Rule.priority x)%N)
    ∧ RuleDecision.action d = Rule.action r
    ∧ RuleDecision.matched_rule d = Some (Rule.id r))
  ∨ ((∀ r, r ∈ rules → deciding r = false)
     ∧ RuleDecision.action d = RuleAction.Drop ∧ RuleDecision.matched_rule d = None).
Proof.
  intros deciding d.
  apply (deciding_rule_is_best (lit "orders") EvaluationStrategy.FirstMatch rules RuleAction.Drop
           false (RuleSet.mk (lit "orders") EvaluationStrategy.FirstMatch (sort_by_priority rules)
                    RuleAction.Drop false) (packet 250) context d);
    [reflexivity|discriminate|reflexivity].
Defined.

Lemma integer_comparisons_exact_witness :
  eval_condition (above 100) (order 250) context = true.
Proof.
  destruct (integer_comparisons_exact (order 250) context (FieldPath.mk (lit "order.total"))
    (PosInt 250) 250 100) as (_ & _ & H & _); [reflexivity|reflexivity|lia|lia|].
  exact H.
Defined.
End examples.
