(* ===== verification/Channel.v ===== *)
(** The bounded channel under every edge.

    The port layer moves packets through [asupersync]'s bounded mpsc channel,
    which is not part of this code base.  [Mpsc] states what the port layer
    relies on, as operations with laws over a view of the channel: a FIFO
    queue, the slots reserved by outstanding permits, the capacity, and whether
    each side is still connected.  [queue_channel] is an implementation, which
    shows that the laws can hold and lets examples run. *)

From Stdlib Require Import Lia.
From S2P Require Import Prelude Errors.

(** ** Views *)

Record chan_view (T : Type) : Type := mk_view {
  cv_queue : list T;
  cv_reserved : nat;
  cv_capacity : nat;
  cv_senders : bool;
  cv_receiver : bool;
}.
Arguments mk_view {T} _ _ _ _ _.
Arguments cv_queue {T} _.
Arguments cv_reserved {T} _.
Arguments cv_capacity {T} _.
Arguments cv_senders {T} _.
Arguments cv_receiver {T} _.

Section views.
Context {T : Type}.
Implicit Types v : chan_view T.

Definition with_queue (q : list T) v : chan_view T :=
  mk_view q (cv_reserved v) (cv_capacity v) (cv_senders v) (cv_receiver v).
Definition with_reserved (n : nat) v : chan_view T :=
  mk_view (cv_queue v) n (cv_capacity v) (cv_senders v) (cv_receiver v).

(** A free slot: reserved slots count against the capacity. *)
Definition has_room v : Prop := length (cv_queue v) + cv_reserved v < cv_capacity v.
#[export] Instance has_room_dec v : Decision (has_room v) := _.

(** The channel never holds more than its capacity, reservations included. *)
Definition view_wf v : Prop := length (cv_queue v) + cv_reserved v ≤ cv_capacity v.

(** [sender.try_reserve()]. *)
Definition reserve_outcome v : result unit SendError :=
  if cv_receiver v then
    if decide (has_room v) then Ok tt else Err SendError.Full
  else Err SendError.Disconnected.

(** [receiver.try_recv()]. *)
Definition recv_outcome v : result T RecvError :=
  match cv_queue v with
  | x :: _ => Ok x
  | [] => if cv_senders v then Err RecvError.Empty else Err RecvError.Disconnected
  end.
Definition after_recv v : chan_view T :=
  match cv_queue v with x :: q => with_queue q v | [] => v end.
End views.

(** ** The interface *)

(** [Poll<T>]. *)
Inductive Poll (T : Type) : Type := Ready (t : T) | Pending.
Arguments Ready {T} _.
Arguments Pending {T}.

Class Mpsc (T : Type) := {
  Chan : Type;
  view : Chan → chan_view T;
  (** [mpsc::channel(capacity)]. *)
  chan_new : positive → Chan;
  (** [Sender::try_reserve], and what becomes of the permit. *)
  chan_try_reserve : Chan → result unit SendError * Chan;
  permit_send : Chan → T → Chan;
  permit_abort : Chan → Chan;
  (** [Receiver::try_recv], and [poll_recv] under a task context that is
      cancelled or not. *)
  chan_try_recv : Chan → result T RecvError * Chan;
  chan_poll_recv : bool → Chan → Poll (result T RecvError) * Chan;
  (** [Receiver::len], [Sender::capacity] and [Receiver::capacity]. *)
  chan_len : Chan → nat;
  chan_capacity : Chan → nat;

  (** The laws.  What is committed after the receiver is gone is no longer
      observable, so the view may keep it. *)
  view_new : ∀ n, view (chan_new n) = mk_view [] 0 (Pos.to_nat n) true true;
  try_reserve_outcome : ∀ c, (chan_try_reserve c).1 = reserve_outcome (view c);
  try_reserve_ok : ∀ c, reserve_outcome (view c) = Ok tt →
    view (chan_try_reserve c).2 = with_reserved (S (cv_reserved (view c))) (view c);
  try_reserve_err : ∀ c e, reserve_outcome (view c) = Err e →
    view (chan_try_reserve c).2 = view c;
  permit_send_view : ∀ c x, view (permit_send c x) =
    with_queue (cv_queue (view c) ++ [x]) (with_reserved (pred (cv_reserved (view c))) (view c));
  permit_abort_view : ∀ c, view (permit_abort c) =
    with_reserved (pred (cv_reserved (view c))) (view c);
  try_recv_outcome : ∀ c, (chan_try_recv c).1 = recv_outcome (view c);
  try_recv_view : ∀ c, view (chan_try_recv c).2 = after_recv (view c);
  poll_recv_cancelled : ∀ c, (chan_poll_recv true c).1 = Ready (Err RecvError.Cancelled)
    ∧ view (chan_poll_recv true c).2 = view c;
  poll_recv_outcome : ∀ c, (chan_poll_recv false c).1 =
    match recv_outcome (view c) with
    | Err RecvError.Empty => Pending
    | r => Ready r
    end;
  poll_recv_view : ∀ c, view (chan_poll_recv false c).2 = after_recv (view c);
  chan_len_view : ∀ c, chan_len c = length (cv_queue (view c));
  chan_capacity_view : ∀ c, chan_capacity c = cv_capacity (view c);
}.

(** ** An implementation *)

Section queue_channel.
Context {T : Type}.

Definition queue_reserve (v : chan_view T) : result unit SendError * chan_view T :=
  match reserve_outcome v with
  | Ok _ => (Ok tt, with_reserved (S (cv_reserved v)) v)
  | Err e => (Err e, v)
  end.
Definition queue_poll (cancelled : bool) (v : chan_view T) :
    Poll (result T RecvError) * chan_view T :=
  if cancelled then (Ready (Err RecvError.Cancelled), v)
  else (match recv_outcome v with Err RecvError.Empty => Pending | r => Ready r end,
        after_recv v).

Lemma queue_reserve_outcome v : (queue_reserve v).1 = reserve_outcome v.
Proof. unfold queue_reserve. by destruct (reserve_outcome v) as [[]|]. Qed.
Lemma queue_reserve_ok v :
  reserve_outcome v = Ok tt →
  (queue_reserve v).2 = with_reserved (S (cv_reserved v)) v.
Proof. intros H. unfold queue_reserve. by rewrite H. Qed.
Lemma queue_reserve_err v e : reserve_outcome v = Err e → (queue_reserve v).2 = v.
Proof. intros H. unfold queue_reserve. by rewrite H. Qed.

#[export] Instance queue_channel : Mpsc T := {|
  Chan := chan_view T;
  view v := v;
  chan_new n := mk_view [] 0 (Pos.to_nat n) true true;
  chan_try_reserve := queue_reserve;
  permit_send v x :=
    with_queue (cv_queue v ++ [x]) (with_reserved (pred (cv_reserved v)) v);
  permit_abort v := with_reserved (pred (cv_reserved v)) v;
  chan_try_recv v := (recv_outcome v, after_recv v);
  chan_poll_recv := queue_poll;
  chan_len v := length (cv_queue v);
  chan_capacity v := cv_capacity v;
  view_new _ := eq_refl;
  try_reserve_outcome := queue_reserve_outcome;
  try_reserve_ok := queue_reserve_ok;
  try_reserve_err := queue_reserve_err;
  permit_send_view _ _ := eq_refl;
  permit_abort_view _ := eq_refl;
  try_recv_outcome _ := eq_refl;
  try_recv_view _ := eq_refl;
  poll_recv_cancelled _ := conj eq_refl eq_refl;
  poll_recv_outcome _ := eq_refl;
  poll_recv_view _ := eq_refl;
  chan_len_view _ := eq_refl;
  chan_capacity_view _ := eq_refl;
|}.
End queue_channel.

(** ** Closing *)

Section closing_views.
Context {T : Type}.
Definition without_senders (v : chan_view T) : chan_view T :=
  mk_view (cv_queue v) (cv_reserved v) (cv_capacity v) false (cv_receiver v).
Definition without_receiver (v : chan_view T) : chan_view T :=
  mk_view (cv_queue v) (cv_reserved v) (cv_capacity v) (cv_senders v) false.
End closing_views.

(** Dropping the sender of a channel, of which the port layer makes only one, and
    dropping the receiver. *)
Class MpscDrop (T : Type) `{!Mpsc T} := {
  sender_drop : Chan → Chan;
  receiver_drop : Chan → Chan;
  sender_drop_view : ∀ c, view (sender_drop c) = without_senders (view c);
  receiver_drop_view : ∀ c, view (receiver_drop c) = without_receiver (view c);
}.

#[export] Instance queue_channel_drop {T} : MpscDrop T := {|
  sender_drop := without_senders : @Chan T queue_channel → @Chan T queue_channel;
  receiver_drop := without_receiver;
  sender_drop_view _ := eq_refl;
  receiver_drop_view _ := eq_refl;
|}.

(** ** Lemmas on views *)

Section view_lemmas.
Context {T : Type}.
Implicit Types v : chan_view T.

Lemma reserve_ok_iff v :
  reserve_outcome v = Ok tt ↔ cv_receiver v = true ∧ has_room v.
Proof.
  unfold reserve_outcome. destruct (cv_receiver v); [case_decide|]; naive_solver.
Qed.

Lemma with_reserved_id v : with_reserved (cv_reserved v) v = v.
Proof. by destruct v. Qed.

Lemma view_wf_reserve v :
  reserve_outcome v = Ok tt → view_wf (with_reserved (S (cv_reserved v)) v).
Proof. rewrite reserve_ok_iff. unfold has_room, view_wf. simpl. lia. Qed.

Lemma view_wf_send v x :
  view_wf v → 0 < cv_reserved v →
  view_wf (with_queue (cv_queue v ++ [x]) (with_reserved (pred (cv_reserved v)) v)).
Proof. unfold view_wf. simpl. rewrite length_app. simpl. lia. Qed.

Lemma view_wf_abort v : view_wf v → view_wf (with_reserved (pred (cv_reserved v)) v).
Proof. unfold view_wf. simpl. lia. Qed.

Lemma view_wf_recv v : view_wf v → view_wf (after_recv v).
Proof. unfold view_wf, after_recv. destruct (cv_queue v) eqn:E; simpl; rewrite ?E; simpl; lia. Qed.
End view_lemmas.
