(* ===== verification/Ports.v ===== *)
(** [pureflow-core], port handles (src/crates/pureflow-core/src/ports.rs).

    A channel is shared by the output handle that owns its sender and the input
    handle that owns its receiver, so the channels live in a store and handles
    hold indices into it.  An operation takes and returns the [world]: the
    channels, the metadata sink every handle reports to, and the cancellation
    signals.  An async operation is given by one poll of its future (for
    [reserve], one turn of its loop); between two polls any other step may
    happen. *)

From Stdlib Require Import Lia.
From S2P Require Import Prelude RustStr BTree Types Workflow Errors Json Context Message Metadata MetadataSink Channel.

Section ports.
Context `{J : JsonNumber} {S : Type} `{!MetadataSink S} `{M : !Mpsc PortPacket}.

Record world : Type := mk_world {
  w_chans : list Chan;
  w_sink : S;
  w_signals : signals;
}.

Definition set_chan (i : nat) (c : Chan) (w : world) : world :=
  mk_world (<[i := c]> (w_chans w)) (w_sink w) (w_signals w).

(** An operation on one channel; an index always comes from
    [bounded_edge_channel], so the default is never used. *)
Definition chan_op {R} (f : Chan → R * Chan) (default : R) (i : nat) (w : world) : R * world :=
  match w_chans w !! i with
  | Some c => let (r, c) := f c in (r, set_chan i c w)
  | None => (default, w)
  end.
Definition chan_do (f : Chan → Chan) (i : nat) (w : world) : world :=
  (chan_op (λ c, (tt, f c)) tt i w).2.
Definition chan_get {R} (f : Chan → R) (default : R) (i : nat) (w : world) : R :=
  match w_chans w !! i with Some c => f c | None => default end.

(** [let _ = metadata_sink.record(&record);] when a sink is attached. *)
Definition record_to (attached : bool) (r : MetadataRecord) (w : world) : world :=
  if attached then
    mk_world (w_chans w) (sink_record (w_signals w) (w_sink w) r).2 (w_signals w)
  else w.

(** ** Handles *)

Record InputPortHandle : Set := mk_input { in_port_id : PortId; receivers : list nat }.
Record OutputPortHandle : Set := mk_output { out_port_id : PortId; senders : list nat }.

Definition input_disconnected (port_id : PortId) : InputPortHandle := mk_input port_id [].
Definition output_disconnected (port_id : PortId) : OutputPortHandle := mk_output port_id [].
Definition input_append (h other : InputPortHandle) : InputPortHandle :=
  mk_input (in_port_id h) (receivers h ++ receivers other).
Definition output_append (h other : OutputPortHandle) : OutputPortHandle :=
  mk_output (out_port_id h) (senders h ++ senders other).

(** [connected_edge_count] and [total_capacity]; the latter is [None] without
    edges. *)
Definition edge_count (chans : list nat) : N := N.of_nat (length chans).
Definition sum_over (f : Chan → nat) (chans : list nat) (w : world) : nat :=
  sum_list ((λ i, chan_get f 0 i w) <$> chans).
Definition total_capacity (chans : list nat) (w : world) : option N :=
  if vec_is_empty chans then None else Some (N.of_nat (sum_over chan_capacity chans w)).
Definition queued_count (h : InputPortHandle) (w : world) : N :=
  N.of_nat (sum_over chan_len (receivers h) w).

(** [capacity]: of the first connected edge. *)
Definition first_capacity (chans : list nat) (w : world) : option N :=
  (λ i, N.of_nat (chan_get chan_capacity 0 i w)) <$> head chans.

Definition bounded_edge_channel (output_port_id input_port_id : PortId)
    (capacity : NonZeroUsize) (w : world) : (OutputPortHandle * InputPortHandle) * world :=
  let i := length (w_chans w) in
  ((mk_output output_port_id [i], mk_input input_port_id [i]),
   mk_world (w_chans w ++ [chan_new capacity]) (w_sink w) (w_signals w)).

(** ** Output ports *)

Definition OutputPacketValidator : Type := PortId → PortPacket → result unit PortSendError.

Definition record_output_queue_pressure (attached : bool) (context : option NodeContext)
    (port : OutputPortHandle) (kind : QueuePressureBoundaryKind) (w : world) : world :=
  record_to attached
    (MetadataRecord.QueuePressure
       (QueuePressureRecord.new context QueuePortDirection.Output (out_port_id port) kind
          (edge_count (senders port)) (total_capacity (senders port) w) None)) w.

Record OutputPortSendPermit : Type := mk_permit {
  permit_port_id : PortId;
  permits : list nat;
  permit_sink : bool;
  permit_validator : option OutputPacketValidator;
  permit_context : option NodeContext;
  permit_edge_count : N;
  permit_capacity : option N;
}.

Definition map_send_error (port : OutputPortHandle) (e : SendError) : PortSendError :=
  match e with
  | SendError.Disconnected => PortSendError.Disconnected (out_port_id port)
  | SendError.Cancelled => PortSendError.Cancelled (out_port_id port)
  | SendError.Full => PortSendError.Full (out_port_id port)
  end.

(** Dropping or aborting permits, in order. *)
Definition release_permits (permits : list nat) (w : world) : world :=
  foldl (λ w i, chan_do permit_abort i w) w permits.

Definition sender_try_reserve (i : nat) (w : world) : result unit SendError * world :=
  chan_op chan_try_reserve (Err SendError.Disconnected) i w.

(** The loop over [leading_senders]: the permits pushed so far, or the error of
    the first sender that refuses. *)
Fixpoint reserve_leading (senders acquired : list nat) (w : world) :
    result (list nat) (SendError * list nat) * world :=
  match senders with
  | [] => (Ok acquired, w)
  | i :: senders =>
      let (r, w) := sender_try_reserve i w in
      match r with
      | Ok _ => reserve_leading senders (acquired ++ [i]) w
      | Err e => (Err (e, acquired), w)
      end
  end.

(** The error paths of [OutputPortHandle::try_reserve]: report a full channel,
    return the error, and let the permits acquired so far be dropped. *)
Definition fail_reserve (attached : bool) (context : option NodeContext)
    (port : OutputPortHandle) (e : SendError) (acquired : list nat) (w : world) :
    result OutputPortSendPermit PortSendError * world :=
  let w :=
    match e with
    | SendError.Full =>
        record_output_queue_pressure attached context port QueuePressureBoundaryKind.ReserveFull w
    | _ => w
    end in
  (Err (map_send_error port e), release_permits acquired w).

Definition output_try_reserve (port : OutputPortHandle) (attached : bool)
    (validator : option OutputPacketValidator) (context : option NodeContext) (w : world) :
    result OutputPortSendPermit PortSendError * world :=
  let w := record_output_queue_pressure attached context port
             QueuePressureBoundaryKind.ReserveAttempted w in
  let permit permits w :=
    mk_permit (out_port_id port) permits attached validator context
      (edge_count (senders port)) (total_capacity (senders port) w) in
  match last (senders port) with
  | None =>
      let w := record_output_queue_pressure attached context port
                 QueuePressureBoundaryKind.ReserveReady w in
      (Ok (permit [] w), w)
  | Some last_sender =>
      let leading_senders := take (pred (length (senders port))) (senders port) in
      let (r, w) := reserve_leading leading_senders [] w in
      match r with
      | Err (e, acquired) => fail_reserve attached context port e acquired w
      | Ok acquired =>
          let (r, w) := sender_try_reserve last_sender w in
          match r with
          | Ok _ =>
              let w := record_output_queue_pressure attached context port
                         QueuePressureBoundaryKind.ReserveReady w in
              (Ok (permit (acquired ++ [last_sender]) w), w)
          | Err e => fail_reserve attached context port e acquired w
          end
      end
  end.

(** [OutputPortSendPermit::abort]. *)
Definition abort (p : OutputPortSendPermit) (w : world) : world := release_permits (permits p) w.

(** [for permit in leading_permits { permit.send(packet.clone()); }]. *)
Definition commit_permits (permits : list nat) (packet : PortPacket) (w : world) : world :=
  foldl (λ w i, chan_do (λ c, permit_send c packet) i w) w permits.

(** [OutputPortSendPermit::send]. *)
Definition send (p : OutputPortSendPermit) (packet : PortPacket) (w : world) :
    result unit PortSendError * world :=
  match (match permit_validator p with
         | Some validator => validator (permit_port_id p) packet
         | None => Ok tt
         end) with
  | Err err => (Err err, abort p w)
  | Ok _ =>
      let boundary_kind :=
        if vec_is_empty (permits p) then MessageBoundaryKind.Dropped
        else MessageBoundaryKind.Enqueued in
      let queue_kind :=
        if vec_is_empty (permits p) then QueuePressureBoundaryKind.SendDropped
        else QueuePressureBoundaryKind.SendCommitted in
      let w := record_to (permit_sink p)
        (MetadataRecord.QueuePressure
           (QueuePressureRecord.new (permit_context p) QueuePortDirection.Output
              (permit_port_id p) queue_kind (permit_edge_count p) (permit_capacity p) None)) w in
      let w := record_to (permit_sink p)
        (MetadataRecord.Message
           (MessageBoundaryRecord.new boundary_kind (MessageEnvelope.metadata packet))) w in
      match last (permits p) with
      | None => (Ok tt, w)
      | Some last_permit =>
          let leading_permits := take (pred (length (permits p))) (permits p) in
          let w := commit_permits leading_permits packet w in
          (Ok tt, chan_do (λ c, permit_send c packet) last_permit w)
      end
  end.

(** One turn of the loop of [OutputPortHandle::reserve]. *)
Definition output_poll_reserve (port : OutputPortHandle) (cancellation : CancellationToken)
    (attached : bool) (validator : option OutputPacketValidator) (context : option NodeContext)
    (w : world) : Poll (result OutputPortSendPermit PortSendError) * world :=
  if CancellationToken.is_cancelled (w_signals w) cancellation then
    (Ready (Err (PortSendError.Cancelled (out_port_id port))), w)
  else
    let (r, w) := output_try_reserve port attached validator context w in
    match r with
    | Ok permit => (Ready (Ok permit), w)
    | Err (PortSendError.Full _) => (Pending, w)
    | Err err => (Ready (Err err), w)
    end.

(** *** [PortsOut] *)

Record PortsOut : Type := mk_ports_out {
  out_port_ids : list PortId;
  out_ports : list OutputPortHandle;
  out_sink : bool;
  out_validator : option OutputPacketValidator;
  out_context : option NodeContext;
}.

Definition find_output (p : PortsOut) (port_id : PortId) : option OutputPortHandle :=
  iter_find (λ port, bool_decide (out_port_id port = port_id)) (out_ports p).

Definition try_reserve (p : PortsOut) (port_id : PortId) (w : world) :
    result OutputPortSendPermit PortSendError * world :=
  match find_output p port_id with
  | None => (Err (PortSendError.UnknownPort port_id), w)
  | Some port => output_try_reserve port (out_sink p) (out_validator p) (out_context p) w
  end.

Definition try_send (p : PortsOut) (port_id : PortId) (packet : PortPacket) (w : world) :
    result unit PortSendError * world :=
  let (r, w) := try_reserve p port_id w in
  match r with Ok permit => send permit packet w | Err e => (Err e, w) end.

(** One turn of [PortsOut::reserve]. *)
Definition poll_reserve (p : PortsOut) (port_id : PortId) (cancellation : CancellationToken)
    (w : world) : Poll (result OutputPortSendPermit PortSendError) * world :=
  match find_output p port_id with
  | None => (Ready (Err (PortSendError.UnknownPort port_id)), w)
  | Some port =>
      output_poll_reserve port cancellation (out_sink p) (out_validator p) (out_context p) w
  end.

(** One poll of [PortsOut::send]: a turn of [reserve], then the commit. *)
Definition poll_send (p : PortsOut) (port_id : PortId) (packet : PortPacket)
    (cancellation : CancellationToken) (w : world) :
    Poll (result unit PortSendError) * world :=
  let (r, w) := poll_reserve p port_id cancellation w in
  match r with
  | Pending => (Pending, w)
  | Ready (Err e) => (Ready (Err e), w)
  | Ready (Ok permit) => let (r, w) := send permit packet w in (Ready r, w)
  end.

(** ** Input ports *)

(** The loop of [InputPortHandle::try_recv]: an early return, or the number of
    disconnected receivers. *)
Fixpoint try_recv_loop (port_id : PortId) (receivers : list nat) (disconnected_count : nat)
    (w : world) : (result (option PortPacket) PortRecvError + nat) * world :=
  match receivers with
  | [] => (inr disconnected_count, w)
  | i :: receivers =>
      let (r, w) := chan_op chan_try_recv (Err RecvError.Disconnected) i w in
      match r with
      | Ok packet => (inl (Ok (Some packet)), w)
      | Err RecvError.Empty => try_recv_loop port_id receivers disconnected_count w
      | Err RecvError.Disconnected =>
          try_recv_loop port_id receivers (Datatypes.S disconnected_count) w
      | Err RecvError.Cancelled => (inl (Err (PortRecvError.Cancelled port_id)), w)
      end
  end.

Definition input_try_recv (h : InputPortHandle) (w : world) :
    result (option PortPacket) PortRecvError * world :=
  let (r, w) := try_recv_loop (in_port_id h) (receivers h) 0 w in
  match r with
  | inl r => (r, w)
  | inr disconnected_count =>
      if negb (vec_is_empty (receivers h))
         && Nat.eqb disconnected_count (length (receivers h))
      then (Err (PortRecvError.Disconnected (in_port_id h)), w)
      else (Ok None, w)
  end.

(** The loop of the two polling receives, [recv] and [poll_any], under a task
    context that is cancelled or not. *)
Fixpoint poll_recv_loop (cx_cancelled : bool) (receivers : list nat) (disconnected_count : nat)
    (w : world) : (option PortPacket + nat) * world :=
  match receivers with
  | [] => (inr disconnected_count, w)
  | i :: receivers =>
      let (r, w) := chan_op (chan_poll_recv cx_cancelled)
                      (Ready (Err RecvError.Disconnected)) i w in
      match r with
      | Ready (Ok packet) => (inl (Some packet), w)
      | Ready (Err RecvError.Disconnected) =>
          poll_recv_loop cx_cancelled receivers (Datatypes.S disconnected_count) w
      | Ready (Err RecvError.Cancelled) => (inl None, w)
      | Ready (Err RecvError.Empty) | Pending =>
          poll_recv_loop cx_cancelled receivers disconnected_count w
      end
  end.

(** One poll of the future of [InputPortHandle::recv]. *)
Definition input_poll_recv (h : InputPortHandle) (cancellation : CancellationToken)
    (cx_cancelled : bool) (w : world) :
    Poll (result (option PortPacket) PortRecvError) * world :=
  if vec_is_empty (receivers h) then (Ready (Ok None), w)
  else if CancellationToken.is_cancelled (w_signals w) cancellation then
    (Ready (Err (PortRecvError.Cancelled (in_port_id h))), w)
  else
    let (r, w) := poll_recv_loop cx_cancelled (receivers h) 0 w in
    match r with
    | inl (Some packet) => (Ready (Ok (Some packet)), w)
    | inl None => (Ready (Err (PortRecvError.Cancelled (in_port_id h))), w)
    | inr disconnected_count =>
        if Nat.eqb disconnected_count (length (receivers h))
        then (Ready (Err (PortRecvError.Disconnected (in_port_id h))), w)
        else (Pending, w)
    end.

Inductive InputPollResult : Type :=
| PollPacket (packet : PortPacket)
| PollPending
| PollClosed
| PollCancelled.

Definition poll_any (h : InputPortHandle) (cx_cancelled : bool) (w : world) :
    InputPollResult * world :=
  if vec_is_empty (receivers h) then (PollClosed, w)
  else
    let (r, w) := poll_recv_loop cx_cancelled (receivers h) 0 w in
    match r with
    | inl (Some packet) => (PollPacket packet, w)
    | inl None => (PollCancelled, w)
    | inr disconnected_count =>
        if Nat.eqb disconnected_count (length (receivers h)) then (PollClosed, w)
        else (PollPending, w)
    end.

(** *** [PortsIn] *)

Record PortsIn : Type := mk_ports_in {
  in_port_ids : list PortId;
  in_ports : list InputPortHandle;
  in_sink : bool;
  in_context : option NodeContext;
}.

Definition find_input (p : PortsIn) (port_id : PortId) : option InputPortHandle :=
  iter_find (λ port, bool_decide (in_port_id port = port_id)) (in_ports p).

Definition record_message_boundary (attached : bool) (kind : MessageBoundaryKind)
    (metadata : MessageMetadata) (w : world) : world :=
  record_to attached (MetadataRecord.Message (MessageBoundaryRecord.new kind metadata)) w.

Definition record_input_queue_pressure (attached : bool) (context : option NodeContext)
    (port : InputPortHandle) (kind : QueuePressureBoundaryKind) (w : world) : world :=
  record_to attached
    (MetadataRecord.QueuePressure
       (QueuePressureRecord.new context QueuePortDirection.Input (in_port_id port) kind
          (edge_count (receivers port)) (total_capacity (receivers port) w)
          (Some (queued_count port w)))) w.

(** What [try_recv] and [recv] do with the outcome of the port. *)
Definition finish_recv (p : PortsIn) (port_id : PortId) (port : InputPortHandle)
    (r : result (option PortPacket) PortRecvError) (w : world) :
    result (option PortPacket) PortRecvError * world :=
  let pressure kind w := record_input_queue_pressure (in_sink p) (in_context p) port kind w in
  match r with
  | Ok (Some packet) =>
      let w := pressure QueuePressureBoundaryKind.ReceiveReady w in
      (Ok (Some packet),
       record_message_boundary (in_sink p) MessageBoundaryKind.Dequeued
         (MessageEnvelope.metadata packet) w)
  | Ok None => (Ok None, pressure QueuePressureBoundaryKind.ReceiveEmpty w)
  | Err (PortRecvError.Disconnected _) =>
      (Err (PortRecvError.Disconnected port_id),
       pressure QueuePressureBoundaryKind.ReceiveClosed w)
  | Err err => (Err err, w)
  end.

Definition try_recv (p : PortsIn) (port_id : PortId) (w : world) :
    result (option PortPacket) PortRecvError * world :=
  match find_input p port_id with
  | None => (Err (PortRecvError.UnknownPort port_id), w)
  | Some port =>
      let w := record_input_queue_pressure (in_sink p) (in_context p) port
                 QueuePressureBoundaryKind.ReceiveAttempted w in
      let (r, w) := input_try_recv port w in
      finish_recv p port_id port r w
  end.

(** [PortsIn::recv]: what happens before the first poll, and one poll. *)
Definition start_recv (p : PortsIn) (port_id : PortId) (w : world) : world :=
  match find_input p port_id with
  | None => w
  | Some port =>
      record_input_queue_pressure (in_sink p) (in_context p) port
        QueuePressureBoundaryKind.ReceiveAttempted w
  end.

Definition poll_recv (p : PortsIn) (port_id : PortId) (cancellation : CancellationToken)
    (cx_cancelled : bool) (w : world) :
    Poll (result (option PortPacket) PortRecvError) * world :=
  match find_input p port_id with
  | None => (Ready (Err (PortRecvError.UnknownPort port_id)), w)
  | Some port =>
      let (r, w) := input_poll_recv port cancellation cx_cancelled w in
      match r with
      | Pending => (Pending, w)
      | Ready r => let (r, w) := finish_recv p port_id port r w in (Ready r, w)
      end
  end.

(** [PortsIn::recv_any]: what happens before the first poll. *)
Definition start_recv_any (p : PortsIn) (w : world) : world :=
  foldl (λ w port, record_input_queue_pressure (in_sink p) (in_context p) port
                     QueuePressureBoundaryKind.ReceiveAttempted w) w (in_ports p).

(** The loop over the ports in one poll of [recv_any]. *)
Fixpoint recv_any_loop (p : PortsIn) (cx_cancelled : bool) (ports : list InputPortHandle)
    (closed_port_count : nat) (w : world) :
    (result (PortId * PortPacket) PortRecvError + nat) * world :=
  match ports with
  | [] => (inr closed_port_count, w)
  | port :: ports =>
      let pressure kind w := record_input_queue_pressure (in_sink p) (in_context p) port kind w in
      let (r, w) := poll_any port cx_cancelled w in
      match r with
      | PollPacket packet =>
          let w := pressure QueuePressureBoundaryKind.ReceiveReady w in
          (inl (Ok (in_port_id port, packet)),
           record_message_boundary (in_sink p) MessageBoundaryKind.Dequeued
             (MessageEnvelope.metadata packet) w)
      | PollClosed =>
          recv_any_loop p cx_cancelled ports (Datatypes.S closed_port_count)
            (pressure QueuePressureBoundaryKind.ReceiveClosed w)
      | PollCancelled => (inl (Err (PortRecvError.Cancelled (in_port_id port))), w)
      | PollPending => recv_any_loop p cx_cancelled ports closed_port_count w
      end
  end.

Definition poll_recv_any (p : PortsIn) (cancellation : CancellationToken) (cx_cancelled : bool)
    (w : world) : Poll (result (option (PortId * PortPacket)) PortRecvError) * world :=
  match in_ports p with
  | [] => (Ready (Ok None), w)
  | first_port :: _ =>
      if CancellationToken.is_cancelled (w_signals w) cancellation then
        (Ready (Err (PortRecvError.Cancelled (in_port_id first_port))), w)
      else
        let (r, w) := recv_any_loop p cx_cancelled (in_ports p) 0 w in
        match r with
        | inl (Ok received) => (Ready (Ok (Some received)), w)
        | inl (Err e) => (Ready (Err e), w)
        | inr closed_port_count =>
            if Nat.eqb closed_port_count (length (in_ports p)) then (Ready (Ok None), w)
            else (Pending, w)
        end
  end.

(** ** Assembling ports from handles *)

(** The loop over the handles in [from_handles]: handles of one port merge. *)
Definition merge_handle {H} (port_of : H → PortId) (append : H → H → H)
    (by_port : btree_map PortId H) (handle : H) : btree_map PortId H :=
  match BTreeMap.get (port_of handle) by_port with
  | Some existing => BTreeMap.insert (port_of handle) (append existing handle) by_port
  | None => BTreeMap.insert (port_of handle) handle by_port
  end.

(** The loop over the declared ports: each takes its handle out of the map. *)
Fixpoint take_handles {H} (disconnected : PortId → H) (port_ids : list PortId)
    (by_port : btree_map PortId H) : list H :=
  match port_ids with
  | [] => []
  | port_id :: port_ids =>
      default (disconnected port_id) (BTreeMap.get port_id by_port)
      :: take_handles disconnected port_ids (BTreeMap.remove port_id by_port)
  end.

Definition ports_in_from_handles (port_ids : list PortId) (handles : list InputPortHandle) :
    PortsIn :=
  mk_ports_in port_ids
    (take_handles input_disconnected port_ids
       (foldl (merge_handle in_port_id input_append) [] handles)) false None.

Definition ports_out_from_handles (port_ids : list PortId) (handles : list OutputPortHandle) :
    PortsOut :=
  mk_ports_out port_ids
    (take_handles output_disconnected port_ids
       (foldl (merge_handle out_port_id output_append) [] handles)) false None None.

Definition ports_in_new (port_ids : list PortId) : PortsIn := ports_in_from_handles port_ids [].
Definition ports_out_new (port_ids : list PortId) : PortsOut := ports_out_from_handles port_ids [].

(** Attaching observers; the sink is the one of the [world]. *)
Definition ports_in_with_metadata_sink (p : PortsIn) : PortsIn :=
  mk_ports_in (in_port_ids p) (in_ports p) true (in_context p).
Definition ports_in_with_node_context (context : NodeContext) (p : PortsIn) : PortsIn :=
  mk_ports_in (in_port_ids p) (in_ports p) (in_sink p) (Some context).
Definition ports_out_with_metadata_sink (p : PortsOut) : PortsOut :=
  mk_ports_out (out_port_ids p) (out_ports p) true (out_validator p) (out_context p).
Definition ports_out_with_node_context (context : NodeContext) (p : PortsOut) : PortsOut :=
  mk_ports_out (out_port_ids p) (out_ports p) (out_sink p) (out_validator p) (Some context).
Definition with_output_validator (validator : OutputPacketValidator) (p : PortsOut) : PortsOut :=
  mk_ports_out (out_port_ids p) (out_ports p) (out_sink p) (Some validator) (out_context p).

Definition in_connected_edge_count (p : PortsIn) (port_id : PortId) : option N :=
  (λ h, edge_count (receivers h)) <$> find_input p port_id.
Definition out_connected_edge_count (p : PortsOut) (port_id : PortId) : option N :=
  (λ h, edge_count (senders h)) <$> find_output p port_id.
Definition in_capacity (p : PortsIn) (port_id : PortId) (w : world) : option N :=
  find_input p port_id ≫= λ h, first_capacity (receivers h) w.
Definition out_capacity (p : PortsOut) (port_id : PortId) (w : world) : option N :=
  find_output p port_id ≫= λ h, first_capacity (senders h) w.
End ports.
