(* ===== verification/PortsSpec.v ===== *)
(** What the port layer promises: all-or-nothing fan-out, the outcome of every
    receive, and the traffic invariant (bounded capacity, no leaked
    reservation, FIFO without loss or duplication) of any interleaving of port
    operations. *)

From Stdlib Require Import Lia.
From S2P Require Import Prelude RustStr BTree Types Workflow Errors Json Context Message Metadata MetadataSink Channel Ports.

Section spec.
Context `{J : JsonNumber} {S : Type} `{!MetadataSink S} `{M : !Mpsc PortPacket}.
Implicit Types (w : world (S := S)) (l : list nat) (port : OutputPortHandle).

(** ** Views of the store *)

Definition chan_at w (i : nat) : option (chan_view PortPacket) := view <$> w_chans w !! i.

(** [w'] is [w] with the channels of [l] changed by [f], sink contents aside. *)
Definition changes (f : chan_view PortPacket → chan_view PortPacket) l w w' : Prop :=
  w_signals w' = w_signals w
  ∧ ∀ j, chan_at w' j = (if decide (j ∈ l) then f else λ v, v) <$> chan_at w j.
Notation unchanged := (changes (λ v, v) []).

Lemma changes_refl f w : changes f [] w w.
Proof.
  split; [done|]. intros j. rewrite decide_False by set_solver. by destruct (chan_at w j).
Qed.

Lemma changes_id l w w' : changes (λ v, v) l w w' ↔ unchanged w w'.
Proof.
  unfold changes. apply and_iff_compat_l. apply forall_proper. intros j.
  by rewrite (decide_False (P := j ∈ [])) by set_solver; case_decide.
Qed.

Lemma changes_compose f g l l' w w1 w2 :
  changes f l w w1 → changes g l' w1 w2 →
  w_signals w2 = w_signals w
  ∧ ∀ j, chan_at w2 j = (λ v, (if decide (j ∈ l') then g else λ v, v)
                               ((if decide (j ∈ l) then f else λ v, v) v)) <$> chan_at w j.
Proof.
  intros [Hs1 H1] [Hs2 H2]. split; [congruence|]. intros j.
  rewrite H2, H1. by destruct (chan_at w j).
Qed.

Lemma changes_unchanged_r f l w w1 w2 :
  changes f l w w1 → unchanged w1 w2 → changes f l w w2.
Proof.
  intros H1 H2. destruct (changes_compose _ _ _ _ _ _ _ H1 H2) as [Hs H].
  split; [done|]. intros j. rewrite H. by rewrite (decide_False (P := j ∈ [])) by set_solver.
Qed.

Lemma changes_unchanged_l f l w w1 w2 :
  unchanged w w1 → changes f l w1 w2 → changes f l w w2.
Proof.
  intros H1 H2. destruct (changes_compose _ _ _ _ _ _ _ H1 H2) as [Hs H].
  split; [done|]. intros j. rewrite H. by rewrite (decide_False (P := j ∈ [])) by set_solver.
Qed.

(** Changing one more channel. *)
Lemma changes_snoc f l i w w1 w2 :
  changes f l w w1 → changes f [i] w1 w2 → i ∉ l → changes f (l ++ [i]) w w2.
Proof.
  intros H1 H2 Hi. destruct (changes_compose _ _ _ _ _ _ _ H1 H2) as [Hs H].
  split; [done|]. intros j. rewrite H. destruct (chan_at w j); [|done]. simpl. f_equal.
  destruct (decide (j ∈ [i])) as [Hj|Hj]; destruct (decide (j ∈ l)); destruct (decide (j ∈ l ++ [i]));
    set_solver.
Qed.

Lemma changes_cons f i l w w1 w2 :
  changes f [i] w w1 → changes f l w1 w2 → i ∉ l → changes f (i :: l) w w2.
Proof.
  intros H1 H2 Hi. destruct (changes_compose _ _ _ _ _ _ _ H1 H2) as [Hs H].
  split; [done|]. intros j. rewrite H. destruct (chan_at w j); [|done]. simpl. f_equal.
  destruct (decide (j ∈ [i])) as [Hj|Hj]; destruct (decide (j ∈ l)); destruct (decide (j ∈ i :: l));
    set_solver.
Qed.

Lemma record_to_unchanged attached r w : unchanged w (record_to attached r w).
Proof.
  unfold record_to. destruct attached; [|apply changes_refl].
  split; [done|]. intros j. rewrite decide_False by set_solver.
  unfold chan_at. simpl. by destruct (w_chans w !! j).
Qed.

Lemma chan_at_op {R} (g : Chan → R * Chan) d i w c :
  w_chans w !! i = Some c →
  (chan_op g d i w).1 = (g c).1
  ∧ w_signals (chan_op g d i w).2 = w_signals w
  ∧ (∀ j, chan_at (chan_op g d i w).2 j = if decide (j = i) then Some (view (g c).2) else chan_at w j).
Proof.
  intros Hc. unfold chan_op. rewrite Hc. destruct (g c) as [r c'] eqn:Hg. simpl.
  split_and!; [done|done|]. intros j. unfold chan_at, set_chan. simpl. case_decide as Hj.
  - subst. rewrite list_lookup_insert_eq; [done|]. by eapply lookup_lt_Some.
  - by rewrite list_lookup_insert_ne by done.
Qed.

Lemma chan_op_changes {R} (g : Chan → R * Chan) d f i w c :
  w_chans w !! i = Some c → view (g c).2 = f (view c) →
  (chan_op g d i w).1 = (g c).1 ∧ changes f [i] w (chan_op g d i w).2.
Proof.
  intros Hc Hv. destruct (chan_at_op g d i w c Hc) as (Hr & Hs & Hj).
  split; [done|]. split; [done|]. intros j. rewrite Hj.
  destruct (decide (j = i)) as [->|Hne].
  - rewrite decide_True by set_solver. unfold chan_at. rewrite Hc. simpl. by rewrite Hv.
  - rewrite decide_False by set_solver. by destruct (chan_at w j).
Qed.

Definition in_store w l : Prop := ∀ i, i ∈ l → is_Some (w_chans w !! i).

Lemma chan_at_is_some w i : is_Some (chan_at w i) ↔ is_Some (w_chans w !! i).
Proof. unfold chan_at. by rewrite fmap_is_Some. Qed.

Lemma in_store_changes f l l' w w' : changes f l w w' → in_store w l' → in_store w' l'.
Proof.
  intros [_ H] Hin i Hi. apply chan_at_is_some. rewrite H, fmap_is_Some.
  by apply chan_at_is_some, Hin.
Qed.

(** ** Reserving *)

Definition reserve_one (v : chan_view PortPacket) : chan_view PortPacket :=
  with_reserved (Datatypes.S (cv_reserved v)) v.
Definition release_one (v : chan_view PortPacket) : chan_view PortPacket :=
  with_reserved (pred (cv_reserved v)) v.
Definition commit_one (x : PortPacket) (v : chan_view PortPacket) : chan_view PortPacket :=
  with_queue (cv_queue v ++ [x]) (release_one v).

(** The first sender, in order, whose channel refuses a reservation. *)
Fixpoint first_refusal w l : option SendError :=
  match l with
  | [] => None
  | i :: l =>
      match chan_at w i with
      | Some v => match reserve_outcome v with Ok _ => first_refusal w l | Err e => Some e end
      | None => Some SendError.Disconnected
      end
  end.

Lemma first_refusal_changes f l l' w w' :
  changes f l' w w' → (∀ i, i ∈ l → i ∉ l') → first_refusal w' l = first_refusal w l.
Proof.
  intros [_ H]. induction l as [|i l IH]; intros Hd; simpl; [done|].
  rewrite H, decide_False by set_solver. rewrite IH by set_solver. by destruct (chan_at w i).
Qed.

Lemma sender_try_reserve_spec i w v :
  chan_at w i = Some v →
  (sender_try_reserve i w).1 = reserve_outcome v
  ∧ match reserve_outcome v with
    | Ok _ => changes reserve_one [i] w (sender_try_reserve i w).2
    | Err _ => unchanged w (sender_try_reserve i w).2
    end.
Proof.
  unfold chan_at. rewrite fmap_Some. intros (c & Hc & ->). unfold sender_try_reserve.
  destruct (reserve_outcome (view c)) as [[]|e] eqn:Ho.
  - destruct (chan_op_changes chan_try_reserve (Err SendError.Disconnected) reserve_one i w c)
      as [Hr Hch]; [done|by apply try_reserve_ok|].
    rewrite Hr, try_reserve_outcome, Ho. done.
  - destruct (chan_op_changes chan_try_reserve (Err SendError.Disconnected) (λ v, v) i w c)
      as [Hr Hch]; [done|by eapply try_reserve_err|].
    rewrite Hr, try_reserve_outcome, Ho. apply changes_id in Hch. done.
Qed.

Lemma reserve_leading_spec l acquired w :
  NoDup l → in_store w l →
  match first_refusal w l with
  | None => (reserve_leading l acquired w).1 = Ok (acquired ++ l)
      ∧ changes reserve_one l w (reserve_leading l acquired w).2
  | Some e => ∃ l1 l2, l = l1 ++ l2
      ∧ (reserve_leading l acquired w).1 = Err (e, acquired ++ l1)
      ∧ changes reserve_one l1 w (reserve_leading l acquired w).2
  end.
Proof.
  revert acquired w. induction l as [|i l IH]; intros acquired w Hnd Hin; simpl.
  { rewrite app_nil_r. split; [done|apply changes_refl]. }
  apply NoDup_cons in Hnd as [Hi Hnd].
  destruct (proj2 (chan_at_is_some w i)) as [v Hv]; [apply Hin; by left|].
  destruct (sender_try_reserve_spec i w v Hv) as [Hr Hch]. rewrite Hv.
  destruct (sender_try_reserve i w) as [r w1]. simpl in Hr, Hch. subst r.
  destruct (reserve_outcome v) as [[]|e]; simpl.
  - specialize (IH (acquired ++ [i]) w1 Hnd).
    assert (in_store w1 l) as Hin1 by (eapply in_store_changes; [done|set_solver]).
    rewrite (first_refusal_changes reserve_one l [i] w w1) in IH by (done || set_solver).
    specialize (IH Hin1). destruct (first_refusal w l) as [e|].
    + destruct IH as (l1 & l2 & -> & -> & Hc). exists (i :: l1), l2. split_and!; [done| |].
      * by rewrite <- app_assoc.
      * eapply changes_cons; [done|done|set_solver].
    + destruct IH as [-> Hc]. rewrite <- app_assoc. split; [done|].
      by eapply changes_cons.
  - exists [], (i :: l). rewrite app_nil_r. split_and!; [done|done|].
    eapply changes_unchanged_r; [apply changes_refl|done].
Qed.

Lemma release_permits_changes l w :
  NoDup l → in_store w l → changes release_one l w (release_permits l w).
Proof.
  unfold release_permits. revert w. induction l as [|i l IH]; intros w Hnd Hin; simpl.
  { apply changes_refl. }
  apply NoDup_cons in Hnd as [Hi Hnd]. destruct (Hin i) as [c Hc]; [by left|].
  destruct (chan_op_changes (λ c, ((), permit_abort c)) () release_one i w c Hc) as [_ Hch];
    [apply permit_abort_view|].
  eapply changes_cons; [exact Hch|apply IH|done]; [done|].
  eapply in_store_changes; [exact Hch|set_solver].
Qed.

(** Reserving some channels and releasing them again leaves no trace. *)
Lemma reserve_release l w w1 w2 :
  changes reserve_one l w w1 → changes release_one l w1 w2 → unchanged w w2.
Proof.
  intros H1 H2. destruct (changes_compose _ _ _ _ _ _ _ H1 H2) as [Hs H].
  split; [done|]. intros j. rewrite H, (decide_False (P := j ∈ [])) by set_solver.
  destruct (chan_at w j) as [v|]; [|done]. simpl. f_equal.
  case_decide; [|done]. unfold release_one, reserve_one. simpl. by destruct v.
Qed.

Lemma fail_reserve_spec attached context port e l w w1 :
  NoDup l → in_store w l → changes reserve_one l w w1 →
  (fail_reserve attached context port e l w1).1 = Err (map_send_error port e)
  ∧ unchanged w (fail_reserve attached context port e l w1).2.
Proof.
  intros Hnd Hin Hch. split; [done|]. unfold fail_reserve. simpl.
  set (w2 := match e with SendError.Full => _ | _ => w1 end).
  assert (unchanged w1 w2) as H2.
  { unfold w2. destruct e; [apply changes_refl..|apply record_to_unchanged]. }
  assert (changes reserve_one l w w2) as H12 by (by eapply changes_unchanged_r).
  eapply reserve_release; [exact H12|]. apply release_permits_changes; [done|].
  by eapply in_store_changes.
Qed.

Lemma last_split {A} (l : list A) x :
  last l = Some x → l = take (pred (length l)) l ++ [x].
Proof.
  intros [l' ->]%last_Some. rewrite length_app. simpl.
  replace (pred (length l' + 1)) with (length l') by lia. by rewrite take_app_length.
Qed.

Lemma first_refusal_app w l1 l2 :
  first_refusal w (l1 ++ l2) =
  match first_refusal w l1 with Some e => Some e | None => first_refusal w l2 end.
Proof.
  induction l1 as [|i l1 IH]; simpl; [done|]. rewrite IH.
  destruct (chan_at w i) as [v|]; [|done]. by destruct (reserve_outcome v).
Qed.

Lemma first_refusal_unchanged w w' l : unchanged w w' → first_refusal w' l = first_refusal w l.
Proof. intros H. eapply first_refusal_changes; [exact H|set_solver]. Qed.

(** The permit a successful reservation returns. *)
Definition permit_for port (attached : bool) (validator : option OutputPacketValidator)
    (context : option NodeContext) (capacity : option N) : OutputPortSendPermit :=
  mk_permit (out_port_id port) (senders port) attached validator context
    (edge_count (senders port)) capacity.

Lemma output_try_reserve_spec port attached validator context w :
  NoDup (senders port) → in_store w (senders port) →
  match first_refusal w (senders port) with
  | None => ∃ capacity w',
      output_try_reserve port attached validator context w
      = (Ok (permit_for port attached validator context capacity), w')
      ∧ changes reserve_one (senders port) w w'
  | Some e => ∃ w',
      output_try_reserve port attached validator context w = (Err (map_send_error port e), w')
      ∧ unchanged w w'
  end.
Proof.
  intros Hnd Hin. unfold output_try_reserve, record_output_queue_pressure.
  set (w0 := record_to attached _ w).
  assert (H0 : unchanged w w0) by apply record_to_unchanged.
  assert (Hin0 : in_store w0 (senders port)) by (by eapply in_store_changes).
  rewrite <- (first_refusal_unchanged w w0) by done. unfold permit_for.
  destruct (last (senders port)) as [i|] eqn:Hl.
  - apply last_split in Hl. set (lead := take _ (senders port)) in *. clearbody lead.
    rewrite Hl in Hnd, Hin0 |- *. apply NoDup_app in Hnd as (Hnd & Hdis & _).
    assert (Hi : i ∉ lead) by (intros Hx; apply (Hdis i Hx); set_solver).
    assert (Hinl : in_store w0 lead) by (intros j Hj; apply Hin0; set_solver).
    rewrite first_refusal_app. pose proof (reserve_leading_spec lead [] w0 Hnd Hinl) as Hlead.
    destruct (first_refusal w0 lead) as [e|].
    + destruct Hlead as (l1 & l2 & -> & Hr & Hch).
      destruct (reserve_leading _ _ _) as [r w1]. simpl in Hr, Hch. subst r.
      apply NoDup_app in Hnd as (Hnd1 & _).
      destruct (fail_reserve_spec attached context port e l1 w0 w1) as [Hf Hu];
        [done|intros j Hj; apply Hinl; set_solver|done|].
      destruct (fail_reserve _ _ _ _ _ _) as [r w2]. simpl in Hf, Hu. subst r.
      exists w2. split; [done|]. by eapply changes_unchanged_l.
    + destruct Hlead as [Hr Hch]. destruct (reserve_leading _ _ _) as [r w1].
      simpl in Hr, Hch. subst r.
      destruct (proj2 (chan_at_is_some w0 i)) as [v Hv]; [apply Hin0; set_solver|].
      assert (Hv1 : chan_at w1 i = Some v).
      { destruct Hch as [_ Hc]. rewrite Hc, decide_False, Hv by done. done. }
      destruct (sender_try_reserve_spec i w1 v Hv1) as [Hs Hc1].
      destruct (sender_try_reserve i w1) as [r w2]. simpl in Hs, Hc1. subst r.
      simpl. rewrite Hv. destruct (reserve_outcome v) as [[]|e]; simpl.
      * do 2 eexists. split; [done|]. eapply changes_unchanged_r; [|apply record_to_unchanged].
        eapply changes_unchanged_l; [exact H0|]. by eapply changes_snoc.
      * destruct (fail_reserve_spec attached context port e lead w0 w2) as [Hf Hu];
          [done|done|by eapply changes_unchanged_r|].
        destruct (fail_reserve _ _ _ _ _ _) as [r w3]. simpl in Hf, Hu. subst r.
        exists w3. split; [done|]. by eapply changes_unchanged_l.
  - apply last_None in Hl. rewrite Hl. simpl. do 2 eexists. split; [done|].
    eapply changes_unchanged_l; [exact H0|].
    eapply changes_unchanged_r; [apply changes_refl|apply record_to_unchanged].
Qed.

(** ** Committing *)

Lemma commit_permits_changes x l w :
  NoDup l → in_store w l → changes (commit_one x) l w (commit_permits l x w).
Proof.
  unfold commit_permits. revert w. induction l as [|i l IH]; intros w Hnd Hin; simpl.
  { apply changes_refl. }
  apply NoDup_cons in Hnd as [Hi Hnd]. destruct (Hin i) as [c Hc]; [by left|].
  destruct (chan_op_changes (λ c, ((), permit_send c x)) () (commit_one x) i w c Hc) as [_ Hch];
    [apply permit_send_view|].
  eapply changes_cons; [exact Hch|apply IH|done]; [done|].
  eapply in_store_changes; [exact Hch|set_solver].
Qed.

Definition validate_output (validator : option OutputPacketValidator) (port_id : PortId)
    (packet : PortPacket) : result unit PortSendError :=
  match validator with Some validator => validator port_id packet | None => Ok tt end.

Lemma send_spec (p : OutputPortSendPermit) packet w :
  NoDup (permits p) → in_store w (permits p) →
  match validate_output (permit_validator p) (permit_port_id p) packet with
  | Err e => (send p packet w).1 = Err e
      ∧ changes release_one (permits p) w (send p packet w).2
  | Ok _ => (send p packet w).1 = Ok tt
      ∧ changes (commit_one packet) (permits p) w (send p packet w).2
  end.
Proof.
  intros Hnd Hin. unfold send, validate_output.
  destruct (match permit_validator p with Some v => v _ packet | None => Ok () end) as [?|e].
  2:{ split; [done|]. by apply release_permits_changes. }
  set (w1 := record_to (permit_sink p) _ w). set (w2 := record_to (permit_sink p) _ w1).
  assert (Hu : unchanged w w2).
  { eapply changes_unchanged_r; apply record_to_unchanged. }
  assert (Hin2 : in_store w2 (permits p)) by (by eapply in_store_changes).
  destruct (last (permits p)) as [i|] eqn:Hl.
  - apply last_split in Hl. set (lead := take _ (permits p)) in *. clearbody lead.
    assert (H : (chan_do (λ c, permit_send c packet) i (commit_permits lead packet w2))
      = commit_permits (permits p) packet w2).
    { rewrite Hl. unfold commit_permits. by rewrite foldl_app. }
    rewrite H. split; [done|]. eapply changes_unchanged_l; [exact Hu|].
    by apply commit_permits_changes.
  - apply last_None in Hl. rewrite Hl. split; [done|].
    eapply changes_unchanged_l; [exact Hu|apply changes_refl].
Qed.

Lemma reserve_commit x l w w1 w2 :
  changes reserve_one l w w1 → changes (commit_one x) l w1 w2 →
  changes (λ v, with_queue (cv_queue v ++ [x]) v) l w w2.
Proof.
  intros H1 H2. destruct (changes_compose _ _ _ _ _ _ _ H1 H2) as [Hs H].
  split; [done|]. intros j. rewrite H. destruct (chan_at w j) as [v|]; [|done].
  simpl. f_equal. by case_decide.
Qed.

(** The outcome of sending on a port, from the store before. *)
Definition send_outcome w port (validator : option OutputPacketValidator) (packet : PortPacket) :
    result unit PortSendError :=
  match first_refusal w (senders port) with
  | Some e => Err (map_send_error port e)
  | None => validate_output validator (out_port_id port) packet
  end.

(** All channels of the port get the packet, or none does. *)
Definition send_effect w w' port (r : result unit PortSendError) (packet : PortPacket) : Prop :=
  match r with
  | Ok _ => changes (λ v, with_queue (cv_queue v ++ [packet]) v) (senders port) w w'
  | Err _ => unchanged w w'
  end.

Lemma reserve_then_send port attached validator context packet w :
  NoDup (senders port) → in_store w (senders port) →
  let (r, w1) := output_try_reserve port attached validator context w in
  match r with
  | Err e => send_outcome w port validator packet = Err e
      ∧ send_effect w w1 port (Err e) packet
      ∧ ∃ refusal, first_refusal w (senders port) = Some refusal
          ∧ e = map_send_error port refusal
  | Ok permit => first_refusal w (senders port) = None ∧
      (send permit packet w1).1 = send_outcome w port validator packet
      ∧ send_effect w (send permit packet w1).2 port (send permit packet w1).1 packet
  end.
Proof.
  intros Hnd Hin. pose proof (output_try_reserve_spec port attached validator context w Hnd Hin) as H.
  unfold send_outcome. destruct (first_refusal w (senders port)) as [e|] eqn:Hf.
  - destruct H as (w1 & -> & Hu). split_and!; [done|done|]. by exists e.
  - destruct H as (cap & w1 & -> & Hch). split; [done|].
    assert (Hin1 : in_store w1 (senders port)) by (by eapply in_store_changes).
    pose proof (send_spec (permit_for port attached validator context cap) packet w1 Hnd Hin1) as Hs.
    simpl in Hs. destruct (validate_output validator (out_port_id port) packet) as [[]|e].
    + destruct Hs as [-> Hc]. split; [done|]. by eapply reserve_commit.
    + destruct Hs as [-> Hc]. split; [done|]. by eapply reserve_release.
Qed.

(** ** Receiving *)

(** The first receiver, in order, with a queued packet. *)
Fixpoint first_ready w l : option (nat * PortPacket) :=
  match l with
  | [] => None
  | i :: l =>
      match chan_at w i with
      | Some v => match cv_queue v with x :: _ => Some (i, x) | [] => first_ready w l end
      | None => first_ready w l
      end
  end.

(** A receiver with nothing queued and no sender left. *)
Definition drained w (i : nat) : Prop :=
  match chan_at w i with
  | Some v => cv_queue v = [] ∧ cv_senders v = false
  | None => True
  end.
#[export] Instance drained_dec w i : Decision (drained w i).
Proof. unfold drained. destruct (chan_at w i); apply _. Defined.

Lemma drained_unchanged w w' i : unchanged w w' → drained w' i ↔ drained w i.
Proof.
  intros [_ H]. unfold drained. rewrite H, decide_False by set_solver.
  by destruct (chan_at w i).
Qed.

Lemma first_ready_unchanged w w' l : unchanged w w' → first_ready w' l = first_ready w l.
Proof.
  intros [_ H]. induction l as [|i l IH]; simpl; [done|].
  rewrite H, decide_False by set_solver. rewrite IH. by destruct (chan_at w i).
Qed.

(** What a loop over the receivers finds: the packet of the first ready one, or
    how many are drained, added to a count [n]. *)
Definition scan w l (n : nat) : PortPacket + nat :=
  match first_ready w l with
  | Some (_, x) => inl x
  | None => inr (n + length (filter (drained w) l))
  end.
Definition scan_effect w w' l : Prop :=
  match first_ready w l with
  | Some (i, _) => changes after_recv [i] w w'
  | None => unchanged w w'
  end.

Lemma scan_cons_skip w w1 w' i l n v :
  chan_at w i = Some v → cv_queue v = [] → unchanged w w1 →
  scan w1 l (if cv_senders v then n else Datatypes.S n) = scan w (i :: l) n
  ∧ (scan_effect w1 w' l → scan_effect w w' (i :: l)).
Proof.
  intros Hv Hq Hu. unfold scan, scan_effect. simpl. rewrite Hv, Hq.
  rewrite (first_ready_unchanged w w1) by done. split.
  - destruct (first_ready w l) as [[]|]; [done|]. f_equal.
    assert (filter (drained w1) l = filter (drained w) l) as ->.
    { apply list_filter_iff. intros j. by apply drained_unchanged. }
    rewrite filter_cons. case_decide as Hd; unfold drained in Hd; rewrite Hv in Hd;
      destruct (cv_senders v); simpl; lia || naive_solver.
  - destruct (first_ready w l) as [[j x]|]; intros; by eapply changes_unchanged_l.
Qed.

Lemma scan_cons_ready w w' i l n v x q :
  chan_at w i = Some v → cv_queue v = x :: q → changes after_recv [i] w w' →
  scan w (i :: l) n = inl x ∧ scan_effect w w' (i :: l).
Proof. intros Hv Hq Hc. unfold scan, scan_effect. simpl. by rewrite Hv, Hq. Qed.

Lemma after_recv_empty (v : chan_view PortPacket) : cv_queue v = [] → after_recv v = v.
Proof. intros H. unfold after_recv. by rewrite H. Qed.

(** One non-blocking receive. *)
Lemma chan_recv_changes {R} (g : Chan → R * Chan) d i w :
  (∀ c, view (g c).2 = after_recv (view c)) → is_Some (w_chans w !! i) →
  ∃ c, chan_at w i = Some (view c) ∧ (chan_op g d i w).1 = (g c).1
    ∧ changes after_recv [i] w (chan_op g d i w).2
    ∧ (cv_queue (view c) = [] → unchanged w (chan_op g d i w).2).
Proof.
  intros Hg [c Hc]. exists c.
  destruct (chan_op_changes g d after_recv i w c Hc (Hg c)) as [Hr Hch].
  split_and!; [unfold chan_at; by rewrite Hc|done|done|].
  intros Hq. apply (changes_id [i]).
  apply (chan_op_changes g d (λ v, v) i w c Hc). rewrite Hg. by apply after_recv_empty.
Qed.

Lemma try_recv_loop_spec port_id l n w :
  in_store w l →
  (try_recv_loop port_id l n w).1 =
    match scan w l n with inl x => inl (Ok (Some x)) | inr n => inr n end
  ∧ scan_effect w (try_recv_loop port_id l n w).2 l.
Proof.
  revert n w. induction l as [|i l IH]; intros n w Hin; simpl.
  { unfold scan, scan_effect. simpl. rewrite Nat.add_0_r. split; [done|apply changes_refl]. }
  destruct (chan_recv_changes chan_try_recv (Err RecvError.Disconnected) i w) as (c & Hv & Hr & Hch & Hu);
    [apply try_recv_view|apply Hin; by left|].
  destruct (chan_op _ _ i w) as [r w1]. simpl in Hr, Hch, Hu. subst r.
  rewrite try_recv_outcome. unfold recv_outcome.
  destruct (cv_queue (view c)) as [|x q] eqn:Hq.
  - specialize (Hu eq_refl).
    assert (Hin1 : in_store w1 l) by (eapply in_store_changes; [exact Hu|set_solver]).
    destruct (scan_cons_skip w w1 (try_recv_loop port_id l
      (if cv_senders (view c) then n else Datatypes.S n) w1).2 i l n _ Hv Hq Hu) as [<- He].
    destruct (IH (if cv_senders (view c) then n else Datatypes.S n) w1 Hin1) as [IH1 IH2].
    destruct (cv_senders (view c)); (split; [exact IH1|exact (He IH2)]).
  - destruct (scan_cons_ready w w1 i l n _ x q Hv Hq Hch) as [-> He]. done.
Qed.

Lemma poll_recv_loop_spec l n w :
  in_store w l →
  (poll_recv_loop false l n w).1 =
    match scan w l n with inl x => inl (Some x) | inr n => inr n end
  ∧ scan_effect w (poll_recv_loop false l n w).2 l.
Proof.
  revert n w. induction l as [|i l IH]; intros n w Hin; simpl.
  { unfold scan, scan_effect. simpl. rewrite Nat.add_0_r. split; [done|apply changes_refl]. }
  destruct (chan_recv_changes (chan_poll_recv false) (Ready (Err RecvError.Disconnected)) i w)
    as (c & Hv & Hr & Hch & Hu); [apply poll_recv_view|apply Hin; by left|].
  destruct (chan_op _ _ i w) as [r w1]. simpl in Hr, Hch, Hu. subst r.
  rewrite poll_recv_outcome. unfold recv_outcome.
  destruct (cv_queue (view c)) as [|x q] eqn:Hq.
  - specialize (Hu eq_refl).
    assert (Hin1 : in_store w1 l) by (eapply in_store_changes; [exact Hu|set_solver]).
    destruct (scan_cons_skip w w1 (poll_recv_loop false l
      (if cv_senders (view c) then n else Datatypes.S n) w1).2 i l n _ Hv Hq Hu) as [<- He].
    destruct (IH (if cv_senders (view c) then n else Datatypes.S n) w1 Hin1) as [IH1 IH2].
    destruct (cv_senders (view c)); (split; [exact IH1|exact (He IH2)]).
  - destruct (scan_cons_ready w w1 i l n _ x q Hv Hq Hch) as [-> He]. done.
Qed.

Lemma all_drained w l :
  Nat.eqb (length (filter (drained w) l)) (length l) = bool_decide (Forall (drained w) l).
Proof. apply length_filter_all. Qed.

(** The outcome of receiving on a port, from the store before: no upstream edge,
    the packet of the first ready edge, all upstream edges gone, or nothing
    yet. *)
Definition recv_result w (h : InputPortHandle) :
    Poll (result (option PortPacket) PortRecvError) :=
  if vec_is_empty (receivers h) then Ready (Ok None)
  else match first_ready w (receivers h) with
       | Some (_, x) => Ready (Ok (Some x))
       | None =>
           if bool_decide (Forall (drained w) (receivers h))
           then Ready (Err (PortRecvError.Disconnected (in_port_id h)))
           else Pending
       end.

Lemma input_try_recv_spec h w :
  in_store w (receivers h) →
  (input_try_recv h w).1 = match recv_result w h with Ready r => r | Pending => Ok None end
  ∧ scan_effect w (input_try_recv h w).2 (receivers h).
Proof.
  intros Hin. unfold input_try_recv, recv_result.
  destruct (try_recv_loop_spec (in_port_id h) (receivers h) 0 w Hin) as [Hr He].
  destruct (try_recv_loop _ _ _ _) as [r w']. simpl in Hr, He. subst r. unfold scan.
  destruct (vec_is_empty (receivers h)) eqn:Hl; simpl.
  { by destruct (receivers h). }
  destruct (first_ready w (receivers h)) as [[j x]|]; [done|].
  rewrite ?Nat.add_0_l, all_drained. by case_bool_decide.
Qed.

Lemma input_poll_recv_spec h cancellation w :
  in_store w (receivers h) → CancellationToken.is_cancelled (w_signals w) cancellation = false →
  (input_poll_recv h cancellation false w).1 = recv_result w h
  ∧ scan_effect w (input_poll_recv h cancellation false w).2 (receivers h).
Proof.
  intros Hin Hc. unfold input_poll_recv, recv_result. rewrite Hc.
  destruct (poll_recv_loop_spec (receivers h) 0 w Hin) as [Hr He].
  destruct (poll_recv_loop _ _ _ _) as [r w']. simpl in Hr, He. subst r. unfold scan.
  destruct (vec_is_empty (receivers h)) eqn:Hl.
  { destruct (receivers h); [|done]. split; [done|apply changes_refl]. }
  destruct (first_ready w (receivers h)) as [[j x]|]; [done|].
  rewrite ?Nat.add_0_l, all_drained. by case_bool_decide.
Qed.

Lemma scan_effect_unchanged_l w w1 w2 l :
  unchanged w w1 → scan_effect w1 w2 l → scan_effect w w2 l.
Proof.
  intros Hu. unfold scan_effect. rewrite (first_ready_unchanged w w1) by done.
  destruct (first_ready w l) as [[]|]; apply changes_unchanged_l; done.
Qed.
Lemma scan_effect_unchanged_r w w1 w2 l :
  scan_effect w w1 l → unchanged w1 w2 → scan_effect w w2 l.
Proof.
  unfold scan_effect. destruct (first_ready w l) as [[]|]; intros; by eapply changes_unchanged_r.
Qed.

Lemma recv_result_unchanged w w' h : unchanged w w' → recv_result w' h = recv_result w h.
Proof.
  intros Hu. unfold recv_result. rewrite (first_ready_unchanged w w') by done.
  rewrite (bool_decide_ext (Forall (drained w') (receivers h)) (Forall (drained w) (receivers h)));
    [done|]. apply Forall_iff. intros i. by apply drained_unchanged.
Qed.

Lemma find_input_port p port_id (port : InputPortHandle) :
  find_input p port_id = Some port → in_port_id port = port_id.
Proof. intros [_ H]%iter_find_elem. by apply bool_decide_eq_true in H. Qed.
Lemma find_output_port p port_id port :
  find_output p port_id = Some port → out_port_id port = port_id.
Proof. intros [_ H]%iter_find_elem. by apply bool_decide_eq_true in H. Qed.

Lemma finish_recv_spec p (port : InputPortHandle) r w :
  match r with Err (PortRecvError.Disconnected q) => q = in_port_id port | _ => True end →
  (finish_recv p (in_port_id port) port r w).1 = r
  ∧ unchanged w (finish_recv p (in_port_id port) port r w).2.
Proof.
  intros Hr. unfold finish_recv, record_input_queue_pressure, record_message_boundary.
  destruct r as [[x|]|[q|q|q]]; simpl; (split; [by rewrite ?Hr|]);
    [|apply record_to_unchanged|apply changes_refl|apply record_to_unchanged|apply changes_refl].
  eapply changes_unchanged_r; apply record_to_unchanged.
Qed.

Lemma recv_result_port w h :
  match recv_result w h with
  | Ready (Err (PortRecvError.Disconnected q)) => q = in_port_id h
  | _ => True
  end.
Proof.
  unfold recv_result. destruct (vec_is_empty _); [done|].
  destruct (first_ready _ _) as [[]|]; [done|]. by case_bool_decide.
Qed.

Lemma try_recv_spec p port_id (port : InputPortHandle) w :
  find_input p port_id = Some port → in_store w (receivers port) →
  (try_recv p port_id w).1 = match recv_result w port with Ready r => r | Pending => Ok None end
  ∧ scan_effect w (try_recv p port_id w).2 (receivers port).
Proof.
  intros Hf Hin. unfold try_recv. rewrite Hf. apply find_input_port in Hf as <-.
  set (w0 := record_input_queue_pressure _ _ _ _ w).
  assert (H0 : unchanged w w0) by apply record_to_unchanged.
  destruct (input_try_recv_spec port w0) as [Hr He]; [by eapply in_store_changes|].
  rewrite (recv_result_unchanged w w0) in Hr by done.
  destruct (input_try_recv port w0) as [r w1]. simpl in Hr, He.
  destruct (finish_recv_spec p port r w1) as [-> Hu].
  { subst r. pose proof (recv_result_port w port). by destruct (recv_result w port). }
  split; [done|]. eapply scan_effect_unchanged_r; [|exact Hu].
  by eapply scan_effect_unchanged_l.
Qed.

Lemma poll_recv_spec p port_id (port : InputPortHandle) cancellation w :
  find_input p port_id = Some port → in_store w (receivers port) →
  CancellationToken.is_cancelled (w_signals w) cancellation = false →
  (poll_recv p port_id cancellation false w).1 = recv_result w port
  ∧ scan_effect w (poll_recv p port_id cancellation false w).2 (receivers port).
Proof.
  intros Hf Hin Hc. unfold poll_recv. rewrite Hf. apply find_input_port in Hf as <-.
  destruct (input_poll_recv_spec port cancellation w Hin Hc) as [Hr He].
  destruct (input_poll_recv port cancellation false w) as [r w1]. simpl in Hr, He. subst r.
  pose proof (recv_result_port w port) as Hp.
  destruct (recv_result w port) as [r|]; [|done].
  destruct (finish_recv_spec p port r w1) as [Hr Hu]; [done|].
  destruct (finish_recv _ _ _ _ _) as [r' w2]. simpl in *. subst r'.
  split; [done|]. by eapply scan_effect_unchanged_r.
Qed.

(** *** Receiving on any port *)

(** The first port, in declaration order, with a queued packet. *)
Fixpoint first_ready_port w (ports : list InputPortHandle) :
    option (InputPortHandle * PortPacket) :=
  match ports with
  | [] => None
  | h :: ports =>
      match first_ready w (receivers h) with
      | Some (_, x) => Some (h, x)
      | None => first_ready_port w ports
      end
  end.

Definition port_closed w (h : InputPortHandle) : Prop := Forall (drained w) (receivers h).
#[export] Instance port_closed_dec w h : Decision (port_closed w h) := _.

Lemma poll_any_spec h w :
  in_store w (receivers h) →
  (poll_any h false w).1 =
    match first_ready w (receivers h) with
    | Some (_, x) => PollPacket x
    | None => if bool_decide (port_closed w h) then PollClosed else PollPending
    end
  ∧ scan_effect w (poll_any h false w).2 (receivers h).
Proof.
  intros Hin. unfold poll_any.
  destruct (poll_recv_loop_spec (receivers h) 0 w Hin) as [Hr He].
  destruct (poll_recv_loop _ _ _ _) as [r w']. simpl in Hr, He. subst r. unfold scan.
  destruct (vec_is_empty (receivers h)) eqn:Hl.
  { assert (Hn : receivers h = []) by (by destruct (receivers h)).
    rewrite Hn. split; [|apply changes_refl]. simpl.
    rewrite bool_decide_eq_true_2; [done|]. unfold port_closed. rewrite Hn. constructor. }
  destruct (first_ready w (receivers h)) as [[j x]|]; [done|].
  rewrite ?Nat.add_0_l, all_drained. by repeat case_bool_decide.
Qed.

(** A port without a queued packet is skipped, and counted when closed. *)
Lemma recv_any_loop_skip p h ports n w :
  in_store w (receivers h) → first_ready w (receivers h) = None →
  ∃ w1, unchanged w w1
    ∧ recv_any_loop p false (h :: ports) n w =
      recv_any_loop p false ports (if bool_decide (port_closed w h) then Datatypes.S n else n) w1.
Proof.
  intros Hin Hf. destruct (poll_any_spec h w Hin) as [Hr He]. unfold scan_effect in He.
  rewrite Hf in Hr, He. simpl. destruct (poll_any h false w) as [r w1]. simpl in Hr, He. subst r.
  case_bool_decide; [|by exists w1].
  eexists. split; [|done]. by eapply changes_unchanged_r; [|apply record_to_unchanged].
Qed.

Lemma recv_any_loop_spec p ports n w :
  (∀ h, h ∈ ports → in_store w (receivers h)) →
  match first_ready_port w ports with
  | Some (h, x) =>
      (recv_any_loop p false ports n w).1 = inl (Ok (in_port_id h, x))
      ∧ scan_effect w (recv_any_loop p false ports n w).2 (receivers h)
  | None =>
      (recv_any_loop p false ports n w).1 = inr (n + length (filter (port_closed w) ports))
      ∧ unchanged w (recv_any_loop p false ports n w).2
  end.
Proof.
  revert n w. induction ports as [|h ports IH]; intros n w Hin; cbn [first_ready_port].
  { rewrite Nat.add_0_r. split; [done|apply changes_refl]. }
  assert (Hh : in_store w (receivers h)) by (apply Hin; by left).
  destruct (first_ready w (receivers h)) as [[i x]|] eqn:Hf.
  { destruct (poll_any_spec h w Hh) as [Hr He]. rewrite Hf in Hr. simpl.
    destruct (poll_any h false w) as [r w1]. simpl in Hr, He. subst r. split; [done|].
    eapply scan_effect_unchanged_r; [exact He|].
    eapply changes_unchanged_r; apply record_to_unchanged. }
  destruct (recv_any_loop_skip p h ports n w Hh Hf) as (w1 & Hu & ->).
  assert (Hsel : first_ready_port w1 ports = first_ready_port w ports).
  { clear -Hu. induction ports as [|h' ps IHp]; simpl; [done|].
    by rewrite (first_ready_unchanged w w1), IHp. }
  specialize (IH (if bool_decide (port_closed w h) then Datatypes.S n else n) w1).
  rewrite Hsel in IH. destruct (first_ready_port w ports) as [[h' x]|].
  - destruct IH as [-> He]; [|split; [done|by eapply scan_effect_unchanged_l]].
    intros h'' Hh''. eapply in_store_changes; [exact Hu|]. apply Hin. by right.
  - destruct IH as [-> He]; [|split; [|by eapply changes_unchanged_l]].
    { intros h'' Hh''. eapply in_store_changes; [exact Hu|]. apply Hin. by right. }
    f_equal. rewrite filter_cons.
    assert (filter (port_closed w1) ports = filter (port_closed w) ports) as ->.
    { apply list_filter_iff. intros h'. apply Forall_iff. intros i. by apply drained_unchanged. }
    case_bool_decide; [rewrite decide_True by done|rewrite decide_False by done]; simpl; lia.
Qed.
End spec.
