(* ===== verification/Traffic.v ===== *)
(** The properties of the port layer: sending is all or nothing, receiving takes
    the first ready edge, and any interleaving of port operations keeps every
    channel within its capacity, leaks no reservation, and delivers each
    channel's packets in order, without loss or duplication. *)

From Stdlib Require Import Lia.
From stdpp Require Import relations.
From S2P Require Import Prelude RustStr BTree Types Workflow Errors Json Context Message Metadata MetadataSink Channel Ports PortsSpec.

Notation unchanged := (changes (λ v, v) []).

Section operations.
Context `{J : JsonNumber} {S : Type} `{!MetadataSink S} `{M : !Mpsc PortPacket}.
Implicit Types w : world (S := S).

(** C20. [try_send] through a declared port is all or nothing.  It fails with the
    error of the first downstream channel that refuses (disconnected or full),
    or with the validator's rejection, and then every channel is as before: no
    partial fan-out, no reservation kept.  Otherwise it succeeds and every
    channel of the port, and no other, has the packet appended. *)
Theorem try_send_all_or_nothing (p : PortsOut) (port_id : PortId) (port : OutputPortHandle)
  (packet : PortPacket) (w : world (S := S))
  (Hfind : find_output p port_id = Some port) (Hnd : NoDup (senders port))
  (Hin : in_store w (senders port)) :
  (try_send p port_id packet w).1 = send_outcome w port (out_validator p) packet
  ∧ send_effect w (try_send p port_id packet w).2 port (try_send p port_id packet w).1 packet.
Proof.
  unfold try_send, try_reserve. rewrite Hfind.
  pose proof (reserve_then_send port (out_sink p) (out_validator p) (out_context p) packet w
    Hnd Hin) as H.
  destruct (output_try_reserve _ _ _ _ w) as [[permit|e] w1]; simpl.
  - by destruct H as [_ ?].
  - destruct H as (-> & ? & _). done.
Qed.

(** What one poll of the async [send] does. *)
Lemma poll_send_effect (p : PortsOut) (port_id : PortId) (port : OutputPortHandle)
  (packet : PortPacket) (cancellation : CancellationToken) (w : world (S := S))
  (Hfind : find_output p port_id = Some port) (Hnd : NoDup (senders port))
  (Hin : in_store w (senders port)) :
  let (r, w') := poll_send p port_id packet cancellation w in
  if CancellationToken.is_cancelled (w_signals w) cancellation then
    r = Ready (Err (PortSendError.Cancelled port_id)) ∧ unchanged w w'
  else if decide (first_refusal w (senders port) = Some SendError.Full) then
    r = Pending ∧ unchanged w w'
  else
    r = Ready (send_outcome w port (out_validator p) packet)
    ∧ send_effect w w' port (send_outcome w port (out_validator p) packet) packet.
Proof.
  unfold poll_send, poll_reserve, output_poll_reserve. rewrite Hfind.
  pose proof (find_output_port p port_id port Hfind) as Hid.
  destruct (CancellationToken.is_cancelled _ _).
  { rewrite Hid. split; [done|apply changes_refl]. }
  pose proof (reserve_then_send port (out_sink p) (out_validator p) (out_context p) packet w
    Hnd Hin) as H.
  destruct (output_try_reserve _ _ _ _ w) as [[permit|e] w1]; simpl in H.
  - destruct H as (Hf & Hr & He). destruct (send permit packet w1) as [r w2]. simpl in *.
    rewrite decide_False by congruence. by subst r.
  - destruct H as (Ho & He & refusal & Hf & ->).
    rewrite Hf, Ho. destruct refusal; simpl in *; by rewrite ?decide_False, ?decide_True.
Qed.

(** One poll of the async [send]: a requested cancellation wins over
    everything and sends nothing, even when there is room; a full channel leaves
    the store as it was and the send pending; otherwise the poll completes with
    the outcome and the effect of [try_send]. *)
Theorem poll_send_spec (p : PortsOut) (port_id : PortId) (port : OutputPortHandle)
  (packet : PortPacket) (cancellation : CancellationToken) (w : world (S := S))
  (Hfind : find_output p port_id = Some port) (Hnd : NoDup (senders port))
  (Hin : in_store w (senders port)) :
  let (r, w') := poll_send p port_id packet cancellation w in
  if CancellationToken.is_cancelled (w_signals w) cancellation then
    r = Ready (Err (PortSendError.Cancelled port_id)) ∧ unchanged w w'
  else if decide (first_refusal w (senders port) = Some SendError.Full) then
    r = Pending ∧ unchanged w w'
  else
    r = Ready (send_outcome w port (out_validator p) packet)
    ∧ send_effect w w' port (send_outcome w port (out_validator p) packet) packet.
Proof. by apply poll_send_effect. Qed.

(** C25. Receiving on a declared port.  The outcome depends only on the port's
    upstream channels: the oldest packet of the first channel that has one,
    which is the only channel that changes; [Disconnected] when every channel is
    drained and its senders are gone; nothing yet otherwise, which [try_recv]
    reports as [None] and [recv] as pending.  A requested cancellation makes
    [recv] fail without taking a packet. *)
Theorem receive_takes_first_ready (p : PortsIn) (port_id : PortId) (port : InputPortHandle)
  (cancellation : CancellationToken) (w : world (S := S))
  (Hfind : find_input p port_id = Some port) (Hin : in_store w (receivers port)) :
  ((try_recv p port_id w).1
     = match recv_result w port with Ready r => r | Pending => Ok None end
   ∧ scan_effect w (try_recv p port_id w).2 (receivers port))
  ∧ (if CancellationToken.is_cancelled (w_signals w) cancellation then
       receivers port ≠ [] →
       (poll_recv p port_id cancellation false w).1
       = Ready (Err (PortRecvError.Cancelled port_id))
       ∧ unchanged w (poll_recv p port_id cancellation false w).2
     else
       (poll_recv p port_id cancellation false w).1 = recv_result w port
       ∧ scan_effect w (poll_recv p port_id cancellation false w).2 (receivers port)).
Proof.
  split; [by apply try_recv_spec|].
  destruct (CancellationToken.is_cancelled _ _) eqn:Hc; [|by apply poll_recv_spec].
  intros Hne. unfold poll_recv, input_poll_recv. rewrite Hfind, Hc.
  apply find_input_port in Hfind. subst port_id.
  destruct (receivers port) as [|i l]; [done|]. simpl. split; [done|apply changes_refl].
Qed.

Lemma poll_recv_any_spec (p : PortsIn) (cancellation : CancellationToken) w :
  in_ports p ≠ [] → (∀ h, h ∈ in_ports p → in_store w (receivers h)) →
  CancellationToken.is_cancelled (w_signals w) cancellation = false →
  let (r, w') := poll_recv_any p cancellation false w in
  match first_ready_port w (in_ports p) with
  | Some (h, x) => r = Ready (Ok (Some (in_port_id h, x))) ∧ scan_effect w w' (receivers h)
  | None => unchanged w w'
      ∧ r = (if bool_decide (Forall (port_closed w) (in_ports p)) then Ready (Ok None)
             else Pending)
  end.
Proof.
  intros Hports Hin Hactive. unfold poll_recv_any.
  destruct (in_ports p) as [|h0 ports] eqn:Hp; [done|]. rewrite <- Hp in *.
  rewrite Hactive. pose proof (recv_any_loop_spec p (in_ports p) 0 w Hin) as H.
  destruct (recv_any_loop p false (in_ports p) 0 w) as [r w1]. simpl in H.
  destruct (first_ready_port w (in_ports p)) as [[h x]|]; destruct H as [-> H]; [done|].
  rewrite length_filter_all. by case_bool_decide.
Qed.

(** Receiving on any port: unless cancelled, a poll takes a packet from the
    first port, in declaration order, that has one; it ends the stream exactly
    when every port is closed; and it waits otherwise, taking nothing. *)
Theorem recv_any_takes_first_ready_port (p : PortsIn) (cancellation : CancellationToken)
  (w : world (S := S)) (Hports : in_ports p ≠ [])
  (Hin : ∀ h, h ∈ in_ports p → in_store w (receivers h))
  (Hactive : CancellationToken.is_cancelled (w_signals w) cancellation = false) :
  let (r, w') := poll_recv_any p cancellation false w in
  match first_ready_port w (in_ports p) with
  | Some (h, x) => r = Ready (Ok (Some (in_port_id h, x))) ∧ scan_effect w w' (receivers h)
  | None => unchanged w w'
      ∧ r = (if bool_decide (Forall (port_closed w) (in_ports p)) then Ready (Ok None)
             else Pending)
  end.
Proof. by apply poll_recv_any_spec. Qed.
End operations.

(** ** Traffic *)

Section traffic.
Context `{J : JsonNumber} {S : Type} `{!MetadataSink S} `{M : !Mpsc PortPacket}.

(** A run of the port layer: the world, the permits not yet committed or
    aborted, the packets committed to each channel, and the packets that the receives
    have returned from it, so far. *)
Record traffic : Type := mk_traffic {
  t_world : world (S := S);
  t_permits : list OutputPortSendPermit;
  t_sent : nat → list PortPacket;
  t_received : nat → list PortPacket;
}.

Definition log_on (l : list nat) (x : PortPacket) (log : nat → list PortPacket) :
    nat → list PortPacket :=
  λ j, if decide (j ∈ l) then log j ++ [x] else log j.

(** The channel that a packet returned by a receive over the channels [l] is attributed
    to: the first with a packet queued, and the first of them if none has one. *)
Definition credit (w : world (S := S)) (l : list nat) : nat :=
  match first_ready w l with Some (i, _) => i | None => default 0 (head l) end.

(** The packets delivered so far, with the one that a receive over the channels [l]
    returned, if it returned one. *)
Definition log_returned {E : Type} (w : world (S := S)) (l : list nat)
    (returned : result (option PortPacket) E) (log : nat → list PortPacket) :
    nat → list PortPacket :=
  match returned with Ok (Some x) => log_on [credit w l] x log | _ => log end.

Definition log_polled {E : Type} (w : world (S := S)) (l : list nat)
    (polled : Poll (result (option PortPacket) E)) (log : nat → list PortPacket) :
    nat → list PortPacket :=
  match polled with Ready r => log_returned w l r log | Pending => log end.

(** The same for a receive on any of the ports, which names the port: the packet is
    attributed to the channels of that port. *)
Definition log_any {E : Type} (w : world (S := S)) (ports : list InputPortHandle)
    (polled : Poll (result (option (PortId * PortPacket)) E)) (log : nat → list PortPacket) :
    nat → list PortPacket :=
  match polled with
  | Ready (Ok (Some (port_id, x))) =>
      log_on [credit w (filter (λ h, in_port_id h = port_id) ports ≫= receivers)] x log
  | _ => log
  end.

Definition port_ok (w : world (S := S)) (port : OutputPortHandle) : Prop :=
  NoDup (senders port) ∧ in_store w (senders port).

(** The steps: every operation of the port layer that touches channels, and the
    loss of the last sender or of the receiver of a channel. *)
Inductive port_step : traffic → traffic → Prop :=
| step_reserve p port_id port r w w' P s t :
    find_output p port_id = Some port → port_ok w port →
    try_reserve p port_id w = (r, w') →
    port_step (mk_traffic w P s t)
      (mk_traffic w' (match r with Ok permit => permit :: P | Err _ => P end) s t)
| step_commit permit packet r w w' P1 P2 s t :
    send permit packet w = (r, w') →
    port_step (mk_traffic w (P1 ++ permit :: P2) s t)
      (mk_traffic w' (P1 ++ P2)
         (match r with Ok _ => log_on (permits permit) packet s | Err _ => s end) t)
| step_abort permit w P1 P2 s t :
    port_step (mk_traffic w (P1 ++ permit :: P2) s t)
      (mk_traffic (abort permit w) (P1 ++ P2) s t)
| step_try_recv p port_id port w P s t :
    find_input p port_id = Some port → in_store w (receivers port) →
    port_step (mk_traffic w P s t)
      (mk_traffic (try_recv p port_id w).2 P s
         (log_returned w (receivers port) (try_recv p port_id w).1 t))
| step_poll_recv p port_id port cancellation w P s t :
    find_input p port_id = Some port → in_store w (receivers port) →
    CancellationToken.is_cancelled (w_signals w) cancellation = false →
    port_step (mk_traffic w P s t)
      (mk_traffic (poll_recv p port_id cancellation false w).2 P s
         (log_polled w (receivers port) (poll_recv p port_id cancellation false w).1 t))
| step_recv_any p cancellation w P s t :
    in_ports p ≠ [] → (∀ h, h ∈ in_ports p → in_store w (receivers h)) →
    CancellationToken.is_cancelled (w_signals w) cancellation = false →
    port_step (mk_traffic w P s t)
      (mk_traffic (poll_recv_any p cancellation false w).2 P s
         (log_any w (in_ports p) (poll_recv_any p cancellation false w).1 t))
| step_disconnect f i w w' P s t :
    (∀ v, cv_queue (f v) = cv_queue v ∧ cv_reserved (f v) = cv_reserved v
          ∧ cv_capacity (f v) = cv_capacity v) →
    changes f [i] w w' →
    port_step (mk_traffic w P s t) (mk_traffic w' P s t).

(** What holds of every channel: it is within capacity, its reserved slots are
    those of the outstanding permits, and what was taken followed by what is
    queued is what was committed. *)
Definition channel_inv (P : list OutputPortSendPermit) (s t : nat → list PortPacket) (j : nat)
    (v : chan_view PortPacket) : Prop :=
  view_wf v
  ∧ cv_reserved v = length (filter (λ p, j ∈ permits p) P)
  ∧ t j ++ cv_queue v = s j.

Definition traffic_inv (T : traffic) : Prop :=
  (∀ j v, chan_at (t_world T) j = Some v → channel_inv (t_permits T) (t_sent T) (t_received T) j v)
  ∧ ∀ p, p ∈ t_permits T → NoDup (permits p) ∧ in_store (t_world T) (permits p).

(** A run starts with freshly created channels and no traffic. *)
Definition traffic_start (T : traffic) : Prop :=
  t_permits T = []
  ∧ ∀ j, t_sent T j = [] ∧ t_received T j = []
      ∧ ∀ v, chan_at (t_world T) j = Some v →
          ∃ n, v = mk_view [] 0 (Pos.to_nat n) true true.

(** *** Preservation *)

Lemma changes_at f l (w w' : world (S := S)) j v' :
  changes f l w w' → chan_at w' j = Some v' →
  ∃ v, chan_at w j = Some v ∧ v' = (if decide (j ∈ l) then f v else v).
Proof.
  intros [_ H]. rewrite H, fmap_Some. intros (v & Hv & ->). exists v. by case_decide.
Qed.

Lemma traffic_inv_changes f l w w' P P' s s' t t' :
  traffic_inv (mk_traffic w P s t) → changes f l w w' →
  (∀ p, p ∈ P' → NoDup (permits p) ∧ in_store w (permits p)) →
  (∀ j v, chan_at w j = Some v → channel_inv P s t j v →
     channel_inv P' s' t' j (if decide (j ∈ l) then f v else v)) →
  traffic_inv (mk_traffic w' P' s' t').
Proof.
  intros [Hinv _] Hch HP Hpres. split; simpl.
  - intros j v' Hv'. destruct (changes_at _ _ _ _ _ _ Hch Hv') as (v & Hv & ->).
    apply Hpres; [done|]. by apply Hinv.
  - intros p Hp. destruct (HP p Hp) as [Hnd Hin]. split; [done|].
    by eapply in_store_changes.
Qed.

Lemma traffic_inv_unchanged w w' P s t :
  traffic_inv (mk_traffic w P s t) → unchanged w w' → traffic_inv (mk_traffic w' P s t).
Proof.
  intros HT Hu. eapply traffic_inv_changes; [exact HT|exact Hu|apply HT|].
  intros j v Hv Hc. by rewrite decide_False by set_solver.
Qed.

Lemma first_refusal_none (w : world (S := S)) l i v :
  first_refusal w l = None → i ∈ l → chan_at w i = Some v → reserve_outcome v = Ok tt.
Proof.
  induction l as [|j l IH]; simpl; [set_solver|].
  destruct (chan_at w j) as [u|] eqn:Hu; [|done].
  destruct (reserve_outcome u) as [[]|] eqn:Ho; [|done].
  intros Hf [->|Hi]%elem_of_cons Hv; [congruence|auto].
Qed.

Lemma first_ready_some (w : world (S := S)) l i x :
  first_ready w l = Some (i, x) → ∃ v q, chan_at w i = Some v ∧ cv_queue v = x :: q.
Proof.
  induction l as [|j l IH]; simpl; [done|].
  destruct (chan_at w j) as [u|] eqn:Hu; [|done].
  destruct (cv_queue u) as [|y q] eqn:Hq; [done|]. intros [= <- <-]. eauto.
Qed.

(** Removing one permit from the outstanding ones. *)
Lemma permit_count_remove P1 permit P2 j :
  length (filter (λ p, j ∈ permits p) (P1 ++ permit :: P2)) =
  (if decide (j ∈ permits permit) then 1 else 0)
  + length (filter (λ p, j ∈ permits p) (P1 ++ P2)).
Proof.
  rewrite !filter_app, filter_cons, !length_app. case_decide; simpl; lia.
Qed.

Lemma inv_reserve p port_id port r w w' P s t :
  traffic_inv (mk_traffic w P s t) →
  find_output p port_id = Some port → port_ok w port → try_reserve p port_id w = (r, w') →
  traffic_inv (mk_traffic w' (match r with Ok permit => permit :: P | Err _ => P end) s t).
Proof.
  intros HT Hf [Hnd Hin] Hr. unfold try_reserve in Hr. rewrite Hf in Hr.
  pose proof (output_try_reserve_spec port (out_sink p) (out_validator p) (out_context p) w
    Hnd Hin) as H. rewrite Hr in H.
  destruct (first_refusal w (senders port)) as [e|] eqn:He.
  { destruct H as (w1 & [= -> ->] & Hu). by eapply traffic_inv_unchanged. }
  destruct H as (cap & w1 & [= -> ->] & Hch).
  eapply traffic_inv_changes; [exact HT|exact Hch| |].
  - intros q [->|Hq]%elem_of_cons; [done|]. by apply HT.
  - intros j v Hv (Hwf & Hres & Hq). unfold channel_inv. rewrite filter_cons. simpl permits.
    case_decide as Hj; [|done]. simpl. split_and!; [|by rewrite Hres|done].
    apply view_wf_reserve. by eapply first_refusal_none.
Qed.

Lemma inv_release permit w w' P1 P2 s t :
  traffic_inv (mk_traffic w (P1 ++ permit :: P2) s t) →
  changes release_one (permits permit) w w' → traffic_inv (mk_traffic w' (P1 ++ P2) s t).
Proof.
  intros HT Hch. eapply traffic_inv_changes; [exact HT|exact Hch| |].
  - intros q Hq. apply HT. simpl. set_solver.
  - intros j v Hv (Hwf & Hres & Hq). rewrite permit_count_remove in Hres.
    unfold channel_inv. case_decide as Hj; simpl in *; [|done].
    split_and!; [by apply view_wf_abort|lia|done].
Qed.

Lemma inv_commit permit packet r w w' P1 P2 s t :
  traffic_inv (mk_traffic w (P1 ++ permit :: P2) s t) → send permit packet w = (r, w') →
  traffic_inv (mk_traffic w' (P1 ++ P2)
    (match r with Ok _ => log_on (permits permit) packet s | Err _ => s end) t).
Proof.
  intros HT Hs. assert (NoDup (permits permit) ∧ in_store w (permits permit)) as [Hnd Hin].
  { apply HT. simpl. set_solver. }
  pose proof (send_spec permit packet w Hnd Hin) as H. rewrite Hs in H. simpl in H.
  destruct (validate_output _ _ _) as [?|e]; destruct H as [-> Hch]; [|by eapply inv_release].
  eapply traffic_inv_changes; [exact HT|exact Hch| |].
  - intros q Hq. apply HT. simpl. set_solver.
  - intros j v Hv (Hwf & Hres & Hq). rewrite permit_count_remove in Hres.
    unfold channel_inv, log_on. case_decide as Hj; simpl in *; [|done].
    split_and!; [apply view_wf_send; [done|lia]|lia|by rewrite app_assoc, Hq].
Qed.

Lemma first_ready_app (w : world (S := S)) l1 l2 :
  first_ready w (l1 ++ l2) = match first_ready w l1 with Some r => Some r | None => first_ready w l2 end.
Proof.
  induction l1 as [|j l1 IH]; simpl; [done|].
  destruct (chan_at w j) as [u|]; [|done]. by destruct (cv_queue u).
Qed.

(** The channel that a receive on any port takes its packet from is the first ready one
    of the port it names. *)
Lemma first_ready_port_some (w : world (S := S)) ports h x :
  first_ready_port w ports = Some (h, x) →
  ∃ i, first_ready w (receivers h) = Some (i, x)
    ∧ first_ready w (filter (λ h', in_port_id h' = in_port_id h) ports ≫= receivers) = Some (i, x).
Proof.
  induction ports as [|h0 ports IH]; simpl; [done|]. rewrite filter_cons.
  destruct (first_ready w (receivers h0)) as [[i y]|] eqn:Hf.
  - intros [= <- <-]. rewrite decide_True by done. exists i. split; [done|].
    cbn. by rewrite first_ready_app, Hf.
  - intros (i & Hi & IHf)%IH. exists i. split; [done|].
    case_decide; [|done]. cbn. by rewrite first_ready_app, Hf.
Qed.

(** Taking the oldest packet of a channel and returning it. *)
Lemma inv_take w w' i x l P s t :
  traffic_inv (mk_traffic w P s t) → first_ready w l = Some (i, x) → changes after_recv [i] w w' →
  traffic_inv (mk_traffic w' P s (log_on [i] x t)).
Proof.
  intros HT Hf He. apply first_ready_some in Hf as (vi & q & Hvi & Hqi).
  eapply traffic_inv_changes; [exact HT|exact He|apply HT|].
  intros j v Hv (Hwf & Hres & Hq). unfold channel_inv, log_on.
  case_decide as Hj; [|done]. apply list_elem_of_singleton in Hj as ->.
  assert (v = vi) as -> by congruence.
  split_and!; [by apply view_wf_recv|unfold after_recv; by rewrite Hqi|].
  unfold after_recv. rewrite Hqi in Hq |- *. simpl. by rewrite <- app_assoc.
Qed.

(** A receive on a port that returns what [recv_result] says. *)
Lemma inv_receive w w' (port : InputPortHandle) P s t :
  traffic_inv (mk_traffic w P s t) → scan_effect w w' (receivers port) →
  traffic_inv (mk_traffic w' P s (log_polled w (receivers port) (recv_result w port) t)).
Proof.
  intros HT. unfold scan_effect, recv_result, log_polled, log_returned, credit.
  destruct (receivers port) as [|i0 l0]; simpl vec_is_empty; cbv iota.
  { simpl. by eapply traffic_inv_unchanged. }
  destruct (first_ready w (i0 :: l0)) as [[i x]|] eqn:Hf; [by eapply inv_take|].
  case_bool_decide; by eapply traffic_inv_unchanged.
Qed.

Lemma port_step_inv T T' : port_step T T' → traffic_inv T → traffic_inv T'.
Proof.
  destruct 1 as [p port_id port r w w' P s t Hf Hok Hr|permit packet r w w' P1 P2 s t Hs
    |permit w P1 P2 s t|p port_id port w P s t Hf Hin|p port_id port tok w P s t Hf Hin Hc
    |p tok w P s t Hne Hin Hc|f i w w' P s t Hpres Hch]; intros HT.
  - by eapply inv_reserve.
  - by eapply inv_commit.
  - assert (NoDup (permits permit) ∧ in_store w (permits permit)) as [Hnd Hin].
    { apply HT. simpl. set_solver. }
    eapply inv_release; [exact HT|]. by apply release_permits_changes.
  - destruct (try_recv_spec p port_id port w Hf Hin) as [-> He].
    pose proof (inv_receive _ _ _ _ _ _ HT He) as H. by destruct (recv_result w port).
  - destruct (poll_recv_spec p port_id port tok w Hf Hin Hc) as [-> He]. by apply inv_receive.
  - pose proof (poll_recv_any_spec p tok w Hne Hin Hc) as H.
    destruct (poll_recv_any p tok false w) as [r w']. simpl.
    destruct (first_ready_port w (in_ports p)) as [[h x]|] eqn:Hf.
    + destruct H as [-> He]. apply first_ready_port_some in Hf as (i & Hi & Hcredit).
      unfold scan_effect in He. rewrite Hi in He. unfold log_any, credit. rewrite Hcredit.
      by eapply inv_take.
    + destruct H as [Hu ->]. case_bool_decide; by eapply traffic_inv_unchanged.
  - eapply traffic_inv_changes; [exact HT|exact Hch|apply HT|].
    intros j v Hv (Hwf & Hres & Hq). destruct (Hpres v) as (E1 & E2 & E3).
    unfold channel_inv, view_wf in *. case_decide; [|done]. by rewrite E1, E2, E3.
Qed.

Lemma traffic_start_inv T : traffic_start T → traffic_inv T.
Proof.
  intros [HP Hs]. split.
  - intros j v Hv. destruct (Hs j) as (Hsent & Hrecv & Hfresh).
    destruct (Hfresh v Hv) as [n ->]. unfold channel_inv, view_wf. simpl.
    rewrite HP, Hsent, Hrecv. simpl. split_and!; [lia|done|done].
  - rewrite HP. set_solver.
Qed.

(** C2. Along every interleaving of reservations, commits, aborts, receives and
    disconnections that starts from fresh channels: no channel holds more than
    its capacity, reservations included; its reserved slots are exactly those of
    the permits still outstanding; and the packets that the receives have
    returned from it so far, followed by those still queued, are exactly the packets
    committed to it, in that order: what a receive returns is what it takes. *)
Theorem traffic_invariant (T0 T : traffic) (Hstart : traffic_start T0)
  (Hrun : rtc port_step T0 T) (j : nat) (v : chan_view PortPacket)
  (Hv : chan_at (t_world T) j = Some v) :
  length (cv_queue v) + cv_reserved v ≤ cv_capacity v
  ∧ cv_reserved v = length (filter (λ p, j ∈ permits p) (t_permits T))
  ∧ t_received T j ++ cv_queue v = t_sent T j.
Proof.
  assert (HT : traffic_inv T).
  { apply traffic_start_inv in Hstart. clear -Hstart Hrun.
    induction Hrun; eauto using port_step_inv. }
  by apply HT.
Qed.
End traffic.

(** ** Assembling ports *)

Section assembly.
Context {H : Type} (port_of : H → PortId) (chans : H → list nat) (append : H → H → H)
  (disconnected : PortId → H).
Hypothesis append_port : ∀ a b, port_of (append a b) = port_of a.
Hypothesis append_chans : ∀ a b, chans (append a b) = chans a ++ chans b.
Hypothesis disconnected_port : ∀ p, port_of (disconnected p) = p.
Hypothesis disconnected_chans : ∀ p, chans (disconnected p) = [].

(** The channels of the handles given for a port, in the order given. *)
Definition channels_for (handles : list H) (p : PortId) : list nat :=
  concat (chans <$> filter (λ h, port_of h = p) handles).

Lemma merge_handles_spec handles p :
  match BTreeMap.get p (foldl (merge_handle port_of append) [] handles) with
  | Some h => port_of h = p ∧ chans h = channels_for handles p
  | None => channels_for handles p = []
  end.
Proof.
  unfold channels_for. induction handles as [|h hs IH] using rev_ind; [done|].
  rewrite foldl_app, filter_app, fmap_app, concat_app. simpl.
  set (m := foldl _ [] hs) in *. unfold merge_handle. rewrite filter_cons, filter_nil.
  destruct (decide (port_of h = p)) as [Hp|Hp].
  - rewrite Hp. destruct (BTreeMap.get p m) as [h0|]; rewrite BTreeMap.get_insert_eq; simpl.
    + destruct IH as [Hp0 Hc]. by rewrite append_port, append_chans, Hc, app_nil_r.
    + rewrite IH, app_nil_r. done.
  - simpl. rewrite app_nil_r.
    destruct (BTreeMap.get (port_of h) m); by rewrite BTreeMap.get_insert_ne by congruence.
Qed.

Lemma take_handles_map ids m :
  NoDup ids →
  take_handles disconnected ids m =
  (λ p, default (disconnected p) (BTreeMap.get p m)) <$> ids.
Proof.
  revert m. induction ids as [|p ids IH]; intros m Hnd; simpl; [done|].
  apply NoDup_cons in Hnd as [Hp Hnd]. f_equal. rewrite IH by done.
  apply list_fmap_ext. intros i q Hq%list_elem_of_lookup_2. f_equal.
  rewrite BTreeMap.get_remove, decide_False; [done|]. by intros ->.
Qed.

Lemma assembled_handle ids handles p :
  NoDup ids → p ∈ ids →
  ∃ h, iter_find (λ h, bool_decide (port_of h = p))
         (take_handles disconnected ids (foldl (merge_handle port_of append) [] handles)) = Some h
    ∧ port_of h = p ∧ chans h = channels_for handles p.
Proof.
  intros Hnd Hp. rewrite take_handles_map by done.
  set (pick := λ q, default (disconnected q) _).
  assert (Hpick : ∀ q, port_of (pick q) = q ∧ chans (pick q) = channels_for handles q).
  { intros q. pose proof (merge_handles_spec handles q) as Hm. unfold pick.
    destruct (BTreeMap.get q _); simpl; [done|]. rewrite Hm. auto. }
  exists (pick p). split; [|apply Hpick].
  clear Hnd. induction ids as [|q ids IH]; [set_solver|]. simpl.
  case_bool_decide as Hq; [by rewrite (proj1 (Hpick q)) in Hq; subst|].
  apply IH. rewrite (proj1 (Hpick q)) in Hq. set_solver.
Qed.

(** Every assembled handle is the one found for its port. *)
Lemma assembled_elem ids handles h :
  NoDup ids →
  h ∈ take_handles disconnected ids (foldl (merge_handle port_of append) [] handles) →
  port_of h ∈ ids
  ∧ iter_find (λ h', bool_decide (port_of h' = port_of h))
      (take_handles disconnected ids (foldl (merge_handle port_of append) [] handles)) = Some h.
Proof.
  intros Hnd Hh. pose proof Hh as Hh'. rewrite take_handles_map in Hh' by done.
  apply list_elem_of_fmap in Hh' as (q & -> & Hq).
  set (m := foldl _ _ _) in *. set (pick := λ p, default (disconnected p) (BTreeMap.get p m)).
  assert (Hpick : ∀ q, port_of (pick q) = q).
  { intros p. pose proof (merge_handles_spec handles p) as Hm. fold m in Hm. unfold pick.
    destruct (BTreeMap.get p m); simpl; [by destruct Hm|done]. }
  change (port_of (pick q) ∈ ids ∧ iter_find (λ h', bool_decide (port_of h' = port_of (pick q)))
    (take_handles disconnected ids m) = Some (pick q)). rewrite Hpick. split; [done|].
  destruct (assembled_handle ids handles q Hnd Hq) as (h & Hf & Hp & _). fold m in Hf. rewrite Hf.
  apply iter_find_elem in Hf as [Hin _]. rewrite take_handles_map in Hin by done.
  apply list_elem_of_fmap in Hin as (q' & -> & _).
  change (port_of (pick q') = q) in Hp. rewrite Hpick in Hp. by subst.
Qed.

(** The channels of all the ports together. *)
Lemma assembled_channels ids handles j :
  NoDup ids →
  j ∈ (take_handles disconnected ids (foldl (merge_handle port_of append) [] handles) ≫= chans)
  ↔ ∃ p, p ∈ ids ∧ j ∈ channels_for handles p.
Proof.
  intros Hnd. rewrite take_handles_map by done. rewrite list_elem_of_bind.
  setoid_rewrite list_elem_of_fmap.
  assert (Hpick : ∀ q, chans (default (disconnected q)
    (BTreeMap.get q (foldl (merge_handle port_of append) [] handles))) = channels_for handles q).
  { intros q. pose proof (merge_handles_spec handles q) as Hm.
    destruct (BTreeMap.get q _); simpl; [by destruct Hm|]. by rewrite Hm. }
  split.
  - intros (h & Hj & p & -> & Hp). rewrite Hpick in Hj. eauto.
  - intros (p & Hp & Hj). eexists. split; [|by exists p]. by rewrite Hpick.
Qed.
End assembly.

(** [from_handles] gives each declared port, and only those, the channels of
    all handles supplied for it, in the order supplied; a declared port without
    handles is unconnected. *)
Theorem from_handles_wires (ids : list PortId) (ins : list InputPortHandle)
  (outs : list OutputPortHandle) `{J : JsonNumber} (Hnd : NoDup ids) :
  (∀ p, p ∈ ids →
     (∃ h, find_input (ports_in_from_handles ids ins) p = Some h
        ∧ receivers h = concat (receivers <$> filter (λ h, in_port_id h = p) ins))
     ∧ ∃ h, find_output (ports_out_from_handles ids outs) p = Some h
        ∧ senders h = concat (senders <$> filter (λ h, out_port_id h = p) outs))
  ∧ (in_port_id <$> in_ports (ports_in_from_handles ids ins)) = ids
  ∧ (out_port_id <$> out_ports (ports_out_from_handles ids outs)) = ids.
Proof.
  split_and!.
  - intros p Hp. split.
    + destruct (assembled_handle in_port_id receivers input_append input_disconnected) with
        (ids := ids) (handles := ins) (p := p) as (h & ? & _ & ?); try done. by exists h.
    + destruct (assembled_handle out_port_id senders output_append output_disconnected) with
        (ids := ids) (handles := outs) (p := p) as (h & ? & _ & ?); try done. by exists h.
  - simpl. rewrite take_handles_map, <- list_fmap_compose by done.
    rewrite <- (list_fmap_id ids) at 2. apply list_fmap_ext. intros i p _. simpl.
    pose proof (merge_handles_spec in_port_id receivers input_append ltac:(done) ltac:(done) ins p).
    by destruct (BTreeMap.get p _) as [h|]; simpl; [destruct H|].
  - simpl. rewrite take_handles_map, <- list_fmap_compose by done.
    rewrite <- (list_fmap_id ids) at 2. apply list_fmap_ext. intros i p _. simpl.
    pose proof (merge_handles_spec out_port_id senders output_append ltac:(done) ltac:(done) outs p).
    by destruct (BTreeMap.get p _) as [h|]; simpl; [destruct H|].
Qed.

(** ** Examples *)

Section examples.
Let packet : PortPacket :=
  MessageEnvelope.new
    (MessageMetadata.new (ident "m1") (ident "flow")
       (ExecutionMetadata.first_attempt (ident "run-1"))
       (MessageRoute.new None (MessageEndpoint.new (ident "sink") (ident "in"))))
    (PacketPayload.Control Value.Null).
Let out : PortId := ident "out".
Let inp : PortId := ident "in".
(** A fan-out to two channels of capacity one. *)
Let edges : list (chan_view PortPacket) := [chan_new 1; chan_new 1].
Let full : chan_view PortPacket := mk_view [packet] 0 1 true true.
Let start (chans : list (chan_view PortPacket)) : world (S := list MetadataRecord) :=
  mk_world chans [] [None].
Let token : CancellationToken := CancellationToken.mk 0.
Let port : OutputPortHandle := mk_output out [0; 1].
Let ports_out : PortsOut := mk_ports_out [out] [port] true None None.
Let in_port : InputPortHandle := mk_input inp [0; 1].
Let ports_in : PortsIn := mk_ports_in [inp] [in_port] true None.

Lemma both_in_store c0 c1 : in_store (start [c0; c1]) [0; 1].
Proof. intros i Hi. by repeat (apply elem_of_cons in Hi as [->|Hi]; [by eexists|]); inversion Hi. Qed.

Lemma two_senders : NoDup [0; 1].
Proof. apply (bool_decide_eq_true_1 _). reflexivity. Qed.

(** With one of the two channels full nothing is sent. *)
Lemma try_send_all_or_nothing_witness :
  (try_send ports_out out packet (start [chan_new 1; full])).1 = Err (PortSendError.Full out)
  ∧ unchanged (start [chan_new 1; full])
      (try_send ports_out out packet (start [chan_new 1; full])).2.
Proof.
  exact (try_send_all_or_nothing ports_out out port packet (start [chan_new 1; full])
           eq_refl two_senders (both_in_store _ _)).
Defined.

Lemma poll_send_spec_witness :
  let (r, w') := poll_send ports_out out packet token (start edges) in
  r = Ready (Ok tt)
  ∧ changes (λ v, with_queue (cv_queue v ++ [packet]) v) [0; 1] (start edges) w'.
Proof.
  exact (poll_send_spec ports_out out port packet token (start edges)
           eq_refl two_senders (both_in_store _ _)).
Defined.

Lemma receive_takes_first_ready_witness :
  (try_recv ports_in inp (start [chan_new 1; full])).1 = Ok (Some packet).
Proof.
  exact (proj1 (proj1 (receive_takes_first_ready ports_in inp in_port token
           (start [chan_new 1; full]) eq_refl (both_in_store _ _)))).
Defined.

Lemma recv_any_takes_first_ready_port_witness :
  let (r, w') := poll_recv_any ports_in token false (start [chan_new 1; full]) in
  r = Ready (Ok (Some (inp, packet))) ∧ changes after_recv [1] (start [chan_new 1; full]) w'.
Proof.
  refine (recv_any_takes_first_ready_port ports_in token (start [chan_new 1; full]) _ _ eq_refl).
  - discriminate.
  - intros h Hh. apply elem_of_cons in Hh as [->|Hh]; [apply both_in_store|by inversion Hh].
Defined.

(** Send to both channels, then receive from the first. *)
Lemma traffic_invariant_witness :
  let w0 := start edges in
  let reserved := (try_reserve ports_out out w0).2 in
  let T := mk_traffic reserved
    (match (try_reserve ports_out out w0).1 with Ok p => [p] | Err _ => [] end)
    (λ _, []) (λ _, []) in
  length (filter (λ p, 0 ∈ permits p) (t_permits T)) = 1
  ∧ ∀ v, chan_at reserved 0 = Some v → cv_reserved v = 1.
Proof.
  intros w0 reserved T. split; [reflexivity|]. intros v Hv.
  assert (Hrun : rtc port_step (mk_traffic w0 [] (λ _, []) (λ _, [])) T).
  { apply rtc_once.
    apply (step_reserve ports_out out port (try_reserve ports_out out w0).1 w0 reserved []);
      [reflexivity|split; [exact two_senders|apply both_in_store]|reflexivity]. }
  destruct (traffic_invariant (mk_traffic w0 [] (λ _, []) (λ _, [])) T) with (j := 0) (v := v)
    as (_ & -> & _); [|exact Hrun|exact Hv|reflexivity].
  split; [done|]. intros j. split_and!; [done|done|]. intros u Hu. exists 1%positive.
  destruct j as [|[|j]]; [injection Hu as <-; reflexivity|injection Hu as <-; reflexivity|discriminate Hu].
Defined.

Lemma from_handles_wires_witness :
  ∃ h, find_input (ports_in_from_handles [inp] [mk_input inp [0]; mk_input inp [4]]) inp = Some h
    ∧ receivers h = [0; 4].
Proof.
  refine (proj1 (proj1 (from_handles_wires [inp] [mk_input inp [0]; mk_input inp [4]] [] _) inp _)).
  - apply (bool_decide_eq_true_1 _). reflexivity.
  - by left.
Defined.
End examples.
