(* ===== verification/RuleContract.v ===== *)
(** [pureflow-contract], rule sets against the workflow graph
    (src/crates/pureflow-contract/src/rules.rs).

    The model follows the source: [validate_action] and the condition walk push
    onto a list of violations, and [has_path] is a breadth-first search with
    its queue and visited set.  The search takes fuel; [has_path_spec] shows
    that the number of edges plus two is enough and that it decides
    reachability. *)

From Stdlib Require Import Lia.
From stdpp Require Import relations.
From S2P Require Import Prelude RustStr BTree Types Workflow Structure Topology Rules.

Definition DEAD_LETTER_PORT : rstr := lit "dead_letter".

Module ActionSite.
Inductive ActionSite : Set := Rule (rule_id : rstr) | DefaultAction.

Definition fmt (s : ActionSite) : rstr :=
  match s with
  | Rule rule_id => lit "rule `" ++ rule_id ++ lit "`"
  | DefaultAction => lit "default action"
  end.
End ActionSite.
Notation ActionSite := ActionSite.ActionSite.

#[export] Instance ActionSite_eq_dec : EqDecision ActionSite.
Proof. solve_decision. Defined.

Module RuleContractViolation.
Inductive RuleContractViolation : Set :=
| UnknownRuleNode (rule_set_id : rstr) (node_id : NodeId)
| UnknownRoutePort (rule_set_id : rstr) (site : ActionSite) (node_id : NodeId) (port_id : PortId)
| MissingDeadLetterPort (rule_set_id : rstr) (site : ActionSite) (node_id : NodeId)
| UnknownSourceNode (rule_set_id rule_id : rstr) (node_id : NodeId)
| UnreachableSourceNode (rule_set_id rule_id : rstr) (node_id source_node_id : NodeId)
| UnknownArrivalPort (rule_set_id rule_id : rstr) (node_id : NodeId) (port_id : PortId).

Definition fmt (v : RuleContractViolation) : rstr :=
  match v with
  | UnknownRuleNode rs n =>
      lit "rule set `" ++ rs ++ lit "` is hosted by node `" ++ as_str n
      ++ lit "` which is not in the workflow"
  | UnknownRoutePort rs site n p =>
      lit "rule set `" ++ rs ++ lit "` " ++ ActionSite.fmt site
      ++ lit " routes to output port `" ++ as_str p ++ lit "` not declared on node `"
      ++ as_str n ++ lit "`"
  | MissingDeadLetterPort rs site n =>
      lit "rule set `" ++ rs ++ lit "` " ++ ActionSite.fmt site
      ++ lit " dead-letters but node `" ++ as_str n ++ lit "` declares no `"
      ++ DEAD_LETTER_PORT ++ lit "` output port"
  | UnknownSourceNode rs r n =>
      lit "rule set `" ++ rs ++ lit "` rule `" ++ r
      ++ lit "` references unknown source node `" ++ as_str n ++ lit "`"
  | UnreachableSourceNode rs r n source =>
      lit "rule set `" ++ rs ++ lit "` rule `" ++ r ++ lit "` references source node `"
      ++ as_str source ++ lit "` with no path to host node `" ++ as_str n ++ lit "`"
  | UnknownArrivalPort rs r n p =>
      lit "rule set `" ++ rs ++ lit "` rule `" ++ r ++ lit "` references arrival port `"
      ++ as_str p ++ lit "` not declared as input on node `" ++ as_str n ++ lit "`"
  end.
End RuleContractViolation.
Notation RuleContractViolation := RuleContractViolation.RuleContractViolation.

#[export] Instance RuleContractViolation_eq_dec : EqDecision RuleContractViolation.
Proof. solve_decision. Defined.

(** ** The checks *)

Definition validate_action (rule_set : RuleSet) (site : ActionSite) (rule_node_id : NodeId)
    (action : RuleAction) (output_ports : list PortId) (has_dead_letter : bool)
    (violations : list RuleContractViolation) : list RuleContractViolation :=
  match action with
  | RuleAction.Route port_id =>
      if negb (BTreeSet.contains port_id output_ports) then
        violations ++ [RuleContractViolation.UnknownRoutePort (RuleSet.id rule_set) site
                         rule_node_id port_id]
      else violations
  | RuleAction.DeadLetter _ =>
      if negb has_dead_letter then
        violations ++ [RuleContractViolation.MissingDeadLetterPort (RuleSet.id rule_set) site
                         rule_node_id]
      else violations
  | RuleAction.Drop | RuleAction.Tag _ _ | RuleAction.Halt _ => violations
  end.

Record ConditionRefs : Set := mk_refs {
  source_nodes : list NodeId;
  arrival_ports : list PortId;
}.

Fixpoint collect_condition_refs (condition : Condition) (refs : ConditionRefs) : ConditionRefs :=
  match condition with
  | Condition.SourceNode node_id =>
      mk_refs (source_nodes refs ++ [node_id]) (arrival_ports refs)
  | Condition.ArrivedOnPort port_id =>
      mk_refs (source_nodes refs) (arrival_ports refs ++ [port_id])
  | Condition.And children | Condition.Or children =>
      fold_left (λ refs child, collect_condition_refs child refs) children refs
  | Condition.Not inner => collect_condition_refs inner refs
  | _ => refs
  end.

Definition node_exists (workflow : WorkflowDefinition) (node_id : NodeId) : bool :=
  existsb (λ node, bool_decide (NodeDefinition.id node = node_id))
    (WorkflowDefinition.nodes workflow).

(** The scan of the edges for one dequeued node: [None] when the target is
    found, else the queue and the visited set after it. *)
Fixpoint scan_edges (current to : NodeId) (edges : list EdgeDefinition)
    (queue visited : list NodeId) : option (list NodeId * list NodeId) :=
  match edges with
  | [] => Some (queue, visited)
  | edge :: edges =>
      if bool_decide (EdgeEndpoint.node_id (EdgeDefinition.source edge) = current) then
        let next := EdgeEndpoint.node_id (EdgeDefinition.target edge) in
        if bool_decide (next = to) then None
        else
          let (is_new, visited) := BTreeSet.insert_new next visited in
          scan_edges current to edges (if is_new then queue ++ [next] else queue) visited
      else scan_edges current to edges queue visited
  end.

Fixpoint path_loop (fuel : nat) (edges : list EdgeDefinition) (to : NodeId)
    (queue visited : list NodeId) : exec bool :=
  match queue with
  | [] => Done false
  | current :: queue =>
      match fuel with
      | 0 => OutOfFuel
      | S fuel =>
          match scan_edges current to edges queue visited with
          | None => Done true
          | Some (queue, visited) => path_loop fuel edges to queue visited
          end
      end
  end.

Definition has_path (workflow : WorkflowDefinition) (from to : NodeId) : exec bool :=
  let edges := WorkflowDefinition.edges workflow in
  path_loop (S (length edges)) edges to [from] [from].

(** The loop over the source nodes a rule mentions. *)
Fixpoint check_sources (workflow : WorkflowDefinition) (rule_node_id : NodeId)
    (rule_set : RuleSet) (rule : Rule) (sources : list NodeId)
    (violations : list RuleContractViolation) : exec (list RuleContractViolation) :=
  match sources with
  | [] => Done violations
  | source :: sources =>
      let! violations :=
        (if negb (node_exists workflow source) then
           Done (violations ++ [RuleContractViolation.UnknownSourceNode (RuleSet.id rule_set)
                                  (Rule.id rule) source])
         else
           let! reachable := has_path workflow source rule_node_id in
           Done (if negb reachable then
                   violations ++ [RuleContractViolation.UnreachableSourceNode
                     (RuleSet.id rule_set) (Rule.id rule) rule_node_id source]
                 else violations)) in
      check_sources workflow rule_node_id rule_set rule sources violations
  end.

Definition check_arrivals (rule_node_id : NodeId) (input_ports : list PortId)
    (rule_set : RuleSet) (rule : Rule) (ports : list PortId)
    (violations : list RuleContractViolation) : list RuleContractViolation :=
  foldl (λ violations port,
    if negb (BTreeSet.contains port input_ports) then
      violations ++ [RuleContractViolation.UnknownArrivalPort (RuleSet.id rule_set)
                       (Rule.id rule) rule_node_id port]
    else violations) violations ports.

(** The loop over the rules for their conditions. *)
Fixpoint check_conditions (workflow : WorkflowDefinition) (rule_node_id : NodeId)
    (input_ports : list PortId) (rule_set : RuleSet) (rules : list Rule)
    (violations : list RuleContractViolation) : exec (list RuleContractViolation) :=
  match rules with
  | [] => Done violations
  | rule :: rules =>
      let refs := collect_condition_refs (Rule.condition rule) (mk_refs [] []) in
      let! violations :=
        check_sources workflow rule_node_id rule_set rule (source_nodes refs) violations in
      check_conditions workflow rule_node_id input_ports rule_set rules
        (check_arrivals rule_node_id input_ports rule_set rule (arrival_ports refs) violations)
  end.

Definition rule_set_violations (workflow : WorkflowDefinition) (rule_node_id : NodeId)
    (rule_set : RuleSet) : exec (list RuleContractViolation) :=
  match iter_find (λ node, bool_decide (NodeDefinition.id node = rule_node_id))
          (WorkflowDefinition.nodes workflow) with
  | None => Done [RuleContractViolation.UnknownRuleNode (RuleSet.id rule_set) rule_node_id]
  | Some host =>
      let output_ports := BTreeSet.collect (NodeDefinition.output_ports host) in
      let input_ports := BTreeSet.collect (NodeDefinition.input_ports host) in
      let has_dead_letter :=
        existsb (λ port : PortId, bool_decide (as_str port = DEAD_LETTER_PORT))
          (NodeDefinition.output_ports host) in
      let violations :=
        foldl (λ violations rule,
          validate_action rule_set (ActionSite.Rule (Rule.id rule)) rule_node_id
            (Rule.action rule) output_ports has_dead_letter violations)
          [] (RuleSet.rules rule_set) in
      let violations :=
        validate_action rule_set ActionSite.DefaultAction rule_node_id
          (RuleSet.default_action rule_set) output_ports has_dead_letter violations in
      check_conditions workflow rule_node_id input_ports rule_set (RuleSet.rules rule_set)
        violations
  end.

Definition validate_rule_set (workflow : WorkflowDefinition) (rule_node_id : NodeId)
    (rule_set : RuleSet) : exec (result unit RuleContractViolation) :=
  let! violations := rule_set_violations workflow rule_node_id rule_set in
  Done (match head violations with Some v => Err v | None => Ok tt end).

(** ** Reachability *)

Section search.
Variables (edges : list EdgeDefinition) (from to : NodeId).

(** Every node the search can visit. *)
Definition search_nodes : list NodeId := from :: (arcs edges).*2.

(** The state of the search: visited nodes are reachable and have all their
    arcs to visited nodes other than the target, except those still queued. *)
Record search_inv (queue visited : list NodeId) : Prop := {
  si_sorted : BTreeSet.sorted_set visited;
  si_queued : queue ⊆ visited;
  si_start : from ∈ visited;
  si_known : visited ⊆ search_nodes;
  si_reach : ∀ n, n ∈ visited → rtc (arc (arcs edges)) from n;
  si_closed : ∀ n m, n ∈ visited → n ∉ queue → (n, m) ∈ arcs edges → m ≠ to ∧ m ∈ visited;
}.

(** One scan.  [done] lists the edges scanned before, for the current node. *)
Lemma scan_edges_spec current todo queue visited :
  BTreeSet.sorted_set visited → todo ⊆ edges →
  match scan_edges current to todo queue visited with
  | None => (current, to) ∈ arcs edges
  | Some (queue', visited') =>
      BTreeSet.sorted_set visited'
      ∧ length queue' + length visited = length queue + length visited'
      ∧ (∀ n, n ∈ visited' ↔ n ∈ visited ∨ (current, n) ∈ arcs todo)
      ∧ (∀ n, n ∈ queue' ↔ n ∈ queue ∨ (n ∉ visited ∧ (current, n) ∈ arcs todo))
      ∧ (current, to) ∉ arcs todo
  end.
Proof.
  revert queue visited. induction todo as [|e todo IH]; intros queue visited Hs Hsub; simpl.
  { unfold arcs. simpl. set_solver. }
  assert (Hin : arc_of e ∈ arcs edges) by (apply list_elem_of_fmap; set_solver).
  assert (Hcons : ∀ n, (current, n) ∈ arcs (e :: todo) ↔
    (current, n) = arc_of e ∨ (current, n) ∈ arcs todo) by (intros; apply elem_of_cons).
  destruct e as [[source sp] [next tp] cap]. unfold arc_of in *. simpl in *.
  case_bool_decide as Hc.
  - subst source. case_bool_decide as Ht; [by subst|].
    assert (todo ⊆ edges) as Hsub' by set_solver.
    pose proof (IH (if negb (BTreeSet.contains next visited) then queue ++ [next] else queue)
      (BTreeSet.insert next visited) (BTreeSet.sorted_insert _ _ Hs) Hsub') as H.
    destruct (scan_edges _ _ _ _ _) as [[queue' visited']|]; [|done].
    destruct H as (Hs' & Hlen & Hv & Hq & Hto). split_and!; [done| | | |].
    + unfold BTreeSet.contains in Hlen. case_bool_decide as Hn; simpl in Hlen.
      * by rewrite BTreeSet.insert_present in Hlen.
      * rewrite BTreeSet.length_insert_new, length_app in Hlen by done. simpl in Hlen. lia.
    + intros n. rewrite Hv, Hcons, BTreeSet.elem_of_insert. naive_solver.
    + intros n. rewrite Hq, Hcons, BTreeSet.elem_of_insert. unfold BTreeSet.contains.
      case_bool_decide as Hn; simpl; rewrite ?elem_of_app, ?list_elem_of_singleton;
        destruct (decide (n = next)) as [->|]; naive_solver.
    + rewrite Hcons. intros [[= ->]|?]; done.
  - pose proof (IH queue visited Hs ltac:(set_solver)) as H.
    destruct (scan_edges _ _ _ _ _) as [[queue' visited']|]; [|done].
    destruct H as (Hs' & Hlen & Hv & Hq & Hto).
    assert (∀ n, (current, n) ≠ (source, next)) by naive_solver.
    split_and!; [done|done| | |]; intros; rewrite ?Hv, ?Hq, Hcons; naive_solver.
Qed.

Lemma search_step current queue visited queue' visited' :
  search_inv (current :: queue) visited →
  scan_edges current to edges queue visited = Some (queue', visited') →
  search_inv queue' visited'
  ∧ length queue' + length visited = length queue + length visited'.
Proof.
  intros [Hs Hq Hst Hk Hr Hc] He.
  pose proof (scan_edges_spec current edges queue visited Hs ltac:(done)) as H.
  rewrite He in H. destruct H as (Hs' & Hlen & Hv & Hq' & Hto).
  assert (Hcur : current ∈ visited) by set_solver.
  split; [|done]. split; [done| | | | |].
  - intros n. rewrite Hv, Hq'. set_solver.
  - rewrite Hv. by left.
  - intros n [Hn|Hn]%Hv; [by apply Hk|]. right. apply list_elem_of_fmap. by exists (current, n).
  - intros n [Hn|Hn]%Hv; [by apply Hr|]. eapply rtc_r; [by apply Hr|done].
  - intros n m Hn Hnq Ha. rewrite Hv. destruct (decide (n = current)) as [->|Hne].
    { split; [by intros ->|by right]. }
    rewrite Hq' in Hnq. apply Hv in Hn.
    assert (n ∈ visited) as Hn' by (destruct (decide (n ∈ visited)); tauto).
    destruct (Hc n m Hn') as [? ?]; [|done|by auto]. rewrite elem_of_cons. tauto.
Qed.

Lemma search_closed visited n :
  search_inv [] visited → tc (arc (arcs edges)) from n → n ≠ to ∧ n ∈ visited.
Proof.
  intros [_ _ Hst _ _ Hc] Ht. revert Hst. remember from as start eqn:E. clear E.
  intros Hst. induction Ht as [x y Hxy|x y z Hxy _ IH].
  - apply (Hc x y); set_solver.
  - apply IH. apply (Hc x y); set_solver.
Qed.

Lemma path_loop_spec fuel queue visited :
  search_inv queue visited →
  length queue + length search_nodes ≤ fuel + length visited →
  ∃ b, path_loop fuel edges to queue visited = Done b
    ∧ (b = true ↔ tc (arc (arcs edges)) from to).
Proof.
  revert queue visited. induction fuel as [|fuel IH]; intros [|current queue] visited Hinv Hf;
    try (exists false; split; [done|]; split; [done|];
         intros Ht; by destruct (search_closed visited to Hinv Ht)).
  - exfalso. assert (length visited ≤ length search_nodes); [|rewrite length_cons in Hf; lia].
    apply submseteq_length, NoDup_submseteq;
      [apply BTreeSet.sorted_NoDup; apply Hinv|apply Hinv].
  - simpl. destruct (scan_edges current to edges queue visited) as [[q' v']|] eqn:He.
    + destruct (search_step _ _ _ _ _ Hinv He) as [Hinv' Hlen]. apply IH; [done|].
      rewrite length_cons in Hf. lia.
    + exists true. split; [done|]. split; [|done]. intros _.
      pose proof (scan_edges_spec current edges queue visited (si_sorted _ _ Hinv) ltac:(done)) as H.
      rewrite He in H. eapply tc_rtc_l; [|by apply tc_once].
      apply (si_reach _ _ Hinv). apply (si_queued _ _ Hinv). left.
Qed.
End search.

(** The search returns, and decides whether a non-empty path exists. *)
Lemma has_path_spec workflow from to :
  ∃ b, has_path workflow from to = Done b
    ∧ (b = true ↔ tc (arc (arcs (WorkflowDefinition.edges workflow))) from to).
Proof.
  unfold has_path. apply path_loop_spec with (from := from).
  - split; [repeat constructor|done|by left|unfold search_nodes; set_solver| |set_solver].
    by intros n ->%list_elem_of_singleton.
  - unfold search_nodes, arcs. simpl. rewrite !length_fmap. lia.
Qed.

(** ** What a rule set mentions *)

(** Induction on conditions through the lists of [And] and [Or]. *)
Lemma condition_ind (P : Condition → Prop)
  (Hatom : ∀ c, match c with
                | Condition.And _ | Condition.Or _ | Condition.Not _ => True
                | _ => P c
                end)
  (Hand : ∀ cs, Forall P cs → P (Condition.And cs))
  (Hor : ∀ cs, Forall P cs → P (Condition.Or cs))
  (Hnot : ∀ c, P c → P (Condition.Not c)) : ∀ c, P c.
Proof.
  fix IH 1. intros c.
  destruct c as [| | | | | | | | | | | | | | | | | | |cs|cs|c| |];
    try match goal with |- P ?c => exact (Hatom c) end.
  - apply Hand. induction cs as [|c cs IHcs]; constructor; [apply IH|apply IHcs].
  - apply Hor. induction cs as [|c cs IHcs]; constructor; [apply IH|apply IHcs].
  - apply Hnot, IH.
Qed.

(** A condition occurs in another, under any nesting of the combinators. *)
Inductive occurs_in (a : Condition) : Condition → Prop :=
| occurs_here : occurs_in a a
| occurs_and c cs : c ∈ cs → occurs_in a c → occurs_in a (Condition.And cs)
| occurs_or c cs : c ∈ cs → occurs_in a c → occurs_in a (Condition.Or cs)
| occurs_not c : occurs_in a c → occurs_in a (Condition.Not c).

Definition refs_of (c : Condition) (refs refs' : ConditionRefs) : Prop :=
  (∀ n, n ∈ source_nodes refs' ↔ n ∈ source_nodes refs ∨ occurs_in (Condition.SourceNode n) c)
  ∧ ∀ p, p ∈ arrival_ports refs' ↔
      p ∈ arrival_ports refs ∨ occurs_in (Condition.ArrivedOnPort p) c.

Lemma refs_of_children (cs : list Condition) refs :
  Forall (λ c, ∀ refs, refs_of c refs (collect_condition_refs c refs)) cs →
  let refs' := fold_left (λ refs c, collect_condition_refs c refs) cs refs in
  (∀ n, n ∈ source_nodes refs' ↔
     n ∈ source_nodes refs ∨ ∃ c, c ∈ cs ∧ occurs_in (Condition.SourceNode n) c)
  ∧ ∀ p, p ∈ arrival_ports refs' ↔
     p ∈ arrival_ports refs ∨ ∃ c, c ∈ cs ∧ occurs_in (Condition.ArrivedOnPort p) c.
Proof.
  intros Hcs. revert refs. induction Hcs as [|c cs Hc Hcs IH]; intros refs; simpl.
  - split; intros; split; [by left|set_solver|by left|set_solver].
  - destruct (IH (collect_condition_refs c refs)) as [IHn IHp]. destruct (Hc refs) as [Hn Hp].
    split; intros; rewrite ?IHn, ?IHp, ?Hn, ?Hp; setoid_rewrite elem_of_cons; naive_solver.
Qed.

Lemma collect_condition_refs_spec c refs : refs_of c refs (collect_condition_refs c refs).
Proof.
  revert refs. pattern c. revert c. apply condition_ind; [intros c|intros cs IH|intros cs IH|intros c IH].
  - destruct c; try exact I; intros refs; split; intros; simpl;
      rewrite ?elem_of_app, ?list_elem_of_singleton; split;
      solve [naive_solver (eauto using occurs_in)|intros [?|Ho]; [eauto|inversion Ho; eauto]].
  - intros refs. destruct (refs_of_children cs refs IH) as [Hn Hp].
    split; intros; simpl; rewrite ?Hn, ?Hp; split; intros [?|H]; eauto; right.
    1,3: destruct H as (? & ? & ?); by eapply occurs_and.
    all: inversion H; subst; eauto.
  - intros refs. destruct (refs_of_children cs refs IH) as [Hn Hp].
    split; intros; simpl; rewrite ?Hn, ?Hp; split; intros [?|H]; eauto; right.
    1,3: destruct H as (? & ? & ?); by eapply occurs_or.
    all: inversion H; subst; eauto.
  - intros refs. destruct (IH refs) as [Hn Hp].
    split; intros; simpl; rewrite ?Hn, ?Hp; split; intros [?|H]; eauto; right.
    1,3: by apply occurs_not.
    all: inversion H; subst; eauto.
Qed.

(** ** Diagnostics *)

(** The action found at a site of a rule set. *)
Definition action_at (rs : RuleSet) (site : ActionSite) (a : RuleAction) : Prop :=
  match site with
  | ActionSite.Rule id => ∃ r, r ∈ RuleSet.rules rs ∧ Rule.id r = id ∧ Rule.action r = a
  | ActionSite.DefaultAction => RuleSet.default_action rs = a
  end.

(** What can be wrong with a rule set hosted by a node of a workflow. *)
Inductive violation (wf : WorkflowDefinition) (host : NodeId) (rs : RuleSet) :
    RuleContractViolation → Prop :=
| no_host :
    node_by_id (WorkflowDefinition.nodes wf) host = None →
    violation wf host rs (RuleContractViolation.UnknownRuleNode (RuleSet.id rs) host)
| bad_route node site p :
    node_by_id (WorkflowDefinition.nodes wf) host = Some node →
    action_at rs site (RuleAction.Route p) → p ∉ NodeDefinition.output_ports node →
    violation wf host rs (RuleContractViolation.UnknownRoutePort (RuleSet.id rs) site host p)
| no_dead_letter node site reason :
    node_by_id (WorkflowDefinition.nodes wf) host = Some node →
    action_at rs site (RuleAction.DeadLetter reason) →
    ident "dead_letter" ∉ NodeDefinition.output_ports node →
    violation wf host rs (RuleContractViolation.MissingDeadLetterPort (RuleSet.id rs) site host)
| unknown_source node r n :
    node_by_id (WorkflowDefinition.nodes wf) host = Some node →
    r ∈ RuleSet.rules rs → occurs_in (Condition.SourceNode n) (Rule.condition r) →
    n ∉ node_names (WorkflowDefinition.nodes wf) →
    violation wf host rs
      (RuleContractViolation.UnknownSourceNode (RuleSet.id rs) (Rule.id r) n)
| unreachable_source node r n :
    node_by_id (WorkflowDefinition.nodes wf) host = Some node →
    r ∈ RuleSet.rules rs → occurs_in (Condition.SourceNode n) (Rule.condition r) →
    n ∈ node_names (WorkflowDefinition.nodes wf) →
    ¬ tc (arc (arcs (WorkflowDefinition.edges wf))) n host →
    violation wf host rs
      (RuleContractViolation.UnreachableSourceNode (RuleSet.id rs) (Rule.id r) host n)
| unknown_arrival node r p :
    node_by_id (WorkflowDefinition.nodes wf) host = Some node →
    r ∈ RuleSet.rules rs → occurs_in (Condition.ArrivedOnPort p) (Rule.condition r) →
    p ∉ NodeDefinition.input_ports node →
    violation wf host rs
      (RuleContractViolation.UnknownArrivalPort (RuleSet.id rs) (Rule.id r) host p).

(** A loop that only pushes. *)
Lemma foldl_pushes {A B} (f : list B → A → list B) (P : A → B → Prop) l acc :
  (∀ acc x v, v ∈ f acc x ↔ v ∈ acc ∨ P x v) →
  ∀ v, v ∈ foldl f acc l ↔ v ∈ acc ∨ ∃ x, x ∈ l ∧ P x v.
Proof.
  intros Hf. revert acc. induction l as [|x l IH]; intros acc v; simpl.
  - split; [by left|]. intros [?|(y & Hy & _)]; [done|by inversion Hy].
  - rewrite IH, Hf. setoid_rewrite elem_of_cons. naive_solver.
Qed.

Section diagnostics.
Variables (wf : WorkflowDefinition) (host : NodeId) (rs : RuleSet).
Notation nodes := (WorkflowDefinition.nodes wf).

Lemma node_exists_true n : node_exists wf n = true ↔ n ∈ node_names nodes.
Proof.
  unfold node_exists, node_names. rewrite existsb_true_elem, list_elem_of_fmap.
  setoid_rewrite bool_decide_eq_true. naive_solver.
Qed.

(** What one action, source or arrival port can add. *)
Definition action_violation (node : NodeDefinition) (site : ActionSite) (a : RuleAction)
    (v : RuleContractViolation) : Prop :=
  match a with
  | RuleAction.Route p =>
      p ∉ NodeDefinition.output_ports node
      ∧ v = RuleContractViolation.UnknownRoutePort (RuleSet.id rs) site host p
  | RuleAction.DeadLetter _ =>
      ident "dead_letter" ∉ NodeDefinition.output_ports node
      ∧ v = RuleContractViolation.MissingDeadLetterPort (RuleSet.id rs) site host
  | _ => False
  end.

Definition source_violation (r : Rule) (n : NodeId) (v : RuleContractViolation) : Prop :=
  n ∉ node_names nodes
  ∧ v = RuleContractViolation.UnknownSourceNode (RuleSet.id rs) (Rule.id r) n
  ∨ n ∈ node_names nodes ∧ ¬ tc (arc (arcs (WorkflowDefinition.edges wf))) n host
  ∧ v = RuleContractViolation.UnreachableSourceNode (RuleSet.id rs) (Rule.id r) host n.

Definition arrival_violation (node : NodeDefinition) (r : Rule) (p : PortId)
    (v : RuleContractViolation) : Prop :=
  p ∉ NodeDefinition.input_ports node
  ∧ v = RuleContractViolation.UnknownArrivalPort (RuleSet.id rs) (Rule.id r) host p.

Lemma has_dead_letter_true node :
  existsb (λ port : PortId, bool_decide (as_str port = DEAD_LETTER_PORT))
    (NodeDefinition.output_ports node) = true
  ↔ ident "dead_letter" ∈ NodeDefinition.output_ports node.
Proof.
  rewrite existsb_true_elem. setoid_rewrite bool_decide_eq_true. split.
  - intros ([s] & Hp & Hs). simpl in Hs. by subst.
  - intros Hp. by eexists.
Qed.

Lemma validate_action_pushes node site a vs v :
  v ∈ validate_action rs site host a (BTreeSet.collect (NodeDefinition.output_ports node))
        (existsb (λ port : PortId, bool_decide (as_str port = DEAD_LETTER_PORT))
           (NodeDefinition.output_ports node)) vs
  ↔ v ∈ vs ∨ action_violation node site a v.
Proof.
  destruct a as [p| |reason| |]; simpl; try tauto.
  - unfold BTreeSet.contains. case_bool_decide as Hp; rewrite BTreeSet.elem_of_collect in Hp;
      simpl; rewrite ?elem_of_app, ?list_elem_of_singleton; tauto.
  - pose proof (has_dead_letter_true node) as Hd. destruct (existsb _ _); simpl;
      rewrite ?elem_of_app, ?list_elem_of_singleton; naive_solver.
Qed.

Lemma check_sources_pushes r sources vs :
  ∃ vs', check_sources wf host rs r sources vs = Done vs'
    ∧ ∀ v, v ∈ vs' ↔ v ∈ vs ∨ ∃ n, n ∈ sources ∧ source_violation r n v.
Proof.
  revert vs. induction sources as [|n sources IH]; intros vs; simpl.
  { exists vs. split; [done|]. intros v. split; [by left|].
    intros [?|(y & Hy & _)]; [done|by inversion Hy]. }
  destruct (has_path_spec wf n host) as (b & Hb & Hpath).
  pose proof (node_exists_true n) as He. rewrite Hb. destruct (node_exists wf n); simpl.
  - destruct (IH (if negb b then vs ++ [RuleContractViolation.UnreachableSourceNode
      (RuleSet.id rs) (Rule.id r) host n] else vs)) as (vs' & Hvs' & Hv).
    exists vs'. split; [done|]. intros v. rewrite Hv. unfold source_violation.
    setoid_rewrite elem_of_cons.
    destruct b; simpl; rewrite ?elem_of_app, ?list_elem_of_singleton; naive_solver.
  - destruct (IH (vs ++ [RuleContractViolation.UnknownSourceNode (RuleSet.id rs)
      (Rule.id r) n])) as (vs' & Hvs' & Hv).
    exists vs'. split; [done|]. intros v. rewrite Hv. unfold source_violation.
    setoid_rewrite elem_of_cons. rewrite elem_of_app, list_elem_of_singleton. naive_solver.
Qed.

Lemma check_arrivals_pushes node r ports vs v :
  v ∈ check_arrivals host (BTreeSet.collect (NodeDefinition.input_ports node)) rs r ports vs
  ↔ v ∈ vs ∨ ∃ p, p ∈ ports ∧ arrival_violation node r p v.
Proof.
  apply foldl_pushes. clear. intros vs p v. unfold BTreeSet.contains, arrival_violation.
  case_bool_decide as Hp; rewrite BTreeSet.elem_of_collect in Hp; simpl;
    rewrite ?elem_of_app, ?list_elem_of_singleton; tauto.
Qed.

Lemma check_conditions_pushes node rules vs :
  ∃ vs', check_conditions wf host (BTreeSet.collect (NodeDefinition.input_ports node)) rs
           rules vs = Done vs'
    ∧ ∀ v, v ∈ vs' ↔ v ∈ vs ∨ ∃ r, r ∈ rules ∧
        ((∃ n, occurs_in (Condition.SourceNode n) (Rule.condition r) ∧ source_violation r n v)
         ∨ ∃ p, occurs_in (Condition.ArrivedOnPort p) (Rule.condition r)
             ∧ arrival_violation node r p v).
Proof.
  revert vs. induction rules as [|r rules IH]; intros vs; simpl.
  { exists vs. split; [done|]. intros v. split; [by left|].
    intros [?|(y & Hy & _)]; [done|by inversion Hy]. }
  set (refs := collect_condition_refs _ _).
  destruct (collect_condition_refs_spec (Rule.condition r) (mk_refs [] [])) as [Hn Hp].
  fold refs in Hn, Hp. simpl in Hn, Hp.
  destruct (check_sources_pushes r (source_nodes refs) vs) as (vs1 & -> & Hv1). simpl.
  destruct (IH (check_arrivals host (BTreeSet.collect (NodeDefinition.input_ports node)) rs r
    (arrival_ports refs) vs1)) as (vs2 & -> & Hv2).
  exists vs2. split; [done|]. intros v. rewrite Hv2, check_arrivals_pushes, Hv1.
  setoid_rewrite Hn. setoid_rewrite Hp. setoid_rewrite elem_of_nil.
  setoid_rewrite elem_of_cons. naive_solver.
Qed.
End diagnostics.

(** The violations of a rule set whose host is declared, by where they arise. *)
Lemma violation_cases wf host rs node v :
  node_by_id (WorkflowDefinition.nodes wf) host = Some node →
  violation wf host rs v ↔
  (∃ r, r ∈ RuleSet.rules rs
     ∧ action_violation host rs node (ActionSite.Rule (Rule.id r)) (Rule.action r) v)
  ∨ action_violation host rs node ActionSite.DefaultAction (RuleSet.default_action rs) v
  ∨ ∃ r, r ∈ RuleSet.rules rs ∧
      ((∃ n, occurs_in (Condition.SourceNode n) (Rule.condition r)
         ∧ source_violation wf host rs r n v)
       ∨ ∃ p, occurs_in (Condition.ArrivedOnPort p) (Rule.condition r)
           ∧ arrival_violation host rs node r p v).
Proof.
  intros Hh. split.
  - destruct 1 as [?|nd [id|] p ? Ha|nd [id|] reason ? Ha|nd r n|nd r n|nd r p]; simplify_eq/=.
    1,3: destruct Ha as (r & Hr & <- & Ha); left; exists r; by rewrite Ha.
    1,2: right; left; by rewrite Ha.
    1,2: do 2 right; exists r; split; [done|]; left; exists n; split; [done|];
         unfold source_violation; tauto.
    do 2 right. exists r. split; [done|]. right. by exists p.
  - intros [(r & Hr & Hv)|[Hv|(r & Hr & [(n & Hn & Hv)|(p & Hp & Hv)])]].
    + destruct (Rule.action r) eqn:Ha; simpl in Hv; try done; destruct Hv as [? ->];
        [eapply bad_route|eapply no_dead_letter]; eauto; simpl; eauto.
    + destruct (RuleSet.default_action rs) eqn:Ha; simpl in Hv; try done; destruct Hv as [? ->];
        [eapply bad_route|eapply no_dead_letter]; eauto; simpl; eauto.
    + destruct Hv as [[? ->]|(? & ? & ->)]; [by eapply unknown_source|by eapply unreachable_source].
    + destruct Hv as [? ->]. by eapply unknown_arrival.
Qed.

Lemma rule_set_violations_spec wf host rs :
  ∃ vs, rule_set_violations wf host rs = Done vs ∧ ∀ v, v ∈ vs ↔ violation wf host rs v.
Proof.
  unfold rule_set_violations.
  change (iter_find _ _) with (node_by_id (WorkflowDefinition.nodes wf) host).
  destruct (node_by_id _ host) as [node|] eqn:Hh.
  - set (vs0 := validate_action _ _ _ _ _ _ _).
    destruct (check_conditions_pushes wf host rs node (RuleSet.rules rs) vs0) as (vs & Hvs & Hv).
    exists vs. split; [done|]. intros v. rewrite Hv, (violation_cases _ _ _ node) by done.
    unfold vs0. rewrite validate_action_pushes.
    rewrite (foldl_pushes _ (λ r v, action_violation host rs node (ActionSite.Rule (Rule.id r))
      (Rule.action r) v)) by (intros; apply validate_action_pushes).
    rewrite elem_of_nil. tauto.
  - eexists. split; [done|]. intros v. rewrite list_elem_of_singleton. split.
    + intros ->. by constructor.
    + by destruct 1; simplify_eq/=.
Qed.

Lemma validate_rule_set_spec wf host rs :
  (validate_rule_set wf host rs = Done (Ok tt) ↔ ∀ v, ¬ violation wf host rs v)
  ∧ (∀ v, validate_rule_set wf host rs = Done (Err v) → violation wf host rs v).
Proof.
  destruct (rule_set_violations_spec wf host rs) as (vs & Hvs & Hv).
  unfold validate_rule_set. rewrite Hvs. simpl.
  setoid_rewrite <- Hv. destruct vs as [|v0 vs]; simpl; (split; [split|]); try done.
  - intros _ v Hin. by inversion Hin.
  - intros Hno. destruct (Hno v0). left.
  - intros v [= ->]. left.
Qed.

(** C23. Checking a rule set against its host node and the workflow returns on
    every input and reports exactly the problems there are: an undeclared host,
    a [Route] to an undeclared output port, a [DeadLetter] without the
    dead-letter port, a [SourceNode] condition (at any depth) that names an
    undeclared node or one with no path to the host, an [ArrivedOnPort]
    condition on an undeclared input port.  The rule set is accepted exactly
    when there is none, and a rejection is one of them. *)
Theorem rule_set_diagnostics (wf : WorkflowDefinition) (host : NodeId) (rs : RuleSet) :
  (∃ vs, rule_set_violations wf host rs = Done vs ∧ ∀ v, v ∈ vs ↔ violation wf host rs v)
  ∧ (validate_rule_set wf host rs = Done (Ok tt) ↔ ∀ v, ¬ violation wf host rs v)
  ∧ (∀ v, validate_rule_set wf host rs = Done (Err v) → violation wf host rs v).
Proof. split; [apply rule_set_violations_spec|apply validate_rule_set_spec]. Qed.
