(* ===== verification/RuleNode.v ===== *)
(** [pureflow-rules], the native rule node
    (src/crates/pureflow-rules/src/node.rs).

    The run of a rule node is an async loop.  Its suspension points are the
    receive and the send, so the run is a state machine: [turn] takes it from
    one poll of a suspension point to the next, and between two turns the rest
    of the system may do anything.  The [packet_counter] is shared by every run
    of the node, and is part of the state. *)

From Stdlib Require Import Lia.
From stdpp Require Import relations.
From S2P Require Import Prelude RustStr BTree Types Workflow Errors Json Context Message Metadata MetadataSink Rules RuleEval Channel Ports PortsSpec.

(** [impl Display for serde_json::Value]. *)
Class JsonDisplay `{J : JsonNumber} := value_to_string : Value → rstr.

Definition IN_PORT : rstr := lit "in".

Record RuleNode : Set := mk_rule_node {
  rule_set : RuleSet;
  node_sink : bool;
  packet_counter : N;
}.

Definition rule_node_new (rs : RuleSet) : RuleNode := mk_rule_node rs false 0.
Definition rule_node_with_metadata_sink (n : RuleNode) : RuleNode :=
  mk_rule_node (rule_set n) true (packet_counter n).

(** [packet_counter.fetch_add(1)], which wraps around. *)
Definition fetch_add (counter : N) : N * N := (counter, ((counter + 1) mod 2 ^ 64)%N).

(** ** Evaluation records *)

Definition strategy_to_eval (s : EvaluationStrategy) : RuleEvalStrategy :=
  match s with
  | EvaluationStrategy.FirstMatch => RuleEvalStrategy.FirstMatch
  | EvaluationStrategy.AllMatches => RuleEvalStrategy.AllMatches
  | EvaluationStrategy.Score => RuleEvalStrategy.Score
  end.

Section records.
Context `{J : JsonNumber} `{!JsonDisplay}.

Definition scalar_to_json (v : ScalarValue) : Value :=
  match v with
  | ScalarValue.String s => Value.String s
  | ScalarValue.Integer i => Value.of_i64 i
  | ScalarValue.Float f => Value.of_f64 f
  | ScalarValue.Boolean b => Value.Bool b
  | ScalarValue.Null => Value.Null
  end.

Definition action_to_eval (a : RuleAction) : RuleEvalAction :=
  match a with
  | RuleAction.Route port => RuleEvalAction.Route port
  | RuleAction.Drop => RuleEvalAction.Drop
  | RuleAction.DeadLetter reason => RuleEvalAction.DeadLetter reason
  | RuleAction.Tag key value => RuleEvalAction.Tag key (value_to_string (scalar_to_json value))
  | RuleAction.Halt msg => RuleEvalAction.Halt msg
  end.

Definition packet_source (packet : PortPacket) : option NodeId :=
  MessageEndpoint.node_id <$>
    MessageRoute.source (MessageMetadata.route (MessageEnvelope.metadata packet)).
Definition packet_arrival (packet : PortPacket) : PortId :=
  MessageEndpoint.port_id
    (MessageRoute.target (MessageMetadata.route (MessageEnvelope.metadata packet))).

Definition build_rule_eval_record (ctx : NodeContext) (rs : RuleSet) (packet : PortPacket)
    (decision : RuleDecision) (tags_at_eval : btree_map rstr ScalarValue) : RuleEvalRecord :=
  RuleEvalRecord.mk (NodeContext.node_id ctx) (NodeContext.workflow_id ctx)
    (NodeContext.execution ctx) (RuleSet.id rs) (strategy_to_eval (RuleSet.strategy rs))
    (RuleDecision.matched_rule decision) (action_to_eval (RuleDecision.action decision))
    (N.of_nat (length (RuleSet.rules rs)) mod 2 ^ 32)%N
    ((λ kv, (kv.1, scalar_to_json kv.2)) <$> RuleDecision.tags_applied decision)
    (packet_source packet) (Some (packet_arrival packet)) 0
    ((λ kv, (kv.1, scalar_to_json kv.2)) <$> tags_at_eval)
    (RuleDecision.conditions_evaluated decision).

(** The context the node builds for each packet. *)
Definition packet_context (ctx : NodeContext) (packet : PortPacket) : EvalContext :=
  EvalContext.mk [] (packet_source packet) (Some (packet_arrival packet)) 0
    (NodeContext.workflow_id ctx) [].

(** ** Forwarding *)

Definition rule_message_id (node_id : NodeId) (output_port : PortId) (seq : N) : rstr :=
  as_str node_id ++ lit "-rule-" ++ as_str output_port ++ lit "-" ++ show_N seq.

Definition forward_packet (ctx : NodeContext) (output_port : PortId) (seq : N)
    (incoming : PortPacket) : result PortPacket PureflowError :=
  let source := MessageEndpoint.new (NodeContext.node_id ctx) output_port in
  let target := MessageEndpoint.new (NodeContext.node_id ctx) output_port in
  let route := MessageRoute.new (Some source) target in
  let? message_id :=
    map_err (λ e, PureflowError.execution
                    (lit "rule node message id error: " ++ IdentifierError.fmt e))
      (identifier_new (rule_message_id (NodeContext.node_id ctx) output_port seq)) in
  Ok (MessageEnvelope.new
        (MessageMetadata.new message_id (NodeContext.workflow_id ctx)
           (NodeContext.execution ctx) route)
        (MessageEnvelope.into_payload incoming)).

(** What a failed send becomes: the two [map_err]s of [execute_action]. *)
Inductive SendKind : Set := Routing | DeadLettering (reason : rstr).

Definition send_failure (kind : SendKind) (e : PortSendError) : PureflowError :=
  match kind with
  | Routing => PureflowError.execution (PortSendError.fmt e)
  | DeadLettering reason =>
      PureflowError.execution
        (lit "dead-letter send failed (" ++ reason ++ lit "): " ++ PortSendError.fmt e)
  end.

(** [execute_action] up to its send: the action is complete, or a packet is to
    be sent. *)
Definition start_action (action : RuleAction) (ctx : NodeContext) (seq : N)
    (packet : PortPacket) :
    result (option (SendKind * PortId * PortPacket)) PureflowError :=
  match action with
  | RuleAction.Route port_id =>
      let? forwarded := forward_packet ctx port_id seq packet in
      Ok (Some (Routing, port_id, forwarded))
  | RuleAction.Drop | RuleAction.Tag _ _ => Ok None
  | RuleAction.DeadLetter reason =>
      let? dead_port :=
        map_err (λ e, PureflowError.execution (lit "invalid port id: " ++ IdentifierError.fmt e))
          (identifier_new (lit "dead_letter")) in
      let? forwarded := forward_packet ctx dead_port seq packet in
      Ok (Some (DeadLettering reason, dead_port, forwarded))
  | RuleAction.Halt message => Err (PureflowError.execution (lit "rule halted: " ++ message))
  end.
End records.

(** ** The run *)

Section run.
Context `{J : JsonNumber} `{!JsonDisplay} `{FloatDisplay} {S : Type} `{!MetadataSink S}
  `{M : !Mpsc PortPacket}.

(** The suspension points of [run], and its end. *)
Inductive run_state : Type :=
| Begin
| LoopHead (in_port : PortId)
| Receiving (in_port : PortId)
| Sending (in_port : PortId) (kind : SendKind) (port_id : PortId) (packet : PortPacket)
| Finished (r : result unit PureflowError).

(** The check between packets, after which the loop goes round. *)
Definition after_packet (ctx : NodeContext) (in_port : PortId) (w : world (S := S)) : run_state :=
  if CancellationToken.is_cancelled (w_signals w) (NodeContext.cancellation_token ctx) then
    Finished (Err (PureflowError.cancelled (lit "rule node cancelled after processing packet")))
  else LoopHead in_port.

(** From a received packet to the send it needs, if any: evaluate, record, count. *)
Definition process_packet (ctx : NodeContext) (node : RuleNode) (packet : PortPacket)
    (w : world (S := S)) :
    RuleNode * result (option (SendKind * PortId * PortPacket)) PureflowError * world (S := S) :=
  match map_err (λ e, PureflowError.execution (lit "rule evaluation error: " ++ RuleError.fmt e))
          (evaluate (rule_set node) packet (packet_context ctx packet)) with
  | Err e => (node, Err e, w)
  | Ok decision =>
      let w := record_to (node_sink node)
        (MetadataRecord.RuleEval
           (build_rule_eval_record ctx (rule_set node) packet decision [])) w in
      let (seq, counter) := fetch_add (packet_counter node) in
      (mk_rule_node (rule_set node) (node_sink node) counter,
       start_action (RuleDecision.action decision) ctx seq packet, w)
  end.

Definition turn (ctx : NodeContext) (inputs : PortsIn) (outputs : PortsOut) (cx_cancelled : bool)
    (node : RuleNode) (st : run_state) (w : world (S := S)) :
    RuleNode * run_state * world (S := S) :=
  let cancellation := NodeContext.cancellation_token ctx in
  match st with
  | Begin =>
      match map_err (λ e, PureflowError.execution
                            (lit "invalid port id: " ++ IdentifierError.fmt e))
              (identifier_new IN_PORT) with
      | Ok in_port => (node, LoopHead in_port, w)
      | Err e => (node, Finished (Err e), w)
      end
  | LoopHead in_port => (node, Receiving in_port, start_recv inputs in_port w)
  | Receiving in_port =>
      let (r, w) := poll_recv inputs in_port cancellation cx_cancelled w in
      match r with
      | Pending => (node, Receiving in_port, w)
      | Ready (Ok (Some packet)) =>
          let '(node, r, w) := process_packet ctx node packet w in
          (node,
           match r with
           | Err e => Finished (Err e)
           | Ok None => after_packet ctx in_port w
           | Ok (Some (kind, port_id, forwarded)) => Sending in_port kind port_id forwarded
           end, w)
      | Ready (Ok None) | Ready (Err (PortRecvError.Disconnected _)) =>
          (node, Finished (Ok tt), w)
      | Ready (Err (PortRecvError.UnknownPort port_id)) =>
          (node, Finished (Err (PureflowError.execution
             (lit "rule node: input port `" ++ as_str port_id ++ lit "` not declared"))), w)
      | Ready (Err (PortRecvError.Cancelled _)) =>
          (node, Finished (Err (PureflowError.cancelled
             (lit "rule node cancelled while waiting for input"))), w)
      end
  | Sending in_port kind port_id packet =>
      let (r, w) := poll_send outputs port_id packet cancellation w in
      match r with
      | Pending => (node, Sending in_port kind port_id packet, w)
      | Ready (Ok _) => (node, after_packet ctx in_port w, w)
      | Ready (Err e) => (node, Finished (Err (send_failure kind e)), w)
      end
  | Finished r => (node, Finished r, w)
  end.

(** ** Specification *)

(** What one received packet is turned into: at most one packet on one port. *)
Definition routed_packet (ctx : NodeContext) (rs : RuleSet) (seq : N) (packet : PortPacket) :
    list (PortId * PortPacket) :=
  match evaluate rs packet (packet_context ctx packet) with
  | Err _ => []
  | Ok decision =>
      match RuleDecision.action decision with
      | RuleAction.Route port => match forward_packet ctx port seq packet with
                                 | Ok forwarded => [(port, forwarded)]
                                 | Err _ => []
                                 end
      | RuleAction.DeadLetter _ => match forward_packet ctx (ident "dead_letter") seq packet with
                                   | Ok forwarded => [(ident "dead_letter", forwarded)]
                                   | Err _ => []
                                   end
      | _ => []
      end
  end.

(** The stream a rule node makes of the packets it received, each with the
    sequence number it drew. *)
Definition routed (ctx : NodeContext) (rs : RuleSet) (received : list (N * PortPacket)) :
    list (PortId * PortPacket) :=
  received ≫= λ sp, routed_packet ctx rs sp.1 sp.2.

(** What a turn takes from the input port and hands to the output ports. *)
Definition received_by (ctx : NodeContext) (inputs : PortsIn) (cx_cancelled : bool)
    (node : RuleNode) (st : run_state) (w : world (S := S)) : list (N * PortPacket) :=
  match st with
  | Receiving in_port =>
      match (poll_recv inputs in_port (NodeContext.cancellation_token ctx) cx_cancelled w).1 with
      | Ready (Ok (Some packet)) => [(packet_counter node, packet)]
      | _ => []
      end
  | _ => []
  end.

Definition sent_by (ctx : NodeContext) (outputs : PortsOut) (st : run_state)
    (w : world (S := S)) : list (PortId * PortPacket) :=
  match st with
  | Sending _ _ port_id packet =>
      match (poll_send outputs port_id packet (NodeContext.cancellation_token ctx) w).1 with
      | Ready (Ok _) => [(port_id, packet)]
      | _ => []
      end
  | _ => []
  end.

Record node_run : Type := mk_run {
  run_at : run_state;
  run_world : world (S := S);
  run_counter : N;
  run_received : list (N * PortPacket);
  run_sent : list (PortId * PortPacket);
}.

(** A step is a turn of the node, or anything the rest of the system does to
    the channels, the sink, the signals and the shared counter. *)
Inductive node_step (ctx : NodeContext) (inputs : PortsIn) (outputs : PortsOut) (rs : RuleSet)
    (sink : bool) : node_run → node_run → Prop :=
| step_turn cx_cancelled st w counter rcv snt counter' st' w' :
    turn ctx inputs outputs cx_cancelled (mk_rule_node rs sink counter) st w
    = (mk_rule_node rs sink counter', st', w') →
    node_step ctx inputs outputs rs sink (mk_run st w counter rcv snt)
      (mk_run st' w' counter'
         (rcv ++ received_by ctx inputs cx_cancelled (mk_rule_node rs sink counter) st w)
         (snt ++ sent_by ctx outputs st w))
| step_environment st w counter rcv snt w' counter' :
    node_step ctx inputs outputs rs sink (mk_run st w counter rcv snt)
      (mk_run st w' counter' rcv snt).

(** ** Lemmas *)

Lemma dead_letter_port :
  identifier_new (kind := IdentifierKind.Port) (lit "dead_letter") = Ok (ident "dead_letter").
Proof. vm_compute. reflexivity. Qed.

Lemma in_port_ok : identifier_new (kind := IdentifierKind.Port) IN_PORT = Ok (ident "in").
Proof. vm_compute. reflexivity. Qed.

Lemma evaluate_ok rs packet context : ∃ d, evaluate rs packet context = Ok d.
Proof.
  rewrite evaluate_spec. by eexists.
Qed.

Lemma forward_packet_ok ctx port seq packet forwarded :
  forward_packet ctx port seq packet = Ok forwarded →
  MessageEnvelope.payload forwarded = MessageEnvelope.payload packet
  ∧ as_str (MessageMetadata.message_id (MessageEnvelope.metadata forwarded))
    = rule_message_id (NodeContext.node_id ctx) port seq.
Proof.
  unfold forward_packet. destruct (identifier_new _) as [id|] eqn:Hid; simpl; [|done].
  intros [= <-]. simpl. split; [done|].
  by apply identifier_new_ok in Hid as [? _].
Qed.

(** What [execute_action] sends is what the specification says of the packet. *)
Lemma process_packet_routed ctx node packet w :
  let '(node', r, _) := process_packet ctx node packet w in
  rule_set node' = rule_set node ∧ node_sink node' = node_sink node
  ∧ routed_packet ctx (rule_set node) (packet_counter node) packet
    = match r with Ok (Some (_, port, forwarded)) => [(port, forwarded)] | _ => [] end.
Proof.
  unfold process_packet, routed_packet.
  destruct (evaluate_ok (rule_set node) packet (packet_context ctx packet)) as [d ->].
  simpl. split; [done|]. split; [done|].
  destruct (RuleDecision.action d) as [port| |reason| |]; simpl; try done;
    rewrite ?dead_letter_port; simpl; by destruct (forward_packet _ _ _ _).
Qed.

(** *** The run refines the specification *)

(** How the packets sent so far relate to those the packets received so far
    should become. *)
Definition run_accounts (ctx : NodeContext) (rs : RuleSet) (st : run_state)
    (rcv : list (N * PortPacket)) (snt : list (PortId * PortPacket)) : Prop :=
  match st with
  | Sending _ _ port packet => routed ctx rs rcv = snt ++ [(port, packet)]
  | Finished (Err e) =>
      routed ctx rs rcv = snt
      ∨ ∃ port packet kind err,
          routed ctx rs rcv = snt ++ [(port, packet)] ∧ e = send_failure kind err
  | _ => routed ctx rs rcv = snt
  end.

Lemma run_accounts_idle ctx rs st rcv snt :
  match st with Sending _ _ _ _ => False | _ => True end →
  routed ctx rs rcv = snt → run_accounts ctx rs st rcv snt.
Proof. destruct st as [| | | |[]]; simpl; auto; done. Qed.

Lemma after_packet_idle ctx in_port w :
  match after_packet ctx in_port w with Sending _ _ _ _ => False | _ => True end.
Proof. unfold after_packet. by destruct (CancellationToken.is_cancelled _ _). Qed.

Lemma routed_snoc ctx rs rcv seq packet :
  routed ctx rs (rcv ++ [(seq, packet)]) = routed ctx rs rcv ++ routed_packet ctx rs seq packet.
Proof. unfold routed. rewrite bind_app. simpl. by rewrite app_nil_r. Qed.

Lemma turn_accounts ctx inputs outputs cx node st w rcv snt :
  run_accounts ctx (rule_set node) st rcv snt →
  run_accounts ctx (rule_set node) (turn ctx inputs outputs cx node st w).1.2
    (rcv ++ received_by ctx inputs cx node st w) (snt ++ sent_by ctx outputs st w).
Proof.
  intros Hacc. destruct st as [|in_port|in_port|in_port kind port packet|r];
    cbn [turn received_by sent_by].
  - rewrite in_port_ok, !app_nil_r. done.
  - by rewrite !app_nil_r.
  - rewrite app_nil_r. destruct (poll_recv _ _ _ _ _) as [r w1]. simpl in *.
    destruct r as [[[packet|]|[]]|]; simpl; rewrite ?app_nil_r; auto.
    pose proof (process_packet_routed ctx node packet w1) as H1.
    destruct (process_packet ctx node packet w1) as [[node' r] w2]. simpl.
    destruct H1 as (_ & _ & Hr). pose proof (routed_snoc ctx (rule_set node) rcv
      (packet_counter node) packet) as Hs. rewrite Hr, Hacc in Hs.
    destruct r as [[[[kind port] forwarded]|]|e]; rewrite ?app_nil_r in Hs; [done| |by left].
    apply run_accounts_idle; [apply after_packet_idle|done].
  - rewrite app_nil_r. simpl in Hacc. destruct (poll_send _ _ _ _ _) as [[[?|e]|] w1]; simpl.
    + apply run_accounts_idle; [apply after_packet_idle|done].
    + right. rewrite app_nil_r. by exists port, packet, kind, e.
    + by rewrite app_nil_r.
  - by rewrite !app_nil_r.
Qed.

Lemma turn_node ctx inputs outputs cx node st w :
  let node' := (turn ctx inputs outputs cx node st w).1.1 in
  rule_set node' = rule_set node ∧ node_sink node' = node_sink node.
Proof.
  destruct st as [|in_port|in_port|in_port kind port packet|r]; cbn [turn]; try done.
  - destruct (poll_recv _ _ _ _ _) as [[[[packet|]|[]]|] w1]; try done.
    pose proof (process_packet_routed ctx node packet w1) as Hp.
    destruct (process_packet ctx node packet w1) as [[node' r] w2]. by destruct Hp as (? & ? & _).
  - by destruct (poll_send _ _ _ _ _) as [[[?|e]|] w1].
Qed.

(** *** Running turns, for examples *)

Fixpoint run_turns (fuel : nat) (ctx : NodeContext) (inputs : PortsIn) (outputs : PortsOut)
    (node : RuleNode) (R : node_run) : node_run :=
  match fuel with
  | 0 => R
  | Datatypes.S fuel =>
      let node := mk_rule_node (rule_set node) (node_sink node) (run_counter R) in
      let '(node', st, w) := turn ctx inputs outputs false node (run_at R) (run_world R) in
      run_turns fuel ctx inputs outputs node'
        (mk_run st w (packet_counter node')
           (run_received R ++ received_by ctx inputs false node (run_at R) (run_world R))
           (run_sent R ++ sent_by ctx outputs (run_at R) (run_world R)))
  end.

Lemma run_turns_steps fuel ctx inputs outputs node R :
  rtc (node_step ctx inputs outputs (rule_set node) (node_sink node)) R
    (run_turns fuel ctx inputs outputs node R).
Proof.
  revert node R. induction fuel as [|fuel IH]; intros node R; [done|].
  destruct R as [st w counter rcv snt]. cbn [run_turns run_at run_world run_counter
    run_received run_sent].
  set (node0 := mk_rule_node _ _ counter).
  pose proof (turn_node ctx inputs outputs false node0 st w) as [Hrs Hsink].
  destruct (turn ctx inputs outputs false node0 st w) as [[node' st'] w'] eqn:Ht.
  simpl in Hrs, Hsink. destruct node' as [rs' sink' counter']. simpl in *. subst rs' sink'.
  eapply rtc_l; [by apply step_turn|]. apply (IH (mk_rule_node _ _ counter')).
Qed.

(** ** Properties *)

(** C6. Whatever the rest of the system does between the turns of a rule node,
    and however the run ends: the packets it has sent are, in order and without
    repetition or loss, what its rule set makes of the packets it has received,
    except for at most one packet, the one being sent, or, when the run failed
    in a send, the one that send was for. *)
Theorem rule_node_refines_routing (ctx : NodeContext) (inputs : PortsIn) (outputs : PortsOut)
  (rs : RuleSet) (sink : bool) (w : world (S := S)) (counter : N) (R : node_run)
  (Hrun : rtc (node_step ctx inputs outputs rs sink) (mk_run Begin w counter [] []) R) :
  run_accounts ctx rs (run_at R) (run_received R) (run_sent R).
Proof.
  remember (mk_run Begin w counter [] []) as R0 eqn:E.
  assert (Hacc : run_accounts ctx rs (run_at R0) (run_received R0) (run_sent R0)) by by subst.
  clear E. induction Hrun as [|R0 R1 R Hstep _ IH]; [done|]. apply IH.
  destruct Hstep as [cx st w0 c rcv snt c' st' w' Ht|]; [|done].
  pose proof (turn_accounts ctx inputs outputs cx (mk_rule_node rs sink c) st w0 rcv snt Hacc) as Ha.
  by rewrite Ht in Ha.
Qed.

(** A cancellation that arrives while a packet is being sent loses the
    packet: the next turn of the node ends the run without sending it, and
    reports an execution failure instead of a cancellation. *)
Theorem cancelled_send_loses_packet (ctx : NodeContext) (inputs : PortsIn) (outputs : PortsOut)
  (cx_cancelled : bool) (node : RuleNode) (in_port : PortId) (kind : SendKind) (port_id : PortId)
  (port : OutputPortHandle) (packet : PortPacket) (w : world (S := S))
  (Hfind : find_output outputs port_id = Some port)
  (Hcancelled : CancellationToken.is_cancelled (w_signals w)
                  (NodeContext.cancellation_token ctx) = true) :
  ∃ e, turn ctx inputs outputs cx_cancelled node (Sending in_port kind port_id packet) w
       = (node, Finished (Err e), w)
    ∧ PureflowError.code e = ErrorCode.NodeExecutionFailed
    ∧ PureflowError.retry_disposition e = RetryDisposition.Unknown.
Proof.
  cbn [turn]. unfold poll_send, poll_reserve, output_poll_reserve. rewrite Hfind, Hcancelled.
  eexists. split; [done|]. by destruct kind.
Qed.

Lemma routed_packet_elem ctx rs seq packet port forwarded :
  (port, forwarded) ∈ routed_packet ctx rs seq packet →
  forward_packet ctx port seq packet = Ok forwarded.
Proof.
  unfold routed_packet. destruct (evaluate _ _ _) as [d|]; [|by intros Hacc; inversion Hacc].
  destruct (RuleDecision.action d) as [p| |reason| |]; try by intros Hacc; inversion Hacc.
  all: destruct (forward_packet _ _ _ _) as [f|] eqn:Hf; [|by intros Hacc; inversion Hacc];
    by intros [= -> ->]%list_elem_of_singleton.
Qed.

Lemma rule_message_id_inj node p p' seq seq' :
  rule_message_id node p seq = rule_message_id node p' seq' → p = p' ∧ seq = seq'.
Proof.
  unfold rule_message_id. intros Hacc%app_inv_head. apply (app_inv_head (lit "-rule-")) in Hacc.
  change (lit "-") with [45%N] in Hacc. simpl in Hacc.
  apply last_sep_inj in Hacc as [Hp Hs%(inj show_N)]; try apply show_N_no_dash.
  destruct p, p'. simpl in Hp. by subst.
Qed.

(** The packets a rule node sends for packets that drew different sequence
    numbers carry pairwise different message ids, whatever the output ports are
    called, and their payloads are the received ones. *)
Theorem rule_message_ids_unique (ctx : NodeContext) (rs : RuleSet)
  (received : list (N * PortPacket)) (Hnd : NoDup received.*1) :
  NoDup ((λ pp, MessageMetadata.message_id (MessageEnvelope.metadata pp.2)) <$>
           routed ctx rs received)
  ∧ ∀ port forwarded, (port, forwarded) ∈ routed ctx rs received →
      ∃ seq packet, (seq, packet) ∈ received
        ∧ MessageEnvelope.payload forwarded = MessageEnvelope.payload packet.
Proof.
  assert (Helem : ∀ l port forwarded, (port, forwarded) ∈ routed ctx rs l →
    ∃ seq packet, (seq, packet) ∈ l ∧ forward_packet ctx port seq packet = Ok forwarded).
  { intros l port forwarded ([seq packet] & Hf%routed_packet_elem & Hin)%list_elem_of_bind. eauto. }
  split.
  - induction received as [|[seq packet] l IH]; [constructor|].
    simpl in Hnd. apply NoDup_cons in Hnd as [Hseq Hnd]. unfold routed. simpl.
    rewrite fmap_app. apply NoDup_app. split_and!; [|
      |by apply IH].
    + destruct (routed_packet ctx rs seq packet) as [|x [|y l']] eqn:Hr; simpl;
        [constructor|apply NoDup_singleton|].
      exfalso. revert Hr. unfold routed_packet. repeat case_match; done.
    + intros id ([p f] & -> & Hf%routed_packet_elem)%list_elem_of_fmap.
      intros ([p' f'] & Hid & (seq' & packet' & Hin & Hf')%Helem)%list_elem_of_fmap.
      apply forward_packet_ok in Hf as [_ Hf]. apply forward_packet_ok in Hf' as [_ Hf'].
      simpl in Hid. rewrite Hid, Hf' in Hf. apply rule_message_id_inj in Hf as [_ ->].
      destruct Hseq. apply list_elem_of_fmap. by exists (seq, packet').
  - intros port forwarded (seq & packet & Hin & [Hf _]%forward_packet_ok)%Helem.
    by exists seq, packet.
Qed.
End run.

(** ** Examples *)

Section examples.
#[local] Instance no_float_text : FloatDisplay := λ _, lit "float".
#[local] Instance no_json_text : JsonDisplay := λ _, lit "json".

Let packet : PortPacket :=
  MessageEnvelope.new
    (MessageMetadata.new (ident "m1") (ident "flow")
       (ExecutionMetadata.first_attempt (ident "run-1"))
       (MessageRoute.new None (MessageEndpoint.new (ident "router") (ident "in"))))
    (PacketPayload.Control Value.Null).
Let rs : RuleSet :=
  RuleSet.mk (lit "orders") EvaluationStrategy.FirstMatch
    [Rule.mk (lit "all") Condition.Always (RuleAction.Route (ident "high")) 0 []]
    RuleAction.Drop false.
Let ctx : NodeContext :=
  NodeContext.mk (ident "flow") (ident "router")
    (ExecutionMetadata.first_attempt (ident "run-1")) (CancellationToken.mk 0).
Let inputs : PortsIn := mk_ports_in [ident "in"] [mk_input (ident "in") [0]] true None.
Let outputs : PortsOut := mk_ports_out [ident "high"] [mk_output (ident "high") [1]] true None None.
(** One packet waits on the input, whose senders are gone. *)
Let start (cancelled : option CancellationRequest) : world (S := list MetadataRecord) :=
  mk_world [mk_view [packet] 0 1 false true; mk_view [] 0 1 true true] [] [cancelled].
Let first (cancelled : option CancellationRequest) : node_run :=
  mk_run Begin (start cancelled) 0 [] [].

(** The node routes the packet and ends when the input is drained. *)
Lemma rule_node_refines_routing_witness :
  let R := run_turns 6 ctx inputs outputs (rule_node_new rs) (first None) in
  run_at R = Finished (Ok tt)
  ∧ length (run_sent R) = 1
  ∧ routed ctx rs (run_received R) = run_sent R.
Proof.
  intros R. split; [reflexivity|]. split; [reflexivity|].
  exact (rule_node_refines_routing ctx inputs outputs rs false (start None) 0 R
           (run_turns_steps 6 ctx inputs outputs (rule_node_new rs) (first None))).
Defined.

Lemma cancelled_send_loses_packet_witness :
  let w := start (Some (CancellationRequest.new (lit "stop"))) in
  ∃ e, turn ctx inputs outputs false (rule_node_new rs)
         (Sending (ident "in") Routing (ident "high") packet) w
       = (rule_node_new rs, Finished (Err e), w)
    ∧ PureflowError.code e = ErrorCode.NodeExecutionFailed
    ∧ PureflowError.retry_disposition e = RetryDisposition.Unknown.
Proof.
  intros w.
  exact (cancelled_send_loses_packet ctx inputs outputs false (rule_node_new rs) (ident "in")
           Routing (ident "high") (mk_output (ident "high") [1]) packet w eq_refl eq_refl).
Defined.

Lemma rule_message_ids_unique_witness :
  NoDup ((λ pp, MessageMetadata.message_id (MessageEnvelope.metadata pp.2)) <$>
           routed ctx rs [(0%N, packet); (1%N, packet)]).
Proof.
  refine (proj1 (rule_message_ids_unique ctx rs [(0%N, packet); (1%N, packet)] _)).
  apply (bool_decide_eq_true_1 _). reflexivity.
Defined.
End examples.
