(* ===== verification/RuleDeployment.v ===== *)
(** A rule set accepted by the contract layer
    (src/crates/pureflow-contract/src/rules.rs), run by a rule node
    (src/crates/pureflow-rules/src/node.rs): the load-time check rules out
    sends to ports the node does not have. *)

From stdpp Require Import relations.
From S2P Require Import Prelude RustStr BTree Types Workflow Structure Errors Json Context Message Metadata MetadataSink Rules RuleEval RuleContract Channel Ports PortsSpec RuleNode.

(** The output ports the actions of a rule set name. *)
Definition action_port (a : RuleAction) : option PortId :=
  match a with
  | RuleAction.Route port => Some port
  | RuleAction.DeadLetter _ => Some (ident "dead_letter")
  | _ => None
  end.

Lemma accepted_action_port wf host rs nd site a port :
  validate_rule_set wf host rs = Done (Ok tt) →
  node_by_id (WorkflowDefinition.nodes wf) host = Some nd →
  action_at rs site a → action_port a = Some port → port ∈ NodeDefinition.output_ports nd.
Proof.
  intros Hacc Hnode Ha Hp. pose proof (proj1 (proj1 (validate_rule_set_spec wf host rs)) Hacc) as Hno.
  destruct (decide (port ∈ NodeDefinition.output_ports nd)) as [|Hout]; [done|]. exfalso.
  destruct a; simplify_eq/=; eapply Hno; [by eapply bad_route|by eapply no_dead_letter].
Qed.

Section deployment.
Context `{J : JsonNumber} `{!JsonDisplay} `{FloatDisplay} {S : Type} `{!MetadataSink S}
  `{M : !Mpsc PortPacket}.

(** A decision takes the action of some site of the rule set. *)
Lemma decision_site rs packet context d :
  evaluate rs packet context = Ok d → ∃ site, action_at rs site (RuleDecision.action d).
Proof.
  rewrite evaluate_spec. intros [= <-].
  assert (Hd : ∀ r, iter_find (decisive (MessageEnvelope.payload packet) context)
    (RuleSet.rules rs) = Some r → action_at rs (ActionSite.Rule (Rule.id r)) (Rule.action r)).
  { intros r [Hr _]%iter_find_elem. by exists r. }
  destruct (RuleSet.strategy rs); simpl; [| |];
    try (destruct (iter_find _ _) as [r|] eqn:Hf; simpl; [eexists; by apply Hd|]);
    by exists ActionSite.DefaultAction.
Qed.

Lemma process_packet_port ctx node packet (w : world (S := S)) :
  match (process_packet ctx node packet w).1.2 with
  | Ok (Some (_, port, _)) => ∃ site a, action_at (rule_set node) site a ∧ action_port a = Some port
  | _ => True
  end.
Proof.
  unfold process_packet.
  destruct (evaluate_ok (rule_set node) packet (packet_context ctx packet)) as [d Hd].
  rewrite Hd. destruct (decision_site _ _ _ _ Hd) as [site Hsite]. simpl.
  destruct (RuleDecision.action d) as [port| |reason| |] eqn:Ha; simpl; try done;
    rewrite ?dead_letter_port; simpl; destruct (forward_packet _ _ _ _); simpl; eauto.
Qed.

Definition sends_to (ports : list PortId) (st : run_state) : Prop :=
  match st with Sending _ _ port _ => port ∈ ports | _ => True end.

Lemma turn_sends_to wf host nd ctx inputs outputs cx node st (w : world (S := S)) :
  validate_rule_set wf host (rule_set node) = Done (Ok tt) →
  node_by_id (WorkflowDefinition.nodes wf) host = Some nd →
  sends_to (NodeDefinition.output_ports nd) st →
  sends_to (NodeDefinition.output_ports nd) (turn ctx inputs outputs cx node st w).1.2.
Proof.
  intros Hacc Hnode Hst. assert (Hafter : ∀ p w, sends_to (NodeDefinition.output_ports nd)
    (after_packet (S := S) ctx p w)).
  { intros p w0. pose proof (after_packet_idle ctx p w0). by destruct (after_packet _ _ _). }
  destruct st as [|in_port|in_port|in_port kind port packet|r]; cbn [turn]; try done.
  - destruct (poll_recv _ _ _ _ _) as [[[[packet|]|[]]|] w1]; try done.
    pose proof (process_packet_port ctx node packet w1) as Hp.
    destruct (process_packet ctx node packet w1) as [[node' r] w2]. simpl in *.
    destruct r as [[[[kind port] f]|]|e]; [|apply Hafter|done].
    destruct Hp as (site & a & Ha & Hport). by eapply accepted_action_port.
  - destruct (poll_send _ _ _ _ _) as [[[?|e]|] w1]; simpl; [apply Hafter|done|done].
Qed.

(** C24. When the contract layer has accepted a rule set for a node, and the
    node's output ports are the declared ones, no run of the node, in any
    environment, ever sends to a port it does not have. *)
Theorem accepted_rule_set_sends_to_declared_ports (wf : WorkflowDefinition) (host : NodeId)
  (rs : RuleSet) (nd : NodeDefinition) (ctx : NodeContext) (inputs : PortsIn)
  (outputs : PortsOut) (sink : bool) (w : world (S := S)) (counter : N) (R : node_run)
  (Haccepted : validate_rule_set wf host rs = Done (Ok tt))
  (Hnode : node_by_id (WorkflowDefinition.nodes wf) host = Some nd)
  (Houtputs : (out_port_id <$> out_ports outputs) = NodeDefinition.output_ports nd)
  (Hrun : rtc (node_step ctx inputs outputs rs sink) (mk_run Begin w counter [] []) R) :
  match run_at R with
  | Sending _ _ port_id _ => is_Some (find_output outputs port_id)
  | _ => True
  end.
Proof.
  assert (Hports : sends_to (NodeDefinition.output_ports nd) (run_at R)).
  { remember (mk_run Begin w counter [] []) as R0 eqn:E.
    assert (Hst : sends_to (NodeDefinition.output_ports nd) (run_at R0)) by by subst.
    clear E. induction Hrun as [|R0 R1 R Hstep _ IH]; [done|]. apply IH.
    destruct Hstep as [cx st w0 c rcv snt c' st' w' Ht|]; [|done].
    pose proof (turn_sends_to wf host nd ctx inputs outputs cx (mk_rule_node rs sink c) st w0
      Haccepted Hnode Hst) as Hs. by rewrite Ht in Hs. }
  destruct (run_at R) as [| | |in_port kind port packet|]; try done. simpl in Hports.
  rewrite <- Houtputs in Hports. apply list_elem_of_fmap in Hports as (h & -> & Hh).
  unfold find_output. by eapply iter_find_is_some; [|apply bool_decide_eq_true].
Qed.
End deployment.

Section examples.
#[local] Instance no_float_text : FloatDisplay := λ _, lit "float".
#[local] Instance no_json_text : JsonDisplay := λ _, lit "json".

Let packet : PortPacket :=
  MessageEnvelope.new
    (MessageMetadata.new (ident "m1") (ident "flow")
       (ExecutionMetadata.first_attempt (ident "run-1"))
       (MessageRoute.new None (MessageEndpoint.new (ident "router") (ident "in"))))
    (PacketPayload.Control Value.Null).
Let rs : RuleSet :=
  RuleSet.mk (lit "orders") EvaluationStrategy.FirstMatch
    [Rule.mk (lit "all") (Condition.Not (Condition.SourceNode (ident "feed")))
       (RuleAction.Route (ident "high")) 0 []]
    RuleAction.Drop false.
Let router : NodeDefinition := NodeDefinition.mk (ident "router") [ident "in"] [ident "high"].
Let wf : WorkflowDefinition :=
  WorkflowDefinition.new (ident "flow")
    (WorkflowGraph.mk [NodeDefinition.mk (ident "feed") [] [ident "out"]; router]
       [EdgeDefinition.new (EdgeEndpoint.new (ident "feed") (ident "out"))
          (EdgeEndpoint.new (ident "router") (ident "in"))]).
Let ctx : NodeContext :=
  NodeContext.mk (ident "flow") (ident "router")
    (ExecutionMetadata.first_attempt (ident "run-1")) (CancellationToken.mk 0).
Let inputs : PortsIn := mk_ports_in [ident "in"] [mk_input (ident "in") [0]] true None.
Let outputs : PortsOut := mk_ports_out [ident "high"] [mk_output (ident "high") [1]] true None None.
Let start : world (S := list MetadataRecord) :=
  mk_world [mk_view [packet] 0 1 false true; mk_view [] 0 1 true true] [] [None].

(** After three turns the packet is being sent to a declared port. *)
Lemma accepted_rule_set_sends_to_declared_ports_witness :
  validate_rule_set wf (ident "router") rs = Done (Ok tt)
  ∧ is_Some (find_output outputs (ident "high")).
Proof.
  split; [vm_compute; reflexivity|].
  exact (accepted_rule_set_sends_to_declared_ports wf (ident "router") rs router ctx inputs outputs
           false start 0
           (run_turns 3 ctx inputs outputs (rule_node_new rs) (mk_run Begin start 0 [] []))
           eq_refl eq_refl eq_refl
           (run_turns_steps 3 ctx inputs outputs (rule_node_new rs) (mk_run Begin start 0 [] []))).
Defined.
End examples.
