(* ===== verification/Wiring.v ===== *)
(** [pureflow-engine], from a workflow to node runs
    (src/crates/pureflow-engine/src/lib.rs): run policies, the wiring of edges to
    port handles, output contracts, and what each node is started with.

    A node executor is a parameter: the engine only resolves it and hands it a
    context and ports. *)

From Stdlib Require Import Lia.
From S2P Require Import Prelude RustStr BTree Types Workflow Structure Topology Errors Capability Contract Json Context Message Metadata MetadataSink Channel Ports PortsSpec Traffic.

Definition DEFAULT_EDGE_CAPACITY : NonZeroUsize := 1%positive.

(** ** Run policies *)

Module FeedbackLoopRunPolicy.
Inductive FeedbackLoopStartup : Set := StartAllNodes.
Inductive FeedbackLoopTermination : Set := AllNodesComplete.
Record FeedbackLoopRunPolicy : Set :=
  new { startup : FeedbackLoopStartup; termination : FeedbackLoopTermination }.
Definition start_all_nodes_until_complete : FeedbackLoopRunPolicy :=
  new StartAllNodes AllNodesComplete.
Definition startup_label (s : FeedbackLoopStartup) : rstr :=
  match s with StartAllNodes => lit "start_all_nodes" end.
Definition termination_label (t : FeedbackLoopTermination) : rstr :=
  match t with AllNodesComplete => lit "all_nodes_complete" end.
End FeedbackLoopRunPolicy.
Notation FeedbackLoopRunPolicy := FeedbackLoopRunPolicy.FeedbackLoopRunPolicy.

Module CycleRunPolicy.
Inductive CycleRunPolicy : Set :=
| Reject
| AllowFeedbackLoops (feedback_loop : FeedbackLoopRunPolicy).
Definition label (p : CycleRunPolicy) : rstr :=
  match p with Reject => lit "reject" | AllowFeedbackLoops _ => lit "allow_feedback_loops" end.
End CycleRunPolicy.
Notation CycleRunPolicy := CycleRunPolicy.CycleRunPolicy.

(** [Duration], in nanoseconds. *)
Notation Duration := N.

Module WorkflowWatchdogPolicy.
Record DeadlockWatchdogPolicy : Set := new { no_progress_timeout : Duration }.
Inductive WorkflowWatchdogPolicy : Set :=
| Disabled
| Deadlock (policy : DeadlockWatchdogPolicy).
Definition disabled : WorkflowWatchdogPolicy := Disabled.
Definition deadlock_after (no_progress_timeout : Duration) : WorkflowWatchdogPolicy :=
  Deadlock (new no_progress_timeout).
End WorkflowWatchdogPolicy.
Notation DeadlockWatchdogPolicy := WorkflowWatchdogPolicy.DeadlockWatchdogPolicy.
Notation WorkflowWatchdogPolicy := WorkflowWatchdogPolicy.WorkflowWatchdogPolicy.

Module WorkflowRunPolicy.
Record WorkflowRunPolicy : Set :=
  mk { cycle_policy : CycleRunPolicy; watchdog_policy : WorkflowWatchdogPolicy }.
Definition acyclic : WorkflowRunPolicy :=
  mk CycleRunPolicy.Reject WorkflowWatchdogPolicy.Disabled.
Definition feedback_loops (feedback_loop : FeedbackLoopRunPolicy) : WorkflowRunPolicy :=
  mk (CycleRunPolicy.AllowFeedbackLoops feedback_loop) WorkflowWatchdogPolicy.Disabled.
Definition with_watchdog (p : WorkflowRunPolicy) (watchdog : WorkflowWatchdogPolicy) :
    WorkflowRunPolicy :=
  mk (cycle_policy p) watchdog.
Definition default : WorkflowRunPolicy := acyclic.
End WorkflowRunPolicy.
Notation WorkflowRunPolicy := WorkflowRunPolicy.WorkflowRunPolicy.

Definition cycle_label (cycle : list NodeId) : rstr := join (lit " -> ") (as_str <$> cycle).

Definition validate_cycle_run_policy (workflow : WorkflowDefinition) (policy : WorkflowRunPolicy)
    (cycle : list NodeId) : result unit PureflowError :=
  match WorkflowRunPolicy.cycle_policy policy with
  | CycleRunPolicy.Reject =>
      Err (PureflowError.execution
             (lit "workflow `" ++ as_str (WorkflowDefinition.id workflow)
              ++ lit "` contains directed cycle " ++ cycle_label cycle
              ++ lit "; use an explicit feedback-loop run policy to execute cyclic graphs"))
  | CycleRunPolicy.AllowFeedbackLoops feedback_loop =>
      match FeedbackLoopRunPolicy.startup feedback_loop,
            FeedbackLoopRunPolicy.termination feedback_loop with
      | FeedbackLoopRunPolicy.StartAllNodes, FeedbackLoopRunPolicy.AllNodesComplete => Ok tt
      end
  end.

Definition validate_workflow_run_policy (workflow : WorkflowDefinition)
    (policy : WorkflowRunPolicy) : exec (result unit PureflowError) :=
  let! r := WorkflowGraph.topological_order (WorkflowDefinition.graph workflow) in
  Done (match r with
        | Ok _ => Ok tt
        | Err (WorkflowValidationError.CycleDetected cycle) =>
            validate_cycle_run_policy workflow policy cycle
        | Err err =>
            Err (PureflowError.execution
                   (lit "workflow `" ++ as_str (WorkflowDefinition.id workflow)
                    ++ lit "` topology validation failed before execution: "
                    ++ WorkflowValidationError.fmt err))
        end).

(** ** Output contracts *)

Notation output_contracts := (btree_map PortId (option SchemaRef)).

(** The output ports of one node against its contract, in the order declared. *)
Definition output_contract_of (node : NodeDefinition) (contract : NodeContract)
    (port_id : PortId) : result (PortId * option SchemaRef) PureflowError :=
  let? port_contract :=
    ok_or (iter_find (λ port, bool_decide (PortContract.port_id port = port_id))
             (NodeContract.ports contract))
      (PureflowError.execution
         (lit "node `" ++ as_str (NodeDefinition.id node) ++ lit "` output port `"
          ++ as_str port_id ++ lit "` has no output contract")) in
  if bool_decide (PortContract.direction port_contract ≠ PortDirection.Output) then
    Err (PureflowError.execution
           (lit "node `" ++ as_str (NodeDefinition.id node) ++ lit "` port `"
            ++ as_str port_id ++ lit "` contract is not an output contract"))
  else Ok (port_id, PortContract.schema port_contract).

Definition reject_unknown_output (node : NodeDefinition) (port_contract : PortContract) :
    result unit PureflowError :=
  if bool_decide (PortContract.direction port_contract = PortDirection.Output)
     && negb (vec_contains (PortContract.port_id port_contract)
                (NodeDefinition.output_ports node))
  then
    Err (PureflowError.execution
           (lit "node `" ++ as_str (NodeDefinition.id node)
            ++ lit "` contract references unknown output port `"
            ++ as_str (PortContract.port_id port_contract) ++ lit "`"))
  else Ok tt.

Definition node_output_contracts (contract_map : btree_map NodeId NodeContract)
    (node : NodeDefinition) : result output_contracts PureflowError :=
  match BTreeMap.get (NodeDefinition.id node) contract_map with
  | None =>
      if vec_is_empty (NodeDefinition.output_ports node) then Ok []
      else Err (PureflowError.execution
                  (lit "no output contract supplied for workflow node `"
                   ++ as_str (NodeDefinition.id node) ++ lit "`"))
  | Some contract =>
      let? entries := try_collect (output_contract_of node contract)
                        (NodeDefinition.output_ports node) in
      let? _ := try_for_each (reject_unknown_output node) (NodeContract.ports contract) in
      Ok (BTreeMap.collect entries)
  end.

Record WorkflowOutputContracts : Set := mk_output_contracts {
  contracts_by_node : btree_map NodeId output_contracts;
}.

Definition from_node_contracts (workflow : WorkflowDefinition) (contracts : list NodeContract) :
    result WorkflowOutputContracts PureflowError :=
  let contract_map := BTreeMap.collect ((λ c, (NodeContract.id c, c)) <$> contracts) in
  let? entries := try_collect (λ node,
      let? output_contracts := node_output_contracts contract_map node in
      Ok (NodeDefinition.id node, output_contracts)) (WorkflowDefinition.nodes workflow) in
  let? _ := try_for_each (λ contract,
      if forallb (λ node, bool_decide (NodeDefinition.id node ≠ NodeContract.id contract))
           (WorkflowDefinition.nodes workflow)
      then Err (PureflowError.execution
                  (lit "output contract references unknown workflow node `"
                   ++ as_str (NodeContract.id contract) ++ lit "`"))
      else Ok tt) contracts in
  Ok (mk_output_contracts (BTreeMap.collect entries)).

Definition output_contracts_for (c : WorkflowOutputContracts) (node_id : NodeId) :
    option output_contracts :=
  BTreeMap.get node_id (contracts_by_node c).

Module ContractOutputValidator.
Section validator.
Context `{J : JsonNumber}.

Record ContractOutputValidator : Set := new {
  workflow_id : WorkflowId;
  node_id : NodeId;
  execution : ExecutionMetadata;
  port_contracts : btree_map PortId (option SchemaRef);
}.

Definition reject (port_id : PortId) (reason : rstr) : result unit PortSendError :=
  Err (PortSendError.Rejected port_id reason).

Definition validate (v : ContractOutputValidator) (port_id : PortId) (packet : PortPacket) :
    result unit PortSendError :=
  let metadata := MessageEnvelope.metadata packet in
  if negb (BTreeMap.contains_key port_id (port_contracts v)) then
    reject port_id (lit "node `" ++ as_str (node_id v) ++ lit "` output port `"
                    ++ as_str port_id ++ lit "` has no output contract")
  else if bool_decide (MessageMetadata.workflow_id metadata ≠ workflow_id v) then
    reject port_id (lit "packet workflow `" ++ as_str (MessageMetadata.workflow_id metadata)
                    ++ lit "` does not match workflow `" ++ as_str (workflow_id v) ++ lit "`")
  else if bool_decide (MessageMetadata.execution metadata ≠ execution v) then
    reject port_id
      (lit "packet execution `"
       ++ as_str (ExecutionMetadata.execution_id (MessageMetadata.execution metadata))
       ++ lit "` does not match execution `"
       ++ as_str (ExecutionMetadata.execution_id (execution v)) ++ lit "`")
  else
    match MessageRoute.source (MessageMetadata.route metadata) with
    | None => reject port_id (lit "packet route has no source endpoint")
    | Some source =>
        if bool_decide (MessageEndpoint.node_id source ≠ node_id v)
           || bool_decide (MessageEndpoint.port_id source ≠ port_id) then
          reject port_id
            (lit "packet source `" ++ as_str (MessageEndpoint.node_id source) ++ lit ":"
             ++ as_str (MessageEndpoint.port_id source) ++ lit "` does not match output `"
             ++ as_str (node_id v) ++ lit ":" ++ as_str port_id ++ lit "`")
        else Ok tt
    end.
End validator.
End ContractOutputValidator.
Notation ContractOutputValidator := ContractOutputValidator.ContractOutputValidator.

(** ** Wiring *)

Section wiring.
Context `{J : JsonNumber} {S : Type} `{!MetadataSink S} `{M : !Mpsc PortPacket}.

Record PortWiring : Type := mk_wiring {
  inputs_by_node : btree_map NodeId (list InputPortHandle);
  outputs_by_node : btree_map NodeId (list OutputPortHandle);
}.

(** The body of the loop over the edges. *)
Definition wire_edge (st : PortWiring * world (S := S)) (edge : EdgeDefinition) :
    PortWiring * world (S := S) :=
  let (wiring, w) := st in
  let capacity := EdgeCapacity.resolve (EdgeDefinition.capacity edge) DEFAULT_EDGE_CAPACITY in
  let source := EdgeDefinition.source edge in
  let target := EdgeDefinition.target edge in
  let '((output, input), w) :=
    bounded_edge_channel (EdgeEndpoint.port_id source) (EdgeEndpoint.port_id target) capacity w in
  (mk_wiring
     (BTreeMap.entry_update (EdgeEndpoint.node_id target) [] (λ l, l ++ [input])
        (inputs_by_node wiring))
     (BTreeMap.entry_update (EdgeEndpoint.node_id source) [] (λ l, l ++ [output])
        (outputs_by_node wiring)), w).

Definition build_port_wiring (workflow : WorkflowDefinition) (w : world (S := S)) :
    PortWiring * world (S := S) :=
  foldl wire_edge (mk_wiring [] [], w) (WorkflowDefinition.edges workflow).

(** What the engine starts one node with. *)
Record NodeStart (E : Type) : Type := mk_start {
  start_executor : E;
  start_node_id : NodeId;
  start_context : NodeContext;
  start_inputs : PortsIn;
  start_outputs : PortsOut;
}.
Arguments mk_start {E} _ _ _ _ _.
Arguments start_executor {E} _.
Arguments start_node_id {E} _.
Arguments start_context {E} _.
Arguments start_inputs {E} _.
Arguments start_outputs {E} _.

Section schedule.
Context {E : Type} (workflow : WorkflowDefinition) (execution : ExecutionMetadata)
  (executor_for : NodeId → result E PureflowError) (cancellation : CancellationHandle)
  (contracts : option WorkflowOutputContracts).

(** The validator attached to the outputs of a node, if contracts are given. *)
Definition node_validator (node_id : NodeId) :
    result (option OutputPacketValidator) PureflowError :=
  match contracts with
  | None => Ok None
  | Some contracts =>
      let? node_contracts :=
        ok_or (output_contracts_for contracts node_id)
          (PureflowError.execution
             (lit "no output contracts supplied for workflow node `" ++ as_str node_id
              ++ lit "`")) in
      Ok (Some (ContractOutputValidator.validate
                  (ContractOutputValidator.new (WorkflowDefinition.id workflow) node_id execution
                     node_contracts)))
  end.

(** The loop over the nodes.  [NodeContext::new] makes a signal that
    [with_cancellation_token] replaces at once. *)
Fixpoint schedule_nodes (nodes : list NodeDefinition) (wiring : PortWiring)
    (w : world (S := S)) : result (list (NodeStart E)) PureflowError * world (S := S) :=
  match nodes with
  | [] => (Ok [], w)
  | node :: nodes =>
      let node_id := NodeDefinition.id node in
      match executor_for node_id with
      | Err e => (Err e, w)
      | Ok executor =>
          let (ctx, sig) := NodeContext.new (w_signals w) (WorkflowDefinition.id workflow)
                              node_id execution in
          let w := mk_world (w_chans w) (w_sink w) sig in
          let ctx := NodeContext.with_cancellation_token ctx
                       (CancellationHandle.token cancellation) in
          let inputs := ports_in_from_handles (NodeDefinition.input_ports node)
            (default [] (BTreeMap.get node_id (inputs_by_node wiring))) in
          let outputs := ports_out_from_handles (NodeDefinition.output_ports node)
            (default [] (BTreeMap.get node_id (outputs_by_node wiring))) in
          let wiring := mk_wiring (BTreeMap.remove node_id (inputs_by_node wiring))
                          (BTreeMap.remove node_id (outputs_by_node wiring)) in
          match node_validator node_id with
          | Err e => (Err e, w)
          | Ok validator =>
              let outputs := match validator with
                             | Some v => with_output_validator v outputs
                             | None => outputs
                             end in
              let (r, w) := schedule_nodes nodes wiring w in
              (let? starts := r in
               Ok (mk_start executor node_id ctx inputs outputs :: starts), w)
          end
      end
  end.
End schedule.

(** [run_workflow_with_registry_and_observers_summary_inner] up to the start of
    the node runs: the runs and the handle that cancels them all. *)
Definition prepare_run {E} (workflow : WorkflowDefinition) (execution : ExecutionMetadata)
    (executor_for : NodeId → result E PureflowError) (policy : WorkflowRunPolicy)
    (contracts : option WorkflowOutputContracts) (w : world (S := S)) :
    exec (result (CancellationHandle * list (NodeStart E)) PureflowError * world (S := S)) :=
  let! accepted := validate_workflow_run_policy workflow policy in
  Done (match accepted with
        | Err e => (Err e, w)
        | Ok _ =>
            let (wiring, w) := build_port_wiring workflow w in
            let (cancellation, sig) := CancellationHandle.new (w_signals w) in
            let w := mk_world (w_chans w) (w_sink w) sig in
            let (r, w) := schedule_nodes workflow execution executor_for cancellation contracts
                            (WorkflowDefinition.nodes workflow) wiring w in
            (let? starts := r in Ok (cancellation, starts), w)
        end).
End wiring.
Arguments NodeStart {J} E.
Arguments mk_start {J E} _ _ _ _ _.
Arguments start_executor {J E} _.
Arguments start_node_id {J E} _.
Arguments start_context {J E} _.
Arguments start_inputs {J E} _.
Arguments start_outputs {J E} _.

(** ** What the wiring is *)

(** The channels of an endpoint: those of the edges that start or end there, in
    the order of the edges; [base] channels existed before. *)
Definition edge_channels (base : nat) (endpoint : EdgeDefinition → EdgeEndpoint) (n : NodeId)
    (p : PortId) (edges : list EdgeDefinition) : list nat :=
  (λ ie, base + ie.1) <$> filter (λ ie, endpoint ie.2 = EdgeEndpoint.new n p) (enumerate edges).

Lemma enumerate_snoc {A} (l : list A) x : enumerate (l ++ [x]) = enumerate l ++ [(length l, x)].
Proof. unfold enumerate. rewrite imap_app. simpl. by rewrite Nat.add_0_r. Qed.

(** The handles a node receives for its edges on one side. *)
Definition edge_handles {H} (mk : PortId → list nat → H) (endpoint : EdgeDefinition → EdgeEndpoint)
    (base : nat) (n : NodeId) (edges : list EdgeDefinition) : list H :=
  (λ ie, mk (EdgeEndpoint.port_id (endpoint ie.2)) [base + ie.1])
    <$> filter (λ ie, EdgeEndpoint.node_id (endpoint ie.2) = n) (enumerate edges).

Lemma edge_handles_snoc {H} (mk : PortId → list nat → H) endpoint base n edges e :
  edge_handles mk endpoint base n (edges ++ [e]) =
  edge_handles mk endpoint base n edges
  ++ (if decide (EdgeEndpoint.node_id (endpoint e) = n)
      then [mk (EdgeEndpoint.port_id (endpoint e)) [base + length edges]] else []).
Proof.
  unfold edge_handles. rewrite enumerate_snoc, filter_app, fmap_app. f_equal.
  rewrite filter_cons. simpl. by case_decide.
Qed.

Lemma edge_handles_channels {H} (mk : PortId → list nat → H) (port_of : H → PortId)
  (chans : H → list nat) endpoint base n p edges :
  (∀ q l, port_of (mk q l) = q) → (∀ q l, chans (mk q l) = l) →
  channels_for port_of chans (edge_handles mk endpoint base n edges) p
  = edge_channels base endpoint n p edges.
Proof.
  intros Hp Hc. unfold channels_for, edge_handles, edge_channels.
  induction (enumerate edges) as [|[i e] l IH]; [done|].
  rewrite !filter_cons. simpl. destruct (endpoint e) as [n' p'] eqn:He. simpl.
  destruct (decide (n' = n)) as [->|Hn]; [|by rewrite decide_False by congruence].
  rewrite fmap_cons, filter_cons. simpl. rewrite Hp, He. simpl.
  destruct (decide (p' = p)) as [->|Hne].
  - rewrite decide_True by done. rewrite !fmap_cons. simpl. by rewrite Hc, <- IH.
  - by rewrite decide_False by congruence.
Qed.

Section wiring_proofs.
Context `{J : JsonNumber} {S : Type} `{!MetadataSink S} `{M : !Mpsc PortPacket}.
Implicit Types w : world (S := S).

Definition fresh_channel (e : EdgeDefinition) : Chan :=
  chan_new (EdgeCapacity.resolve (EdgeDefinition.capacity e) DEFAULT_EDGE_CAPACITY).

Lemma wire_edges_spec edges w :
  let (wiring, w') := foldl wire_edge (mk_wiring [] [], w) edges in
  let base := length (w_chans w) in
  (∀ n, default [] (BTreeMap.get n (outputs_by_node wiring))
        = edge_handles mk_output EdgeDefinition.source base n edges)
  ∧ (∀ n, default [] (BTreeMap.get n (inputs_by_node wiring))
        = edge_handles mk_input EdgeDefinition.target base n edges)
  ∧ w' = mk_world (w_chans w ++ (fresh_channel <$> edges)) (w_sink w) (w_signals w).
Proof.
  induction edges as [|e edges IH] using rev_ind.
  { simpl. split_and!; [done|done|]. rewrite app_nil_r. by destruct w. }
  rewrite foldl_app. simpl. destruct (foldl wire_edge _ edges) as [wiring w1].
  destruct IH as (Ho & Hi & ->). simpl. split_and!.
  - intros n. rewrite BTreeMap.get_entry_update, edge_handles_snoc.
    rewrite length_app, length_fmap.
    destruct (decide (n = _)) as [->|Hn]; simpl.
    + by rewrite decide_True, Ho by done.
    + by rewrite decide_False, app_nil_r by done.
  - intros n. rewrite BTreeMap.get_entry_update, edge_handles_snoc.
    rewrite length_app, length_fmap.
    destruct (decide (n = _)) as [->|Hn]; simpl.
    + by rewrite decide_True, Hi by done.
    + by rewrite decide_False, app_nil_r by done.
  - by rewrite fmap_app, app_assoc.
Qed.

(** One node's start, as a function of the edges. *)
Definition start_of {E} (workflow : WorkflowDefinition) (base : nat)
    (node : NodeDefinition) (s : NodeStart E) : Prop :=
  let edges := WorkflowDefinition.edges workflow in
  start_node_id s = NodeDefinition.id node
  ∧ (∀ p, p ∈ NodeDefinition.output_ports node →
       ∃ h, find_output (start_outputs s) p = Some h
         ∧ senders h = edge_channels base EdgeDefinition.source (NodeDefinition.id node) p edges)
  ∧ (∀ p, p ∈ NodeDefinition.input_ports node →
       ∃ h, find_input (start_inputs s) p = Some h
         ∧ receivers h = edge_channels base EdgeDefinition.target (NodeDefinition.id node) p edges).

Definition ports_distinct (node : NodeDefinition) : Prop :=
  NoDup (NodeDefinition.input_ports node) ∧ NoDup (NodeDefinition.output_ports node).

Lemma find_output_validator v (p : PortsOut) port :
  find_output (with_output_validator v p) port = find_output p port.
Proof. done. Qed.

Section scheduling.
Context {E : Type} (workflow : WorkflowDefinition) (execution : ExecutionMetadata)
  (executor_for : NodeId → result E PureflowError) (cancellation : CancellationHandle)
  (contracts : option WorkflowOutputContracts) (base : nat).
Notation edges := (WorkflowDefinition.edges workflow).

(** The wiring still holds the handles of the nodes not yet started. *)
Definition wiring_for (nodes : list NodeDefinition) (wiring : PortWiring) : Prop :=
  ∀ node, node ∈ nodes →
    default [] (BTreeMap.get (NodeDefinition.id node) (outputs_by_node wiring))
    = edge_handles mk_output EdgeDefinition.source base (NodeDefinition.id node) edges
    ∧ default [] (BTreeMap.get (NodeDefinition.id node) (inputs_by_node wiring))
    = edge_handles mk_input EdgeDefinition.target base (NodeDefinition.id node) edges.

Lemma wiring_for_rest node nodes wiring :
  NoDup (node_names (node :: nodes)) → wiring_for (node :: nodes) wiring →
  wiring_for nodes (mk_wiring (BTreeMap.remove (NodeDefinition.id node) (inputs_by_node wiring))
                      (BTreeMap.remove (NodeDefinition.id node) (outputs_by_node wiring))).
Proof.
  intros [Hn _]%NoDup_cons Hw nd Hnd. simpl. rewrite !BTreeMap.get_remove.
  assert (NodeDefinition.id nd ≠ NodeDefinition.id node).
  { intros Heq. apply Hn. apply list_elem_of_fmap. by exists nd. }
  rewrite !decide_False by done. apply Hw. by right.
Qed.

Lemma start_outputs_wired node handles p :
  NoDup (NodeDefinition.output_ports node) → p ∈ NodeDefinition.output_ports node →
  handles = edge_handles mk_output EdgeDefinition.source base (NodeDefinition.id node) edges →
  ∃ h, find_output (ports_out_from_handles (NodeDefinition.output_ports node) handles) p = Some h
    ∧ senders h = edge_channels base EdgeDefinition.source (NodeDefinition.id node) p edges.
Proof.
  intros Hnd Hp ->.
  destruct (assembled_handle out_port_id senders output_append output_disconnected) with
    (ids := NodeDefinition.output_ports node) (p := p)
    (handles := edge_handles mk_output EdgeDefinition.source base (NodeDefinition.id node) edges)
    as (h & ? & _ & Hh); try done.
  exists h. split; [done|]. rewrite Hh. by apply edge_handles_channels.
Qed.

Lemma start_inputs_wired node handles p :
  NoDup (NodeDefinition.input_ports node) → p ∈ NodeDefinition.input_ports node →
  handles = edge_handles mk_input EdgeDefinition.target base (NodeDefinition.id node) edges →
  ∃ h, find_input (ports_in_from_handles (NodeDefinition.input_ports node) handles) p = Some h
    ∧ receivers h = edge_channels base EdgeDefinition.target (NodeDefinition.id node) p edges.
Proof.
  intros Hnd Hp ->.
  destruct (assembled_handle in_port_id receivers input_append input_disconnected) with
    (ids := NodeDefinition.input_ports node) (p := p)
    (handles := edge_handles mk_input EdgeDefinition.target base (NodeDefinition.id node) edges)
    as (h & ? & _ & Hh); try done.
  exists h. split; [done|]. rewrite Hh. by apply edge_handles_channels.
Qed.

Lemma schedule_nodes_spec nodes wiring w starts w' :
  NoDup (node_names nodes) → Forall ports_distinct nodes → wiring_for nodes wiring →
  schedule_nodes workflow execution executor_for cancellation contracts nodes wiring w
  = (Ok starts, w') →
  Forall2 (start_of workflow base) nodes starts
  ∧ Forall (λ s, NodeContext.cancellation_token (start_context s)
                 = CancellationHandle.token cancellation) starts
  ∧ w_chans w' = w_chans w.
Proof.
  revert wiring w starts w'. induction nodes as [|node nodes IH]; intros wiring w starts w' Hnd
    Hports Hw; cbn [schedule_nodes].
  { by intros [= <- <-]. }
  destruct (executor_for _) as [executor|]; [|done].
  destruct (NodeContext.new _ _ _ _) as [ctx sig].
  destruct (node_validator _ _ _ _) as [validator|]; [|done].
  destruct (schedule_nodes _ _ _ _ _ nodes _ _) as [[rest|e] w2] eqn:Hrest; simpl; [|done].
  intros [= <- <-]. apply IH in Hrest as (Hf & Hc & Hch);
    [|by apply NoDup_cons in Hnd as [_ ?]|by apply Forall_cons in Hports as [_ ?]
     |by apply wiring_for_rest].
  apply Forall_cons in Hports as [[Hin Hout] _]. destruct (Hw node) as [Ho Hi]; [left|].
  split_and!; [constructor; [|done]|by constructor|done].
  split_and!; simpl; [done| |].
  - intros p Hp. destruct validator; rewrite ?find_output_validator; by apply start_outputs_wired.
  - intros p Hp. by apply start_inputs_wired.
Qed.
End scheduling.

Lemma elem_of_edge_channels base endpoint n p es j :
  j ∈ edge_channels base endpoint n p es
  ↔ ∃ i e, j = base + i ∧ es !! i = Some e ∧ endpoint e = EdgeEndpoint.new n p.
Proof.
  unfold edge_channels. rewrite list_elem_of_fmap. split.
  - intros ([i e] & -> & [He Hin]%list_elem_of_filter). apply elem_of_enumerate in Hin. eauto.
  - intros (i & e & -> & Hi & He). exists (i, e). split; [done|].
    apply list_elem_of_filter. split; [done|]. by apply elem_of_enumerate.
Qed.

Lemma NoDup_edge_channels base endpoint n p es : NoDup (edge_channels base endpoint n p es).
Proof.
  unfold edge_channels, enumerate. apply NoDup_fmap_2_strong.
  - intros [i e] [j e'] [_ Hi]%list_elem_of_filter [_ Hj]%list_elem_of_filter Heq. simpl in Heq.
    assert (i = j) as -> by lia. apply elem_of_enumerate in Hi, Hj. by simplify_eq.
  - apply NoDup_filter, NoDup_alt. intros i j [k e] Hi Hj.
    change (imap pair es) with (enumerate es) in *. rewrite enumerate_lookup in Hi, Hj.
    apply fmap_Some in Hi as (? & _ & [= -> ->]), Hj as (? & _ & [= -> _]). done.
Qed.

Lemma schedule_nodes_signals {E} workflow execution (executor_for : NodeId → result E PureflowError)
  cancellation contracts nodes wiring w :
  ∃ sig, w_signals (schedule_nodes workflow execution executor_for cancellation contracts
                      nodes wiring w).2 = w_signals w ++ sig.
Proof.
  revert wiring w. induction nodes as [|node nodes IH]; intros wiring w; cbn [schedule_nodes].
  { exists []. by rewrite app_nil_r. }
  destruct (executor_for _) as [executor|]; [|exists []; by rewrite app_nil_r].
  cbn [NodeContext.new CancellationToken.active].
  destruct (node_validator _ _ _ _) as [validator|]; [|by eexists].
  match goal with |- context [schedule_nodes _ _ _ _ _ nodes ?wiring ?w] =>
    destruct (IH wiring w) as [sig Hsig];
    destruct (schedule_nodes workflow execution executor_for cancellation contracts nodes wiring w)
  end.
  simpl in *. exists ([None] ++ sig). by rewrite Hsig, <- app_assoc.
Qed.

(** What a prepared run is: each node starts with every declared port connected
    to the channels of its edges, under one shared cancellation signal. *)
Record prepared {E} (workflow : WorkflowDefinition) (w w' : world (S := S))
    (c : CancellationHandle) (starts : list (NodeStart E)) : Prop := {
  prep_starts : Forall2 (start_of workflow (length (w_chans w))) (WorkflowDefinition.nodes workflow) starts;
  prep_tokens : Forall (λ s, NodeContext.cancellation_token (start_context s)
                             = CancellationHandle.token c) starts;
  prep_active : w_signals w' !! CancellationToken.signal (CancellationHandle.token c) = Some None;
  prep_old : ∀ j, j < length (w_chans w) → chan_at w' j = chan_at w j;
  prep_new : ∀ i, chan_at w' (length (w_chans w) + i) =
    (λ e, mk_view [] 0 (Pos.to_nat (EdgeCapacity.resolve (EdgeDefinition.capacity e)
                                      DEFAULT_EDGE_CAPACITY)) true true)
      <$> WorkflowDefinition.edges workflow !! i;
}.

Lemma prepare_run_prepared {E} workflow execution (executor_for : NodeId → result E PureflowError)
  policy contracts w c starts w' :
  NoDup (node_names (WorkflowDefinition.nodes workflow)) →
  Forall ports_distinct (WorkflowDefinition.nodes workflow) →
  prepare_run workflow execution executor_for policy contracts w = Done (Ok (c, starts), w') →
  prepared workflow w w' c starts.
Proof.
  intros Hnd Hports. unfold prepare_run.
  destruct (validate_workflow_run_policy workflow policy) as [[[]|]| |]; simpl; try done.
  pose proof (wire_edges_spec (WorkflowDefinition.edges workflow) w) as Hwire.
  unfold build_port_wiring. destruct (foldl wire_edge _ _) as [wiring w1].
  destruct Hwire as (Ho & Hi & ->). cbn [w_signals w_chans w_sink].
  cbn [CancellationHandle.new CancellationToken.active]. set (w2 := mk_world _ _ (_ ++ [None])).
  set (h := CancellationHandle.mk _).
  pose proof (schedule_nodes_signals workflow execution executor_for h contracts
    (WorkflowDefinition.nodes workflow) wiring w2) as [sig Hsig].
  destruct (schedule_nodes _ _ _ _ _ _ wiring w2) as [[ss|e] w3] eqn:Hs; simpl; [|done].
  intros [= <- <- <-].
  destruct (schedule_nodes_spec workflow execution executor_for h contracts (length (w_chans w))
    (WorkflowDefinition.nodes workflow) wiring w2 ss w3) as (Hstarts & Htok & Hch);
    [done|done|by intros node _; auto|done|].
  simpl in Hsig, Hch. split; [done|done| | |].
  - simpl. rewrite Hsig, <- app_assoc, lookup_app_r, Nat.sub_diag by done. done.
  - intros j Hj. unfold chan_at. by rewrite Hch, lookup_app_l.
  - intros i. unfold chan_at. rewrite Hch, lookup_app_r by lia.
    rewrite Nat.add_comm, Nat.add_sub, list_lookup_fmap, <- option_fmap_compose.
    destruct (_ !! i); simpl; [|done]. unfold fresh_channel. by rewrite view_new.
Qed.

Lemma edge_channels_in_store {E} workflow w w' c (starts : list (NodeStart E)) endpoint n p :
  prepared workflow w w' c starts →
  in_store w' (edge_channels (length (w_chans w)) endpoint n p (WorkflowDefinition.edges workflow)).
Proof.
  intros Hp j (i & e & -> & Hi & _)%elem_of_edge_channels.
  apply chan_at_is_some. rewrite (prep_new _ _ _ _ _ Hp), Hi. by eexists.
Qed.

(** C14. When a run is prepared, every node of the workflow, in order, starts
    with each declared output port connected to the channels of exactly the
    edges that leave it there and each declared input port to those that enter
    it, in the order of the edges; each edge has a channel of its own, new, empty
    and of the edge's capacity (one by default), and no other channel is touched;
    the channels of a port are distinct and exist, which is what the port
    operations assume; all nodes share one cancellation signal, which is not set;
    and in a new world this is a start of the port traffic. *)
Theorem prepared_run_is_wired {E : Type} (workflow : WorkflowDefinition)
  (execution : ExecutionMetadata) (executor_for : NodeId → result E PureflowError)
  (policy : WorkflowRunPolicy) (contracts : option WorkflowOutputContracts) (w w' : world (S := S))
  (c : CancellationHandle) (starts : list (NodeStart E))
  (Hnames : NoDup (node_names (WorkflowDefinition.nodes workflow)))
  (Hports : Forall ports_distinct (WorkflowDefinition.nodes workflow))
  (Hrun : prepare_run workflow execution executor_for policy contracts w
          = Done (Ok (c, starts), w')) :
  prepared workflow w w' c starts
  ∧ (∀ endpoint n p, endpoint = EdgeDefinition.source ∨ endpoint = EdgeDefinition.target →
       let l := edge_channels (length (w_chans w)) endpoint n p
                  (WorkflowDefinition.edges workflow) in
       NoDup l ∧ in_store w' l
       ∧ ∀ i e, WorkflowDefinition.edges workflow !! i = Some e →
           length (w_chans w) + i ∈ l ↔ endpoint e = EdgeEndpoint.new n p)
  ∧ (w_chans w = [] → traffic_start (mk_traffic w' [] (λ _, []) (λ _, []))).
Proof.
  apply prepare_run_prepared in Hrun; [|done|done]. split; [done|]. split.
  - intros endpoint n p _. split_and!; [apply NoDup_edge_channels|by eapply edge_channels_in_store|].
    intros i e Hi. rewrite elem_of_edge_channels. split; [|by eauto].
    intros (j & e' & Hj & He & Hend). assert (i = j) as -> by lia. by simplify_eq.
  - intros Hnew. split; [done|]. intros j. split_and!; [done|done|]. intros v.
    pose proof (prep_new _ _ _ _ _ Hrun j) as Hj. rewrite Hnew in Hj. simpl in Hj. simpl.
    rewrite Hj. intros (e & _ & ->)%fmap_Some. by eexists.
Qed.

(** ** Contract validation at the edges *)

Lemma validate_ok v p (packet : PortPacket) :
  ContractOutputValidator.validate v p packet = Ok tt ↔
  is_Some (BTreeMap.get p (ContractOutputValidator.port_contracts v))
  ∧ MessageMetadata.workflow_id (MessageEnvelope.metadata packet)
    = ContractOutputValidator.workflow_id v
  ∧ MessageMetadata.execution (MessageEnvelope.metadata packet)
    = ContractOutputValidator.execution v
  ∧ MessageRoute.source (MessageMetadata.route (MessageEnvelope.metadata packet))
    = Some (MessageEndpoint.new (ContractOutputValidator.node_id v) p).
Proof.
  unfold ContractOutputValidator.validate, ContractOutputValidator.reject.
  rewrite <- BTreeMap.contains_key_true. destruct (BTreeMap.contains_key _ _); simpl; [|naive_solver].
  case_bool_decide; [naive_solver|]. case_bool_decide; [naive_solver|].
  destruct (MessageRoute.source _) as [[n q]|]; simpl; [|naive_solver].
  repeat case_bool_decide; simpl; naive_solver.
Qed.

Lemma schedule_nodes_validators {E} workflow execution
  (executor_for : NodeId → result E PureflowError) cancellation contracts nodes wiring w starts w' :
  schedule_nodes workflow execution executor_for cancellation (Some contracts) nodes wiring w
  = (Ok starts, w') →
  Forall (λ s, ∃ port_contracts,
    out_validator (start_outputs s) =
    Some (ContractOutputValidator.validate (ContractOutputValidator.new
      (WorkflowDefinition.id workflow) (start_node_id s) execution port_contracts))) starts.
Proof.
  revert wiring w starts w'. induction nodes as [|node nodes IH]; intros wiring w starts w';
    cbn [schedule_nodes].
  { by intros [= <- <-]. }
  destruct (executor_for _) as [executor|]; [|done].
  destruct (NodeContext.new _ _ _ _) as [ctx sig]. unfold node_validator.
  destruct (output_contracts_for _ _) as [port_contracts|]; simpl; [|done].
  destruct (schedule_nodes _ _ _ _ _ nodes _ _) as [[rest|e] w2] eqn:Hrest; simpl; [|done].
  intros [= <- <-]. apply IH in Hrest. constructor; [by exists port_contracts|done].
Qed.

Lemma reserved_permit port attached validator context w permit w' :
  output_try_reserve port attached validator context w = (Ok permit, w') →
  permit_validator permit = validator ∧ permit_port_id permit = out_port_id port.
Proof.
  unfold output_try_reserve. destruct (last (senders port)) as [i|]; [|by intros [= <- <-]].
  destruct (reserve_leading _ _ _) as [[acquired|[e acquired]] w1]; [|done].
  destruct (sender_try_reserve i w1) as [[[]|e] w2]; [|done]. by intros [= <- <-].
Qed.

Lemma send_ok_validated permit packet w :
  (send permit packet w).1 = Ok tt →
  validate_output (permit_validator permit) (permit_port_id permit) packet = Ok tt.
Proof.
  unfold send, validate_output.
  destruct (match permit_validator permit with Some v => v _ packet | None => Ok tt end) as [[]|];
    [done|]. by intros [=].
Qed.

Lemma poll_send_ok_validated (p : PortsOut) port_id packet token w :
  (poll_send p port_id packet token w).1 = Ready (Ok tt) →
  validate_output (out_validator p) port_id packet = Ok tt.
Proof.
  unfold poll_send, poll_reserve. destruct (find_output p port_id) as [port|] eqn:Hf; [|done].
  apply find_output_port in Hf. unfold output_poll_reserve.
  destruct (CancellationToken.is_cancelled _ _); [done|].
  destruct (output_try_reserve _ _ _ _ w) as [[permit|e] w1] eqn:Hr;
    [|by destruct e]. apply reserved_permit in Hr as [Hv Hp].
  pose proof (send_ok_validated permit packet w1) as Hs.
  destruct (send permit packet w1) as [r w2]. simpl in *. intros [= ->].
  rewrite <- Hv, <- Hf, <- Hp. auto.
Qed.

(** C19. In a run prepared with contracts, a packet that a node succeeds in
    sending, with any observers attached to its ports, goes out on a port that
    has an output contract, and names the workflow and the execution of the run
    and the sending node and port as its source: no node can forge the origin of
    a packet. *)
Theorem contracts_pin_packet_origin {E : Type} (workflow : WorkflowDefinition)
  (execution : ExecutionMetadata) (executor_for : NodeId → result E PureflowError)
  (policy : WorkflowRunPolicy) (contracts : WorkflowOutputContracts) (w w' w1 : world (S := S))
  (c : CancellationHandle) (starts : list (NodeStart E)) (s : NodeStart E) (outputs : PortsOut)
  (port_id : PortId) (packet : PortPacket) (token : CancellationToken)
  (Hrun : prepare_run workflow execution executor_for policy (Some contracts) w
          = Done (Ok (c, starts), w'))
  (Hs : s ∈ starts) (Houtputs : out_validator outputs = out_validator (start_outputs s))
  (Hsent : (poll_send outputs port_id packet token w1).1 = Ready (Ok tt)) :
  MessageMetadata.workflow_id (MessageEnvelope.metadata packet) = WorkflowDefinition.id workflow
  ∧ MessageMetadata.execution (MessageEnvelope.metadata packet) = execution
  ∧ MessageRoute.source (MessageMetadata.route (MessageEnvelope.metadata packet))
    = Some (MessageEndpoint.new (start_node_id s) port_id).
Proof.
  apply poll_send_ok_validated in Hsent. revert Hrun. unfold prepare_run.
  destruct (validate_workflow_run_policy workflow policy) as [[[]|]| |]; simpl; try done.
  destruct (build_port_wiring workflow w) as [wiring w2]. cbn [CancellationHandle.new
    CancellationToken.active].
  destruct (schedule_nodes _ _ _ _ _ _ wiring _) as [[ss|e] w3] eqn:Hsched; simpl; [|done].
  intros [= <- <- <-]. apply schedule_nodes_validators in Hsched.
  rewrite Forall_forall in Hsched. destruct (Hsched s Hs) as [port_contracts Hv].
  rewrite Houtputs, Hv in Hsent. simpl in Hsent.
  by apply validate_ok in Hsent as (_ & ? & ? & ?).
Qed.
End wiring_proofs.

(** ** Examples *)

Section examples.
Let feed : NodeDefinition := NodeDefinition.mk (ident "feed") [] [ident "out"].
Let drain : NodeDefinition := NodeDefinition.mk (ident "drain") [ident "in"] [].
Let wf : WorkflowDefinition :=
  WorkflowDefinition.new (ident "flow")
    (WorkflowGraph.mk [feed; drain]
       [EdgeDefinition.new (EdgeEndpoint.new (ident "feed") (ident "out"))
          (EdgeEndpoint.new (ident "drain") (ident "in"))]).
Let execution : ExecutionMetadata := ExecutionMetadata.first_attempt (ident "run-1").
Let executor : NodeId → result unit PureflowError := λ _, Ok tt.
Let empty : world (S := list MetadataRecord) := mk_world [] [] [].
Let contracts : WorkflowOutputContracts :=
  mk_output_contracts [(ident "drain", []); (ident "feed", [(ident "out", None)])].
Let run (contracts : option WorkflowOutputContracts) :=
  prepare_run wf execution executor WorkflowRunPolicy.default contracts empty.
Let packet : PortPacket :=
  MessageEnvelope.new
    (MessageMetadata.new (ident "m1") (ident "flow") execution
       (MessageRoute.new (Some (MessageEndpoint.new (ident "feed") (ident "out")))
          (MessageEndpoint.new (ident "drain") (ident "in"))))
    (PacketPayload.Control Value.Null).

(** The start of a prepared run, for the examples. *)
Let started (r : exec (result (CancellationHandle * list (NodeStart unit)) PureflowError
                       * world (S := list MetadataRecord))) :
    CancellationHandle * list (NodeStart unit) * world (S := list MetadataRecord) :=
  match r with
  | Done (Ok (c, ss), w) => (c, ss, w)
  | _ => (CancellationHandle.mk (CancellationToken.mk 0), [], empty)
  end.

Lemma prepared_run_is_wired_witness :
  let '(c, ss, w) := started (run None) in
  length ss = 2
  ∧ prepared wf empty w c ss
  ∧ traffic_start (mk_traffic w [] (λ _, []) (λ _, [])).
Proof.
  assert (Hports : Forall ports_distinct (WorkflowDefinition.nodes wf)).
  { repeat constructor; set_solver. }
  assert (Hnames : NoDup (node_names (WorkflowDefinition.nodes wf))).
  { apply (bool_decide_eq_true_1 _). vm_compute. reflexivity. }
  split; [reflexivity|].
  destruct (prepared_run_is_wired wf execution executor WorkflowRunPolicy.default None empty _ _ _
              Hnames Hports eq_refl) as (Hp & _ & Ht).
  split; [exact Hp|exact (Ht eq_refl)].
Defined.

Lemma contracts_pin_packet_origin_witness :
  let '(c, ss, w) := started (run (Some contracts)) in
  ∃ s, head ss = Some s
    ∧ MessageRoute.source (MessageMetadata.route (MessageEnvelope.metadata packet))
      = Some (MessageEndpoint.new (start_node_id s) (ident "out")).
Proof.
  eexists. split; [reflexivity|].
  refine (proj2 (proj2 (contracts_pin_packet_origin wf execution executor
    WorkflowRunPolicy.default contracts empty _ (started (run (Some contracts))).2 _ _ _ _
    (ident "out") packet (CancellationToken.mk 0) eq_refl _ eq_refl _)));
    [left|reflexivity].
Defined.
End examples.
