(* ===== verification/Engine.v ===== *)
(** [pureflow-engine], collecting the outcome of a run
    (src/crates/pureflow-engine/src/lib.rs): the run summary, the handling of
    node results, and the no-progress watchdog.

    [FuturesUnordered] yields each node's result once, in the order the nodes
    end, so a collection is a function of the sequence of results; with the
    watchdog, of the sequence in which results and elapsed deadlines win the
    [select].  How Rust prints a [Duration] is a parameter. *)

From Stdlib Require Import Lia.
From S2P Require Import Prelude RustStr BTree Types Workflow Structure Topology Cycle Validation Errors Json Context Message Metadata MetadataSink Channel Ports PortsSpec Traffic Contract Wiring.

(** [impl Debug for Duration]. *)
Class DurationDebug := duration_debug : Duration → rstr.

Definition usize_saturating_sub (a b : N) : N := (a - b)%N.

(** ** Summaries *)

Module WorkflowTerminalState.
Inductive WorkflowTerminalState : Set := Completed | Failed | Cancelled.
End WorkflowTerminalState.
Notation WorkflowTerminalState := WorkflowTerminalState.WorkflowTerminalState.

Module WorkflowDeadlockDiagnostic.
Record WorkflowDeadlockDiagnostic : Set := mk {
  workflow_id : WorkflowId;
  scheduled_node_count : N;
  pending_node_count : N;
  completed_node_count : N;
  failed_node_count : N;
  cancelled_node_count : N;
  bounded_edge_count : N;
  no_progress_timeout : Duration;
  cycle_policy : CycleRunPolicy;
}.

Definition duration_millis_u64 (d : Duration) : N := N.min (d / 1000000) (2 ^ 64 - 1).

Definition to_metadata_diagnostic (d : WorkflowDeadlockDiagnostic) :
    ErrorMetadataRecord.ErrorDiagnosticMetadata :=
  let metadata :=
    DeadlockDiagnosticMetadata.with_terminal_counts
      (DeadlockDiagnosticMetadata.new (scheduled_node_count d) (pending_node_count d)
         (bounded_edge_count d) (duration_millis_u64 (no_progress_timeout d))
         (CycleRunPolicy.label (cycle_policy d)))
      (completed_node_count d) (failed_node_count d) (cancelled_node_count d) in
  match cycle_policy d with
  | CycleRunPolicy.Reject => ErrorMetadataRecord.WorkflowDeadlock metadata
  | CycleRunPolicy.AllowFeedbackLoops feedback_loop =>
      ErrorMetadataRecord.WorkflowDeadlock
        (DeadlockDiagnosticMetadata.with_feedback_loop metadata
           (FeedbackLoopRunPolicy.startup_label (FeedbackLoopRunPolicy.startup feedback_loop))
           (FeedbackLoopRunPolicy.termination_label
              (FeedbackLoopRunPolicy.termination feedback_loop)))
  end.

(** [derive(Debug)] for [CycleRunPolicy]. *)
Definition cycle_policy_debug (p : CycleRunPolicy) : rstr :=
  match p with
  | CycleRunPolicy.Reject => lit "Reject"
  | CycleRunPolicy.AllowFeedbackLoops
      (FeedbackLoopRunPolicy.new FeedbackLoopRunPolicy.StartAllNodes
         FeedbackLoopRunPolicy.AllNodesComplete) =>
      lit "AllowFeedbackLoops(FeedbackLoopRunPolicy { startup: StartAllNodes, termination: AllNodesComplete })"
  end.

Definition fmt `{DurationDebug} (d : WorkflowDeadlockDiagnostic) : rstr :=
  lit "workflow `" ++ as_str (workflow_id d)
  ++ lit "` watchdog detected no workflow progress for " ++ duration_debug (no_progress_timeout d)
  ++ lit ": scheduled_nodes=" ++ show_N (scheduled_node_count d)
  ++ lit ", pending_nodes=" ++ show_N (pending_node_count d)
  ++ lit ", completed_nodes=" ++ show_N (completed_node_count d)
  ++ lit ", failed_nodes=" ++ show_N (failed_node_count d)
  ++ lit ", cancelled_nodes=" ++ show_N (cancelled_node_count d)
  ++ lit ", bounded_edges=" ++ show_N (bounded_edge_count d)
  ++ lit ", cycle_policy=" ++ cycle_policy_debug (cycle_policy d).
End WorkflowDeadlockDiagnostic.
Notation WorkflowDeadlockDiagnostic := WorkflowDeadlockDiagnostic.WorkflowDeadlockDiagnostic.

(** [matches!(err, PureflowError::Cancellation(_))]. *)
Definition is_cancellation (e : PureflowError) : bool :=
  match e with PureflowError.Cancellation _ => true | _ => false end.

Module WorkflowRunSummary.
Record WorkflowRunSummary : Set := mk {
  terminal_state : WorkflowTerminalState;
  scheduled_node_count : N;
  completed_node_count : N;
  failed_node_count : N;
  cancelled_node_count : N;
  observed_message_count : N;
  error_count : N;
  first_error : option PureflowError;
  deadlock_diagnostic : option WorkflowDeadlockDiagnostic;
}.

Definition new (scheduled_node_count : N) : WorkflowRunSummary :=
  mk WorkflowTerminalState.Completed scheduled_node_count 0 0 0 0 0 None None.

Definition pending_node_count (s : WorkflowRunSummary) : N :=
  usize_saturating_sub (scheduled_node_count s)
    (usize_saturating_add
       (usize_saturating_add (completed_node_count s) (failed_node_count s))
       (cancelled_node_count s)).

Definition into_result (s : WorkflowRunSummary) : result unit PureflowError :=
  match first_error s with Some e => Err e | None => Ok tt end.

Definition record_success (s : WorkflowRunSummary) : WorkflowRunSummary :=
  mk (terminal_state s) (scheduled_node_count s) (usize_saturating_add (completed_node_count s) 1)
    (failed_node_count s) (cancelled_node_count s) (observed_message_count s) (error_count s)
    (first_error s) (deadlock_diagnostic s).

(** The part [record_error] and [record_workflow_error] share: the first error
    sets the terminal state. *)
Definition note_first_error (err : PureflowError) (s : WorkflowRunSummary) : WorkflowRunSummary :=
  match first_error s with
  | Some _ => s
  | None =>
      mk (if is_cancellation err then WorkflowTerminalState.Cancelled
          else WorkflowTerminalState.Failed)
        (scheduled_node_count s) (completed_node_count s) (failed_node_count s)
        (cancelled_node_count s) (observed_message_count s) (error_count s) (Some err)
        (deadlock_diagnostic s)
  end.

Definition record_workflow_error (err : PureflowError) (s : WorkflowRunSummary) :
    WorkflowRunSummary :=
  note_first_error err
    (mk (terminal_state s) (scheduled_node_count s) (completed_node_count s)
       (failed_node_count s) (cancelled_node_count s) (observed_message_count s)
       (usize_saturating_add (error_count s) 1) (first_error s) (deadlock_diagnostic s)).

Definition record_error (err : PureflowError) (s : WorkflowRunSummary) : WorkflowRunSummary :=
  let cancelled := is_cancellation err in
  note_first_error err
    (mk (terminal_state s) (scheduled_node_count s) (completed_node_count s)
       (if cancelled then failed_node_count s else usize_saturating_add (failed_node_count s) 1)
       (if cancelled then usize_saturating_add (cancelled_node_count s) 1
        else cancelled_node_count s)
       (observed_message_count s) (usize_saturating_add (error_count s) 1) (first_error s)
       (deadlock_diagnostic s)).

Definition record_deadlock_diagnostic (d : WorkflowDeadlockDiagnostic) (s : WorkflowRunSummary) :
    WorkflowRunSummary :=
  mk (terminal_state s) (scheduled_node_count s) (completed_node_count s) (failed_node_count s)
    (cancelled_node_count s) (observed_message_count s) (error_count s) (first_error s) (Some d).
End WorkflowRunSummary.
Notation WorkflowRunSummary := WorkflowRunSummary.WorkflowRunSummary.

(** [WorkflowDeadlockDiagnostic::from_run]. *)
Definition diagnostic_from_run (workflow : WorkflowDefinition) (s : WorkflowRunSummary)
    (policy : WorkflowRunPolicy) (watchdog : DeadlockWatchdogPolicy) :
    WorkflowDeadlockDiagnostic :=
  WorkflowDeadlockDiagnostic.mk (WorkflowDefinition.id workflow)
    (WorkflowRunSummary.scheduled_node_count s) (WorkflowRunSummary.pending_node_count s)
    (WorkflowRunSummary.completed_node_count s) (WorkflowRunSummary.failed_node_count s)
    (WorkflowRunSummary.cancelled_node_count s)
    (N.of_nat (length (WorkflowDefinition.edges workflow)))
    (WorkflowWatchdogPolicy.no_progress_timeout watchdog)
    (WorkflowRunPolicy.cycle_policy policy).

(** ** Collection *)

Section collection.
Context `{J : JsonNumber} `{DurationDebug} {S : Type} `{!MetadataSink S} `{M : !Mpsc PortPacket}.

(** [WorkflowCollectionContext]; the sink and the signals are in the [world]. *)
Record WorkflowCollectionContext : Set := mk_collection {
  cc_cancellation : CancellationHandle;
  cc_workflow : WorkflowDefinition;
  cc_execution : ExecutionMetadata;
  cc_policy : WorkflowRunPolicy;
}.

(** Record the failure, and cancel the run if that succeeds. *)
Definition fail_workflow (c : WorkflowCollectionContext) (err : PureflowError)
    (record : ErrorMetadataRecord) (w : world (S := S)) :
    result unit PureflowError * world (S := S) :=
  let (r, sink) := sink_record (w_signals w) (w_sink w) (MetadataRecord.Error record) in
  let w := mk_world (w_chans w) sink (w_signals w) in
  match r with
  | Err e => (Err e, w)
  | Ok _ =>
      let (_first_request, sig) :=
        CancellationHandle.cancel (w_signals w) (cc_cancellation c)
          (CancellationRequest.new (lit "node execution failed: " ++ PureflowError.fmt err)) in
      (Ok tt, mk_world (w_chans w) (w_sink w) sig)
  end.

Definition record_first_workflow_error (c : WorkflowCollectionContext) (err : PureflowError)
    (w : world (S := S)) : result unit PureflowError * world (S := S) :=
  fail_workflow c err
    (ErrorMetadataRecord.workflow_failed (WorkflowDefinition.id (cc_workflow c))
       (cc_execution c) err) w.

Definition record_first_workflow_error_with_diagnostic (c : WorkflowCollectionContext)
    (err : PureflowError) (d : WorkflowDeadlockDiagnostic) (w : world (S := S)) :
    result unit PureflowError * world (S := S) :=
  fail_workflow c err
    (ErrorMetadataRecord.workflow_failed_with_diagnostic (WorkflowDefinition.id (cc_workflow c))
       (cc_execution c) err (WorkflowDeadlockDiagnostic.to_metadata_diagnostic d)) w.

Definition record_node_run_result (c : WorkflowCollectionContext) (s : WorkflowRunSummary)
    (r : result unit PureflowError) (w : world (S := S)) :
    result WorkflowRunSummary PureflowError * world (S := S) :=
  match r with
  | Ok _ => (Ok (WorkflowRunSummary.record_success s), w)
  | Err err =>
      let (recorded, w) :=
        match WorkflowRunSummary.first_error s with
        | None => record_first_workflow_error c err w
        | Some _ => (Ok tt, w)
        end in
      (let? _ := recorded in Ok (WorkflowRunSummary.record_error err s), w)
  end.

(** [collect_workflow_summary_until_complete], on the results in the order the
    nodes end. *)
Fixpoint collect_until_complete (c : WorkflowCollectionContext) (s : WorkflowRunSummary)
    (results : list (result unit PureflowError)) (w : world (S := S)) :
    result WorkflowRunSummary PureflowError * world (S := S) :=
  match results with
  | [] => (Ok s, w)
  | r :: results =>
      let (recorded, w) := record_node_run_result c s r w in
      match recorded with
      | Err e => (Err e, w)
      | Ok s => collect_until_complete c s results w
      end
  end.

(** One round of the watchdog's loop: a node ends, the deadline elapses first,
    or the watchdog's thread cannot be started. *)
Inductive WatchdogEvent : Set :=
| NodeEnded (r : result unit PureflowError)
| DeadlineElapsed
| WatchdogNotStarted (err : rstr).

(** What the loop does when the deadline wins. *)
Definition deadline_elapsed (c : WorkflowCollectionContext) (watchdog : DeadlockWatchdogPolicy)
    (s : WorkflowRunSummary) (w : world (S := S)) :
    result WorkflowRunSummary PureflowError * world (S := S) :=
  let diagnostic := diagnostic_from_run (cc_workflow c) s (cc_policy c) watchdog in
  let err := PureflowError.execution (WorkflowDeadlockDiagnostic.fmt diagnostic) in
  let (recorded, w) := record_first_workflow_error_with_diagnostic c err diagnostic w in
  (let? _ := recorded in
   Ok (WorkflowRunSummary.record_deadlock_diagnostic diagnostic
         (WorkflowRunSummary.record_workflow_error err s)), w).

(** [collect_workflow_summary_with_deadlock_watchdog], with [running] node runs
    left; pending when the events end before the loop does. *)
Fixpoint collect_with_watchdog (c : WorkflowCollectionContext) (watchdog : DeadlockWatchdogPolicy)
    (running : nat) (s : WorkflowRunSummary) (events : list WatchdogEvent) (w : world (S := S)) :
    Poll (result WorkflowRunSummary PureflowError) * world (S := S) :=
  match running with
  | 0 => (Ready (Ok s), w)
  | Datatypes.S running =>
      match events with
      | [] => (Pending, w)
      | NodeEnded r :: events =>
          let (recorded, w) := record_node_run_result c s r w in
          match recorded with
          | Err e => (Ready (Err e), w)
          | Ok s => collect_with_watchdog c watchdog running s events w
          end
      | DeadlineElapsed :: _ => let (r, w) := deadline_elapsed c watchdog s w in (Ready r, w)
      | WatchdogNotStarted err :: _ =>
          (Ready (Err (PureflowError.execution
             (lit "failed to start workflow deadlock watchdog: " ++ err))), w)
      end
  end.

(** [collect_workflow_summary]: the events carry only node ends when the
    watchdog is off. *)
Definition collect_workflow_summary (c : WorkflowCollectionContext) (scheduled : nat)
    (events : list WatchdogEvent) (w : world (S := S)) :
    Poll (result WorkflowRunSummary PureflowError) * world (S := S) :=
  let s := WorkflowRunSummary.new (N.of_nat scheduled) in
  match WorkflowRunPolicy.watchdog_policy (cc_policy c) with
  | WorkflowWatchdogPolicy.Disabled =>
      let results := omap (λ e, match e with NodeEnded r => Some r | _ => None end) events in
      if Nat.ltb (length results) scheduled then
        let (r, w) := collect_until_complete c s results w in
        match r with Err e => (Ready (Err e), w) | Ok _ => (Pending, w) end
      else
        let (r, w) := collect_until_complete c s (take scheduled results) w in (Ready r, w)
  | WorkflowWatchdogPolicy.Deadlock watchdog => collect_with_watchdog c watchdog scheduled s events w
  end.

(** ** Specification *)

Definition result_error (r : result unit PureflowError) : option PureflowError :=
  match r with Err e => Some e | Ok _ => None end.
Definition errors_of (results : list (result unit PureflowError)) : list PureflowError :=
  omap result_error results.

(** The summary of a list of node results. *)
Definition summary_of (scheduled : N) (results : list (result unit PureflowError)) :
    WorkflowRunSummary :=
  let errors := errors_of results in
  WorkflowRunSummary.mk
    (match head errors with
     | None => WorkflowTerminalState.Completed
     | Some e => if is_cancellation e then WorkflowTerminalState.Cancelled
                 else WorkflowTerminalState.Failed
     end)
    scheduled
    (N.of_nat (length results - length errors))
    (N.of_nat (length (filter (λ e, is_cancellation e = false) errors)))
    (N.of_nat (length (filter (λ e, is_cancellation e = true) errors)))
    0 (N.of_nat (length errors)) (head errors) None.

(** The signals after the errors of a run: the first one cancels it. *)
Definition signals_after (c : WorkflowCollectionContext)
    (results : list (result unit PureflowError)) (sig : signals) : signals :=
  match head (errors_of results) with
  | None => sig
  | Some e => (CancellationHandle.cancel sig (cc_cancellation c)
                 (CancellationRequest.new (lit "node execution failed: " ++ PureflowError.fmt e))).2
  end.

(** ** Lemmas *)

Lemma errors_of_snoc results r :
  errors_of (results ++ [r]) = errors_of results
  ++ match result_error r with Some e => [e] | None => [] end.
Proof. unfold errors_of. rewrite omap_app. simpl. by destruct (result_error r). Qed.

Lemma length_errors_of results : length (errors_of results) ≤ length results.
Proof. induction results as [|[]]; simpl; lia. Qed.

Lemma errors_partition l :
  length (filter (λ e, is_cancellation e = false) l)
  + length (filter (λ e, is_cancellation e = true) l) = length l.
Proof.
  induction l as [|e l IH]; [done|]. rewrite !filter_cons. destruct (is_cancellation e); simpl; lia.
Qed.

Lemma saturating_succ n : (N.of_nat n + 1 ≤ USIZE_MAX)%N →
  usize_saturating_add (N.of_nat n) 1 = N.of_nat (Datatypes.S n).
Proof. unfold usize_saturating_add. lia. Qed.

Context (sink_accepts : ∀ sig (s : S) r, (sink_record sig s r).1 = Ok tt).

Lemma fail_workflow_ok c err record (w : world (S := S)) :
  (fail_workflow c err record w).1 = Ok tt
  ∧ w_chans (fail_workflow c err record w).2 = w_chans w
  ∧ w_signals (fail_workflow c err record w).2
    = (CancellationHandle.cancel (w_signals w) (cc_cancellation c)
         (CancellationRequest.new (lit "node execution failed: " ++ PureflowError.fmt err))).2.
Proof.
  unfold fail_workflow. pose proof (sink_accepts (w_signals w) (w_sink w)
    (MetadataRecord.Error record)) as Hs.
  destruct (sink_record _ _ _) as [r sink]. simpl in Hs. subst r. simpl.
  by destruct (CancellationHandle.cancel _ _ _).
Qed.

Lemma record_error_summary scheduled done err :
  (N.of_nat (length done) + 1 ≤ USIZE_MAX)%N →
  WorkflowRunSummary.record_error err (summary_of scheduled done)
  = summary_of scheduled (done ++ [Err err]).
Proof.
  intros Hn. unfold WorkflowRunSummary.record_error, WorkflowRunSummary.note_first_error, summary_of.
  rewrite errors_of_snoc, length_app. simpl. pose proof (length_errors_of done) as Hle.
  pose proof (errors_partition (errors_of done)) as Hpart.
  rewrite !saturating_succ by lia. rewrite !filter_app, !length_app, !filter_cons, !filter_nil.
  replace (length done + 1 - (length (errors_of done) + 1))
    with (length done - length (errors_of done)) by lia.
  destruct (errors_of done) as [|e errs]; simpl; destruct (is_cancellation err); simpl;
    rewrite ?length_app, ?Nat.add_0_r, ?Nat.add_1_r; simpl; rewrite ?Nat.add_1_r; done.
Qed.

Lemma record_success_summary scheduled done :
  (N.of_nat (length done) + 1 ≤ USIZE_MAX)%N →
  WorkflowRunSummary.record_success (summary_of scheduled done)
  = summary_of scheduled (done ++ [Ok tt]).
Proof.
  intros Hn. unfold WorkflowRunSummary.record_success, summary_of.
  rewrite errors_of_snoc, app_nil_r, length_app. simpl. pose proof (length_errors_of done).
  rewrite saturating_succ by lia.
  by replace (length done + 1 - length (errors_of done))
    with (Datatypes.S (length done - length (errors_of done))) by lia.
Qed.

(** One result keeps the summary that of the results so far, and the signals
    those after them. *)
Lemma record_node_run_result_spec c scheduled done r sig (w : world (S := S)) :
  (N.of_nat (length done) + 1 ≤ USIZE_MAX)%N → w_signals w = signals_after c done sig →
  let (recorded, w') := record_node_run_result c (summary_of scheduled done) r w in
  recorded = Ok (summary_of scheduled (done ++ [r]))
  ∧ w_signals w' = signals_after c (done ++ [r]) sig ∧ w_chans w' = w_chans w.
Proof.
  intros Hn Hsig. unfold record_node_run_result. destruct r as [[]|err].
  - rewrite record_success_summary by done. split; [done|]. unfold signals_after.
    rewrite errors_of_snoc, app_nil_r. done.
  - simpl. unfold signals_after in *. rewrite errors_of_snoc.
    destruct (head (errors_of done)) as [e|] eqn:Hh.
    + simpl. rewrite record_error_summary by done.
      destruct (errors_of done); simplify_eq/=. done.
    + destruct (errors_of done); [|done]. unfold record_first_workflow_error.
      destruct (fail_workflow_ok c err (ErrorMetadataRecord.workflow_failed
        (WorkflowDefinition.id (cc_workflow c)) (cc_execution c) err) w) as (H1 & H2 & H3).
      destruct (fail_workflow _ _ _ w) as [recorded w1]. simpl in *. subst recorded. simpl.
      rewrite record_error_summary by done. by rewrite H3, Hsig.
Qed.

Lemma collect_until_complete_spec c scheduled done results sig (w : world (S := S)) :
  (N.of_nat (length (done ++ results)) ≤ USIZE_MAX)%N → w_signals w = signals_after c done sig →
  let (r, w') := collect_until_complete c (summary_of scheduled done) results w in
  r = Ok (summary_of scheduled (done ++ results))
  ∧ w_signals w' = signals_after c (done ++ results) sig ∧ w_chans w' = w_chans w.
Proof.
  revert done w. induction results as [|r results IH]; intros done w Hn Hsig; simpl.
  { by rewrite app_nil_r. }
  rewrite length_app in Hn. simpl in Hn.
  pose proof (record_node_run_result_spec c scheduled done r sig w ltac:(lia) Hsig) as Hr.
  destruct (record_node_run_result _ _ _ w) as [recorded w1]. destruct Hr as (-> & Hs & Hc).
  specialize (IH (done ++ [r]) w1). rewrite <- app_assoc in IH. simpl in IH.
  destruct (collect_until_complete _ _ results w1) as [r' w2].
  destruct IH as (-> & ? & ?); [rewrite length_app; simpl; lia|done|].
  split_and!; [done|done|congruence].
Qed.

Lemma collect_with_watchdog_results c watchdog scheduled running done results events sig
  (w : world (S := S)) :
  (N.of_nat (length (done ++ results)) ≤ USIZE_MAX)%N → w_signals w = signals_after c done sig →
  length results ≤ running →
  ∃ w', collect_with_watchdog c watchdog running (summary_of scheduled done)
          ((NodeEnded <$> results) ++ events) w
        = collect_with_watchdog c watchdog (running - length results)
            (summary_of scheduled (done ++ results)) events w'
    ∧ w_signals w' = signals_after c (done ++ results) sig ∧ w_chans w' = w_chans w.
Proof.
  revert running done w. induction results as [|r results IH]; intros running done w Hn Hsig Hlen.
  { exists w. rewrite app_nil_r. simpl. by rewrite Nat.sub_0_r. }
  destruct running as [|running]; simpl in Hlen; [lia|]. rewrite length_app in Hn. simpl in Hn.
  simpl.
  pose proof (record_node_run_result_spec c scheduled done r sig w ltac:(lia) Hsig) as Hr.
  destruct (record_node_run_result _ _ _ w) as [recorded w1]. destruct Hr as (-> & Hs & Hc).
  destruct (IH running (done ++ [r]) w1) as (w' & E & Hs' & Hc');
    [rewrite !length_app; simpl; lia|done|lia|].
  rewrite <- app_assoc in E, Hs'. exists w'. split; [exact E|]. split; [done|congruence].
Qed.

Lemma omap_node_ended results events :
  omap (λ e, match e with NodeEnded r => Some r | _ => None end)
    ((NodeEnded <$> results) ++ events)
  = results ++ omap (λ e, match e with NodeEnded r => Some r | _ => None end) events.
Proof. induction results as [|r results IH]; [done|]. simpl. f_equal. exact IH. Qed.

Lemma summary_counts scheduled results :
  let s := summary_of scheduled results in
  (WorkflowRunSummary.completed_node_count s + WorkflowRunSummary.failed_node_count s
   + WorkflowRunSummary.cancelled_node_count s = N.of_nat (length results))%N
  ∧ (WorkflowRunSummary.failed_node_count s + WorkflowRunSummary.cancelled_node_count s
     = WorkflowRunSummary.error_count s)%N.
Proof.
  simpl. pose proof (length_errors_of results). pose proof (errors_partition (errors_of results)).
  lia.
Qed.

Lemma summary_pending scheduled results :
  (N.of_nat (length results) ≤ USIZE_MAX)%N →
  WorkflowRunSummary.pending_node_count (summary_of scheduled results)
  = (scheduled - N.of_nat (length results))%N.
Proof.
  intros Hn. destruct (summary_counts scheduled results) as [Hc _].
  unfold WorkflowRunSummary.pending_node_count, usize_saturating_sub, usize_saturating_add in *.
  change (WorkflowRunSummary.scheduled_node_count (summary_of scheduled results)) with scheduled.
  lia.
Qed.

Lemma errors_of_nil results : errors_of results = [] ↔ Forall (λ r, r = Ok tt) results.
Proof.
  induction results as [|[[]|e] results IH]; simpl; [done| |].
  - rewrite IH, Forall_cons. naive_solver.
  - rewrite Forall_cons. naive_solver.
Qed.

(** C15. Collecting a run whose nodes have all ended, in any order, with or
    without a watchdog whose deadline never won: the collection completes, every
    node is counted exactly once, as completed, failed or cancelled, none is
    pending, the terminal state and the result are those of the first error, and
    the run is cancelled exactly when there is one, with that error as reason. *)
Theorem run_summary_accounts (c : WorkflowCollectionContext)
  (results : list (result unit PureflowError)) (w : world (S := S))
  (Hfits : (N.of_nat (length results) ≤ USIZE_MAX)%N) :
  let s := summary_of (N.of_nat (length results)) results in
  let (r, w') := collect_workflow_summary c (length results) (NodeEnded <$> results) w in
  r = Ready (Ok s)
  ∧ w_signals w' = signals_after c results (w_signals w)
  ∧ w_chans w' = w_chans w
  ∧ (WorkflowRunSummary.completed_node_count s + WorkflowRunSummary.failed_node_count s
     + WorkflowRunSummary.cancelled_node_count s = N.of_nat (length results))%N
  ∧ WorkflowRunSummary.pending_node_count s = 0%N
  ∧ WorkflowRunSummary.into_result s
    = match head (errors_of results) with Some e => Err e | None => Ok tt end
  ∧ (WorkflowRunSummary.terminal_state s = WorkflowTerminalState.Completed
     ↔ Forall (λ r, r = Ok tt) results).
Proof.
  intros s. assert (Hspec : let (r, w') := collect_workflow_summary c (length results)
      (NodeEnded <$> results) w in
    r = Ready (Ok s) ∧ w_signals w' = signals_after c results (w_signals w)
    ∧ w_chans w' = w_chans w).
  { unfold collect_workflow_summary. change (WorkflowRunSummary.new ?n) with (summary_of n []).
    destruct (WorkflowRunPolicy.watchdog_policy (cc_policy c)) as [|watchdog].
    - pose proof (omap_node_ended results []) as Ho. rewrite !app_nil_r in Ho. rewrite Ho.
      rewrite Nat.ltb_irrefl, firstn_all.
      pose proof (collect_until_complete_spec c (N.of_nat (length results)) [] results
        (w_signals w) w Hfits eq_refl) as Hc.
      destruct (collect_until_complete _ _ _ w) as [r w']. by destruct Hc as (-> & ? & ?).
    - destruct (collect_with_watchdog_results c watchdog (N.of_nat (length results))
        (length results) [] results [] (w_signals w) w Hfits eq_refl ltac:(done))
        as (w' & E & Hs & Hc). rewrite app_nil_r in E. rewrite E, Nat.sub_diag. done. }
  destruct (collect_workflow_summary _ _ _ w) as [r w']. destruct Hspec as (Hr & Hs & Hc).
  split_and!; [done|done|done|apply summary_counts|unfold s; rewrite summary_pending by done; lia|done|].
  rewrite <- errors_of_nil. unfold s. simpl. destruct (errors_of results) as [|e l]; simpl; [done|].
  by destruct (is_cancellation e).
Qed.

(** When the watchdog's deadline elapses before the next node ends: the
    collection stops there, whatever would follow; its summary keeps the counts
    of the nodes that ended, reports how many are pending, carries the diagnostic
    and one more error, which is the result unless a node failed before; the run
    is not completed, and it is cancelled. *)
Theorem watchdog_stops_collection (c : WorkflowCollectionContext)
  (watchdog : DeadlockWatchdogPolicy) (scheduled : nat)
  (results : list (result unit PureflowError)) (rest : list WatchdogEvent) (w : world (S := S))
  (Hwatchdog : WorkflowRunPolicy.watchdog_policy (cc_policy c)
               = WorkflowWatchdogPolicy.Deadlock watchdog)
  (Hsome : length results < scheduled) (Hfits : (N.of_nat scheduled ≤ USIZE_MAX)%N) :
  ∃ s d w', collect_workflow_summary c scheduled
              ((NodeEnded <$> results) ++ DeadlineElapsed :: rest) w = (Ready (Ok s), w')
    ∧ w_signals w'
      = (CancellationHandle.cancel (signals_after c results (w_signals w)) (cc_cancellation c)
           (CancellationRequest.new
              (lit "node execution failed: "
               ++ PureflowError.fmt
                    (PureflowError.execution (WorkflowDeadlockDiagnostic.fmt d))))).2
    ∧ WorkflowRunSummary.deadlock_diagnostic s = Some d
    ∧ WorkflowDeadlockDiagnostic.pending_node_count d = N.of_nat (scheduled - length results)
    ∧ WorkflowRunSummary.error_count s = N.of_nat (Datatypes.S (length (errors_of results)))
    ∧ WorkflowRunSummary.first_error s
      = Some (default (PureflowError.execution (WorkflowDeadlockDiagnostic.fmt d))
                (head (errors_of results)))
    ∧ WorkflowRunSummary.terminal_state s ≠ WorkflowTerminalState.Completed.
Proof.
  unfold collect_workflow_summary. rewrite Hwatchdog.
  change (WorkflowRunSummary.new ?n) with (summary_of n []).
  destruct (collect_with_watchdog_results c watchdog (N.of_nat scheduled) scheduled [] results
    (DeadlineElapsed :: rest) (w_signals w) w) as (w' & E & Hs & _); [simpl; lia|done|lia|].
  rewrite E. destruct (scheduled - length results) as [|running] eqn:Hr; [lia|]. simpl.
  unfold deadline_elapsed, record_first_workflow_error_with_diagnostic.
  set (d := diagnostic_from_run _ _ _ _). set (err := PureflowError.execution _).
  match goal with |- context [fail_workflow c err ?record w'] =>
    pose proof (fail_workflow_ok c err record w') as (Hok & _ & Hsig);
    destruct (fail_workflow c err record w') as [recorded w2]; simpl in Hok, Hsig; subst recorded
  end.
  pose proof (length_errors_of results) as Hle.
  eexists _, d, w2. split; [reflexivity|]. split; [by rewrite Hsig, Hs|]. unfold WorkflowRunSummary.record_workflow_error,
    WorkflowRunSummary.note_first_error, summary_of. simpl.
  split_and!.
  - done.
  - subst d. unfold diagnostic_from_run. simpl.
    rewrite (summary_pending (N.of_nat scheduled) results) by lia. lia.
  - destruct (head (errors_of results)); simpl; by rewrite saturating_succ by lia.
  - by destruct (head (errors_of results)).
  - destruct (head (errors_of results)) as [e|]; simpl; [|done]. by destruct (is_cancellation e).
Qed.
End collection.

(** The run policy check returns on every structurally valid workflow.
    Under the default policy it accepts exactly the acyclic workflows without two
    edges between the same two nodes; a feedback-loop policy accepts them all. *)
Theorem run_policy_accepts_iff (workflow : WorkflowDefinition) (policy : WorkflowRunPolicy)
  (Hvalid : structurally_valid (WorkflowDefinition.nodes workflow)
              (WorkflowDefinition.edges workflow)) :
  (∃ r, validate_workflow_run_policy workflow policy = Done r)
  ∧ (validate_workflow_run_policy workflow policy = Done (Ok tt) ↔
     (WorkflowRunPolicy.cycle_policy policy = CycleRunPolicy.Reject →
      acyclic (arcs (WorkflowDefinition.edges workflow))
      ∧ NoDup (arcs (WorkflowDefinition.edges workflow)))).
Proof.
  unfold validate_workflow_run_policy, WorkflowGraph.topological_order.
  pose proof (from_graph_spec (WorkflowDefinition.nodes workflow)
    (WorkflowDefinition.edges workflow)) as Hs.
  apply (structural_check_ok _ _ tt) in Hvalid. rewrite Hvalid in Hs. destruct Hs as (t & Hf & _).
  change (WorkflowGraph.nodes (WorkflowDefinition.graph workflow))
    with (WorkflowDefinition.nodes workflow).
  change (WorkflowGraph.edges (WorkflowDefinition.graph workflow))
    with (WorkflowDefinition.edges workflow). rewrite Hf.
  destruct (topological_order_outcome _ _ t Hf) as [(o & -> & _ & _ & ? & ?)|(cyc & -> & Hc)]; simpl.
  - split; [by eexists|done].
  - split; [by eexists|]. unfold validate_cycle_run_policy.
    destruct (WorkflowRunPolicy.cycle_policy policy) as [|[[] []]]; simpl; [|done].
    split; [done|]. intros Hok. destruct (Hok eq_refl) as [Hac Hnd].
    destruct Hc as [Hc|[_ Hc]]; [by apply closed_walk_not_acyclic in Hc|done].
Qed.

(** ** Examples *)

Section examples.
#[local] Instance no_duration_text : DurationDebug := λ _, lit "1s".
Let wf : WorkflowDefinition :=
  WorkflowDefinition.new (ident "flow") (WorkflowGraph.mk diamond_nodes diamond_edges).
Let failed : result unit PureflowError := Err (PureflowError.execution (lit "boom")).
Let cancelled : result unit PureflowError := Err (PureflowError.cancelled (lit "stop")).
Let context (policy : WorkflowRunPolicy) : WorkflowCollectionContext :=
  mk_collection (CancellationHandle.mk (CancellationToken.mk 0)) wf
    (ExecutionMetadata.first_attempt (ident "run-1")) policy.
Let watchdog : DeadlockWatchdogPolicy := WorkflowWatchdogPolicy.new 1000000000.
Let start : world (S := list MetadataRecord) := mk_world [] [] [None].

Lemma collecting_accepts sig (sink : list MetadataRecord) (r : MetadataRecord) :
  (sink_record sig sink r).1 = Ok tt.
Proof. reflexivity. Qed.

Lemma run_summary_accounts_witness :
  let results := [Ok tt; failed; cancelled; Ok tt] in
  let (r, w') := collect_workflow_summary (context WorkflowRunPolicy.default) 4
                   (NodeEnded <$> results) start in
  r = Ready (Ok (summary_of 4 results))
  ∧ WorkflowRunSummary.into_result (summary_of 4 results) = failed.
Proof.
  intros results.
  destruct (run_summary_accounts collecting_accepts (context WorkflowRunPolicy.default) results
    start) as (Hr & _ & _ & _ & _ & Hi & _); [discriminate|].
  split; [exact Hr|exact Hi].
Defined.

Lemma watchdog_stops_collection_witness :
  let c := context (WorkflowRunPolicy.with_watchdog WorkflowRunPolicy.default
                      (WorkflowWatchdogPolicy.Deadlock watchdog)) in
  ∃ s d w', collect_workflow_summary c 4 ((NodeEnded <$> [Ok tt]) ++ DeadlineElapsed :: []) start
            = (Ready (Ok s), w')
    ∧ WorkflowRunSummary.deadlock_diagnostic s = Some d
    ∧ WorkflowDeadlockDiagnostic.pending_node_count d = 3%N.
Proof.
  intros c.
  destruct (watchdog_stops_collection collecting_accepts c watchdog 4 [Ok tt] [] start eq_refl)
    as (s & d & w' & Hr & _ & Hd & Hp & _); [simpl; lia|discriminate|].
  exists s, d, w'. split; [exact Hr|]. split; [exact Hd|exact Hp].
Defined.

Lemma run_policy_accepts_iff_witness :
  let two_cycle := WorkflowDefinition.new (ident "loop")
                     (WorkflowGraph.mk two_cycle_nodes two_cycle_edges) in
  validate_workflow_run_policy two_cycle
    (WorkflowRunPolicy.feedback_loops FeedbackLoopRunPolicy.start_all_nodes_until_complete)
  = Done (Ok tt).
Proof.
  intros two_cycle. apply (run_policy_accepts_iff two_cycle); [|discriminate].
  apply (structural_check_ok _ _ tt). vm_compute. reflexivity.
Defined.
End examples.
