(* ===== verification/Runtime.v ===== *)
(** [pureflow-runtime] (src/crates/pureflow-runtime/src/lib.rs): what surrounds
    the run of one node.

    The node itself is a future that the runtime polls; the code around it is
    [begin_node], up to the start of that future, and [finish_node], from its
    result to the result of the run.  RuntimeEntry.v has the entry points and the
    tracing output. *)

From S2P Require Import Prelude RustStr BTree Types Workflow Errors Json Context Message Metadata MetadataJson MetadataSink Channel Ports.

(** [trait LifecycleHook], on the state of the hook. *)
Class LifecycleHook (H : Type) :=
  hook_observe : H → LifecycleEvent → result unit PureflowError * H.

(** [NoopLifecycleHook]. *)
Inductive NoopLifecycleHook : Set := noop_hook.
#[export] Instance noop_lifecycle_hook : LifecycleHook NoopLifecycleHook := λ hook _, (Ok tt, hook).

(** [Result::and]. *)
Definition result_and {A B E} (a : result A E) (b : result B E) : result B E :=
  match a with Ok _ => b | Err e => Err e end.

Section runtime.
Context `{J : JsonNumber} {S : Type} `{!MetadataSink S} {H : Type} `{!LifecycleHook H}
  `{M : !Mpsc PortPacket}.

(** The observers: the hook, and the [world] with its sink. *)
Notation observers := (H * world (S := S))%type.

Definition record_metadata (r : MetadataRecord) (o : observers) :
    result unit PureflowError * observers :=
  let (hook, w) := o in
  let (res, sink) := sink_record (w_signals w) (w_sink w) r in
  (res, (hook, mk_world (w_chans w) sink (w_signals w))).

Definition observe_lifecycle (kind : LifecycleEventKind) (ctx : NodeContext) (o : observers) :
    result unit PureflowError * observers :=
  let event := LifecycleEvent.new kind ctx in
  let (recorded, o) := record_metadata (MetadataRecord.Lifecycle event) o in
  match recorded with
  | Err e => (Err e, o)
  | Ok _ => let (observed, hook) := hook_observe o.1 event in (observed, (hook, o.2))
  end.

Definition observe_node_error (ctx : NodeContext) (err : PureflowError) (o : observers) :
    result unit PureflowError * observers :=
  record_metadata (MetadataRecord.Error (ErrorMetadataRecord.node_failed ctx err)) o.

(** [run_node_with_observers] up to the node's own future: the ports the node
    receives. *)
Definition begin_node (ctx : NodeContext) (inputs : PortsIn) (outputs : PortsOut)
    (o : observers) : result (PortsIn * PortsOut) PureflowError * observers :=
  let inputs := ports_in_with_node_context ctx (ports_in_with_metadata_sink inputs) in
  let outputs := ports_out_with_node_context ctx (ports_out_with_metadata_sink outputs) in
  let (started, o) := observe_lifecycle LifecycleEventKind.NodeStarted ctx o in
  (let? _ := started in Ok (inputs, outputs), o).

(** [matches!(err, PureflowError::Cancellation(_))] picks the terminal event. *)
Definition error_event (err : PureflowError) : LifecycleEventKind :=
  match err with
  | PureflowError.Cancellation _ => LifecycleEventKind.NodeCancelled
  | _ => LifecycleEventKind.NodeFailed
  end.

(** The rest of [run_node_with_observers], after the node has returned. *)
Definition finish_node (ctx : NodeContext) (r : result unit PureflowError) (o : observers) :
    result unit PureflowError * observers :=
  let (terminal, o) :=
    match r with
    | Ok _ => observe_lifecycle LifecycleEventKind.NodeCompleted ctx o
    | Err err =>
        let (error_observation, o) := observe_node_error ctx err o in
        let (lifecycle_observation, o) := observe_lifecycle (error_event err) ctx o in
        (result_and error_observation lifecycle_observation, o)
    end in
  (match r, terminal with
   | Ok _, Ok _ => Ok tt
   | Ok _, Err err => Err err
   | Err err, _ => Err err
   end, o).

(** [run_node_with_observers] with a node that does [body] to the observers'
    world and returns. *)
Definition run_node_with_observers (ctx : NodeContext) (inputs : PortsIn) (outputs : PortsOut)
    (body : PortsIn → PortsOut → world (S := S) → result unit PureflowError * world (S := S))
    (o : observers) : result unit PureflowError * observers :=
  let (begun, o) := begin_node ctx inputs outputs o in
  match begun with
  | Err e => (Err e, o)
  | Ok (inputs, outputs) =>
      let (r, w) := body inputs outputs o.2 in
      finish_node ctx r (o.1, w)
  end.

(** [cancellation_error], the check before a run on an owned runtime. *)
Definition cancellation_error (ctx : NodeContext) (w : world (S := S)) : option PureflowError :=
  match NodeContext.cancellation (w_signals w) ctx with
  | CancellationState.Active => None
  | CancellationState.Requested request =>
      Some (PureflowError.Cancellation
              (CancellationError.new (CancellationRequest.reason request)))
  end.

(** ** Properties *)

(** What an observer pair has seen: events of the hook, records of the sink. *)
Context (events : H → list LifecycleEvent) (records : S → list MetadataRecord).

(** Observers that keep everything and never fail. *)
Definition faithful_observers : Prop :=
  (∀ h e, hook_observe h e = (Ok tt, (hook_observe h e).2)
          ∧ events (hook_observe h e).2 = events h ++ [e])
  ∧ ∀ sig s r, (sink_record sig s r).1 = Ok tt
          ∧ records (sink_record sig s r).2 = records s ++ [r].

Lemma observe_lifecycle_seen kind ctx (o : observers) :
  faithful_observers →
  let (r, o') := observe_lifecycle kind ctx o in
  r = Ok tt ∧ events o'.1 = events o.1 ++ [LifecycleEvent.new kind ctx]
  ∧ records (w_sink o'.2)
    = records (w_sink o.2) ++ [MetadataRecord.Lifecycle (LifecycleEvent.new kind ctx)].
Proof.
  intros [Hh Hs]. destruct o as [h w]. unfold observe_lifecycle, record_metadata.
  set (e := LifecycleEvent.new kind ctx).
  destruct (Hs (w_signals w) (w_sink w) (MetadataRecord.Lifecycle e)) as [H1 H2].
  destruct (sink_record _ _ _) as [r sink]. simpl in *. subst r. simpl.
  destruct (Hh h e) as [H3 H4]. destruct (hook_observe h e) as [r h']. by simplify_eq/=.
Qed.

(** How the end of a node is reported: a node that returns well has completed, one that
    returns a cancellation was cancelled, and one that returns an error of any other kind
    has failed. *)
Inductive ends_as : result unit PureflowError → LifecycleEventKind → Prop :=
| ends_completed : ends_as (Ok tt) LifecycleEventKind.NodeCompleted
| ends_cancelled c :
    ends_as (Err (PureflowError.Cancellation c)) LifecycleEventKind.NodeCancelled
| ends_invalid v : ends_as (Err (PureflowError.Validation v)) LifecycleEventKind.NodeFailed
| ends_execution x : ends_as (Err (PureflowError.Execution x)) LifecycleEventKind.NodeFailed
| ends_lifecycle l : ends_as (Err (PureflowError.Lifecycle l)) LifecycleEventKind.NodeFailed
| ends_metadata m : ends_as (Err (PureflowError.Metadata m)) LifecycleEventKind.NodeFailed.

Lemma error_event_ends_as err : ends_as (Err err) (error_event err).
Proof. destruct err; constructor. Qed.

(** The record that an error of the node leaves: the error, the workflow, the node and
    the execution. *)
Definition error_records (ctx : NodeContext) (r : result unit PureflowError) :
    list MetadataRecord :=
  match r with
  | Ok _ => []
  | Err err =>
      [MetadataRecord.Error
         (ErrorMetadataRecord.mk ErrorMetadataRecord.NodeFailed (NodeContext.workflow_id ctx)
            (Some (NodeContext.node_id ctx)) (NodeContext.execution ctx) err None)]
  end.

(** C35. A node run under observers that keep what they are told and never fail: the hook
    sees the start of the node and then exactly one terminal event, [NodeCompleted] when
    the node returned well, [NodeCancelled] when it returned a cancellation and
    [NodeFailed] for every other error; the sink gets the start before anything the node
    does, and after everything the error, if there is one, and then the terminal event;
    and the run returns what the node returned. *)
Theorem node_run_is_observed (ctx : NodeContext) (inputs : PortsIn) (outputs : PortsOut)
  (body : PortsIn → PortsOut → world (S := S) → result unit PureflowError * world (S := S))
  (hook : H) (w : world (S := S)) (Hobs : faithful_observers) :
  ∃ w1 in1 out1, records (w_sink w1)
      = records (w_sink w)
        ++ [MetadataRecord.Lifecycle (LifecycleEvent.new LifecycleEventKind.NodeStarted ctx)]
    ∧ in_ports in1 = in_ports inputs ∧ out_ports out1 = out_ports outputs
    ∧ out_validator out1 = out_validator outputs
    ∧ let (r, w2) := body in1 out1 w1 in
      ∃ kind o', ends_as r kind
        ∧ run_node_with_observers ctx inputs outputs body (hook, w) = (r, o')
        ∧ events o'.1 = events hook
          ++ [LifecycleEvent.new LifecycleEventKind.NodeStarted ctx; LifecycleEvent.new kind ctx]
        ∧ records (w_sink o'.2) = records (w_sink w2) ++ error_records ctx r
          ++ [MetadataRecord.Lifecycle (LifecycleEvent.new kind ctx)].
Proof.
  unfold run_node_with_observers, begin_node.
  pose proof (observe_lifecycle_seen LifecycleEventKind.NodeStarted ctx (hook, w) Hobs) as Hstart.
  destruct (observe_lifecycle _ ctx (hook, w)) as [r0 [h1 w1]]. destruct Hstart as (-> & He & Hr).
  simpl. exists w1, (ports_in_with_node_context ctx (ports_in_with_metadata_sink inputs)),
    (ports_out_with_node_context ctx (ports_out_with_metadata_sink outputs)). split; [done|]. split; [reflexivity|]. split; [reflexivity|].
  split; [reflexivity|]. destruct (body _ _ w1) as [r w2]. unfold finish_node.
  destruct r as [[]|err].
  - pose proof (observe_lifecycle_seen LifecycleEventKind.NodeCompleted ctx (h1, w2) Hobs) as Hend.
    destruct (observe_lifecycle _ ctx (h1, w2)) as [r3 o3]. destruct Hend as (-> & He3 & Hr3).
    exists LifecycleEventKind.NodeCompleted, o3. split; [constructor|]. split; [done|]. rewrite He3, Hr3. simpl in *. rewrite He. by rewrite <- app_assoc.
  - unfold observe_node_error, record_metadata.
    destruct Hobs as [Hh Hs].
    destruct (Hs (w_signals w2) (w_sink w2)
      (MetadataRecord.Error (ErrorMetadataRecord.node_failed ctx err))) as [_ H2].
    destruct (sink_record _ _ _) as [r3 sink]. simpl in H2.
    pose proof (observe_lifecycle_seen (error_event err) ctx
      (h1, mk_world (w_chans w2) sink (w_signals w2)) (conj Hh Hs)) as Hend.
    destruct (observe_lifecycle _ ctx _) as [r4 o4]. destruct Hend as (-> & He4 & Hr4).
    exists (error_event err), o4. split; [apply error_event_ends_as|].
    split; [by destruct r3|]. rewrite He4, Hr4. simpl in *. rewrite He, H2.
    by rewrite <- !app_assoc.
Qed.
End runtime.

(** ** Examples *)

(** A hook that keeps the events it is given. *)
#[export] Instance collecting_hook : LifecycleHook (list LifecycleEvent) :=
  λ seen event, (Ok tt, seen ++ [event]).

Section examples.
Let ctx : NodeContext :=
  NodeContext.mk (ident "flow") (ident "n") (ExecutionMetadata.first_attempt (ident "run-1"))
    (CancellationToken.mk 0).
Let start : world (S := list MetadataRecord) := mk_world [] [] [None].
Let failure : result unit PureflowError := Err (PureflowError.execution (lit "boom")).

Lemma node_run_is_observed_witness :
  let (r, o) := run_node_with_observers ctx (ports_in_new []) (ports_out_new [])
                  (λ _ _ w, (failure, w)) ([], start) in
  r = failure
  ∧ o.1 = [LifecycleEvent.new LifecycleEventKind.NodeStarted ctx;
           LifecycleEvent.new LifecycleEventKind.NodeFailed ctx].
Proof.
  destruct (node_run_is_observed (λ l, l) (λ l, l) ctx (ports_in_new []) (ports_out_new [])
    (λ _ _ w, (failure, w)) [] start) as (w1 & i & u & _ & _ & _ & _ & kind & o & Hk & Hr & He & _).
  { split; [intros; split; reflexivity|intros; split; reflexivity]. }
  rewrite Hr. split; [reflexivity|]. inversion Hk; subst kind. exact He.
Defined.
End examples.
