(* ===== verification/RuntimeEntry.v ===== *)
(** [pureflow-runtime] (src/crates/pureflow-runtime/src/lib.rs): the entry points
    around Runtime.v, the wrapper that owns a runtime, and the tracing output of the
    [tracing] feature.

    asupersync's builder and runtime are parameters.  A future is given by what it
    does to the observers' world until it returns, and [block_on] drives it to that
    point. *)

From S2P Require Import Prelude RustStr BTree Types Workflow Errors Json Context Message Metadata MetadataSink Channel Ports Runtime.

(** ** Functions that run one node *)

Section run_node.
Context `{J : JsonNumber} `{M : !Mpsc PortPacket}.

(** A node executor: what [NodeExecutor::run] does and returns. *)
Definition node_future (S : Type) : Type :=
  NodeContext → PortsIn → PortsOut → world (S := S) → result unit PureflowError * world (S := S).

Definition run_node (node : node_future NoopMetadataSink) (ctx : NodeContext) (inputs : PortsIn)
    (outputs : PortsOut) (w : world (S := NoopMetadataSink)) :
    result unit PureflowError * world (S := NoopMetadataSink) :=
  let '(r, (_, w)) := run_node_with_observers ctx inputs outputs (node ctx) (noop_hook, w) in (r, w).

Definition run_node_with_hook {H : Type} `{!LifecycleHook H} (node : node_future NoopMetadataSink)
    (ctx : NodeContext) (inputs : PortsIn) (outputs : PortsOut) (hook : H)
    (w : world (S := NoopMetadataSink)) :
    result unit PureflowError * (H * world (S := NoopMetadataSink)) :=
  run_node_with_observers ctx inputs outputs (node ctx) (hook, w).

Definition run_node_with_metadata_sink {S : Type} `{!MetadataSink S} (node : node_future S)
    (ctx : NodeContext) (inputs : PortsIn) (outputs : PortsOut) (w : world (S := S)) :
    result unit PureflowError * world (S := S) :=
  let '(r, (_, w)) := run_node_with_observers ctx inputs outputs (node ctx) (noop_hook, w) in (r, w).
End run_node.

(** ** The owned runtime *)

Module AsupersyncRuntime.
Section runtime.
Context `{J : JsonNumber} `{M : !Mpsc PortPacket} {Builder Runtime : Type}
  (build : Builder → result Runtime rstr) (default_builder : Builder).

Record AsupersyncRuntime : Type := mk { runtime : Runtime }.

Definition from_builder (builder : Builder) : result AsupersyncRuntime PureflowError :=
  match build builder with
  | Ok runtime => Ok (mk runtime)
  | Err err =>
      Err (PureflowError.execution (lit "failed to build asupersync runtime: " ++ err))
  end.
Definition new : result AsupersyncRuntime PureflowError := from_builder default_builder.

Definition block_on {O T : Type} (self : AsupersyncRuntime) (future : O → T * O) (o : O) : T * O :=
  future o.

Definition cancellation_handle (s : signals) : CancellationHandle * signals :=
  CancellationHandle.new s.

Definition run_node (self : AsupersyncRuntime) (node : node_future NoopMetadataSink)
    (ctx : NodeContext) (inputs : PortsIn) (outputs : PortsOut)
    (w : world (S := NoopMetadataSink)) :
    result unit PureflowError * world (S := NoopMetadataSink) :=
  match cancellation_error ctx w with
  | Some err => (Err err, w)
  | None => block_on self (RuntimeEntry.run_node node ctx inputs outputs) w
  end.

Definition run_node_with_cancellation_handle (self : AsupersyncRuntime)
    (node : node_future NoopMetadataSink) (ctx : NodeContext) (inputs : PortsIn)
    (outputs : PortsOut) (cancellation : CancellationHandle)
    (w : world (S := NoopMetadataSink)) :
    result unit PureflowError * world (S := NoopMetadataSink) :=
  let ctx := NodeContext.with_cancellation_token ctx (CancellationHandle.token cancellation) in
  match cancellation_error ctx w with
  | Some err => (Err err, w)
  | None => block_on self (RuntimeEntry.run_node node ctx inputs outputs) w
  end.

Definition run_node_with_metadata_sink {S : Type} `{!MetadataSink S} (self : AsupersyncRuntime)
    (node : node_future S) (ctx : NodeContext) (inputs : PortsIn) (outputs : PortsOut)
    (w : world (S := S)) : result unit PureflowError * world (S := S) :=
  match cancellation_error ctx w with
  | Some err => (Err err, w)
  | None => block_on self (RuntimeEntry.run_node_with_metadata_sink node ctx inputs outputs) w
  end.
End runtime.
End AsupersyncRuntime.
Notation AsupersyncRuntime := AsupersyncRuntime.AsupersyncRuntime.

(** ** Tracing *)

(** What one of the [tracing] macros emits. *)
Module TraceEvent.
Inductive Level : Set := Debug | Info | Warn.
Record TraceEvent : Set := new {
  level : Level;
  target : rstr;
  fields : list (rstr * rstr);
  message : rstr;
}.
End TraceEvent.
Notation TraceEvent := TraceEvent.TraceEvent.

Definition lifecycle_event_kind_label (kind : LifecycleEventKind) : rstr :=
  match kind with
  | LifecycleEventKind.NodeScheduled => lit "node_scheduled"
  | LifecycleEventKind.NodeStarted => lit "node_started"
  | LifecycleEventKind.NodeCompleted => lit "node_completed"
  | LifecycleEventKind.NodeFailed => lit "node_failed"
  | LifecycleEventKind.NodeCancelled => lit "node_cancelled"
  end.

Section tracing.
Context `{J : JsonNumber} {S : Type} `{!MetadataSink S} {H : Type} `{!LifecycleHook H}
  `{M : !Mpsc PortPacket}.
Notation observers := (H * world (S := S))%type.
Notation traced := (H * world (S := S) * list TraceEvent)%type.

Definition metadata_record_kind_label (record : MetadataRecord) : rstr :=
  match record with
  | MetadataRecord.ExecutionContext _ => lit "execution_context"
  | MetadataRecord.Lifecycle _ => lit "lifecycle"
  | MetadataRecord.Message _ => lit "message"
  | MetadataRecord.QueuePressure _ => lit "queue_pressure"
  | MetadataRecord.Error _ => lit "error"
  | MetadataRecord.ExternalEffect _ => lit "external_effect"
  | MetadataRecord.RuleEval _ => lit "rule_eval"
  end.

(** The fields that name the run. *)
Definition context_fields (ctx : NodeContext) : list (rstr * rstr) :=
  [(lit "workflow_id", as_str (NodeContext.workflow_id ctx));
   (lit "node_id", as_str (NodeContext.node_id ctx));
   (lit "execution_id", as_str (ExecutionMetadata.execution_id (NodeContext.execution ctx)));
   (lit "attempt",
    show_N (ExecutionAttempt.get (ExecutionMetadata.attempt (NodeContext.execution ctx))))].

Definition emit_lifecycle_trace (event : LifecycleEvent) : TraceEvent :=
  TraceEvent.new TraceEvent.Info (lit "pureflow.runtime.lifecycle")
    ((lit "kind", lifecycle_event_kind_label (LifecycleEvent.kind event))
       :: context_fields (LifecycleEvent.context event))
    (lit "runtime lifecycle event").

Definition emit_metadata_trace (record : MetadataRecord) : TraceEvent :=
  TraceEvent.new TraceEvent.Debug (lit "pureflow.runtime.metadata")
    [(lit "record_type", metadata_record_kind_label record)]
    (lit "runtime metadata record emitted").

Definition emit_cancellation_trace (ctx : NodeContext) (reason : rstr) : TraceEvent :=
  TraceEvent.new TraceEvent.Warn (lit "pureflow.runtime.cancellation")
    (context_fields ctx ++ [(lit "reason", reason)])
    (lit "runtime cancellation observed").

(** The functions of Runtime.v with the feature enabled: each trace is emitted before
    the record it announces. *)
Definition traced_observe_lifecycle (kind : LifecycleEventKind) (ctx : NodeContext) (o : traced) :
    result unit PureflowError * traced :=
  let event := LifecycleEvent.new kind ctx in
  let trace := o.2 ++ [emit_lifecycle_trace event;
                       emit_metadata_trace (MetadataRecord.Lifecycle event)] in
  let (r, o) := observe_lifecycle kind ctx o.1 in (r, (o, trace)).

Definition traced_observe_node_error (ctx : NodeContext) (err : PureflowError) (o : traced) :
    result unit PureflowError * traced :=
  let trace := o.2 ++ [emit_metadata_trace (MetadataRecord.Error (ErrorMetadataRecord.node_failed ctx err))] in
  let (r, o) := observe_node_error ctx err o.1 in (r, (o, trace)).

Definition traced_cancellation_error (ctx : NodeContext) (w : world (S := S))
    (trace : list TraceEvent) : option PureflowError * list TraceEvent :=
  match NodeContext.cancellation (w_signals w) ctx with
  | CancellationState.Active => (None, trace)
  | CancellationState.Requested request =>
      (Some (PureflowError.Cancellation
               (CancellationError.new (CancellationRequest.reason request))),
       trace ++ [emit_cancellation_trace ctx (CancellationRequest.reason request)])
  end.

Definition traced_run_node_with_observers (ctx : NodeContext) (inputs : PortsIn)
    (outputs : PortsOut)
    (body : PortsIn → PortsOut → world (S := S) → result unit PureflowError * world (S := S))
    (o : traced) : result unit PureflowError * traced :=
  let inputs := ports_in_with_node_context ctx (ports_in_with_metadata_sink inputs) in
  let outputs := ports_out_with_node_context ctx (ports_out_with_metadata_sink outputs) in
  let (started, o) := traced_observe_lifecycle LifecycleEventKind.NodeStarted ctx o in
  match started with
  | Err e => (Err e, o)
  | Ok _ =>
      let '((hook, w), trace) := o in
      let (r, w) := body inputs outputs w in
      let o := ((hook, w), trace) in
      let (terminal, o) :=
        match r with
        | Ok _ => traced_observe_lifecycle LifecycleEventKind.NodeCompleted ctx o
        | Err err =>
            let (error_observation, o) := traced_observe_node_error ctx err o in
            let (lifecycle_observation, o) := traced_observe_lifecycle (error_event err) ctx o in
            (result_and error_observation lifecycle_observation, o)
        end in
      (match r, terminal with
       | Ok _, Ok _ => Ok tt
       | Ok _, Err err => Err err
       | Err err, _ => Err err
       end, o)
  end.

(** ** Properties *)

(** The kinds of the lifecycle traces. *)
Definition lifecycle_kinds (trace : list TraceEvent) : list (option rstr) :=
  (λ e, snd <$> head (TraceEvent.fields e))
    <$> filter (λ e, TraceEvent.target e = lit "pureflow.runtime.lifecycle") trace.

(** Tracing changes nothing else, for any observers, failing ones included. *)
Theorem tracing_is_transparent (ctx : NodeContext) (inputs : PortsIn) (outputs : PortsOut)
  (body : PortsIn → PortsOut → world (S := S) → result unit PureflowError * world (S := S))
  (o : observers) (trace : list TraceEvent) :
  let r := traced_run_node_with_observers ctx inputs outputs body (o, trace) in
  (r.1, r.2.1) = run_node_with_observers ctx inputs outputs body o.
Proof.
  unfold traced_run_node_with_observers, run_node_with_observers, begin_node,
    traced_observe_lifecycle. simpl.
  destruct (observe_lifecycle _ ctx o) as [[[]|e] [hook w]]; [simpl|done].
  destruct (body _ _ w) as [[[]|err] w1]; unfold finish_node; cbn [fst snd].
  - by destruct (observe_lifecycle _ ctx (hook, w1)) as [[[]|] ?].
  - unfold traced_observe_node_error. cbn [fst snd].
    destruct (observe_node_error ctx err (hook, w1)) as [r2 o2].
    simpl. by destruct (observe_lifecycle (error_event err) ctx o2) as [r3 o3].
Qed.

(** A traced run shows its start and exactly one terminal event, whichever way the
    observers answer; a run that could not be started shows its start only. *)
Theorem tracing_brackets_run (ctx : NodeContext) (inputs : PortsIn) (outputs : PortsOut)
  (body : PortsIn → PortsOut → world (S := S) → result unit PureflowError * world (S := S))
  (o : observers) :
  let r := traced_run_node_with_observers ctx inputs outputs body (o, []) in
  let (started, o1) := begin_node ctx inputs outputs o in
  lifecycle_kinds r.2.2 =
  match started with
  | Err _ => [Some (lit "node_started")]
  | Ok (inputs, outputs) =>
      [Some (lit "node_started");
       Some (match (body inputs outputs o1.2).1 with
             | Ok _ => lit "node_completed"
             | Err err => lifecycle_event_kind_label (error_event err)
             end)]
  end.
Proof.
  unfold traced_run_node_with_observers, begin_node, traced_observe_lifecycle. simpl.
  destruct (observe_lifecycle _ ctx o) as [[[]|e] [hook w]]; [simpl|done].
  destruct (body _ _ w) as [[[]|err] w1]; cbn [fst snd].
  - by destruct (observe_lifecycle _ ctx (hook, w1)) as [[[]|] ?].
  - unfold traced_observe_node_error. cbn [fst snd].
    destruct (observe_node_error ctx err (hook, w1)) as [r2 o2].
    simpl. by destruct (observe_lifecycle (error_event err) ctx o2) as [r3 o3].
Qed.
End tracing.

(** A run on the owned runtime under a cancellation handle: a handle that was used
    before the run wins over the context's own signal, the error carries its reason, and
    neither the node nor an observer sees anything; otherwise the run is that of
    [run_node] under the handle's signal. *)
Theorem cancelled_handle_prevents_run `{J : JsonNumber} `{M : !Mpsc PortPacket} {Runtime : Type}
  (self : AsupersyncRuntime (Runtime := Runtime)) (node : node_future NoopMetadataSink)
  (ctx : NodeContext) (inputs : PortsIn) (outputs : PortsOut) (handle : CancellationHandle)
  (w : world (S := NoopMetadataSink)) :
  AsupersyncRuntime.run_node_with_cancellation_handle self node ctx inputs outputs handle w =
  match CancellationHandle.request (w_signals w) handle with
  | Some request =>
      (Err (PureflowError.Cancellation
              (CancellationError.new (CancellationRequest.reason request))), w)
  | None => run_node node (NodeContext.with_cancellation_token ctx (CancellationHandle.token handle))
              inputs outputs w
  end.
Proof.
  unfold AsupersyncRuntime.run_node_with_cancellation_handle, cancellation_error,
    NodeContext.cancellation, CancellationToken.state, CancellationHandle.request. simpl.
  by destruct (CancellationToken.request _ _).
Qed.
