(* ===== verification/Format.v ===== *)
(** [pureflow-workflow-format]: raw workflow documents, their conversion into
    validated workflows, and the resolution of rule sets
    (src/crates/pureflow-workflow-format/src/lib.rs and rule_source.rs).

    The JSON, TOML and YAML parsers and the derived (de)serialisers of
    [RuleSet] are libraries: [TextFormat] and [RuleSetSerde].  A rule set source
    is a trait of the program and an argument of the registry; the file system
    is [FileSystem].  Both are taken as they are when a document is loaded: asked
    twice for the same URI or path, they answer the same. *)

From S2P Require Import Prelude RustStr BTree Types Workflow Structure Topology Cycle Validation Json Context Message Metadata Rules.

Definition CURRENT_PUREFLOW_VERSION : rstr := lit "1".

(** ** Raw documents *)

Module RawEdgeEndpoint.
Record RawEdgeEndpoint : Set := mk { node : rstr; port : rstr }.
End RawEdgeEndpoint.
Notation RawEdgeEndpoint := RawEdgeEndpoint.RawEdgeEndpoint.

Module RawEdgeDefinition.
Record RawEdgeDefinition : Set :=
  mk { source : RawEdgeEndpoint; target : RawEdgeEndpoint; capacity : option N }.
End RawEdgeDefinition.
Notation RawEdgeDefinition := RawEdgeDefinition.RawEdgeDefinition.

Module RawNodeDefinition.
Record RawNodeDefinition `{J : JsonNumber} : Type := mk {
  id : rstr;
  inputs : list rstr;
  outputs : list rstr;
  rule_set : option Value;
  rule_set_ref : option rstr;
}.
Arguments mk {J} _ _ _ _ _.
End RawNodeDefinition.
Notation RawNodeDefinition := RawNodeDefinition.RawNodeDefinition.

Module RawWorkflowDefinition.
Record RawWorkflowDefinition `{J : JsonNumber} : Type := mk {
  pureflow_version : option rstr;
  id : rstr;
  nodes : list RawNodeDefinition;
  edges : list RawEdgeDefinition;
}.
Arguments mk {J} _ _ _ _.
End RawWorkflowDefinition.
Notation RawWorkflowDefinition := RawWorkflowDefinition.RawWorkflowDefinition.

(** ** Errors *)

Module IdentifierContext.
Inductive IdentifierContext : Set :=
| Workflow
| Node (node_index : nat)
| InputPort (node_index port_index : nat)
| OutputPort (node_index port_index : nat)
| EdgeSourceNode (edge_index : nat)
| EdgeSourcePort (edge_index : nat)
| EdgeTargetNode (edge_index : nat)
| EdgeTargetPort (edge_index : nat).

Definition fmt (c : IdentifierContext) : rstr :=
  match c with
  | Workflow => lit "workflow id"
  | Node i => lit "node " ++ show_nat i ++ lit " id"
  | InputPort i j => lit "node " ++ show_nat i ++ lit " input port " ++ show_nat j
  | OutputPort i j => lit "node " ++ show_nat i ++ lit " output port " ++ show_nat j
  | EdgeSourceNode i => lit "edge " ++ show_nat i ++ lit " source node"
  | EdgeSourcePort i => lit "edge " ++ show_nat i ++ lit " source port"
  | EdgeTargetNode i => lit "edge " ++ show_nat i ++ lit " target node"
  | EdgeTargetPort i => lit "edge " ++ show_nat i ++ lit " target port"
  end.
End IdentifierContext.
Notation IdentifierContext := IdentifierContext.IdentifierContext.

Module RuleSourceError.
Inductive RuleSourceError : Set :=
| UnknownScheme (scheme : rstr)
| FileNotFound (path : rstr)
| ReadError (path reason : rstr)
| ParseError (reason : rstr).

Definition fmt (e : RuleSourceError) : rstr :=
  match e with
  | UnknownScheme scheme => lit "no source registered for URI scheme `" ++ scheme ++ lit "`"
  | FileNotFound path => lit "rule set file not found: `" ++ path ++ lit "`"
  | ReadError path reason =>
      lit "failed to read rule set file `" ++ path ++ lit "`: " ++ reason
  | ParseError reason => lit "failed to parse rule set: " ++ reason
  end.
End RuleSourceError.
Notation RuleSourceError := RuleSourceError.RuleSourceError.

Module RuleSetBindingError.
Inductive RuleSetBindingError : Set :=
| Conflict
| Resolve (source : RuleSourceError)
| Parse (reason : rstr).

Definition fmt (e : RuleSetBindingError) : rstr :=
  match e with
  | Conflict => lit "node declares both an inline rule_set and a rule_set_ref"
  | Resolve source => lit "failed to resolve rule_set_ref: " ++ RuleSourceError.fmt source
  | Parse reason => lit "inline rule_set is invalid: " ++ reason
  end.
End RuleSetBindingError.
Notation RuleSetBindingError := RuleSetBindingError.RuleSetBindingError.

Module WorkflowFormatError.
Inductive WorkflowFormatError : Set :=
| MissingVersion
| UnsupportedVersion (version : rstr)
| Identifier (context : IdentifierContext) (source : IdentifierError)
| InvalidEdgeCapacity (edge_index : nat) (capacity : N)
| Workflow (source : WorkflowValidationError)
| RuleSet (node_index : nat) (source : RuleSetBindingError).

Definition fmt (e : WorkflowFormatError) : rstr :=
  match e with
  | MissingVersion => lit "workflow document is missing pureflow_version"
  | UnsupportedVersion version =>
      lit "workflow document uses unsupported pureflow_version `" ++ version ++ lit "`"
  | Identifier context source =>
      IdentifierContext.fmt context ++ lit " is invalid: " ++ IdentifierError.fmt source
  | InvalidEdgeCapacity edge_index capacity =>
      lit "edge " ++ show_nat edge_index
      ++ lit " explicit capacity must be greater than zero, got " ++ show_N capacity
  | Workflow source => lit "workflow validation failed: " ++ WorkflowValidationError.fmt source
  | RuleSet node_index source =>
      lit "node " ++ show_nat node_index ++ lit " rule set is invalid: "
      ++ RuleSetBindingError.fmt source
  end.
End WorkflowFormatError.
Notation WorkflowFormatError := WorkflowFormatError.WorkflowFormatError.

(** ** Conversion *)

Definition validate_version (version : option rstr) : result unit WorkflowFormatError :=
  match version with
  | Some version =>
      if decide (version = CURRENT_PUREFLOW_VERSION) then Ok tt
      else Err (WorkflowFormatError.UnsupportedVersion version)
  | None => Err WorkflowFormatError.MissingVersion
  end.

(** [K::new(text.clone()).map_err(|source| Identifier { context, source })]. *)
Definition parse_identifier {kind} (context : IdentifierContext) (text : rstr) :
    result (identifier kind) WorkflowFormatError :=
  map_err (WorkflowFormatError.Identifier context) (identifier_new text).

Definition raw_node_to_definition `{J : JsonNumber} (entry : nat * RawNodeDefinition) :
    result NodeDefinition WorkflowFormatError :=
  let node_index := entry.1 in
  let raw := entry.2 in
  let? node_id := parse_identifier (IdentifierContext.Node node_index)
    (RawNodeDefinition.id raw) in
  let? inputs := try_collect
    (λ p, parse_identifier (IdentifierContext.InputPort node_index p.1) p.2)
    (enumerate (RawNodeDefinition.inputs raw)) in
  let? outputs := try_collect
    (λ p, parse_identifier (IdentifierContext.OutputPort node_index p.1) p.2)
    (enumerate (RawNodeDefinition.outputs raw)) in
  map_err WorkflowFormatError.Workflow (NodeDefinition.new node_id inputs outputs).

Definition raw_endpoint_to_definition (raw : RawEdgeEndpoint)
    (node_context port_context : IdentifierContext) : result EdgeEndpoint WorkflowFormatError :=
  let? node_id := parse_identifier node_context (RawEdgeEndpoint.node raw) in
  let? port_id := parse_identifier port_context (RawEdgeEndpoint.port raw) in
  Ok (EdgeEndpoint.new node_id port_id).

Definition raw_edge_to_definition (entry : nat * RawEdgeDefinition) :
    result EdgeDefinition WorkflowFormatError :=
  let edge_index := entry.1 in
  let raw := entry.2 in
  let? source := raw_endpoint_to_definition (RawEdgeDefinition.source raw)
    (IdentifierContext.EdgeSourceNode edge_index)
    (IdentifierContext.EdgeSourcePort edge_index) in
  let? target := raw_endpoint_to_definition (RawEdgeDefinition.target raw)
    (IdentifierContext.EdgeTargetNode edge_index)
    (IdentifierContext.EdgeTargetPort edge_index) in
  match RawEdgeDefinition.capacity raw with
  | None => Ok (EdgeDefinition.new source target)
  | Some capacity =>
      let? capacity := ok_or (NonZeroUsize_new capacity)
        (WorkflowFormatError.InvalidEdgeCapacity edge_index capacity) in
      Ok (EdgeDefinition.with_capacity source target capacity)
  end.

(** A [Result] of the pure part of a function whose rest is an execution. *)
Definition pure {A E} (r : result A E) : exec (result A E) := Done r.

Definition exec_map_err {A E F} (f : E → F) (m : exec (result A E)) : exec (result A F) :=
  let! r := m in Done (map_err f r).

Definition to_workflow `{J : JsonNumber} (raw : RawWorkflowDefinition) :
    exec (result WorkflowDefinition WorkflowFormatError) :=
  let!? _ := pure (validate_version (RawWorkflowDefinition.pureflow_version raw)) in
  let!? workflow_id := pure (parse_identifier IdentifierContext.Workflow
    (RawWorkflowDefinition.id raw)) in
  let!? nodes := pure (try_collect raw_node_to_definition
    (enumerate (RawWorkflowDefinition.nodes raw))) in
  let!? edges := pure (try_collect raw_edge_to_definition
    (enumerate (RawWorkflowDefinition.edges raw))) in
  exec_map_err WorkflowFormatError.Workflow
    (WorkflowDefinition.from_parts workflow_id nodes edges).

(** ** Rule set sources *)

(** The derived serde implementations of [RuleSet]: [serde_json::from_value],
    [serde_json::to_value] and [serde_json::from_str], with the text of their
    errors. *)
Class RuleSetSerde `{J : JsonNumber} := {
  rule_set_from_value : Value → result RuleSet rstr;
  rule_set_to_value : RuleSet → result Value rstr;
  rule_set_from_str : rstr → result RuleSet rstr;
}.

(** [Path::exists] and [fs::read_to_string]. *)
Class FileSystem := {
  path_exists : rstr → bool;
  read_to_string : rstr → result rstr rstr;
}.

(** The trait [RuleSetSource]. *)
Definition RuleSetSource : Set := rstr → result RuleSet RuleSourceError.

(** [s.strip_prefix(p)]. *)
Fixpoint strip_prefix (p s : rstr) : option rstr :=
  match p, s with
  | [], _ => Some s
  | c :: p, d :: s => if N.eqb c d then strip_prefix p s else None
  | _ :: _, [] => None
  end.

(** [s.find(p)] as the text before the first occurrence of [p]. *)
Fixpoint text_before (p s : rstr) : option rstr :=
  match strip_prefix p s with
  | Some _ => Some []
  | None => match s with [] => None | c :: s => cons c <$> text_before p s end
  end.

Definition extract_scheme (uri : rstr) : option rstr := text_before (lit "://") uri.

(** Unix paths: [Path::is_absolute] and [Path::join]. *)
Definition SLASH : N := 47.
Definition is_absolute (path : rstr) : bool :=
  match path with c :: _ => N.eqb c SLASH | [] => false end.
Definition path_join (base path : rstr) : rstr :=
  if is_absolute path then path
  else
    match last base with
    | Some c => if N.eqb c SLASH then base ++ path else base ++ [SLASH] ++ path
    | None => path
    end.

Module LocalFsSource.
Record LocalFsSource : Set := new { base_dir : rstr }.

Definition resolve_path (s : LocalFsSource) (ref_uri : rstr) : rstr :=
  let path := default ref_uri (strip_prefix (lit "file://") ref_uri) in
  if is_absolute path then path else path_join (base_dir s) path.

Definition load `{S : RuleSetSerde} `{FileSystem} (s : LocalFsSource) : RuleSetSource :=
  λ ref_uri,
  let path := resolve_path s ref_uri in
  if negb (path_exists path) then Err (RuleSourceError.FileNotFound path)
  else
    let? content := map_err (RuleSourceError.ReadError path) (read_to_string path) in
    map_err (λ e, RuleSourceError.ParseError (path ++ lit ": " ++ e)) (rule_set_from_str content).
End LocalFsSource.
Notation LocalFsSource := LocalFsSource.LocalFsSource.

Module EmbeddedSource.
Record EmbeddedSource : Set := new { rule_set : RuleSet }.

Definition from_json `{S : RuleSetSerde} (json : Value) : result EmbeddedSource RuleSourceError :=
  let? rule_set := map_err RuleSourceError.ParseError (rule_set_from_value json) in
  Ok (new rule_set).

Definition load (s : EmbeddedSource) : RuleSetSource := λ _ref_uri, Ok (rule_set s).
End EmbeddedSource.
Notation EmbeddedSource := EmbeddedSource.EmbeddedSource.

Module SourceRegistry.
Record SourceRegistry : Set := mk {
  sources : list (rstr * RuleSetSource);
  base_dir : option rstr;
}.

Definition new : SourceRegistry := mk [] None.
Definition with_base_dir (dir : rstr) : SourceRegistry := mk [] (Some dir).
Definition register (scheme : rstr) (source : RuleSetSource) (r : SourceRegistry) :
    SourceRegistry :=
  mk (sources r ++ [(scheme, source)]) (base_dir r).

(** The loop over the registered sources. *)
Definition dispatch (scheme : rstr) (sources : list (rstr * RuleSetSource)) :
    option RuleSetSource :=
  snd <$> iter_find (λ entry, bool_decide (entry.1 = scheme)) sources.

Definition load `{S : RuleSetSerde} `{FileSystem} (r : SourceRegistry) : RuleSetSource :=
  λ ref_uri,
  match extract_scheme ref_uri with
  | Some scheme =>
      match dispatch scheme (sources r) with
      | Some source => source ref_uri
      | None => Err (RuleSourceError.UnknownScheme scheme)
      end
  | None =>
      LocalFsSource.load (LocalFsSource.new (default (lit ".") (base_dir r))) ref_uri
  end.
End SourceRegistry.
Notation SourceRegistry := SourceRegistry.SourceRegistry.

(** ** Rule set resolution *)

Section resolution.
Context `{S : RuleSetSerde} `{FS : FileSystem}.
Variable registry : SourceRegistry.

Definition resolve_node_rule_set (node_index : nat) (node : RawNodeDefinition) :
    result (option RuleSet) WorkflowFormatError :=
  match RawNodeDefinition.rule_set node, RawNodeDefinition.rule_set_ref node with
  | Some _, Some _ =>
      Err (WorkflowFormatError.RuleSet node_index RuleSetBindingError.Conflict)
  | Some inline, None =>
      let? rule_set := map_err
        (λ e, WorkflowFormatError.RuleSet node_index (RuleSetBindingError.Parse e))
        (rule_set_from_value inline) in
      Ok (Some rule_set)
  | None, Some ref_uri =>
      let? rule_set := map_err
        (λ e, WorkflowFormatError.RuleSet node_index (RuleSetBindingError.Resolve e))
        (SourceRegistry.load registry ref_uri) in
      Ok (Some rule_set)
  | None, None => Ok None
  end.

(** The body of the loop of [resolve_rule_sets]. *)
Definition resolve_node (entry : nat * RawNodeDefinition) :
    result RawNodeDefinition WorkflowFormatError :=
  let node_index := entry.1 in
  let node := entry.2 in
  let? rule_set := resolve_node_rule_set node_index node in
  let? rule_set_json :=
    match rule_set with
    | Some rule_set =>
        let? v := map_err
          (λ e, WorkflowFormatError.RuleSet node_index (RuleSetBindingError.Parse e))
          (rule_set_to_value rule_set) in
        Ok (Some v)
    | None => Ok None
    end in
  Ok (RawNodeDefinition.mk (RawNodeDefinition.id node) (RawNodeDefinition.inputs node)
        (RawNodeDefinition.outputs node) rule_set_json None).

Definition resolve_rule_sets (raw : RawWorkflowDefinition) :
    result RawWorkflowDefinition WorkflowFormatError :=
  let? resolved_nodes := try_collect resolve_node (enumerate (RawWorkflowDefinition.nodes raw)) in
  Ok (RawWorkflowDefinition.mk (RawWorkflowDefinition.pureflow_version raw)
        (RawWorkflowDefinition.id raw) resolved_nodes (RawWorkflowDefinition.edges raw)).

Record LoadedWorkflow : Set := mk_loaded {
  workflow : WorkflowDefinition;
  rule_sets : btree_map NodeId RuleSet;
}.

(** The loop of [load_workflow]. *)
Fixpoint bind_rule_sets (nodes : list (nat * RawNodeDefinition))
    (rule_sets : btree_map NodeId RuleSet) :
    result (btree_map NodeId RuleSet) WorkflowFormatError :=
  match nodes with
  | [] => Ok rule_sets
  | (node_index, node) :: nodes =>
      let? resolved := resolve_node_rule_set node_index node in
      match resolved with
      | None => bind_rule_sets nodes rule_sets
      | Some rule_set =>
          let? node_id := parse_identifier (IdentifierContext.Node node_index)
            (RawNodeDefinition.id node) in
          bind_rule_sets nodes (BTreeMap.insert node_id rule_set rule_sets)
      end
  end.

Definition load_workflow (raw : RawWorkflowDefinition) :
    exec (result LoadedWorkflow WorkflowFormatError) :=
  let!? workflow := to_workflow raw in
  let!? rule_sets := pure (bind_rule_sets (enumerate (RawWorkflowDefinition.nodes raw)) []) in
  Done (Ok (mk_loaded workflow rule_sets)).
End resolution.

(** ** Text formats *)

(** A parser of raw documents and a printer, with their errors: [serde_json],
    [toml] (which only reads) and [serde_yml] (which only reads). *)
Class TextFormat `{J : JsonNumber} (DecodeError EncodeError : Set) := {
  decode_document : rstr → result RawWorkflowDefinition DecodeError;
  decode_error_text : DecodeError → rstr;
  encode_document : RawWorkflowDefinition → result rstr EncodeError;
  encode_error_text : EncodeError → rstr;
}.

Section text.
Context `{J : JsonNumber} {DecodeError EncodeError : Set} `{!TextFormat DecodeError EncodeError}.

Inductive WorkflowJsonError : Set :=
| JsonDecode (source : DecodeError)
| JsonFormat (source : WorkflowFormatError)
| JsonEncode (source : EncodeError).

Definition json_error_fmt (e : WorkflowJsonError) : rstr :=
  match e with
  | JsonDecode source => lit "failed to decode workflow JSON: " ++ decode_error_text source
  | JsonFormat source => lit "workflow JSON is invalid: " ++ WorkflowFormatError.fmt source
  | JsonEncode source => lit "failed to encode workflow JSON: " ++ encode_error_text source
  end.

Definition raw_workflow_from_json_str (input : rstr) :
    result RawWorkflowDefinition WorkflowJsonError :=
  map_err JsonDecode (decode_document input).

Definition workflow_from_json_str (input : rstr) :
    exec (result WorkflowDefinition WorkflowJsonError) :=
  let!? raw := pure (raw_workflow_from_json_str input) in
  exec_map_err JsonFormat (to_workflow raw).

Definition raw_workflow_to_json_string (raw : RawWorkflowDefinition) :
    result rstr WorkflowJsonError :=
  map_err JsonEncode (encode_document raw).

Inductive WorkflowTomlError : Set :=
| TomlDecode (source : DecodeError)
| TomlFormat (source : WorkflowFormatError).

Definition toml_error_fmt (e : WorkflowTomlError) : rstr :=
  match e with
  | TomlDecode source => lit "failed to decode workflow TOML: " ++ decode_error_text source
  | TomlFormat source => lit "workflow TOML is invalid: " ++ WorkflowFormatError.fmt source
  end.

Definition raw_workflow_from_toml_str (input : rstr) :
    result RawWorkflowDefinition WorkflowTomlError :=
  map_err TomlDecode (decode_document input).

Definition workflow_from_toml_str (input : rstr) :
    exec (result WorkflowDefinition WorkflowTomlError) :=
  let!? raw := pure (raw_workflow_from_toml_str input) in
  exec_map_err TomlFormat (to_workflow raw).

Inductive WorkflowYamlError : Set :=
| YamlDecode (source : DecodeError)
| YamlFormat (source : WorkflowFormatError).

Definition yaml_error_fmt (e : WorkflowYamlError) : rstr :=
  match e with
  | YamlDecode source => lit "failed to decode workflow YAML: " ++ decode_error_text source
  | YamlFormat source => lit "workflow YAML is invalid: " ++ WorkflowFormatError.fmt source
  end.

Definition raw_workflow_from_yaml_str (input : rstr) :
    result RawWorkflowDefinition WorkflowYamlError :=
  map_err YamlDecode (decode_document input).

Definition workflow_from_yaml_str (input : rstr) :
    exec (result WorkflowDefinition WorkflowYamlError) :=
  let!? raw := pure (raw_workflow_from_yaml_str input) in
  exec_map_err YamlFormat (to_workflow raw).
End text.
