(* ===== verification/FormatSpec.v ===== *)
(** What the workflow format promises: which raw documents become workflows
    and which workflow each denotes, where the first error is reported, and what
    rule set resolution does. *)

From S2P Require Import Prelude RustStr BTree Types Workflow Structure Topology Cycle Validation Json Context Message Metadata Rules Format.

(** ** The document of a workflow *)

Section document.
Context `{J : JsonNumber}.

Definition raw_of_node (n : NodeDefinition) : RawNodeDefinition :=
  RawNodeDefinition.mk (as_str (NodeDefinition.id n)) (as_str <$> NodeDefinition.input_ports n)
    (as_str <$> NodeDefinition.output_ports n) None None.

Definition raw_of_endpoint (e : EdgeEndpoint) : RawEdgeEndpoint :=
  RawEdgeEndpoint.mk (as_str (EdgeEndpoint.node_id e)) (as_str (EdgeEndpoint.port_id e)).

Definition raw_of_capacity (c : EdgeCapacity) : option N :=
  match c with EdgeCapacity.Default => None | EdgeCapacity.Explicit p => Some (Npos p) end.

Definition raw_of_edge (e : EdgeDefinition) : RawEdgeDefinition :=
  RawEdgeDefinition.mk (raw_of_endpoint (EdgeDefinition.source e))
    (raw_of_endpoint (EdgeDefinition.target e)) (raw_of_capacity (EdgeDefinition.capacity e)).

(** The document that says exactly what a workflow says. *)
Definition document (w : WorkflowDefinition) : RawWorkflowDefinition :=
  RawWorkflowDefinition.mk (Some CURRENT_PUREFLOW_VERSION) (as_str (WorkflowDefinition.id w))
    (raw_of_node <$> WorkflowDefinition.nodes w) (raw_of_edge <$> WorkflowDefinition.edges w).

Definition node_without_rules (n : RawNodeDefinition) : RawNodeDefinition :=
  RawNodeDefinition.mk (RawNodeDefinition.id n) (RawNodeDefinition.inputs n)
    (RawNodeDefinition.outputs n) None None.

(** A document without its rule sets, which the graph does not depend on. *)
Definition without_rules (raw : RawWorkflowDefinition) : RawWorkflowDefinition :=
  RawWorkflowDefinition.mk (RawWorkflowDefinition.pureflow_version raw)
    (RawWorkflowDefinition.id raw) (node_without_rules <$> RawWorkflowDefinition.nodes raw)
    (RawWorkflowDefinition.edges raw).

Record valid_node (n : NodeDefinition) : Prop := {
  vn_id : valid_identifier (as_str (NodeDefinition.id n));
  vn_inputs : Forall (λ p, valid_identifier (as_str p)) (NodeDefinition.input_ports n);
  vn_outputs : Forall (λ p, valid_identifier (as_str p)) (NodeDefinition.output_ports n);
  vn_distinct : NoDup (NodeDefinition.input_ports n ++ NodeDefinition.output_ports n);
}.

(** A workflow the program can hold. *)
Record valid_workflow (w : WorkflowDefinition) : Prop := {
  vw_id : valid_identifier (as_str (WorkflowDefinition.id w));
  vw_nodes : Forall valid_node (WorkflowDefinition.nodes w);
  vw_structure : structurally_valid (WorkflowDefinition.nodes w) (WorkflowDefinition.edges w);
  vw_acyclic : acyclic (arcs (WorkflowDefinition.edges w));
  vw_simple : NoDup (arcs (WorkflowDefinition.edges w));
}.

(** ** Conversion of the parts *)

Lemma parse_identifier_ok kind ctx text (id : identifier kind) :
  parse_identifier ctx text = Ok id ↔ text = as_str id ∧ valid_identifier (as_str id).
Proof.
  unfold parse_identifier. rewrite map_err_ok, identifier_new_ok.
  split; [intros [-> ?]; done|intros [-> ?]; done].
Qed.

Lemma Forall2_enumerate {A B} (P : A → B → Prop) (l : list A) (k : list B) :
  Forall2 (λ x y, P x.2 y) (enumerate l) k ↔ Forall2 P l k.
Proof. rewrite <- (enumerate_snd l) at 2. by rewrite Forall2_fmap_l. Qed.

Lemma Forall2_eq_fmap {A B} (f : B → A) (Q : B → Prop) (l : list A) (k : list B) :
  Forall2 (λ x y, x = f y ∧ Q y) l k ↔ l = f <$> k ∧ Forall Q k.
Proof.
  split.
  - induction 1 as [|x y l k [-> ?] _ [-> ?]]; [done|]. split; [done|by constructor].
  - intros [-> HQ]. induction HQ; constructor; auto.
Qed.

(** The loops over enumerated parts: an element-wise characterisation lifts. *)
Lemma try_collect_enumerate {A B E} (f : nat * A → result B E) (g : B → A) (Q : B → Prop) l k :
  (∀ i x y, f (i, x) = Ok y ↔ x = g y ∧ Q y) →
  try_collect f (enumerate l) = Ok k ↔ l = g <$> k ∧ Forall Q k.
Proof.
  intros Hf. rewrite try_collect_ok, <- Forall2_eq_fmap, <- (Forall2_enumerate (λ x y, x = g y ∧ Q y)).
  split; intros H; (eapply Forall2_impl; [exact H|]); intros [i x] y; by apply Hf.
Qed.

Lemma parse_ports_ok (ctx : nat → IdentifierContext) l (ports : list PortId) :
  try_collect (λ p, parse_identifier (ctx p.1) p.2) (enumerate l) = Ok ports ↔
  l = as_str <$> ports ∧ Forall (λ p, valid_identifier (as_str p)) ports.
Proof. apply try_collect_enumerate. intros. apply parse_identifier_ok. Qed.

Lemma node_new_ok id ins outs n :
  NodeDefinition.new id ins outs = Ok n ↔
  n = NodeDefinition.mk id ins outs ∧ NoDup (ins ++ outs).
Proof.
  destruct (node_definition_new_spec id ins outs) as [Hok _]. rewrite <- Hok.
  unfold NodeDefinition.new. destruct (reject_duplicate_ports _ _ _); naive_solver.
Qed.

Lemma raw_node_ok i raw n :
  raw_node_to_definition (i, raw) = Ok n ↔
  node_without_rules raw = raw_of_node n ∧ valid_node n.
Proof.
  unfold raw_node_to_definition, node_without_rules, raw_of_node.
  destruct raw as [rid ri ro rr rf]; simpl. rewrite result_bind_ok.
  repeat setoid_rewrite result_bind_ok. split.
  - intros (id & [-> Hid]%parse_identifier_ok & ins & [-> Hi]%parse_ports_ok & outs
      & [-> Ho]%parse_ports_ok & [-> Hnd]%map_err_ok%node_new_ok). done.
  - destruct n as [id ins outs]. intros [Heq [Hid Hi Ho Hnd]]. simplify_eq/=.
    exists id. split; [by apply parse_identifier_ok|]. exists ins. split; [by apply parse_ports_ok|].
    exists outs. split; [by apply parse_ports_ok|by apply map_err_ok, node_new_ok].
Qed.

Definition valid_endpoint (e : EdgeEndpoint) : Prop :=
  valid_identifier (as_str (EdgeEndpoint.node_id e))
  ∧ valid_identifier (as_str (EdgeEndpoint.port_id e)).

Lemma raw_endpoint_ok raw c1 c2 e :
  raw_endpoint_to_definition raw c1 c2 = Ok e ↔ raw = raw_of_endpoint e ∧ valid_endpoint e.
Proof.
  unfold raw_endpoint_to_definition, raw_of_endpoint, valid_endpoint.
  destruct raw as [rn rp], e as [n p]; simpl. rewrite result_bind_ok.
  setoid_rewrite result_bind_ok. split.
  - intros (n' & [-> ?]%parse_identifier_ok & p' & [-> ?]%parse_identifier_ok & ?). by simplify_eq.
  - intros [Heq [? ?]]. simplify_eq. exists n. split; [by apply parse_identifier_ok|].
    exists p. split; [by apply parse_identifier_ok|done].
Qed.

Definition valid_edge (e : EdgeDefinition) : Prop :=
  valid_endpoint (EdgeDefinition.source e) ∧ valid_endpoint (EdgeDefinition.target e).

Lemma raw_edge_ok i raw e :
  raw_edge_to_definition (i, raw) = Ok e ↔ raw = raw_of_edge e ∧ valid_edge e.
Proof.
  unfold raw_edge_to_definition, raw_of_edge, valid_edge.
  destruct raw as [rs rt rc], e as [s t c]; simpl. rewrite result_bind_ok. split.
  - intros (s' & [-> ?]%raw_endpoint_ok & (t' & [-> ?]%raw_endpoint_ok & Hc)%result_bind_ok).
    destruct rc as [[|p]|]; simpl in Hc; simplify_eq; done.
  - intros [Heq [? ?]]. simplify_eq. exists s. split; [by apply raw_endpoint_ok|].
    apply result_bind_ok. exists t. split; [by apply raw_endpoint_ok|]. by destruct c.
Qed.

(** The endpoints of a structurally valid graph name declared nodes and ports,
    so their identifiers are valid too. *)
Lemma valid_edges nodes edges :
  Forall valid_node nodes → structurally_valid nodes edges → Forall valid_edge edges.
Proof.
  intros Hn [_ He]. eapply Forall_impl; [exact He|]. intros e [Hs Ht].
  rewrite Forall_forall in Hn.
  assert (∀ ep d, endpoint_ok nodes ep d → valid_endpoint ep) as Hep.
  { intros ep d (nd & Hin & Hid & Hp). destruct (Hn nd Hin) as [Hv Hi Ho _].
    split; [by rewrite <- Hid|].
    rewrite Forall_forall in Hi, Ho. destruct d; auto. }
  split; eauto.
Qed.

Lemma from_parts_ok id nodes edges w :
  WorkflowDefinition.from_parts id nodes edges = Done (Ok w) ↔
  w = WorkflowDefinition.new id (WorkflowGraph.mk nodes edges)
  ∧ structurally_valid nodes edges ∧ acyclic (arcs edges) ∧ NoDup (arcs edges).
Proof.
  unfold WorkflowDefinition.from_parts.
  destruct (graph_new_outcome nodes edges) as [(-> & ?)|(e & -> & ?)]; simpl; naive_solver.
Qed.

Lemma from_parts_total id nodes edges :
  ∃ r, WorkflowDefinition.from_parts id nodes edges = Done r.
Proof.
  unfold WorkflowDefinition.from_parts.
  destruct (graph_new_outcome nodes edges) as [(-> & ?)|(e & -> & ?)]; simpl; eauto.
Qed.

Lemma exec_map_err_ok {A E F} (f : E → F) (m : exec (result A E)) a :
  exec_map_err f m = Done (Ok a) ↔ m = Done (Ok a).
Proof. destruct m as [[]| |]; simpl; naive_solver. Qed.

Lemma pure_ok {A E} (r : result A E) a : pure r = Done (Ok a) ↔ r = Ok a.
Proof. unfold pure. naive_solver. Qed.

Lemma validate_version_ok v u :
  validate_version v = Ok u ↔ v = Some CURRENT_PUREFLOW_VERSION.
Proof. destruct u, v as [v|]; simpl; [case_decide|]; naive_solver. Qed.

Lemma collect_nodes_ok raw nodes :
  try_collect raw_node_to_definition (enumerate raw) = Ok nodes ↔
  node_without_rules <$> raw = raw_of_node <$> nodes ∧ Forall valid_node nodes.
Proof.
  rewrite try_collect_ok. transitivity
    (Forall2 (λ x y, node_without_rules x = raw_of_node y ∧ valid_node y) raw nodes).
  - rewrite <- (Forall2_enumerate (λ x y, node_without_rules x = raw_of_node y ∧ valid_node y)).
    split; intros H; (eapply Forall2_impl; [exact H|]);
      intros [i x] y; by apply raw_node_ok.
  - by rewrite <- Forall2_eq_fmap, Forall2_fmap_l.
Qed.

Lemma to_workflow_ok raw w :
  to_workflow raw = Done (Ok w) ↔ without_rules raw = document w ∧ valid_workflow w.
Proof.
  unfold to_workflow, without_rules, document. destruct raw as [rv ri rn re].
  cbn [RawWorkflowDefinition.pureflow_version RawWorkflowDefinition.id
       RawWorkflowDefinition.nodes RawWorkflowDefinition.edges].
  split.
  - intros (_ & ->%pure_ok%validate_version_ok & (id & [-> Hid]%pure_ok%parse_identifier_ok
      & (nodes & [Hn Hvn]%pure_ok%collect_nodes_ok
      & (edges & [-> Hve]%pure_ok%(try_collect_enumerate _ _ _ _ _ raw_edge_ok)
      & [-> (Hs & Ha & Hd)]%exec_map_err_ok%from_parts_ok)%exec_try_ok)%exec_try_ok)
      %exec_try_ok)%exec_try_ok.
    simpl. split; [by rewrite Hn|by split].
  - destruct w as [id [nodes edges]].
    cbn [WorkflowDefinition.id WorkflowDefinition.nodes WorkflowDefinition.edges
         WorkflowDefinition.graph WorkflowGraph.nodes WorkflowGraph.edges].
    intros [Heq [Hid Hn Hs Ha Hd]].
    unfold WorkflowDefinition.nodes, WorkflowDefinition.edges in *. simpl in Heq, Hid, Hn, Hs, Ha, Hd.
    simplify_eq. apply exec_try_ok. exists tt. split; [by apply pure_ok, validate_version_ok|].
    apply exec_try_ok. exists id. split; [by apply pure_ok, parse_identifier_ok|].
    apply exec_try_ok. exists nodes. split; [by apply pure_ok, collect_nodes_ok|].
    apply exec_try_ok. exists edges. split; [|by apply exec_map_err_ok, from_parts_ok].
    apply pure_ok, (try_collect_enumerate _ _ _ _ _ raw_edge_ok).
    split; [done|by eapply valid_edges].
Qed.

Lemma to_workflow_total raw : ∃ r, to_workflow raw = Done r.
Proof.
  unfold to_workflow, pure.
  destruct (validate_version _); simpl; [|eauto].
  destruct (parse_identifier _ _) as [id|]; simpl; [|eauto].
  destruct (try_collect _ _) as [nodes|]; simpl; [|eauto].
  destruct (try_collect _ _) as [edges|]; simpl; [|eauto].
  destruct (from_parts_total id nodes edges) as [r ->]. simpl. eauto.
Qed.
End document.

(** ** Where an invalid identifier is reported *)

Section sites.
Context `{J : JsonNumber}.

Definition site : Set := IdentifierContext * rstr.

Definition context_kind (c : IdentifierContext) : IdentifierKind :=
  match c with
  | IdentifierContext.Workflow => IdentifierKind.Workflow
  | IdentifierContext.Node _ | IdentifierContext.EdgeSourceNode _
  | IdentifierContext.EdgeTargetNode _ => IdentifierKind.Node
  | _ => IdentifierKind.Port
  end.

Definition check_site (s : site) : result unit IdentifierError :=
  validate_identifier (context_kind s.1) s.2.

Definition node_sites (entry : nat * RawNodeDefinition) : list site :=
  let i := entry.1 in
  let raw := entry.2 in
  [(IdentifierContext.Node i, RawNodeDefinition.id raw)]
  ++ ((λ p, (IdentifierContext.InputPort i p.1, p.2)) <$> enumerate (RawNodeDefinition.inputs raw))
  ++ ((λ p, (IdentifierContext.OutputPort i p.1, p.2)) <$> enumerate (RawNodeDefinition.outputs raw)).

Definition edge_sites (entry : nat * RawEdgeDefinition) : list site :=
  let i := entry.1 in
  let s := RawEdgeDefinition.source entry.2 in
  let t := RawEdgeDefinition.target entry.2 in
  [(IdentifierContext.EdgeSourceNode i, RawEdgeEndpoint.node s);
   (IdentifierContext.EdgeSourcePort i, RawEdgeEndpoint.port s);
   (IdentifierContext.EdgeTargetNode i, RawEdgeEndpoint.node t);
   (IdentifierContext.EdgeTargetPort i, RawEdgeEndpoint.port t)].

(** Every identifier of a document, in document order. *)
Definition identifier_sites (raw : RawWorkflowDefinition) : list site :=
  [(IdentifierContext.Workflow, RawWorkflowDefinition.id raw)]
  ++ (enumerate (RawWorkflowDefinition.nodes raw) ≫= node_sites)
  ++ (enumerate (RawWorkflowDefinition.edges raw) ≫= edge_sites).

(** An outcome that agrees with checking the sites [l] from left to right. *)
Definition reports {A} (l : list site) (r : result A WorkflowFormatError) : Prop :=
  match r with
  | Ok _ => Forall (λ s, check_site s = Ok tt) l
  | Err (WorkflowFormatError.Identifier c e) =>
      ∃ l1 text l2, l = l1 ++ (c, text) :: l2 ∧ Forall (λ s, check_site s = Ok tt) l1
        ∧ check_site (c, text) = Err e
  | Err _ => True
  end.

Lemma reports_parse kind c text :
  context_kind c = kind →
  reports [(c, text)] (parse_identifier c text : result (identifier kind) _).
Proof.
  intros <-. unfold parse_identifier, identifier_new.
  destruct (validate_identifier _ text) as [[]|e] eqn:Hv; simpl.
  - by constructor.
  - exists [], text, []. done.
Qed.

Lemma reports_skip {A} l (r : result A WorkflowFormatError) :
  reports [] r → Forall (λ s, check_site s = Ok tt) l → reports l r.
Proof. destruct r as [|[]]; simpl; try done. by intros ([] & ? & ? & [=] & _). Qed.

Lemma reports_err_app {A B} l1 l2 (e : WorkflowFormatError) :
  reports l1 (Err e : result A _) → reports (l1 ++ l2) (Err e : result B _).
Proof.
  destruct e; simpl; try done. intros (k1 & text & k2 & -> & ? & ?).
  exists k1, text, (k2 ++ l2). by rewrite <- app_assoc.
Qed.

Lemma reports_app {A} l1 l2 (r : result A WorkflowFormatError) :
  Forall (λ s, check_site s = Ok tt) l1 → reports l2 r → reports (l1 ++ l2) r.
Proof.
  intros H1. destruct r as [|[]]; simpl; try done; [by apply Forall_app_2|].
  intros (k1 & text & k2 & -> & ? & ?). exists (l1 ++ k1), text, k2.
  rewrite app_assoc. by split_and!; [|apply Forall_app_2|].
Qed.

Lemma reports_bind {A B} l1 l2 (r : result A WorkflowFormatError) (k : A → result B _) :
  reports l1 r → (∀ a, r = Ok a → reports l2 (k a)) → reports (l1 ++ l2) (result_bind r k).
Proof.
  intros Hr Hk. destruct r as [a|e]; simpl; [by apply reports_app; [|apply Hk]|].
  by apply (reports_err_app (A := A) (B := B)).
Qed.

Lemma reports_collect {A B} (sites : A → list site) (f : A → result B WorkflowFormatError) l :
  (∀ x, reports (sites x) (f x)) → reports (l ≫= sites) (try_collect f l).
Proof.
  intros Hf. induction l as [|x l IH]; [constructor|]. rewrite bind_cons. cbn [try_collect].
  apply reports_bind; [done|]. intros y _.
  rewrite <- (app_nil_r (mbind sites l)). apply reports_bind; [exact IH|]. constructor.
Qed.

Lemma bind_singletons {A B} (f : A → B) (l : list A) : (l ≫= λ x, [f x]) = f <$> l.
Proof. induction l; simpl; by f_equal. Qed.

Lemma reports_ports ctx l :
  (∀ j, context_kind (ctx j) = IdentifierKind.Port) →
  reports ((λ p, (ctx p.1, p.2)) <$> enumerate l)
    (try_collect (λ p, parse_identifier (ctx p.1) p.2 : result PortId _) (enumerate l)).
Proof.
  intros Hc. rewrite <- bind_singletons. apply reports_collect. intros p. by apply reports_parse.
Qed.

Lemma reports_node entry : reports (node_sites entry) (raw_node_to_definition entry).
Proof.
  unfold node_sites, raw_node_to_definition.
  apply reports_bind; [by apply reports_parse|]. intros id _.
  apply reports_bind; [by apply (reports_ports (IdentifierContext.InputPort entry.1))|].
  intros ins _. rewrite <- (app_nil_r (_ <$> enumerate (RawNodeDefinition.outputs _))).
  apply reports_bind; [by apply (reports_ports (IdentifierContext.OutputPort entry.1))|].
  intros outs _. destruct (NodeDefinition.new _ _ _); simpl; [constructor|done].
Qed.

Lemma reports_endpoint raw c1 c2 :
  context_kind c1 = IdentifierKind.Node → context_kind c2 = IdentifierKind.Port →
  reports [(c1, RawEdgeEndpoint.node raw); (c2, RawEdgeEndpoint.port raw)]
    (raw_endpoint_to_definition raw c1 c2).
Proof.
  intros H1 H2. unfold raw_endpoint_to_definition.
  apply (reports_bind [_] [_]); [by apply reports_parse|]. intros n _.
  apply (reports_bind [_] []); [by apply reports_parse|]. constructor.
Qed.

Lemma reports_edge entry : reports (edge_sites entry) (raw_edge_to_definition entry).
Proof.
  unfold edge_sites, raw_edge_to_definition.
  apply (reports_bind [_; _] [_; _]); [by apply reports_endpoint|]. intros s _.
  apply (reports_bind [_; _] []); [by apply reports_endpoint|]. intros t _.
  destruct (RawEdgeDefinition.capacity _) as [[|p]|]; simpl; done.
Qed.

Lemma exec_map_err_not_identifier {A} (m : exec (result A WorkflowValidationError)) c e :
  exec_map_err WorkflowFormatError.Workflow m ≠ Done (Err (WorkflowFormatError.Identifier c e)).
Proof. by destruct m as [[]| |]. Qed.

(** The checks of [to_workflow] that precede graph validation. *)
Lemma reports_document raw c e :
  to_workflow raw = Done (Err (WorkflowFormatError.Identifier c e)) →
  RawWorkflowDefinition.pureflow_version raw = Some CURRENT_PUREFLOW_VERSION
  ∧ reports (identifier_sites raw) (Err (WorkflowFormatError.Identifier c e) : result unit _).
Proof.
  unfold to_workflow, identifier_sites. intros [Hv|(u & Hv & Hrest)]%exec_try_err.
  { exfalso. unfold pure in Hv. destruct (RawWorkflowDefinition.pureflow_version raw); simpl in Hv;
      [case_decide|]; discriminate. }
  apply pure_ok, validate_version_ok in Hv. split; [done|].
  pose proof (reports_parse IdentifierKind.Workflow IdentifierContext.Workflow
    (RawWorkflowDefinition.id raw) eq_refl) as Hw.
  pose proof (reports_collect _ _ (enumerate (RawWorkflowDefinition.nodes raw)) reports_node) as Hn.
  pose proof (reports_collect _ _ (enumerate (RawWorkflowDefinition.edges raw)) reports_edge) as He.
  unfold pure in Hrest. destruct (parse_identifier _ _) as [id|]; simpl in Hrest; [|simplify_eq].
  - apply (reports_app [_]); [done|].
    destruct (try_collect raw_node_to_definition _) as [ns|]; simpl in Hrest; [|simplify_eq].
    + apply reports_app; [done|].
      destruct (try_collect raw_edge_to_definition _) as [es|]; simpl in Hrest; [|by simplify_eq].
      by apply exec_map_err_not_identifier in Hrest.
    + by apply (reports_err_app (A := list NodeDefinition) (B := unit)).
  - by apply (reports_err_app (A := WorkflowId) (B := unit) [_]).
Qed.
End sites.

(** ** Rule set resolution *)

Section resolution.
Context `{S : RuleSetSerde} `{FS : FileSystem}.

Lemma try_collect_fmap_enumerate {A B E} (g : A → A) (f : nat * A → result B E) (l : list A) :
  (∀ i x, f (i, g x) = f (i, x)) →
  try_collect f (enumerate (g <$> l)) = try_collect f (enumerate l).
Proof.
  intros Hf. unfold enumerate. rewrite imap_fmap.
  assert (∀ h : nat → nat,
    try_collect f (imap (λ i x, (h i, g x)) l) = try_collect f (imap (λ i x, (h i, x)) l)) as Hg.
  { induction l as [|x l IH]; intros h; [done|]. simpl. rewrite Hf. destruct (f (h 0, x)); [|done].
    simpl. unfold compose. by rewrite (IH (λ i, h (Datatypes.S i))). }
  exact (Hg id).
Qed.

(** The graph of a document does not depend on its rule sets. *)
Lemma to_workflow_without_rules raw : to_workflow (without_rules raw) = to_workflow raw.
Proof. unfold to_workflow. simpl. by rewrite try_collect_fmap_enumerate. Qed.

Variable registry : SourceRegistry.

(** A rule set that is read back as it was written.  The derived serialisers promise it of
    a rule set whose numbers are finite; one with a number that is not is written with
    [null] in its place, which is not read back. *)
Definition read_back (rs : RuleSet) : Prop :=
  ∀ v, rule_set_to_value rs = Ok v → rule_set_from_value v = Ok rs.

Lemma resolve_node_ok i node node' :
  resolve_node registry (i, node) = Ok node' →
  node_without_rules node' = node_without_rules node
  ∧ RawNodeDefinition.rule_set_ref node' = None
  ∧ ((∀ rs, resolve_node_rule_set registry i node = Ok (Some rs) → read_back rs) →
     ∀ reg, resolve_node_rule_set reg i node' = resolve_node_rule_set registry i node).
Proof.
  unfold resolve_node. simpl. intros (rs & Hrs & (v & Hv & ?)%result_bind_ok)%result_bind_ok.
  simplify_eq. split_and!; [done..|]. intros Hback reg. rewrite Hrs in Hback |- *. unfold resolve_node_rule_set. simpl.
  destruct rs as [rs|]; simplify_eq/=; [|done].
  apply result_bind_ok in Hv as (v' & Hv & ?). simplify_eq. apply map_err_ok in Hv.
  by rewrite (Hback rs eq_refl _ Hv).
Qed.

Definition node_alike (reg : SourceRegistry) (x y : nat * RawNodeDefinition) : Prop :=
  x.1 = y.1 ∧ RawNodeDefinition.id x.2 = RawNodeDefinition.id y.2
  ∧ resolve_node_rule_set registry x.1 x.2 = resolve_node_rule_set reg y.1 y.2.

Lemma bind_rule_sets_alike reg nodes nodes' acc :
  Forall2 (node_alike reg) nodes nodes' →
  bind_rule_sets registry nodes acc = bind_rule_sets reg nodes' acc.
Proof.
  intros Hall. revert acc. induction Hall as [|[i x] [j y] l k (Hi & Hid & Hr) _ IH];
    intros acc; [done|]. simpl in *. rewrite Hr, Hid. subst.
  destruct (resolve_node_rule_set reg j y) as [[rs|]|]; simpl; [|auto|done].
  destruct (parse_identifier _ _); simpl; auto.
Qed.

Lemma resolve_rule_sets_ok raw raw' :
  resolve_rule_sets registry raw = Ok raw' →
  without_rules raw' = without_rules raw
  ∧ Forall (λ n, RawNodeDefinition.rule_set_ref n = None) (RawWorkflowDefinition.nodes raw')
  ∧ ((∀ i n rs, RawWorkflowDefinition.nodes raw !! i = Some n →
        resolve_node_rule_set registry i n = Ok (Some rs) → read_back rs) →
     ∀ reg, Forall2 (node_alike reg) (enumerate (RawWorkflowDefinition.nodes raw))
              (enumerate (RawWorkflowDefinition.nodes raw'))).
Proof.
  unfold resolve_rule_sets. intros (ns & Hns%try_collect_ok & ?)%result_bind_ok. simplify_eq/=.
  assert (∀ i x y, RawWorkflowDefinition.nodes raw !! i = Some x → ns !! i = Some y →
    resolve_node registry (i, x) = Ok y) as Hpt.
  { intros i x y Hx Hy. refine (Forall2_lookup_lr _ _ _ _ _ _ Hns _ Hy).
    by rewrite enumerate_lookup, Hx. }
  assert (Forall2 (λ x y, ∃ i, resolve_node registry (i, x) = Ok y)
    (RawWorkflowDefinition.nodes raw) ns) as Hf2.
  { apply Forall2_same_length_lookup. split; [|eauto].
    apply Forall2_length in Hns. unfold enumerate in Hns. by rewrite length_imap in Hns. }
  split_and!.
  - unfold without_rules. simpl. f_equal. clear Hns Hpt.
    induction Hf2 as [|x y l k [i (Hw & _)%resolve_node_ok] _ IH]; [done|].
    rewrite !fmap_cons. by rewrite Hw, IH.
  - clear Hns Hpt. induction Hf2 as [|x y l k [i (_ & ? & _)%resolve_node_ok] _ IH];
      constructor; done.
  - intros Hback reg. apply Forall2_same_length_lookup. split.
    { unfold enumerate. rewrite !length_imap. by eapply Forall2_length. }
    intros i [i1 x] [i2 y]. rewrite !enumerate_lookup, !fmap_Some.
    intros (x' & Hx & ?) (y' & Hy & ?). simplify_eq.
    destruct (resolve_node_ok _ _ _ (Hpt _ _ _ Hx Hy)) as (Hw & _ & Hr).
    split_and!; [done| |by symmetry; eauto]. unfold node_without_rules in Hw. by simplify_eq.
Qed.

Definition node_key (n : RawNodeDefinition) : NodeId := mk_identifier (RawNodeDefinition.id n).

Definition resolve_entry (x : nat * RawNodeDefinition) :
    result (option RuleSet) WorkflowFormatError := resolve_node_rule_set registry x.1 x.2.

Lemma parse_node_key i n :
  valid_identifier (RawNodeDefinition.id n) →
  parse_identifier (IdentifierContext.Node i) (RawNodeDefinition.id n) = Ok (node_key n).
Proof. intros Hv. by apply parse_identifier_ok. Qed.

Lemma bind_rule_sets_other l acc m k :
  bind_rule_sets registry l acc = Ok m → k ∉ ((λ x, node_key x.2) <$> l) →
  BTreeMap.get k m = BTreeMap.get k acc.
Proof.
  revert acc. induction l as [|[i n] l IH]; intros acc; [by intros [= ->]|].
  rewrite fmap_cons, not_elem_of_cons. simpl.
  intros (o & Ho & Hrest)%result_bind_ok [Hk Hl]. destruct o as [rs|]; [|by apply (IH acc)].
  apply result_bind_ok in Hrest as (id & [Hid _]%parse_identifier_ok & Hrest).
  rewrite (IH _ Hrest Hl). apply BTreeMap.get_insert_ne. intros ->. apply Hk.
  unfold node_key. rewrite Hid. by destruct id.
Qed.

Lemma bind_rule_sets_ok l acc m :
  bind_rule_sets registry l acc = Ok m →
  Forall (λ x, valid_identifier (RawNodeDefinition.id x.2)) l →
  NoDup ((λ x, node_key x.2) <$> l) → (∀ x, x ∈ l → BTreeMap.get (node_key x.2) acc = None) →
  Forall (λ x, resolve_entry x = Ok (BTreeMap.get (node_key x.2) m)) l.
Proof.
  revert acc. induction l as [|[i n] l IH]; intros acc; [constructor|].
  rewrite fmap_cons, !NoDup_cons, !Forall_cons. cbn [bind_rule_sets fst snd].
  intros (o & Ho & Hrest)%result_bind_ok [Hv Hvl] [Hn Hnd] Hacc.
  assert (Hother : ∀ acc', bind_rule_sets registry l acc' = Ok m →
    BTreeMap.get (node_key n) m = BTreeMap.get (node_key n) acc').
  { intros acc' Hb. by eapply bind_rule_sets_other. }
  unfold resolve_entry at 1. cbn [fst snd]. rewrite Ho. destruct o as [rs|].
  - rewrite parse_node_key in Hrest by done. cbn [result_bind] in Hrest. split.
    + by rewrite (Hother _ Hrest), BTreeMap.get_insert_eq.
    + apply (IH _ Hrest); [done..|]. intros x Hx. rewrite BTreeMap.get_insert_ne.
      * apply Hacc. by right.
      * intros Heq. apply Hn. rewrite <- Heq. by apply (list_elem_of_fmap_2 (λ x, node_key x.2)).
  - split.
    + rewrite (Hother _ Hrest). f_equal. symmetry. apply (Hacc (i, n)). left.
    + apply (IH _ Hrest); [done..|]. intros x Hx. apply Hacc. by right.
Qed.

Lemma bind_rule_sets_err l acc e :
  bind_rule_sets registry l acc = Err e →
  Forall (λ x, valid_identifier (RawNodeDefinition.id x.2)) l →
  ∃ l1 x l2, l = l1 ++ x :: l2 ∧ Forall (λ y, is_ok (resolve_entry y)) l1
    ∧ resolve_entry x = Err e.
Proof.
  revert acc. induction l as [|[i n] l IH]; intros acc; [done|]. rewrite Forall_cons.
  cbn [bind_rule_sets fst snd]. intros Hb [Hv Hvl].
  assert (Hskip : ∀ acc', is_ok (resolve_entry (i, n)) → bind_rule_sets registry l acc' = Err e →
    ∃ l1 x l2, (i, n) :: l = l1 ++ x :: l2 ∧ Forall (λ y, is_ok (resolve_entry y)) l1
      ∧ resolve_entry x = Err e).
  { intros acc' Hok Hl. destruct (IH _ Hl Hvl) as (l1 & x & l2 & -> & ? & ?).
    exists ((i, n) :: l1), x, l2. split_and!; [done|by constructor|done]. }
  unfold resolve_entry in Hskip at 1. cbn [fst snd] in Hskip.
  destruct (resolve_node_rule_set registry i n) as [[rs|]|e'] eqn:Hr; cbn [result_bind] in Hb.
  - rewrite parse_node_key in Hb by done. by eapply Hskip.
  - by eapply Hskip.
  - simplify_eq. by exists [], (i, n), l.
Qed.

(** What a converted document guarantees of its node identifiers. *)
Lemma document_node_keys raw w :
  to_workflow raw = Done (Ok w) →
  node_key <$> RawWorkflowDefinition.nodes raw = node_names (WorkflowDefinition.nodes w)
  ∧ NoDup (node_key <$> RawWorkflowDefinition.nodes raw)
  ∧ Forall (λ n, valid_identifier (RawNodeDefinition.id n)) (RawWorkflowDefinition.nodes raw).
Proof.
  intros [Hd [_ Hn [Hnd _] _ _]]%to_workflow_ok. unfold without_rules, document in Hd.
  injection Hd as _ _ Hns _. set (ns := RawWorkflowDefinition.nodes raw) in *.
  assert (Hids : RawNodeDefinition.id <$> ns
    = (λ n, as_str (NodeDefinition.id n)) <$> WorkflowDefinition.nodes w).
  { transitivity (RawNodeDefinition.id <$> (node_without_rules <$> ns));
      [by rewrite <- list_fmap_compose|]. rewrite Hns. by rewrite <- list_fmap_compose. }
  assert (Hkeys : node_key <$> ns = node_names (WorkflowDefinition.nodes w)).
  { transitivity (mk_identifier (kind := IdentifierKind.Node) <$> (RawNodeDefinition.id <$> ns));
      [by rewrite <- list_fmap_compose|]. rewrite Hids, <- list_fmap_compose.
    apply list_fmap_ext. intros i n _. simpl. by destruct (NodeDefinition.id n). }
  split_and!; [done|by rewrite Hkeys|].
  apply (Forall_fmap RawNodeDefinition.id valid_identifier). rewrite Hids, Forall_fmap.
  eapply Forall_impl; [exact Hn|]. by intros n [].
Qed.
End resolution.

(** ** An example document *)

Section examples.
#[local] Existing Instance literal_number.

Let raw_node id ins outs := RawNodeDefinition.mk (lit id) (lit <$> ins) (lit <$> outs).
Let raw_edge a ap b bp cap := RawEdgeDefinition.mk (RawEdgeEndpoint.mk (lit a) (lit ap))
  (RawEdgeEndpoint.mk (lit b) (lit bp)) cap.

(** Rule sets that route by the texts of fields, and a codec of such rule sets: the
    identifier, and for each rule its identifier, field, text, port and priority. *)
Definition plain_rule (id path text port : rstr) (priority : N) : Rule :=
  Rule.mk id (Condition.FieldEq (FieldPath.mk path) (ScalarValue.String text))
    (RuleAction.Route (mk_identifier port)) priority [].
Definition plain_rule_set (id : rstr) (rules : list Rule) : RuleSet :=
  RuleSet.mk id EvaluationStrategy.FirstMatch rules RuleAction.Drop false.

Definition plain_rule_from_value (v : Value) : result Rule rstr :=
  match v with
  | Value.Array [Value.String id; Value.String path; Value.String text; Value.String port;
                 Value.Num n] =>
      match as_u64 n with
      | Some priority => Ok (plain_rule id path text port priority)
      | None => Err (lit "not a priority")
      end
  | _ => Err (lit "not a rule")
  end.
Definition plain_rule_to_value (r : Rule) : result Value rstr :=
  match r with
  | Rule.mk id (Condition.FieldEq (FieldPath.mk path) (ScalarValue.String text))
      (RuleAction.Route port) priority [] =>
      Ok (Value.Array [Value.String id; Value.String path; Value.String text;
                       Value.String (as_str port); Value.Num (number_of_u64 priority)])
  | _ => Err (lit "unsupported")
  end.

#[local] Instance plain_serde : RuleSetSerde := {
  rule_set_from_value v :=
    match v with
    | Value.Array (Value.String id :: rules) =>
        let? rules := try_collect plain_rule_from_value rules in Ok (plain_rule_set id rules)
    | _ => Err (lit "not a rule set")
    end;
  rule_set_to_value rs :=
    match RuleSet.strategy rs, RuleSet.default_action rs, RuleSet.trace_conditions rs with
    | EvaluationStrategy.FirstMatch, RuleAction.Drop, false =>
        let? rules := try_collect plain_rule_to_value (RuleSet.rules rs) in
        Ok (Value.Array (Value.String (RuleSet.id rs) :: rules))
    | _, _, _ => Err (lit "unsupported")
    end;
  rule_set_from_str id :=
    Ok (plain_rule_set id [plain_rule (lit "accept") (lit "status") (lit "ok") (lit "out") 1]);
}.

Lemma plain_read_back rs : read_back rs.
Proof.
  intros v Hv. destruct rs as [id [] rules [] []]; try discriminate Hv.
  unfold rule_set_to_value, plain_serde in Hv.
  cbn [RuleSet.strategy RuleSet.default_action RuleSet.trace_conditions RuleSet.rules RuleSet.id] in Hv.
  apply result_bind_ok in Hv as (vs & Hvs%try_collect_ok & [= <-]).
  unfold rule_set_from_value, plain_serde.
  assert (try_collect plain_rule_from_value vs = Ok rules) as ->; [|done].
  induction Hvs as [|r v rules vs Hr _ IH]; [done|]. simpl. rewrite IH.
  destruct r as [rid [[path] [text| | | |]| | | | | | | | | | | | | | | | | | | | | | |]
    [[port]| | | |] priority []]; try discriminate Hr.
  injection Hr as <-. reflexivity.
Qed.

#[local] Instance one_file : FileSystem := {
  path_exists p := bool_decide (p = lit "rules/gate.json");
  read_to_string p := Ok (lit "gate");
}.

Definition sample_raw : RawWorkflowDefinition :=
  RawWorkflowDefinition.mk (Some (lit "1")) (lit "flow")
    [raw_node "source" [] ["out"] None None;
     raw_node "gate" ["in"] ["out"] None (Some (lit "gate.json"));
     raw_node "filter" ["in"] [] (Some (Value.Array [Value.String (lit "inline")])) None]
    [raw_edge "source" "out" "gate" "in" (Some 4%N); raw_edge "gate" "out" "filter" "in" None].

Definition sample_workflow : WorkflowDefinition :=
  WorkflowDefinition.new (ident "flow") (WorkflowGraph.mk
    [NodeDefinition.mk (ident "source") [] [ident "out"];
     NodeDefinition.mk (ident "gate") [ident "in"] [ident "out"];
     NodeDefinition.mk (ident "filter") [ident "in"] []]
    [EdgeDefinition.with_capacity (EdgeEndpoint.new (ident "source") (ident "out"))
       (EdgeEndpoint.new (ident "gate") (ident "in")) 4;
     EdgeDefinition.new (EdgeEndpoint.new (ident "gate") (ident "out"))
       (EdgeEndpoint.new (ident "filter") (ident "in"))]).

Definition sample_registry : SourceRegistry := SourceRegistry.with_base_dir (lit "rules").

Definition zero_capacity_raw : RawWorkflowDefinition :=
  RawWorkflowDefinition.mk (Some (lit "1")) (lit "flow") []
    [raw_edge "a" "x" "b" "y" (Some 0%N)].

Definition bad_port_raw : RawWorkflowDefinition :=
  RawWorkflowDefinition.mk (Some (lit "1")) (lit "flow")
    [raw_node "a" ["ok"; "not ok"] ["also bad"] None None] [].

Example sample_converts : to_workflow sample_raw = Done (Ok sample_workflow).
Proof. reflexivity. Qed.

Example sample_loads :
  load_workflow sample_registry sample_raw
  = Done (Ok (mk_loaded sample_workflow
      [(ident "filter", plain_rule_set (lit "inline") []);
       (ident "gate", plain_rule_set (lit "gate")
          [plain_rule (lit "accept") (lit "status") (lit "ok") (lit "out") 1])])).
Proof. reflexivity. Qed.

Example zero_capacity_rejected :
  to_workflow zero_capacity_raw = Done (Err (WorkflowFormatError.InvalidEdgeCapacity 0 0)).
Proof. reflexivity. Qed.

(** A fresh registry serves plain paths only: [file] and [embedded] are schemes
    like any other. *)
Example file_scheme_unknown :
  SourceRegistry.load SourceRegistry.new (lit "file://rules/gate.json")
  = Err (RuleSourceError.UnknownScheme (lit "file")).
Proof. reflexivity. Qed.
End examples.

(** ** Properties *)


(** C38. An identifier error names the first invalid identifier of the document,
    reading the workflow identifier, then each node's identifier, inputs and
    outputs, then each edge's endpoints, and carries the reason that identifier
    is rejected; the version has been accepted by then. *)
Theorem first_invalid_identifier_reported `{J : JsonNumber} (raw : RawWorkflowDefinition)
    (c : IdentifierContext) (e : IdentifierError)
  (Herr : to_workflow raw = Done (Err (WorkflowFormatError.Identifier c e))) :
  RawWorkflowDefinition.pureflow_version raw = Some CURRENT_PUREFLOW_VERSION
  ∧ ∃ l1 text l2, identifier_sites raw = l1 ++ (c, text) :: l2
      ∧ Forall (λ s, check_site s = Ok tt) l1 ∧ check_site (c, text) = Err e.
Proof. by apply reports_document in Herr. Qed.

Lemma first_invalid_identifier_reported_witness :
  to_workflow bad_port_raw
    = Done (Err (WorkflowFormatError.Identifier (IdentifierContext.InputPort 0 1)
        (IdentifierError.Whitespace IdentifierKind.Port)))
  ∧ ∃ l1 text l2, identifier_sites bad_port_raw = l1 ++ (IdentifierContext.InputPort 0 1, text) :: l2
      ∧ Forall (λ s, check_site s = Ok tt) l1
      ∧ check_site (IdentifierContext.InputPort 0 1, text)
        = Err (IdentifierError.Whitespace IdentifierKind.Port).
Proof.
  split; [reflexivity|]. apply first_invalid_identifier_reported. reflexivity.
Defined.

(** C32. Resolving the rule sets of a document leaves no reference behind and
    changes nothing else, whatever the serialisers do.  And when every rule set that the
    document resolves to is read back as it was written, the resolved document loads to
    the same workflow and the same rule sets, or to the same error, with whatever
    registry it is loaded later. *)
Theorem resolved_document_loads_alike `{S : RuleSetSerde} `{FS : FileSystem}
    (registry later : SourceRegistry) (raw raw' : RawWorkflowDefinition)
  (Hres : resolve_rule_sets registry raw = Ok raw') :
  Forall (λ n, RawNodeDefinition.rule_set_ref n = None) (RawWorkflowDefinition.nodes raw')
  ∧ without_rules raw' = without_rules raw
  ∧ ((∀ i n rs, RawWorkflowDefinition.nodes raw !! i = Some n →
        resolve_node_rule_set registry i n = Ok (Some rs) → read_back rs) →
     load_workflow later raw' = load_workflow registry raw).
Proof.
  destruct (resolve_rule_sets_ok registry raw raw' Hres) as (Hw & Hrefs & Halike).
  split_and!; [done..|]. intros Hback. specialize (Halike Hback). unfold load_workflow.
  rewrite <- (to_workflow_without_rules raw'), Hw, to_workflow_without_rules.
  by rewrite (bind_rule_sets_alike _ _ _ _ _ (Halike later)).
Qed.

Lemma resolved_document_loads_alike_witness :
  ∃ raw', @resolve_rule_sets _ plain_serde one_file sample_registry sample_raw = Ok raw'
  ∧ @load_workflow _ plain_serde one_file SourceRegistry.new raw'
    = @load_workflow _ plain_serde one_file sample_registry sample_raw.
Proof.
  eexists. split; [reflexivity|].
  refine (proj2 (proj2 (@resolved_document_loads_alike _ plain_serde one_file sample_registry
    SourceRegistry.new sample_raw _ _)) _); [reflexivity|].
  intros i n rs _ _. apply plain_read_back.
Defined.

(** Loading a document whose graph is accepted either binds to every node
    exactly the rule set its entry resolves to, and to no other node anything,
    or fails with the error of the first entry that does not resolve. *)
Theorem load_workflow_binds `{S : RuleSetSerde} `{FS : FileSystem} (registry : SourceRegistry)
    (raw : RawWorkflowDefinition) (w : WorkflowDefinition)
  (Hw : to_workflow raw = Done (Ok w)) :
  (∃ lw, load_workflow registry raw = Done (Ok lw) ∧ workflow lw = w
     ∧ (∀ i n, RawWorkflowDefinition.nodes raw !! i = Some n →
          resolve_node_rule_set registry i n = Ok (BTreeMap.get (node_key n) (rule_sets lw)))
     ∧ ∀ k, k ∉ node_names (WorkflowDefinition.nodes w) → BTreeMap.get k (rule_sets lw) = None)
  ∨ (∃ e i n, load_workflow registry raw = Done (Err e)
     ∧ RawWorkflowDefinition.nodes raw !! i = Some n
     ∧ resolve_node_rule_set registry i n = Err e
     ∧ ∀ j m, j < i → RawWorkflowDefinition.nodes raw !! j = Some m →
         is_ok (resolve_node_rule_set registry j m)).
Proof.
  destruct (document_node_keys raw w Hw) as (Hkeys & Hnd & Hv).
  set (ns := RawWorkflowDefinition.nodes raw) in *.
  assert (Hsnd : (λ x : nat * RawNodeDefinition, node_key x.2) <$> enumerate ns = node_key <$> ns).
  { rewrite <- (enumerate_snd ns) at 2. by rewrite <- list_fmap_compose. }
  assert (Hve : Forall (λ x : nat * RawNodeDefinition, valid_identifier (RawNodeDefinition.id x.2))
    (enumerate ns)).
  { rewrite <- (enumerate_snd ns), Forall_fmap in Hv. exact Hv. }
  unfold load_workflow, pure. rewrite Hw. cbn [exec_try exec_bind]. fold ns.
  destruct (bind_rule_sets registry (enumerate ns) []) as [m|e] eqn:Hb; cbn.
  - left. eexists. split; [reflexivity|]. cbn. split_and!; [done| |].
    + intros i n Hi. pose proof (bind_rule_sets_ok registry _ _ _ Hb Hve) as Hall.
      rewrite Hsnd, Forall_forall in Hall. apply (Hall Hnd (λ _ _, eq_refl) (i, n)).
      by apply elem_of_enumerate.
    + intros k Hk. rewrite (bind_rule_sets_other registry _ _ _ k Hb); [done|].
      by rewrite Hsnd, Hkeys.
  - right. apply bind_rule_sets_err in Hb as (l1 & [i n] & l2 & Heq & Hl1 & He); [|done].
    assert (i = length l1 ∧ ns !! i = Some n) as [-> Hn].
    { assert (Hx : enumerate ns !! length l1 = Some (i, n))
        by (rewrite Heq; by apply list_lookup_middle).
      rewrite enumerate_lookup, fmap_Some in Hx. destruct Hx as (x & Hx & ?). by simplify_eq. }
    exists e, (length l1), n. split_and!; [done..|]. intros j m Hj Hm.
    rewrite Forall_forall in Hl1. apply (Hl1 (j, m)).
    apply (list_elem_of_lookup_2 _ j). rewrite <- (lookup_app_l l1 ((length l1, n) :: l2)) by done.
    by rewrite <- Heq, enumerate_lookup, Hm.
Qed.

Lemma load_workflow_binds_witness :
  to_workflow sample_raw = Done (Ok sample_workflow)
  ∧ ((∃ lw, @load_workflow _ plain_serde one_file SourceRegistry.new sample_raw = Done (Ok lw)
       ∧ workflow lw = sample_workflow
       ∧ (∀ i n, RawWorkflowDefinition.nodes sample_raw !! i = Some n →
            @resolve_node_rule_set _ plain_serde one_file SourceRegistry.new i n
            = Ok (BTreeMap.get (node_key n) (rule_sets lw)))
       ∧ ∀ k, k ∉ node_names (WorkflowDefinition.nodes sample_workflow) →
           BTreeMap.get k (rule_sets lw) = None)
     ∨ (∃ e i n, @load_workflow _ plain_serde one_file SourceRegistry.new sample_raw = Done (Err e)
       ∧ RawWorkflowDefinition.nodes sample_raw !! i = Some n
       ∧ @resolve_node_rule_set _ plain_serde one_file SourceRegistry.new i n = Err e
       ∧ ∀ j m, j < i → RawWorkflowDefinition.nodes sample_raw !! j = Some m →
           is_ok (@resolve_node_rule_set _ plain_serde one_file SourceRegistry.new j m))).
Proof.
  assert (H : to_workflow sample_raw = Done (Ok sample_workflow)) by reflexivity.
  split; [exact H|].
  exact (@load_workflow_binds _ plain_serde one_file SourceRegistry.new _ _ H).
Defined.
