(* ===== verification/BatchNode.v ===== *)
(** [pureflow-engine], the batch node adapter
    (src/crates/pureflow-engine/src/lib.rs, [run_batch_node_executor]).

    A batch node receives everything its inputs will ever carry, gives it to a
    batch executor in one call, and sends what the executor returns, port by
    port.  As for the rule node (RuleNode.v) the run is a state machine over its
    suspension points, the receive and the send.  The batch executor, a WASM
    component for instance, is a parameter. *)

From Stdlib Require Import Lia.
From stdpp Require Import relations.
From S2P Require Import Prelude RustStr BTree Types Workflow Errors Json Context Message Metadata MetadataSink Channel Ports PortsSpec Traffic.

(** [trait BatchExecutor]. *)
Definition BatchExecutor `{J : JsonNumber} : Type := Batch → result Batch PureflowError.

Section run.
Context `{J : JsonNumber} {S : Type} `{!MetadataSink S} `{M : !Mpsc PortPacket}.

(** The packets of one port that are still to be sent, and the ports after it:
    the two nested [for] loops of [send_batch_outputs]. *)
Inductive batch_state : Type :=
| BatchHead (batch : Batch)
| BatchReceiving (batch : Batch)
| BatchSending (port_id : PortId) (packet : PortPacket) (packets : list PortPacket)
    (ports : list (PortId * list PortPacket))
| BatchFinished (r : result unit PureflowError).

(** The next iteration of the loops of [send_batch_outputs] and
    [send_batch_output_port]. *)
Fixpoint send_batch_outputs (ports : list (PortId * list PortPacket)) : batch_state :=
  match ports with
  | [] => BatchFinished (Ok tt)
  | (_, []) :: ports => send_batch_outputs ports
  | (port_id, packet :: packets) :: ports => BatchSending port_id packet packets ports
  end.

Definition batch_turn (invoke : BatchExecutor) (ctx : NodeContext) (inputs : PortsIn)
    (outputs : PortsOut) (cx_cancelled : bool) (st : batch_state) (w : world (S := S)) :
    batch_state * world (S := S) :=
  let cancellation := NodeContext.cancellation_token ctx in
  match st with
  | BatchHead batch => (BatchReceiving batch, start_recv_any inputs w)
  | BatchReceiving batch =>
      let (r, w) := poll_recv_any inputs cancellation cx_cancelled w in
      match r with
      | Pending => (BatchReceiving batch, w)
      | Ready (Ok (Some (port_id, packet))) => (BatchHead (Batch.push batch port_id packet), w)
      | Ready (Ok None) =>
          match invoke batch with
          | Ok outputs => (send_batch_outputs (Batch.packets_by_port outputs), w)
          | Err e => (BatchFinished (Err e), w)
          end
      | Ready (Err e) => (BatchFinished (Err (PureflowError.from_port_recv e)), w)
      end
  | BatchSending port_id packet packets ports =>
      let (r, w) := poll_send outputs port_id packet cancellation w in
      match r with
      | Pending => (BatchSending port_id packet packets ports, w)
      | Ready (Ok _) => (send_batch_outputs ((port_id, packets) :: ports), w)
      | Ready (Err e) => (BatchFinished (Err (PureflowError.from_port_send e)), w)
      end
  | BatchFinished r => (BatchFinished r, w)
  end.

(** ** Specification *)

Definition batch_of (received : list (PortId * PortPacket)) : Batch :=
  foldl (λ b pp, Batch.push b pp.1 pp.2) Batch.new received.

(** The packets of a batch in the order they are sent. *)
Definition port_packets (ports : list (PortId * list PortPacket)) : list (PortId * PortPacket) :=
  ports ≫= λ pp, pair pp.1 <$> pp.2.
Definition batch_packets (b : Batch) : list (PortId * PortPacket) :=
  port_packets (Batch.packets_by_port b).

(** What a turn takes from the input ports and hands to the output ports. *)
Definition batch_received_by (ctx : NodeContext) (inputs : PortsIn) (cx_cancelled : bool)
    (st : batch_state) (w : world (S := S)) : list (PortId * PortPacket) :=
  match st with
  | BatchReceiving _ =>
      match (poll_recv_any inputs (NodeContext.cancellation_token ctx) cx_cancelled w).1 with
      | Ready (Ok (Some pp)) => [pp]
      | _ => []
      end
  | _ => []
  end.

Definition batch_sent_by (ctx : NodeContext) (outputs : PortsOut) (st : batch_state)
    (w : world (S := S)) : list (PortId * PortPacket) :=
  match st with
  | BatchSending port_id packet _ _ =>
      match (poll_send outputs port_id packet (NodeContext.cancellation_token ctx) w).1 with
      | Ready (Ok _) => [(port_id, packet)]
      | _ => []
      end
  | _ => []
  end.

Record batch_run : Type := mk_batch_run {
  batch_at : batch_state;
  batch_world : world (S := S);
  batch_received : list (PortId * PortPacket);
  batch_sent : list (PortId * PortPacket);
}.

Definition run_turn (invoke : BatchExecutor) (ctx : NodeContext) (inputs : PortsIn)
    (outputs : PortsOut) (cx_cancelled : bool) (R : batch_run) : batch_run :=
  let '(mk_batch_run st w rcv snt) := R in
  let (st', w') := batch_turn invoke ctx inputs outputs cx_cancelled st w in
  mk_batch_run st' w' (rcv ++ batch_received_by ctx inputs cx_cancelled st w)
    (snt ++ batch_sent_by ctx outputs st w).

(** A turn of the node, or anything the rest of the system does. *)
Inductive batch_step (invoke : BatchExecutor) (ctx : NodeContext) (inputs : PortsIn)
    (outputs : PortsOut) : batch_run → batch_run → Prop :=
| batch_step_turn cx_cancelled R :
    batch_step invoke ctx inputs outputs R (run_turn invoke ctx inputs outputs cx_cancelled R)
| batch_step_environment st w rcv snt w' :
    batch_step invoke ctx inputs outputs (mk_batch_run st w rcv snt) (mk_batch_run st w' rcv snt).

(** How the packets sent so far relate to what the executor made of the packets
    received so far. *)
Definition batch_accounts (invoke : BatchExecutor) (st : batch_state)
    (rcv snt : list (PortId * PortPacket)) : Prop :=
  match st with
  | BatchHead b | BatchReceiving b => b = batch_of rcv ∧ snt = []
  | BatchSending p x xs ports =>
      ∃ out, invoke (batch_of rcv) = Ok out
        ∧ batch_packets out = snt ++ (p, x) :: port_packets ((p, xs) :: ports)
  | BatchFinished (Ok _) => ∃ out, invoke (batch_of rcv) = Ok out ∧ batch_packets out = snt
  | BatchFinished (Err _) =>
      snt = [] ∨ ∃ out unsent, invoke (batch_of rcv) = Ok out ∧ batch_packets out = snt ++ unsent
  end.

Lemma batch_of_snoc rcv pp : batch_of (rcv ++ [pp]) = Batch.push (batch_of rcv) pp.1 pp.2.
Proof. unfold batch_of. by rewrite foldl_app. Qed.

Lemma port_packets_cons p xs ports :
  port_packets ((p, xs) :: ports) = (pair p <$> xs) ++ port_packets ports.
Proof. done. Qed.

(** The loops of [send_batch_outputs] leave out nothing. *)
Lemma send_batch_outputs_accounts invoke rcv snt out ports :
  invoke (batch_of rcv) = Ok out → batch_packets out = snt ++ port_packets ports →
  batch_accounts invoke (send_batch_outputs ports) rcv snt.
Proof.
  intros Hi. induction ports as [|[p [|x xs]] ports IH]; intros Hp; simpl.
  - exists out. split; [done|]. by rewrite Hp, app_nil_r.
  - by apply IH.
  - exists out. done.
Qed.

Lemma batch_turn_accounts invoke ctx inputs outputs cx st w rcv snt :
  batch_accounts invoke st rcv snt →
  batch_accounts invoke (batch_turn invoke ctx inputs outputs cx st w).1
    (rcv ++ batch_received_by ctx inputs cx st w) (snt ++ batch_sent_by ctx outputs st w).
Proof.
  intros Hacc. destruct st as [b|b|p x xs ports|r]; cbn [batch_turn batch_received_by batch_sent_by];
    rewrite ?app_nil_r.
  - done.
  - destruct Hacc as [-> ->]. destruct (poll_recv_any _ _ _ _) as [r w1]. simpl.
    destruct r as [[[[p x]|]|e]|]; rewrite ?app_nil_r; simpl; [|  |by left|done].
    + by rewrite batch_of_snoc.
    + destruct (invoke (batch_of rcv)) as [out|e] eqn:Hi; [|by left].
      by eapply send_batch_outputs_accounts.
  - destruct Hacc as (out & Hi & Hp). destruct (poll_send _ _ _ _ _) as [r w1]. simpl.
    destruct r as [[[]|e]|]; rewrite ?app_nil_r.
    + eapply (send_batch_outputs_accounts _ _ _ _ ((p, xs) :: ports)); [done|].
      by rewrite <- app_assoc.
    + right. by exists out, ((p, x) :: port_packets ((p, xs) :: ports)).
    + by exists out.
  - done.
Qed.

Lemma batch_step_accounts invoke ctx inputs outputs R R' :
  batch_step invoke ctx inputs outputs R R' →
  batch_accounts invoke (batch_at R) (batch_received R) (batch_sent R) →
  batch_accounts invoke (batch_at R') (batch_received R') (batch_sent R').
Proof.
  intros [cx [st w rcv snt]|]; [|done]. simpl. intros Hacc.
  apply (batch_turn_accounts invoke ctx inputs outputs cx st w) in Hacc.
  by destruct (batch_turn _ _ _ _ _ _ _).
Qed.
End run.

(** ** Progress *)

(** When the upstream nodes have ended and the downstream nodes keep taking what
    they are sent, the run ends. *)
Section progress.
Context `{J : JsonNumber} {S : Type} `{!MetadataSink S} `{M : !Mpsc PortPacket}.
Implicit Types w : world (S := S).

Definition queue_at w (i : nat) : list PortPacket :=
  match chan_at w i with Some v => cv_queue v | None => [] end.

(** Everything queued on the input ports, in the order [recv_any] takes it. *)
Definition queued w (ports : list InputPortHandle) : list (PortId * PortPacket) :=
  ports ≫= λ h, pair (in_port_id h) <$> (receivers h ≫= queue_at w).

(** No upstream node is left. *)
Definition inputs_closed w (inputs : PortsIn) : Prop :=
  ∀ h i, h ∈ in_ports inputs → i ∈ receivers h →
    ∃ v, chan_at w i = Some v ∧ cv_senders v = false.

Definition outputs_stored w (outputs : PortsOut) : Prop :=
  ∀ h, h ∈ out_ports outputs → in_store w (senders h).

(** What the downstream nodes do between two turns: they leave the inputs of the
    node alone, do not cancel, and make room on each of its output channels. *)
Definition makes_room (env : world (S := S) → world (S := S)) (inputs : PortsIn)
    (outputs : PortsOut) : Prop :=
  ∀ w, outputs_stored w outputs →
    w_signals (env w) = w_signals w
    ∧ (∀ h i, h ∈ in_ports inputs → i ∈ receivers h → chan_at (env w) i = chan_at w i)
    ∧ ∀ h i, h ∈ out_ports outputs → i ∈ senders h →
        ∃ v, chan_at (env w) i = Some v ∧ cv_receiver v = true ∧ has_room v.

Section rounds.
Context (invoke : BatchExecutor) (ctx : NodeContext) (inputs : PortsIn) (outputs : PortsOut)
  (env : world (S := S) → world (S := S)).

Definition round (R : batch_run (S := S)) : batch_run :=
  run_turn invoke ctx inputs outputs false
    (mk_batch_run (batch_at R) (env (batch_world R)) (batch_received R) (batch_sent R)).

Definition rounds (n : nat) (R : batch_run (S := S)) : batch_run := Nat.iter n round R.

Lemma rounds_plus n m R : rounds (n + m) R = rounds m (rounds n R).
Proof. unfold rounds. by rewrite Nat.add_comm, Nat.iter_add. Qed.

Lemma rounds_steps n R : rtc (batch_step invoke ctx inputs outputs) R (rounds n R).
Proof.
  induction n as [|n IH]; [done|]. etrans; [exact IH|]. simpl.
  destruct (rounds n R) as [st w rcv snt]. eapply rtc_l; [by apply batch_step_environment|].
  eapply rtc_once, batch_step_turn.
Qed.

Hypothesis Hwired : NoDup (in_ports inputs ≫= receivers).
Hypothesis Hfan : ∀ h, h ∈ out_ports outputs → NoDup (senders h).
Hypothesis Henv : makes_room env inputs outputs.

(** *** The queue, receive by receive *)

Lemma queue_at_changes w w' f l i :
  changes f l w w' → i ∉ l → queue_at w' i = queue_at w i.
Proof.
  intros [_ H] Hi. unfold queue_at. rewrite H, decide_False by done. by destruct (chan_at w i).
Qed.

Lemma bind_ext_elem {A B} (f g : A → list B) (l : list A) :
  (∀ x, x ∈ l → f x = g x) → l ≫= f = l ≫= g.
Proof.
  induction l as [|x l IH]; intros Hx; [done|]. rewrite !bind_cons. f_equal; [apply Hx; by left|].
  apply IH. intros y Hy. apply Hx. by right.
Qed.

Lemma first_ready_elem w l i x : first_ready w l = Some (i, x) → i ∈ l.
Proof.
  induction l as [|j l IH]; simpl; [done|].
  destruct (chan_at w j) as [v|]; [|intros H; right; by apply IH].
  destruct (cv_queue v); [intros H; right; by apply IH|]. intros [= -> ->]. left.
Qed.

Lemma first_ready_none w l : first_ready w l = None → (l ≫= queue_at w) = [].
Proof.
  induction l as [|j l IH]; simpl; [done|]. unfold queue_at at 1.
  destruct (chan_at w j) as [v|]; [|done]. by destruct (cv_queue v).
Qed.

Lemma queue_take w w' l i x :
  NoDup l → first_ready w l = Some (i, x) → changes after_recv [i] w w' →
  (l ≫= queue_at w) = x :: (l ≫= queue_at w').
Proof.
  induction l as [|j l IH]; [done|]. intros [Hj Hnd]%NoDup_cons Hf Hc. rewrite !bind_cons.
  assert (Hskip : cv_queue <$> chan_at w j = Some [] ∨ chan_at w j = None →
    first_ready w l = Some (i, x) →
    queue_at w j ++ (l ≫= queue_at w) = x :: queue_at w' j ++ (l ≫= queue_at w')).
  { intros He Hfl. pose proof (first_ready_elem _ _ _ _ Hfl) as Hi.
    rewrite (queue_at_changes w w' after_recv [i] j) by (done || set_solver).
    assert (queue_at w j = []) as ->
      by (unfold queue_at; destruct He as [He|He]; destruct (chan_at w j); by simplify_eq/=).
    by apply IH. }
  simpl in Hf. destruct (chan_at w j) as [v|] eqn:Hv; [|by apply Hskip; [right|]].
  destruct (cv_queue v) as [|y q] eqn:Hq; [by apply Hskip; [left; simpl; by rewrite Hq|]|].
  simplify_eq. clear Hskip IH. destruct Hc as [Hs H].
  assert (queue_at w i = x :: q) as -> by (unfold queue_at; by rewrite Hv).
  assert (queue_at w' i = q) as ->.
  { unfold queue_at. rewrite H, decide_True, Hv by set_solver. simpl. unfold after_recv. by rewrite Hq. }
  simpl. do 2 f_equal. apply bind_ext_elem. intros k Hk. symmetry.
  eapply queue_at_changes; [by split|set_solver].
Qed.

Lemma queued_none w ports : first_ready_port w ports = None → queued w ports = [].
Proof.
  induction ports as [|h ports IH]; simpl; [done|]. unfold queued in *. simpl.
  destruct (first_ready w (receivers h)) as [[]|] eqn:Hf; [done|]. intros Hn.
  by rewrite (first_ready_none _ _ Hf), IH.
Qed.

Lemma first_ready_port_elem w ports h x :
  first_ready_port w ports = Some (h, x) →
  h ∈ ports ∧ ∃ i, first_ready w (receivers h) = Some (i, x).
Proof.
  induction ports as [|h' ports IH]; simpl; [done|].
  destruct (first_ready w (receivers h')) as [[i y]|] eqn:Hf.
  - intros [= -> ->]. split; [left|by exists i].
  - intros [? ?]%IH. split; [by right|done].
Qed.

Lemma queued_take w w' ports h x :
  NoDup (ports ≫= receivers) → first_ready_port w ports = Some (h, x) →
  scan_effect w w' (receivers h) → queued w ports = (in_port_id h, x) :: queued w' ports.
Proof.
  induction ports as [|h' ports IH]; [done|].
  rewrite bind_cons. intros (Hnd1 & Hdis & Hnd2)%NoDup_app Hf He. unfold queued in *.
  rewrite !bind_cons. simpl in Hf. destruct (first_ready w (receivers h')) as [[i y]|] eqn:Hfr.
  - simplify_eq. unfold scan_effect in He. rewrite Hfr in He.
    rewrite (queue_take w w' _ _ _ Hnd1 Hfr He). simpl. do 2 f_equal.
    apply bind_ext_elem. intros h' Hh'. f_equal. apply bind_ext_elem. intros k Hk. symmetry.
    eapply queue_at_changes; [exact He|]. pose proof (first_ready_elem _ _ _ _ Hfr) as Hi.
    intros ->%list_elem_of_singleton. apply (Hdis i Hi). apply list_elem_of_bind. by exists h'.
  - rewrite (first_ready_none _ _ Hfr). simpl. rewrite IH by done.
    assert ((receivers h' ≫= queue_at w') = []) as ->; [|done].
    rewrite <- (first_ready_none _ _ Hfr). apply bind_ext_elem. intros k Hk.
    destruct (first_ready_port_elem _ _ _ _ Hf) as (Hh & i & Hi).
    unfold scan_effect in He. rewrite Hi in He. eapply queue_at_changes; [exact He|].
    intros ->%list_elem_of_singleton. apply (Hdis i Hk). apply list_elem_of_bind.
    exists h. split; [by eapply first_ready_elem|done].
Qed.

(** *** What every round keeps *)

Record live w : Prop := {
  live_inputs : inputs_closed w inputs;
  live_outputs : outputs_stored w outputs;
  live_active : CancellationToken.is_cancelled (w_signals w) (NodeContext.cancellation_token ctx)
                = false;
}.

Lemma live_changes f l w w' :
  (∀ v, cv_senders (f v) = cv_senders v) → changes f l w w' → live w → live w'.
Proof.
  intros Hf Hc [Hi Ho Ha]. split.
  - intros h i Hh Hr. destruct (Hi h i Hh Hr) as (v & Hv & Hs).
    rewrite (proj2 Hc), Hv. simpl. eexists. split; [done|]. case_decide; [by rewrite Hf|done].
  - intros h Hh. eapply in_store_changes; [exact Hc|by apply Ho].
  - by rewrite (proj1 Hc).
Qed.

Lemma live_env w : live w → live (env w).
Proof.
  intros [Hi Ho Ha]. destruct (Henv w Ho) as (Hs & Hin & Hout). split.
  - intros h i Hh Hr. rewrite (Hin h i Hh Hr). by apply (Hi h i).
  - intros h Hh i Hr. destruct (Hout h i Hh Hr) as (v & Hv & _). apply chan_at_is_some. by rewrite Hv.
  - by rewrite Hs.
Qed.

Lemma queued_env w : live w → queued (env w) (in_ports inputs) = queued w (in_ports inputs).
Proof.
  intros [_ Ho _]. destruct (Henv w Ho) as (_ & Hin & _). unfold queued.
  apply bind_ext_elem. intros h Hh. f_equal. apply bind_ext_elem. intros i Hi.
  unfold queue_at. by rewrite (Hin h i).
Qed.

Lemma queued_unchanged w w' :
  changes (λ v, v) [] w w' → queued w' (in_ports inputs) = queued w (in_ports inputs).
Proof.
  intros Hc. unfold queued. apply bind_ext_elem. intros h _. f_equal. apply bind_ext_elem.
  intros i _. eapply queue_at_changes; [exact Hc|set_solver].
Qed.

Lemma start_recv_any_unchanged w : changes (λ v, v) [] w (start_recv_any inputs w).
Proof.
  unfold start_recv_any. generalize (in_ports inputs). intros ports.
  revert w. induction ports as [|h ports IH]; intros w; simpl; [apply changes_refl|].
  eapply changes_unchanged_l; [|apply IH]. apply record_to_unchanged.
Qed.

Lemma after_recv_senders (v : chan_view PortPacket) : cv_senders (after_recv v) = cv_senders v.
Proof. unfold after_recv. by destruct (cv_queue v). Qed.

(** One poll of [recv_any] on closed inputs takes the next queued packet, or ends
    the stream. *)
Lemma poll_recv_any_closed w :
  live w →
  let (r, w') := poll_recv_any inputs (NodeContext.cancellation_token ctx) false w in
  live w' ∧ match queued w (in_ports inputs) with
            | [] => r = Ready (Ok None)
            | pp :: q => r = Ready (Ok (Some pp)) ∧ queued w' (in_ports inputs) = q
            end.
Proof.
  intros Hl. destruct (decide (in_ports inputs = [])) as [Hnil|Hne].
  { unfold poll_recv_any. rewrite Hnil. done. }
  pose proof (poll_recv_any_spec inputs (NodeContext.cancellation_token ctx) w Hne) as Hp.
  destruct (poll_recv_any _ _ _ w) as [r w']. destruct Hl as [Hi Ho Ha].
  specialize (Hp ltac:(intros h Hh i Hr; destruct (Hi h i Hh Hr) as (v & Hv & _);
    apply chan_at_is_some; by rewrite Hv) Ha).
  destruct (first_ready_port w (in_ports inputs)) as [[h x]|] eqn:Hf.
  - destruct Hp as [-> He]. destruct (first_ready_port_elem _ _ _ _ Hf) as (_ & i & Hfr).
    split.
    + unfold scan_effect in He. rewrite Hfr in He.
      by eapply live_changes; [apply after_recv_senders|exact He|].
    + by rewrite (queued_take w w' _ _ _ Hwired Hf He).
  - destruct Hp as [Hu ->]. split; [by eapply live_changes; [|exact Hu|]|].
    rewrite (queued_none _ _ Hf), bool_decide_eq_true_2; [done|].
    apply Forall_forall. intros h Hh. apply Forall_forall. intros i Hr.
    destruct (Hi h i Hh Hr) as (v & Hv & Hs). unfold drained. rewrite Hv. split; [|done].
    assert (Hq : queue_at w i = []); [|unfold queue_at in Hq; by rewrite Hv in Hq].
    apply queued_none in Hf. destruct (queue_at w i) as [|x q] eqn:Hqi; [done|]. exfalso.
    assert ((in_port_id h, x) ∈ queued w (in_ports inputs)) as Hx; [|rewrite Hf in Hx; set_solver].
    apply list_elem_of_bind. exists h. split; [|done]. apply list_elem_of_fmap. exists x. split; [done|].
    apply list_elem_of_bind. exists i. rewrite Hqi. split; [left|done].
Qed.

(** Two rounds receive a packet, or end the receiving. *)
Lemma receive_rounds b w rcv snt :
  live w →
  ∃ w', live w' ∧ match queued w (in_ports inputs) with
    | [] => rounds 2 (mk_batch_run (BatchHead b) w rcv snt)
            = mk_batch_run (match invoke b with
                            | Ok out => send_batch_outputs (Batch.packets_by_port out)
                            | Err e => BatchFinished (Err e)
                            end) w' rcv snt
    | pp :: q => rounds 2 (mk_batch_run (BatchHead b) w rcv snt)
            = mk_batch_run (BatchHead (Batch.push b pp.1 pp.2)) w' (rcv ++ [pp]) snt
            ∧ queued w' (in_ports inputs) = q
    end.
Proof.
  intros Hl. pose proof (live_env w Hl) as Hl1. set (w1 := start_recv_any inputs (env w)).
  assert (Hu : changes (λ v, v) [] (env w) w1) by apply start_recv_any_unchanged.
  assert (Hl2 : live w1) by (by eapply live_changes; [|exact Hu|]).
  assert (Hq : queued (env w1) (in_ports inputs) = queued w (in_ports inputs))
    by (by rewrite queued_env, (queued_unchanged _ _ Hu), queued_env).
  assert (Hround : rounds 2 (mk_batch_run (BatchHead b) w rcv snt)
    = round (mk_batch_run (BatchReceiving b) w1 rcv snt)).
  { unfold rounds, round. simpl. by rewrite !app_nil_r. }
  rewrite Hround. unfold round. simpl. pose proof (poll_recv_any_closed _ (live_env _ Hl2)) as Hp.
  rewrite Hq in Hp. destruct (poll_recv_any _ _ _ (env w1)) as [r w2]. simpl.
  destruct Hp as [Hl3 Hr]. exists w2. split; [done|].
  destruct (queued w (in_ports inputs)) as [|[p x] q].
  - subst r. simpl. rewrite !app_nil_r. by destruct (invoke b).
  - destruct Hr as [-> Hq']. simpl. by rewrite !app_nil_r.
Qed.

Lemma receive_phase w : ∀ q b rcv snt,
  live w → queued w (in_ports inputs) = q →
  ∃ w', live w' ∧ rounds (2 * length q + 2) (mk_batch_run (BatchHead b) w rcv snt)
    = mk_batch_run
        (match invoke (foldl (λ b pp, Batch.push b pp.1 pp.2) b q) with
         | Ok out => send_batch_outputs (Batch.packets_by_port out)
         | Err e => BatchFinished (Err e)
         end) w' (rcv ++ q) snt.
Proof.
  intros q. revert w. induction q as [|pp q IH]; intros w b rcv snt Hl Hq.
  - destruct (receive_rounds b w rcv snt Hl) as (w' & Hl' & Hr). rewrite Hq in Hr.
    exists w'. rewrite app_nil_r. done.
  - destruct (receive_rounds b w rcv snt Hl) as (w' & Hl' & Hr). rewrite Hq in Hr.
    destruct Hr as [Hr Hq']. destruct (IH w' (Batch.push b pp.1 pp.2) (rcv ++ [pp]) snt Hl' Hq')
      as (w2 & Hl2 & Hrest). exists w2. split; [done|].
    replace (2 * length (pp :: q) + 2) with (2 + (2 * length q + 2)) by (simpl; lia).
    rewrite rounds_plus, Hr, Hrest. by rewrite <- app_assoc.
Qed.

(** *** Sending *)

(** Why a packet that the executor returned cannot be sent, however much room there is:
    its port is not an output port of the node, or the validator of the run rejects it. *)
Definition refusal (pp : PortId * PortPacket) : option PortSendError :=
  match find_output outputs pp.1 with
  | None => Some (PortSendError.UnknownPort pp.1)
  | Some _ =>
      match validate_output (out_validator outputs) pp.1 pp.2 with
      | Ok _ => None
      | Err e => Some e
      end
  end.

Lemma room_no_refusal w h :
  live w → h ∈ out_ports outputs → first_refusal (env w) (senders h) = None.
Proof.
  intros Hl Hin. destruct (Henv w (live_outputs _ Hl)) as (_ & _ & Hroom). specialize (Hroom h).
  assert (Hall : ∀ i, i ∈ senders h → ∃ v, chan_at (env w) i = Some v ∧ cv_receiver v = true
    ∧ has_room v) by auto. clear -Hall.
  induction (senders h) as [|i l IH]; [done|]. simpl.
  destruct (Hall i) as (v & -> & Hr & Hroom); [by left|]. unfold reserve_outcome.
  rewrite Hr, decide_True by done. apply IH. intros j Hj. apply Hall. by right.
Qed.

Lemma send_round p x xs ports w rcv snt :
  live w →
  ∃ w', live w' ∧ round (mk_batch_run (BatchSending p x xs ports) w rcv snt)
    = match refusal (p, x) with
      | None => mk_batch_run (send_batch_outputs ((p, xs) :: ports)) w' rcv (snt ++ [(p, x)])
      | Some e => mk_batch_run (BatchFinished (Err (PureflowError.from_port_send e))) w' rcv snt
      end.
Proof.
  intros Hl. pose proof (live_env w Hl) as Hle. destruct (Hle) as [Hi Ho Ha]. unfold refusal, round.
  cbn [fst snd]. destruct (find_output outputs p) as [h|] eqn:Hh.
  2:{ exists (env w). split; [done|]. simpl. unfold poll_send, poll_reserve. rewrite Hh. simpl.
      by rewrite !app_nil_r. }
  assert (Hin : h ∈ out_ports outputs) by (apply iter_find_elem in Hh; tauto).
  pose proof (room_no_refusal w h Hl Hin) as Href.
  pose proof (poll_send_effect outputs p h x (NodeContext.cancellation_token ctx) (env w) Hh
    (Hfan h Hin) (Ho h Hin)) as Hs.
  simpl. destruct (poll_send _ _ _ _ (env w)) as [r w'].
  rewrite Ha, Href, decide_False in Hs by done. unfold send_outcome in Hs.
  rewrite Href, (find_output_port _ _ _ Hh) in Hs.
  destruct (validate_output _ p x) as [[]|e]; destruct Hs as [-> He]; exists w'; simpl in He.
  - split; [by eapply (live_changes (λ v, with_queue (cv_queue v ++ [x]) v)); [|exact He|]|].
    simpl. by rewrite app_nil_r.
  - split; [by eapply (live_changes (λ v, v)); [|exact He|]|]. simpl. by rewrite !app_nil_r.
Qed.

(** How the sends of the packets [all] end, the packets [snt] having been sent before. *)
Definition sends_end (n : nat) (R : batch_run (S := S)) (rcv snt all : list (PortId * PortPacket)) : Prop :=
  ∃ sent rest w', all = sent ++ rest ∧ Forall (λ pp, refusal pp = None) sent
    ∧ match rest with
      | [] => rounds (n + length sent) R = mk_batch_run (BatchFinished (Ok tt)) w' rcv (snt ++ sent)
      | pp :: _ => ∃ e, refusal pp = Some e
          ∧ rounds (n + length sent + 1) R
            = mk_batch_run (BatchFinished (Err (PureflowError.from_port_send e))) w' rcv (snt ++ sent)
      end.

Lemma sends_end_after n m R R' rcv snt all :
  rounds m R = R' → sends_end n R' rcv snt all → sends_end (m + n) R rcv snt all.
Proof.
  intros HR (sent & rest & w' & Hall & Hs & Hend). exists sent, rest, w'. split_and!; [done|done|].
  subst R'. destruct rest as [|pp rest].
  - by rewrite <- Nat.add_assoc, rounds_plus.
  - destruct Hend as (e & He & Hend). exists e. split; [done|].
    by rewrite <- !Nat.add_assoc, rounds_plus, Nat.add_assoc.
Qed.

Lemma send_phase ports : ∀ w rcv snt,
  live w → sends_end 0 (mk_batch_run (send_batch_outputs ports) w rcv snt) rcv snt (port_packets ports).
Proof.
  induction ports as [|[p xs] ports IH]; intros w rcv snt Hl.
  { exists [], [], w. simpl. by rewrite app_nil_r. }
  revert w snt Hl. induction xs as [|x xs IHx]; intros w snt Hl; [by apply IH|].
  rewrite port_packets_cons, fmap_cons. rewrite port_packets_cons in IHx.
  cbn [send_batch_outputs app].
  destruct (send_round p x xs ports w rcv snt Hl) as (w1 & Hl1 & Hr).
  destruct (refusal (p, x)) as [e|] eqn:Hx.
  { exists [], ((p, x) :: (pair p <$> xs) ++ port_packets ports), w1. split_and!; [done|done|].
    exists e. split; [done|]. by rewrite app_nil_r. }
  destruct (IHx w1 (snt ++ [(p, x)]) Hl1) as (sent & rest & w2 & -> & Hs & Hend).
  exists ((p, x) :: sent), rest, w2. split_and!; [done|by constructor|].
  cbn [length Nat.add] in Hend |- *.
  assert (Hstep : ∀ n, rounds (Datatypes.S n) (mk_batch_run (BatchSending p x xs ports) w rcv snt)
    = rounds n (mk_batch_run (send_batch_outputs ((p, xs) :: ports)) w1 rcv (snt ++ [(p, x)]))).
  { intros n. change (Datatypes.S n) with (1 + n). by rewrite rounds_plus, <- Hr. }
  destruct rest as [|pp rest]; [by rewrite Hstep, Hend, <- app_assoc|].
  destruct Hend as (e & He & Hend). exists e. split; [done|]. by rewrite Hstep, Hend, <- app_assoc.
Qed.
End rounds.
End progress.

(** ** Properties *)

Section properties.
Context `{J : JsonNumber} {S : Type} `{!MetadataSink S} `{M : !Mpsc PortPacket}.

(** C10. Whatever the rest of the system does between the turns of a batch node:
    nothing is sent before the inputs have ended; the executor is given every
    packet received, grouped by port and in order of arrival; what has been sent
    is at any time an initial part of what the executor returned, in port order
    and in order within a port; and a run that ends well has sent all of it. *)
Theorem batch_node_refines_executor (invoke : BatchExecutor) (ctx : NodeContext)
  (inputs : PortsIn) (outputs : PortsOut) (w : world (S := S)) (R : batch_run)
  (Hrun : rtc (batch_step invoke ctx inputs outputs) (mk_batch_run (BatchHead Batch.new) w [] []) R) :
  batch_accounts invoke (batch_at R) (batch_received R) (batch_sent R)
  ∧ ∀ p, Batch.packets (batch_of (batch_received R)) p
         = (filter (λ pp, pp.1 = p) (batch_received R)).*2.
Proof.
  split; [|intros p; unfold batch_of; by rewrite Batch.packets_pushes].
  remember (mk_batch_run (BatchHead Batch.new) w [] []) as R0 eqn:E.
  assert (Hacc : batch_accounts invoke (batch_at R0) (batch_received R0) (batch_sent R0)) by by subst.
  clear E. induction Hrun as [|R0 R1 R Hstep _ IH]; [done|]. apply IH.
  by eapply batch_step_accounts.
Qed.

(** C17. A batch node that is wired as the engine wires it (no channel is read twice, no
    fan-out has a channel twice), whose upstream nodes have all ended, whose downstream
    nodes keep making room, and which is not cancelled, ends, whatever the executor
    answers.  After two rounds for each queued packet and two for the end of the inputs it
    has received every queued packet.  When the executor fails, it has then ended with that
    error and sent nothing.  Otherwise one more round for each packet returned sends them
    in order, up to the first whose port the node does not have or that the validator
    rejects: if there is none the node has sent them all and ends well, and otherwise one
    more round ends it with that packet's error, the packets before it sent. *)
Theorem batch_node_finishes (invoke : BatchExecutor) (ctx : NodeContext) (inputs : PortsIn)
  (outputs : PortsOut) (env : world (S := S) → world (S := S)) (w : world (S := S))
  (Hwired : NoDup (in_ports inputs ≫= receivers))
  (Hfan : ∀ h, h ∈ out_ports outputs → NoDup (senders h))
  (Hclosed : inputs_closed w inputs) (Hstored : outputs_stored w outputs)
  (Hactive : CancellationToken.is_cancelled (w_signals w) (NodeContext.cancellation_token ctx)
             = false)
  (Henv : makes_room env inputs outputs) :
  let rcv := queued w (in_ports inputs) in
  let finished n := rounds invoke ctx inputs outputs env n
                      (mk_batch_run (BatchHead Batch.new) w [] []) in
  match invoke (batch_of rcv) with
  | Ok out => ∃ sent rest w',
      batch_packets out = sent ++ rest ∧ Forall (λ pp, refusal outputs pp = None) sent
      ∧ match rest with
        | [] => finished (2 * length rcv + 2 + length sent)
                = mk_batch_run (BatchFinished (Ok tt)) w' rcv sent
        | pp :: _ => ∃ e, refusal outputs pp = Some e
            ∧ finished (2 * length rcv + 2 + length sent + 1)
              = mk_batch_run (BatchFinished (Err (PureflowError.from_port_send e))) w' rcv sent
        end
  | Err e => ∃ w', finished (2 * length rcv + 2) = mk_batch_run (BatchFinished (Err e)) w' rcv []
  end.
Proof.
  intros rcv finished. assert (Hl : live ctx inputs outputs w) by by split.
  destruct (receive_phase invoke ctx inputs outputs env Hwired Hfan Henv w rcv Batch.new [] [] Hl eq_refl)
    as (w1 & Hl1 & Hr). rewrite app_nil_l in Hr. fold (batch_of rcv) in Hr. unfold finished.
  destruct (invoke (batch_of rcv)) as [out|e] eqn:Hi; [|by exists w1].
  pose proof (send_phase invoke ctx inputs outputs env Hfan Henv (Batch.packets_by_port out) w1 rcv []
    Hl1) as Hs.
  apply (sends_end_after _ _ _ _ _ _ _ _ _ _ _ _ Hr) in Hs. by rewrite Nat.add_0_r in Hs.
Qed.
End properties.

(** ** Examples *)

Section examples.
Let packet (id : string) : PortPacket :=
  MessageEnvelope.new
    (MessageMetadata.new (ident id) (ident "flow")
       (ExecutionMetadata.first_attempt (ident "run-1"))
       (MessageRoute.new None (MessageEndpoint.new (ident "batch") (ident "in"))))
    (PacketPayload.Control Value.Null).
Let ctx : NodeContext :=
  NodeContext.mk (ident "flow") (ident "batch")
    (ExecutionMetadata.first_attempt (ident "run-1")) (CancellationToken.mk 0).
Let inputs : PortsIn := mk_ports_in [ident "in"] [mk_input (ident "in") [0]] true None.
Let outputs : PortsOut := mk_ports_out [ident "out"] [mk_output (ident "out") [1]] true None None.
(** Two packets wait on the input, whose senders are gone. *)
Let start : world (S := list MetadataRecord) :=
  mk_world [mk_view [packet "m1"; packet "m2"] 0 2 false true; mk_view [] 0 1 true true] [] [None].
(** The executor moves everything from its input port to its output port. *)
Let copy : BatchExecutor :=
  λ b, Ok (Batch.from_packets [(ident "out", Batch.packets b (ident "in"))]).
(** Downstream takes everything at once. *)
Let consumer (w : world (S := list MetadataRecord)) : world (S := list MetadataRecord) :=
  set_chan 1 (mk_view [] 0 1 true true) w.

Lemma consumer_makes_room : makes_room consumer inputs outputs.
Proof.
  intros w Hw. split; [done|]. split.
  - intros h i ->%list_elem_of_singleton ->%list_elem_of_singleton. unfold chan_at, consumer, set_chan.
    simpl. by rewrite list_lookup_insert_ne.
  - intros h i ->%list_elem_of_singleton ->%list_elem_of_singleton.
    destruct (Hw (mk_output (ident "out") [1])) with (i := 1) as [c Hc]; [left|left|].
    exists (mk_view [] 0 1 true true). unfold chan_at, consumer, set_chan. simpl.
    rewrite list_lookup_insert_eq by (by eapply lookup_lt_Some).
    split_and!; [done|done|]. unfold has_room. simpl. lia.
Qed.

Lemma batch_node_refines_executor_witness :
  let R := rounds copy ctx inputs outputs consumer 8 (mk_batch_run (BatchHead Batch.new) start [] []) in
  batch_at R = BatchFinished (Ok tt) ∧ length (batch_sent R) = 2
  ∧ batch_accounts copy (batch_at R) (batch_received R) (batch_sent R).
Proof.
  intros R. split; [reflexivity|]. split; [reflexivity|].
  exact (proj1 (batch_node_refines_executor copy ctx inputs outputs start R
    (rounds_steps copy ctx inputs outputs consumer 8 _))).
Defined.

Lemma batch_node_finishes_witness :
  ∃ w', rounds copy ctx inputs outputs consumer 8
          (mk_batch_run (BatchHead Batch.new) start [] [])
        = mk_batch_run (BatchFinished (Ok tt)) w'
            [(ident "in", packet "m1"); (ident "in", packet "m2")]
            [(ident "out", packet "m1"); (ident "out", packet "m2")].
Proof.
  destruct (batch_node_finishes copy ctx inputs outputs consumer start)
    as (sent & rest & w' & Hsent & _ & Hend).
  - apply (bool_decide_eq_true_1 _). reflexivity.
  - intros h ->%list_elem_of_singleton. apply NoDup_singleton.
  - intros h i ->%list_elem_of_singleton ->%list_elem_of_singleton. eexists. split; reflexivity.
  - intros h ->%list_elem_of_singleton i ->%list_elem_of_singleton. eexists. reflexivity.
  - reflexivity.
  - exact consumer_makes_room.
  - change ([(ident "out", packet "m1"); (ident "out", packet "m2")] = sent ++ rest) in Hsent.
    destruct sent as [|p1 [|p2 sent]]; [| |destruct sent; [|discriminate Hsent]]; simpl in Hsent.
    + subst rest. destruct Hend as (e & He & _). discriminate He.
    + injection Hsent as <- <-. destruct Hend as (e & He & _). discriminate He.
    + injection Hsent as <- <- <-. exists w'. exact Hend.
Defined.
End examples.
