(* ===== verification/EngineRun.v ===== *)
(** [pureflow-engine], whole runs (src/crates/pureflow-engine/src/lib.rs): the
    executor registries, the run itself from its checks to its summary, and the
    public functions that start one.

    The node runs proceed while the collector waits.  A run is therefore given
    the steps it will see: before each event the collector handles (a node ends,
    a deadline elapses) the rest of the system changes the world in any way.
    What the node runs do may depend on how they were started, so the steps are
    a function of the started runs. *)

From Stdlib Require Import Lia.
From S2P Require Import Prelude RustStr BTree Types Workflow Structure Topology Cycle Validation Errors Capability Contract Json Context Message Metadata MetadataSink Channel Ports PortsSpec Traffic Wiring Engine Runtime.

(** ** Registries *)

(** [trait NodeExecutorRegistry]. *)
Class NodeExecutorRegistry (R E : Type) :=
  executor_for : R → NodeId → result E PureflowError.

Module SingleNodeExecutorRegistry.
Record SingleNodeExecutorRegistry (E : Type) : Type := new { executor : E }.
Arguments new {E} _.
Arguments executor {E} _.
End SingleNodeExecutorRegistry.
Notation SingleNodeExecutorRegistry := SingleNodeExecutorRegistry.SingleNodeExecutorRegistry.
#[export] Instance single_registry {E} : NodeExecutorRegistry (SingleNodeExecutorRegistry E) E :=
  λ r _, Ok (SingleNodeExecutorRegistry.executor r).

Definition no_executor_error (node_id : NodeId) : PureflowError :=
  PureflowError.execution
    (lit "no executor registered for workflow node `" ++ as_str node_id ++ lit "`").

Module StaticNodeExecutorRegistry.
Record StaticNodeExecutorRegistry (E : Type) : Type := new { executors : btree_map NodeId E }.
Arguments new {E} _.
Arguments executors {E} _.
Definition insert {E} (r : StaticNodeExecutorRegistry E) (node_id : NodeId) (executor : E) :
    option E * StaticNodeExecutorRegistry E :=
  (BTreeMap.get node_id (executors r), new (BTreeMap.insert node_id executor (executors r))).
End StaticNodeExecutorRegistry.
Notation StaticNodeExecutorRegistry := StaticNodeExecutorRegistry.StaticNodeExecutorRegistry.
#[export] Instance static_registry {E} : NodeExecutorRegistry (StaticNodeExecutorRegistry E) E :=
  λ r node_id,
    ok_or (BTreeMap.get node_id (StaticNodeExecutorRegistry.executors r))
      (no_executor_error node_id).

(** ** A run *)

Section run.
Context `{J : JsonNumber} `{D : DurationDebug} `{M : !Mpsc PortPacket}.

(** What a node run is started with: [run_node_with_observers] gets the node's
    start and the hook. *)
Record NodeRun (E H : Type) : Type := mk_node_run {
  run_start : NodeStart E;
  run_hook : H;
}.
Arguments mk_node_run {E H} _ _.

Section inner.
Context {S : Type} `{!MetadataSink S} {H : Type} `{!LifecycleHook H} {R E : Type}
  `{!NodeExecutorRegistry R E}.

(** What happens before an event, and the event. *)
Notation run_steps := (list ((world (S := S) → world (S := S)) * WatchdogEvent)).

(** [collect_workflow_summary]: pending when the steps end before the loop does. *)
Fixpoint collect_steps (c : WorkflowCollectionContext) (running : nat) (s : WorkflowRunSummary)
    (steps : run_steps) (w : world (S := S)) :
    Poll (result WorkflowRunSummary PureflowError) * world (S := S) :=
  match running, steps with
  | 0, _ => (Ready (Ok s), w)
  | Datatypes.S _, [] => (Pending, w)
  | Datatypes.S running', (rest_of_system, event) :: steps =>
      let w := rest_of_system w in
      match event, WorkflowRunPolicy.watchdog_policy (cc_policy c) with
      | NodeEnded r, _ =>
          let (recorded, w) := record_node_run_result c s r w in
          match recorded with
          | Err e => (Ready (Err e), w)
          | Ok s => collect_steps c running' s steps w
          end
      | DeadlineElapsed, WorkflowWatchdogPolicy.Deadlock watchdog =>
          let (r, w) := deadline_elapsed c watchdog s w in (Ready r, w)
      | WatchdogNotStarted err, WorkflowWatchdogPolicy.Deadlock _ =>
          (Ready (Err (PureflowError.execution
             (lit "failed to start workflow deadlock watchdog: " ++ err))), w)
      | _, WorkflowWatchdogPolicy.Disabled => collect_steps c running s steps w
      end
  end.

Variable runtime : CancellationHandle → list (NodeRun E H) → run_steps.

Definition run_workflow_with_registry_and_observers_summary_inner (workflow : WorkflowDefinition)
    (execution : ExecutionMetadata) (registry : R) (lifecycle_hook : H)
    (policy : WorkflowRunPolicy) (output_contracts : option WorkflowOutputContracts)
    (w : world (S := S)) :
    exec (Poll (result WorkflowRunSummary PureflowError) * world (S := S)) :=
  let! prepared := prepare_run workflow execution (executor_for registry) policy
                     output_contracts w in
  let (r, w) := prepared in
  Done (match r with
        | Err e => (Ready (Err e), w)
        | Ok (cancellation, starts) =>
            collect_steps (mk_collection cancellation workflow execution policy)
              (length (WorkflowDefinition.nodes workflow))
              (WorkflowRunSummary.new (N.of_nat (length (WorkflowDefinition.nodes workflow))))
              (runtime cancellation ((λ s, mk_node_run s lifecycle_hook) <$> starts)) w
        end).

(** ** Entry points with a registry *)

Definition run_workflow_with_registry_and_observers_summary (workflow : WorkflowDefinition)
    (execution : ExecutionMetadata) (registry : R) (lifecycle_hook : H) (w : world (S := S)) :=
  run_workflow_with_registry_and_observers_summary_inner workflow execution registry
    lifecycle_hook WorkflowRunPolicy.default None w.

Definition run_workflow_with_registry_contracts_and_observers_summary
    (workflow : WorkflowDefinition) (execution : ExecutionMetadata) (registry : R)
    (contracts : list NodeContract) (lifecycle_hook : H) (w : world (S := S)) :
    exec (Poll (result WorkflowRunSummary PureflowError) * world (S := S)) :=
  match from_node_contracts workflow contracts with
  | Err e => Done (Ready (Err e), w)
  | Ok output_contracts =>
      run_workflow_with_registry_and_observers_summary_inner workflow execution registry
        lifecycle_hook WorkflowRunPolicy.default (Some output_contracts) w
  end.

(** [summary.await?.into_result()]. *)
Definition into_run_result
    (m : exec (Poll (result WorkflowRunSummary PureflowError) * world (S := S))) :
    exec (Poll (result unit PureflowError) * world (S := S)) :=
  let! out := m in
  Done (match out.1 with
        | Pending => Pending
        | Ready r => Ready (let? s := r in WorkflowRunSummary.into_result s)
        end, out.2).

Definition run_workflow_with_registry_and_observers (workflow : WorkflowDefinition)
    (execution : ExecutionMetadata) (registry : R) (lifecycle_hook : H) (w : world (S := S)) :=
  into_run_result (run_workflow_with_registry_and_observers_summary workflow execution registry
    lifecycle_hook w).

Definition run_workflow_with_registry_contracts_and_observers (workflow : WorkflowDefinition)
    (execution : ExecutionMetadata) (registry : R) (contracts : list NodeContract)
    (lifecycle_hook : H) (w : world (S := S)) :=
  into_run_result (run_workflow_with_registry_contracts_and_observers_summary workflow execution
    registry contracts lifecycle_hook w).
End inner.

(** Without a hook of the caller's. *)
Section unhooked.
Context {S : Type} `{!MetadataSink S} {R E : Type} `{!NodeExecutorRegistry R E}.
Variable runtime : CancellationHandle → list (NodeRun E NoopLifecycleHook) →
  list ((world (S := S) → world (S := S)) * WatchdogEvent).

Definition run_workflow_with_registry_policy_and_metadata_sink_summary
    (workflow : WorkflowDefinition) (execution : ExecutionMetadata) (registry : R)
    (policy : WorkflowRunPolicy) (w : world (S := S)) :=
  run_workflow_with_registry_and_observers_summary_inner runtime workflow execution registry
    noop_hook policy None w.

Definition run_workflow_with_registry_policy_and_metadata_sink (workflow : WorkflowDefinition)
    (execution : ExecutionMetadata) (registry : R) (policy : WorkflowRunPolicy)
    (w : world (S := S)) :=
  into_run_result (run_workflow_with_registry_policy_and_metadata_sink_summary workflow execution
    registry policy w).

Definition run_workflow_with_registry_and_metadata_sink_summary (workflow : WorkflowDefinition)
    (execution : ExecutionMetadata) (registry : R) (w : world (S := S)) :=
  run_workflow_with_registry_and_observers_summary runtime workflow execution registry noop_hook w.

Definition run_workflow_with_registry_and_metadata_sink (workflow : WorkflowDefinition)
    (execution : ExecutionMetadata) (registry : R) (w : world (S := S)) :=
  into_run_result (run_workflow_with_registry_and_metadata_sink_summary workflow execution
    registry w).
End unhooked.

(** Without a sink of the caller's. *)
Section unobserved.
Context {R E : Type} `{!NodeExecutorRegistry R E}.
Notation silent_world := (world (S := NoopMetadataSink)).
Variable runtime : CancellationHandle → list (NodeRun E NoopLifecycleHook) →
  list ((silent_world → silent_world) * WatchdogEvent).

Definition run_workflow_with_registry_summary (workflow : WorkflowDefinition)
    (execution : ExecutionMetadata) (registry : R) (w : silent_world) :=
  run_workflow_with_registry_and_observers_summary runtime workflow execution registry noop_hook w.

Definition run_workflow_with_registry (workflow : WorkflowDefinition)
    (execution : ExecutionMetadata) (registry : R) (w : silent_world) :=
  into_run_result (run_workflow_with_registry_summary workflow execution registry w).

Definition run_workflow_with_registry_policy_summary (workflow : WorkflowDefinition)
    (execution : ExecutionMetadata) (registry : R) (policy : WorkflowRunPolicy)
    (w : silent_world) :=
  run_workflow_with_registry_and_observers_summary_inner runtime workflow execution registry
    noop_hook policy None w.

Definition run_workflow_with_registry_policy (workflow : WorkflowDefinition)
    (execution : ExecutionMetadata) (registry : R) (policy : WorkflowRunPolicy)
    (w : silent_world) :=
  into_run_result (run_workflow_with_registry_policy_summary workflow execution registry policy w).

Definition run_workflow_with_registry_contracts_summary (workflow : WorkflowDefinition)
    (execution : ExecutionMetadata) (registry : R) (contracts : list NodeContract)
    (w : silent_world) :=
  run_workflow_with_registry_contracts_and_observers_summary runtime workflow execution registry
    contracts noop_hook w.

Definition run_workflow_with_registry_contracts (workflow : WorkflowDefinition)
    (execution : ExecutionMetadata) (registry : R) (contracts : list NodeContract)
    (w : silent_world) :=
  into_run_result (run_workflow_with_registry_contracts_summary workflow execution registry
    contracts w).
End unobserved.

(** ** Entry points with one executor *)

Section single.
Context {E : Type}.
Notation single := SingleNodeExecutorRegistry.new.

Section observed.
Context {S : Type} `{!MetadataSink S} {H : Type} `{!LifecycleHook H}.
Variable runtime : CancellationHandle → list (NodeRun E H) →
  list ((world (S := S) → world (S := S)) * WatchdogEvent).

Definition run_workflow_with_observers_summary (workflow : WorkflowDefinition)
    (execution : ExecutionMetadata) (executor : E) (lifecycle_hook : H) (w : world (S := S)) :=
  run_workflow_with_registry_and_observers_summary runtime workflow execution (single executor)
    lifecycle_hook w.

Definition run_workflow_with_observers (workflow : WorkflowDefinition)
    (execution : ExecutionMetadata) (executor : E) (lifecycle_hook : H) (w : world (S := S)) :=
  run_workflow_with_registry_and_observers runtime workflow execution (single executor)
    lifecycle_hook w.
End observed.

Section recorded.
Context {S : Type} `{!MetadataSink S}.
Variable runtime : CancellationHandle → list (NodeRun E NoopLifecycleHook) →
  list ((world (S := S) → world (S := S)) * WatchdogEvent).

Definition run_workflow_with_metadata_sink_summary (workflow : WorkflowDefinition)
    (execution : ExecutionMetadata) (executor : E) (w : world (S := S)) :=
  run_workflow_with_registry_and_metadata_sink_summary runtime workflow execution
    (single executor) w.

Definition run_workflow_with_metadata_sink (workflow : WorkflowDefinition)
    (execution : ExecutionMetadata) (executor : E) (w : world (S := S)) :=
  run_workflow_with_registry_and_metadata_sink runtime workflow execution (single executor) w.
End recorded.

Notation silent_world := (world (S := NoopMetadataSink)).
Variable runtime : CancellationHandle → list (NodeRun E NoopLifecycleHook) →
  list ((silent_world → silent_world) * WatchdogEvent).

Definition run_workflow_summary (workflow : WorkflowDefinition) (execution : ExecutionMetadata)
    (executor : E) (w : silent_world) :=
  run_workflow_with_registry_summary runtime workflow execution (single executor) w.

Definition run_workflow (workflow : WorkflowDefinition) (execution : ExecutionMetadata)
    (executor : E) (w : silent_world) :=
  run_workflow_with_registry runtime workflow execution (single executor) w.

Definition run_workflow_with_policy_summary (workflow : WorkflowDefinition)
    (execution : ExecutionMetadata) (executor : E) (policy : WorkflowRunPolicy)
    (w : silent_world) :=
  run_workflow_with_registry_policy_summary runtime workflow execution (single executor) policy w.

Definition run_workflow_with_policy (workflow : WorkflowDefinition)
    (execution : ExecutionMetadata) (executor : E) (policy : WorkflowRunPolicy)
    (w : silent_world) :=
  run_workflow_with_registry_policy runtime workflow execution (single executor) policy w.

Definition run_workflow_with_contracts_summary (workflow : WorkflowDefinition)
    (execution : ExecutionMetadata) (executor : E) (contracts : list NodeContract)
    (w : silent_world) :=
  run_workflow_with_registry_contracts_summary runtime workflow execution (single executor)
    contracts w.

Definition run_workflow_with_contracts (workflow : WorkflowDefinition)
    (execution : ExecutionMetadata) (executor : E) (contracts : list NodeContract)
    (w : silent_world) :=
  run_workflow_with_registry_contracts runtime workflow execution (single executor) contracts w.
End single.
End run.

(** ** Lemmas *)

Section lemmas.
Context `{J : JsonNumber} `{D : DurationDebug} `{M : !Mpsc PortPacket}
  {S : Type} `{!MetadataSink S}.
Context (sink_accepts : ∀ sig (s : S) r, (sink_record sig s r).1 = Ok tt).

(** What the rest of the system did to the world does not reach the summary. *)
Lemma record_result_summary c scheduled done r (w : world (S := S)) :
  (N.of_nat (length done) + 1 ≤ USIZE_MAX)%N →
  (record_node_run_result c (summary_of scheduled done) r w).1
  = Ok (summary_of scheduled (done ++ [r])).
Proof.
  intros Hn. unfold record_node_run_result. destruct r as [[]|err].
  - by rewrite record_success_summary.
  - simpl. destruct (head (errors_of done)) as [e|].
    + simpl. by rewrite record_error_summary.
    + unfold record_first_workflow_error.
      destruct (fail_workflow_ok sink_accepts c err (ErrorMetadataRecord.workflow_failed
        (WorkflowDefinition.id (cc_workflow c)) (cc_execution c) err) w) as (H1 & _ & _).
      destruct (fail_workflow _ _ _ w) as [recorded w1]. simpl in *. subst recorded. simpl.
      by rewrite record_error_summary.
Qed.

Lemma collect_steps_results c scheduled (steps : list ((world (S := S) → world (S := S)) * WatchdogEvent)) :
  ∀ results done w, steps.*2 = NodeEnded <$> results →
  (N.of_nat (length (done ++ results)) ≤ USIZE_MAX)%N →
  (collect_steps c (length results) (summary_of scheduled done) steps w).1
  = Ready (Ok (summary_of scheduled (done ++ results))).
Proof.
  induction steps as [|[env event] steps IH]; intros [|r results] done w Heq Hn; try discriminate Heq.
  - simpl. by rewrite app_nil_r.
  - rewrite !fmap_cons in Heq. cbn [snd] in Heq. injection Heq as -> Hrest. simpl length in *.
    rewrite length_app in Hn. simpl in Hn. cbn [collect_steps].
    pose proof (record_result_summary c scheduled done r (env w) ltac:(lia)) as Hr.
    destruct (record_node_run_result _ _ _ (env w)) as [recorded w1]. simpl in Hr. subst recorded.
    destruct (WorkflowRunPolicy.watchdog_policy (cc_policy c));
      (rewrite IH; [by rewrite <- app_assoc|done|rewrite !length_app; simpl; lia]).
Qed.

(** Without interference this is the collection of Engine.v. *)
Lemma collect_steps_still c watchdog events : ∀ running s (w : world (S := S)),
  WorkflowRunPolicy.watchdog_policy (cc_policy c) = WorkflowWatchdogPolicy.Deadlock watchdog →
  collect_steps c running s ((λ e, (λ w, w, e)) <$> events) w
  = collect_with_watchdog c watchdog running s events w.
Proof.
  induction events as [|e events IH]; intros [|running] s w Hw; try done.
  rewrite fmap_cons. cbn [collect_steps collect_with_watchdog].
  destruct e as [r| |err]; rewrite ?Hw; [|done|done].
  destruct (record_node_run_result c s r w) as [[s'|e] w1]; [by apply IH|done].
Qed.

(** Node starts are made in declaration order, until an executor is missing. *)
Lemma schedule_nodes_outcome {E} (workflow : WorkflowDefinition) execution
    (executor_for : NodeId → result E PureflowError) cancellation nodes wiring (w : world (S := S)) :
  match try_collect (λ node, executor_for (NodeDefinition.id node)) nodes with
  | Ok executors => ∃ starts w', schedule_nodes workflow execution executor_for cancellation None
      nodes wiring w = (Ok starts, w') ∧ start_executor <$> starts = executors
  | Err e => ∃ w', schedule_nodes workflow execution executor_for cancellation None nodes wiring w
      = (Err e, w')
  end.
Proof.
  revert wiring w. induction nodes as [|node nodes IH]; intros wiring w; simpl; [by exists [], w|].
  destruct (executor_for (NodeDefinition.id node)) as [x|e]; simpl; [|by eexists].
  match goal with |- context [schedule_nodes _ _ _ _ _ nodes ?wi ?w0] =>
    specialize (IH wi w0); destruct (schedule_nodes _ _ _ _ _ nodes wi w0) as [r w1] end.
  destruct (try_collect _ nodes) as [executors|e]; simpl.
  - destruct IH as (starts & w' & Heq & <-). simplify_eq. simpl. by eexists _, w'.
  - destruct IH as (w' & ?). simplify_eq. simpl. by exists w'.
Qed.

(** A run that the policy accepts and for which no contracts are checked. *)
Lemma prepare_run_outcome {E} (workflow : WorkflowDefinition) execution
    (executor_for : NodeId → result E PureflowError) policy (w : world (S := S)) :
  validate_workflow_run_policy workflow policy = Done (Ok tt) →
  match try_collect (λ node, executor_for (NodeDefinition.id node))
          (WorkflowDefinition.nodes workflow) with
  | Ok executors => ∃ cancellation starts w',
      prepare_run workflow execution executor_for policy None w
      = Done (Ok (cancellation, starts), w') ∧ start_executor <$> starts = executors
  | Err e => ∃ w', prepare_run workflow execution executor_for policy None w = Done (Err e, w')
  end.
Proof.
  intros Hp. unfold prepare_run. rewrite Hp. simpl. destruct (build_port_wiring workflow w) as [wi w0].
  match goal with |- context [schedule_nodes _ _ _ ?c _ ?nodes wi ?w0] =>
    pose proof (schedule_nodes_outcome workflow execution executor_for c nodes wi w0) as Hs end.
  destruct (try_collect _ _) as [executors|e].
  - destruct Hs as (starts & w' & -> & <-). simpl. eauto.
  - destruct Hs as (w' & ->). simpl. eauto.
Qed.

(** Workflows the default policy accepts. *)
Lemma default_policy_accepts workflow :
  structurally_valid (WorkflowDefinition.nodes workflow) (WorkflowDefinition.edges workflow) →
  acyclic (arcs (WorkflowDefinition.edges workflow)) →
  NoDup (arcs (WorkflowDefinition.edges workflow)) →
  validate_workflow_run_policy workflow WorkflowRunPolicy.default = Done (Ok tt).
Proof.
  intros Hv Ha Hn. unfold validate_workflow_run_policy, WorkflowGraph.topological_order.
  pose proof (from_graph_spec (WorkflowDefinition.nodes workflow)
    (WorkflowDefinition.edges workflow)) as Hs.
  apply (structural_check_ok _ _ tt) in Hv. rewrite Hv in Hs. destruct Hs as (t & Hf & _).
  unfold WorkflowDefinition.nodes, WorkflowDefinition.edges in *. rewrite Hf.
  destruct (topological_order_outcome _ _ t Hf) as [(o & -> & _)|(cyc & -> & Hc)]; simpl; [done|].
  destruct Hc as [Hc|[_ Hc]]; [by apply closed_walk_not_acyclic in Hc|done].
Qed.

Lemma try_collect_const {A B Er} (x : B) (l : list A) :
  try_collect (λ _, Ok x : result B Er) l = Ok (const x <$> l).
Proof. induction l as [|a l IH]; simpl; [done|]. by rewrite IH. Qed.
End lemmas.

(** ** Properties *)

Section properties.
Context `{J : JsonNumber} `{D : DurationDebug} `{M : !Mpsc PortPacket}.

(** C11. [run_workflow] on a valid workflow whose nodes all end, in any order and
    whatever the node runs do to the system meanwhile: the run completes, and
    returns [Ok] when every node did and otherwise the error of the node that
    failed first. *)
Theorem run_workflow_outcome {E : Type}
  (runtime : CancellationHandle → list (NodeRun E NoopLifecycleHook) →
     list ((world (S := NoopMetadataSink) → world (S := NoopMetadataSink)) * WatchdogEvent))
  (workflow : WorkflowDefinition) (execution : ExecutionMetadata) (executor : E)
  (w : world (S := NoopMetadataSink)) (results : list (result unit PureflowError))
  (Hvalid : structurally_valid (WorkflowDefinition.nodes workflow)
              (WorkflowDefinition.edges workflow))
  (Hacyclic : acyclic (arcs (WorkflowDefinition.edges workflow)))
  (Hsimple : NoDup (arcs (WorkflowDefinition.edges workflow)))
  (Hended : length results = length (WorkflowDefinition.nodes workflow))
  (Hsteps : ∀ c runs, (runtime c runs).*2 = NodeEnded <$> results)
  (Hfits : (N.of_nat (length results) ≤ USIZE_MAX)%N) :
  ∃ w', run_workflow runtime workflow execution executor w
        = Done (Ready (match head (errors_of results) with
                       | Some e => Err e
                       | None => Ok tt
                       end), w').
Proof.
  unfold run_workflow, run_workflow_with_registry, run_workflow_with_registry_summary,
    run_workflow_with_registry_and_observers_summary,
    run_workflow_with_registry_and_observers_summary_inner.
  pose proof (prepare_run_outcome workflow execution
    (executor_for (SingleNodeExecutorRegistry.new executor)) WorkflowRunPolicy.default w
    (default_policy_accepts workflow Hvalid Hacyclic Hsimple)) as Hp.
  unfold executor_for, single_registry in Hp. rewrite try_collect_const in Hp.
  destruct Hp as (c & starts & w1 & Hp & _). unfold executor_for, single_registry. rewrite Hp. simpl.
  change (WorkflowRunSummary.new ?n) with (summary_of n []). rewrite <- Hended.
  pose proof (collect_steps_results (S := NoopMetadataSink) (λ _ _ _, eq_refl)
    (mk_collection c workflow execution WorkflowRunPolicy.default) (N.of_nat (length results))
    (runtime c ((λ s, mk_node_run E NoopLifecycleHook s noop_hook) <$> starts)) results [] w1
    (Hsteps _ _) Hfits) as Hc.
  destruct (collect_steps _ _ _ _ w1) as [r w2]. simpl in *. subst r. by eexists.
Qed.

(** A run through a static registry that lacks an executor for some node is
    refused before any node run starts, with an error that names the first such
    node in declaration order; it does not matter what the runtime would do. *)
Theorem missing_executor_refused {E : Type}
  (runtime : CancellationHandle → list (NodeRun E NoopLifecycleHook) →
     list ((world (S := NoopMetadataSink) → world (S := NoopMetadataSink)) * WatchdogEvent))
  (workflow : WorkflowDefinition) (execution : ExecutionMetadata)
  (registry : StaticNodeExecutorRegistry E) (policy : WorkflowRunPolicy)
  (w : world (S := NoopMetadataSink)) (before after : list NodeDefinition) (node : NodeDefinition)
  (Hpolicy : validate_workflow_run_policy workflow policy = Done (Ok tt))
  (Hnodes : WorkflowDefinition.nodes workflow = before ++ node :: after)
  (Hbefore : ∀ n, n ∈ before →
     is_Some (BTreeMap.get (NodeDefinition.id n) (StaticNodeExecutorRegistry.executors registry)))
  (Hmissing : BTreeMap.get (NodeDefinition.id node)
                (StaticNodeExecutorRegistry.executors registry) = None) :
  ∃ w', run_workflow_with_registry_policy runtime workflow execution registry policy w
        = Done (Ready (Err (no_executor_error (NodeDefinition.id node))), w').
Proof.
  unfold run_workflow_with_registry_policy, run_workflow_with_registry_policy_summary,
    run_workflow_with_registry_and_observers_summary_inner.
  pose proof (prepare_run_outcome workflow execution (executor_for registry) policy w Hpolicy) as Hp.
  assert (Herr : try_collect (λ n, executor_for registry (NodeDefinition.id n))
    (WorkflowDefinition.nodes workflow) = Err (no_executor_error (NodeDefinition.id node))).
  { apply try_collect_err. exists before, node, after. split; [done|].
    unfold executor_for, static_registry. rewrite Hmissing. split; [|done].
    apply Forall_forall. intros n Hn. destruct (Hbefore n Hn) as [x ->]. done. }
  rewrite Herr in Hp. destruct Hp as (w1 & ->). simpl. by eexists.
Qed.
End properties.

(** ** Examples *)

Section examples.
#[local] Instance no_duration_text : DurationDebug := λ _, lit "1s".
Let wf : WorkflowDefinition :=
  WorkflowDefinition.new (ident "flow") (WorkflowGraph.mk diamond_nodes diamond_edges).
Let failed : result unit PureflowError := Err (PureflowError.execution (lit "boom")).
Let results : list (result unit PureflowError) := [Ok tt; failed; Ok tt; Ok tt].
Let start : world (S := NoopMetadataSink) := mk_world [] noop_sink [].
(** Nodes that drop every channel while they run. *)
Let runtime (_ : CancellationHandle) (_ : list (NodeRun unit NoopLifecycleHook)) :
    list ((world (S := NoopMetadataSink) → world (S := NoopMetadataSink)) * WatchdogEvent) :=
  (λ r, (λ w, mk_world [] (w_sink w) (w_signals w), NodeEnded r)) <$> results.

Lemma run_workflow_outcome_witness :
  ∃ w', run_workflow runtime wf (ExecutionMetadata.first_attempt (ident "run-1")) tt start
        = Done (Ready failed, w').
Proof.
  assert (Hg : WorkflowGraph.new diamond_nodes diamond_edges
    = Done (Ok (WorkflowGraph.mk diamond_nodes diamond_edges))) by (vm_compute; reflexivity).
  destruct (graph_new_outcome diamond_nodes diamond_edges) as [(_ & Hv & Ha & Hn)|(e & He & _)];
    [|rewrite Hg in He; discriminate He].
  apply (run_workflow_outcome runtime wf _ tt start results Hv Ha Hn eq_refl);
    [reflexivity|discriminate].
Defined.

Lemma missing_executor_refused_witness :
  let registry := StaticNodeExecutorRegistry.new
                    [(ident "left" : NodeId, tt); (ident "sink" : NodeId, tt)] in
  ∃ w', run_workflow_with_registry_policy runtime wf
          (ExecutionMetadata.first_attempt (ident "run-1")) registry WorkflowRunPolicy.default start
        = Done (Ready (Err (no_executor_error (ident "right"))), w').
Proof.
  intros registry.
  apply (missing_executor_refused runtime wf _ registry WorkflowRunPolicy.default start
    (take 2 diamond_nodes) (drop 3 diamond_nodes)
    (NodeDefinition.mk (ident "right") [ident "in"] [ident "out"])).
  - vm_compute. reflexivity.
  - reflexivity.
  - apply Forall_forall. apply Forall_cons_2; [eexists; reflexivity|].
    apply Forall_cons_2; [eexists; reflexivity|apply Forall_nil_2].
  - reflexivity.
Defined.
End examples.
