(* ===== verification/NodeSystem.v ===== *)
(** All the node futures of a run together
    (src/crates/pureflow-engine/src/lib.rs, the futures of a run;
    src/crates/pureflow-runtime/src/lib.rs, [run_node_with_observers]).

    The engine polls one future per node: the run of the node under its observers
    (Runtime.v), around the node's own future, of which [NodeFuture] is the interface.
    A task is such a future and a turn of it one poll, or a part of one; a schedule is
    the order in which the tasks take their turns.  The ports belong to the node's own
    future and are dropped when it returns, which is how its neighbours learn that it
    has.  The collector ([collect_workflow_summary_until_complete]) takes the result of
    each task as it ends, and cancels the run at the first error. *)

From Stdlib Require Import Lia.
From stdpp Require Import functions.
From S2P Require Import Prelude RustStr BTree Types Workflow Errors Json Context Message Metadata MetadataSink Channel Ports PortsSpec Wiring Engine Runtime.

(** ** Tasks *)

Section tasks.
Context `{J : JsonNumber}.

Inductive task_state (St : Type) : Type :=
| TaskSpawned
| TaskRunning (st : St)
| TaskEnded (r : result unit PureflowError).

(** A task, with the packets its node has received and sent so far. *)
Record node_task (St : Type) : Type := mk_task {
  task_at : task_state St;
  task_received : list (PortId * PortPacket);
  task_sent : list (PortId * PortPacket);
}.

(** The ports the node's future owns. *)
Definition task_inputs {E} (s : NodeStart E) : PortsIn :=
  ports_in_with_node_context (start_context s) (ports_in_with_metadata_sink (start_inputs s)).
Definition task_outputs {E} (s : NodeStart E) : PortsOut :=
  ports_out_with_node_context (start_context s) (ports_out_with_metadata_sink (start_outputs s)).

End tasks.

Arguments TaskSpawned {St}.
Arguments TaskRunning {St} _.
Arguments TaskEnded {St} _.
Arguments node_task {J} St.
Arguments mk_task {J St} _ _ _.
Arguments task_at {J St} _.
Arguments task_received {J St} _.
Arguments task_sent {J St} _.

Section system.
Context `{J : JsonNumber} {S : Type} `{!MetadataSink S} `{M : !Mpsc PortPacket}
  `{!MpscDrop PortPacket}.
Implicit Types w : world (S := S).

(** The future of [NodeExecutor::run]: the state it is created with, a turn of it,
    and its result once it has returned; with the packets a turn takes from the input
    ports and hands to the output ports. *)
Class NodeFuture (E St : Type) : Type := {
  node_begin : E → NodeContext → St;
  node_turn : E → NodeContext → PortsIn → PortsOut → bool → St → world (S := S) →
    St * world (S := S);
  node_result : St → option (result unit PureflowError);
  node_received : NodeContext → PortsIn → bool → St → world (S := S) →
    list (PortId * PortPacket);
  node_sent : NodeContext → PortsOut → St → world (S := S) → list (PortId * PortPacket);
}.

(** ** Dropping ports *)

(** Every sender of the output ports and every receiver of the input ports goes. *)
Definition drop_outputs (outputs : PortsOut) w : world (S := S) :=
  foldl (λ w i, chan_do sender_drop i w) w (out_ports outputs ≫= senders).
Definition drop_inputs (inputs : PortsIn) w : world (S := S) :=
  foldl (λ w i, chan_do receiver_drop i w) w (in_ports inputs ≫= receivers).
Definition drop_ports (inputs : PortsIn) (outputs : PortsOut) w : world (S := S) :=
  drop_inputs inputs (drop_outputs outputs w).

Context {E St : Type} `{!NodeFuture E St}.
Notation start := (NodeStart E).

(** ** Turns *)

(** The node has returned: its ports are gone, and the end is observed. *)
Definition end_task (s : start) (r : result unit PureflowError) w : task_state St * world (S := S) :=
  let w := drop_ports (task_inputs s) (task_outputs s) w in
  let '(r, (_, w)) := finish_node (start_context s) r (noop_hook, w) in
  (TaskEnded r, w).

Definition settle (s : start) (st : St) w : task_state St * world (S := S) :=
  match node_result st with
  | Some r => end_task s r w
  | None => (TaskRunning st, w)
  end.

(** The start of [run_node_with_observers], when the task is first polled. *)
Definition begin_task (s : start) w : task_state St * world (S := S) :=
  let '(begun, (_, w)) :=
    begin_node (start_context s) (start_inputs s) (start_outputs s) (noop_hook, w) in
  match begun with
  | Err e => (TaskEnded (Err e), drop_ports (start_inputs s) (start_outputs s) w)
  | Ok _ => settle s (node_begin (start_executor s) (start_context s)) w
  end.

Definition task_turn (s : start) (t : node_task St) w : node_task St * world (S := S) :=
  let '(mk_task st rcv snt) := t in
  match st with
  | TaskSpawned => let (st, w) := begin_task s w in (mk_task st rcv snt, w)
  | TaskRunning st =>
      let ctx := start_context s in
      let (st', w') := node_turn (start_executor s) ctx (task_inputs s) (task_outputs s) false st w in
      let rcv := rcv ++ node_received ctx (task_inputs s) false st w in
      let snt := snt ++ node_sent ctx (task_outputs s) st w in
      let (st', w') := settle s st' w' in (mk_task st' rcv snt, w')
  | TaskEnded _ => (t, w)
  end.

(** ** The system *)

Record run_system : Type := mk_system {
  sys_tasks : NodeId → node_task St;
  sys_world : world (S := S);
}.

Definition spawned w : run_system := mk_system (λ _, mk_task TaskSpawned [] []) w.

(** A turn of the task of a node; an identifier that no node has is ignored. *)
Definition system_turn (starts : list start) (R : run_system) (n : NodeId) : run_system :=
  match iter_find (λ s, bool_decide (start_node_id s = n)) starts with
  | None => R
  | Some s =>
      let (t, w) := task_turn s (sys_tasks R n) (sys_world R) in
      mk_system (<[n := t]> (sys_tasks R)) w
  end.

Definition run_schedule (starts : list start) (schedule : list NodeId) (R : run_system) :
    run_system :=
  foldl (system_turn starts) R schedule.

(** ** The collector *)

Definition task_ended (t : node_task St) : bool :=
  match task_at t with TaskEnded _ => true | _ => false end.

(** A run under its collector: the results it has been given, in order, and the
    summary it has made of them, or the error the collection ended with. *)
Record collected_run : Type := mk_collected {
  col_system : run_system;
  col_results : list (NodeId * result unit PureflowError);
  col_summary : result WorkflowRunSummary PureflowError;
}.

Definition collection_start (scheduled : nat) w : collected_run :=
  mk_collected (spawned w) [] (Ok (WorkflowRunSummary.new (N.of_nat scheduled))).

(** [collect_workflow_summary_until_complete]: a turn of the task of a node; when it
    ends, [FuturesUnordered] gives its result to the collector before it polls
    anything else. *)
Definition collected_turn (c : WorkflowCollectionContext) (starts : list start)
    (C : collected_run) (n : NodeId) : collected_run :=
  let '(mk_collected R results summary) := C in
  match summary with
  | Err _ => C
  | Ok s =>
      if task_ended (sys_tasks R n) then C
      else
        let R := system_turn starts R n in
        match task_at (sys_tasks R n) with
        | TaskEnded r =>
            let (recorded, w) := record_node_run_result c s r (sys_world R) in
            mk_collected (mk_system (sys_tasks R) w) (results ++ [(n, r)]) recorded
        | _ => mk_collected R results (Ok s)
        end
  end.

Definition run_collected (c : WorkflowCollectionContext) (starts : list start)
    (schedule : list NodeId) (C : collected_run) : collected_run :=
  foldl (collected_turn c starts) C schedule.
End system.

Arguments NodeFuture {J S M} E St.
Arguments run_system {J S M} St.
Arguments collected_run {J S M} St.
