(* ===== verification/OneShot.v ===== *)
(** Nodes that send at most one packet on each of their output ports.

    [OneShot] is what such a node promises of its turns, against ports that are wired
    and an active token: it takes packets from ports it has not seen end, it sends on
    ports it still owes a packet, it waits only for a packet, and its turns are
    numbered by a weight.  [run_inv] is what holds of a run of such nodes between any
    two turns: an edge carries at most the packet its source owes it, a node has
    received what was sent to it and is no longer on its way, and an input port has
    ended only when everything upstream of it has.  The steps of NodeSystem.v keep it. *)

From Stdlib Require Import Lia.
From stdpp Require Import functions.
From S2P Require Import Prelude RustStr BTree Types Workflow Structure Topology Errors Json Context Message Metadata MetadataSink Channel Ports PortsSpec Traffic Wiring Engine Runtime EngineRun NodeSystem.

Notation unchanged := (changes (λ v, v) []).

(** ** Sums and flattened lists *)

Lemma sum_list_with_ext {A} (f g : A → nat) l :
  (∀ x, x ∈ l → f x = g x) → sum_list_with f l = sum_list_with g l.
Proof.
  intros H. induction l as [|x l IH]; simpl; [done|].
  rewrite (H x), IH; [done|set_solver|set_solver].
Qed.

Lemma sum_list_with_one {A} (f g : A → nat) l x :
  NoDup l → x ∈ l → (∀ y, y ∈ l → y ≠ x → f y = g y) →
  sum_list_with f l + g x = sum_list_with g l + f x.
Proof.
  intros Hnd Hx H. apply list_elem_of_split in Hx as (l1 & l2 & ->).
  apply NoDup_app in Hnd as (_ & Hd & [Hx Hnd]%NoDup_cons).
  rewrite !sum_list_with_app. simpl.
  rewrite (sum_list_with_ext f g l1), (sum_list_with_ext f g l2); [lia| |];
    intros z Hz; apply H; [set_solver|by intros ->|set_solver|].
  intros ->. apply (Hd x Hz). by left.
Qed.

Lemma sum_list_with_zero {A} (f : A → nat) l :
  (∀ x, x ∈ l → f x = 0) → sum_list_with f l = 0.
Proof.
  intros H. induction l as [|x l IH]; simpl; [done|]. rewrite (H x), IH; set_solver.
Qed.

Lemma sum_list_with_const {A} (f : A → nat) l :
  (∀ x, x ∈ l → f x = 1) → sum_list_with f l = length l.
Proof.
  intros H. induction l as [|x l IH]; simpl; [done|]. rewrite (H x), IH; set_solver.
Qed.

Lemma sum_list_with_le {A} (f g : A → nat) l :
  (∀ x, x ∈ l → f x ≤ g x) → sum_list_with f l ≤ sum_list_with g l.
Proof.
  intros H. induction l as [|x l IH]; simpl; [done|].
  pose proof (H x ltac:(set_solver)). specialize (IH ltac:(set_solver)). lia.
Qed.

Lemma sum_list_with_bound {A} (f : A → nat) l :
  (∀ x, x ∈ l → f x ≤ 1) → sum_list_with f l ≤ length l.
Proof.
  intros H. induction l as [|x l IH]; simpl; [done|].
  pose proof (H x ltac:(set_solver)). specialize (IH ltac:(set_solver)). lia.
Qed.

Lemma NoDup_fmap_same {A B} (f : A → B) (l : list A) x y :
  NoDup (f <$> l) → x ∈ l → y ∈ l → f x = f y → x = y.
Proof.
  intros Hnd [i Hi]%list_elem_of_lookup [j Hj]%list_elem_of_lookup Heq.
  assert (i = j) as ->; [|congruence].
  eapply (NoDup_lookup _ i j (f x) Hnd); rewrite list_lookup_fmap, ?Hi, ?Hj; simpl; congruence.
Qed.

Lemma bind_ext_in {A B} (f g : A → list B) l :
  (∀ x, x ∈ l → f x = g x) → (l ≫= f) = (l ≫= g).
Proof.
  intros H. induction l as [|x l IH]; [done|]. rewrite !bind_cons, (H x), IH; [done| |];
    set_solver.
Qed.

Lemma bind_nil_in {A B} (f : A → list B) l : (∀ x, x ∈ l → f x = []) → (l ≫= f) = [].
Proof.
  intros H. induction l as [|x l IH]; [done|]. rewrite bind_cons, (H x), IH; [done| |]; set_solver.
Qed.

Lemma bind_app_perm {A B} (f g : A → list B) l :
  (l ≫= λ x, f x ++ g x) ≡ₚ (l ≫= f) ++ (l ≫= g).
Proof.
  induction l as [|x l IH]; [done|]. rewrite !bind_cons, IH, <- !app_assoc. f_equiv.
  rewrite !app_assoc. f_equiv. apply Permutation_app_comm.
Qed.

Lemma bind_single_in {A B} (f : A → list B) l x :
  NoDup l → x ∈ l → (∀ y, y ∈ l → y ≠ x → f y = []) → (l ≫= f) = f x.
Proof.
  intros Hnd Hx H. apply list_elem_of_split in Hx as (l1 & l2 & ->).
  apply NoDup_app in Hnd as (_ & Hd & [Hx Hnd]%NoDup_cons).
  rewrite bind_app, bind_cons, (bind_nil_in f l1), (bind_nil_in f l2); [by rewrite app_nil_r| |];
    intros z Hz; apply H; [set_solver|by intros ->|set_solver|].
  intros ->. apply (Hd x Hz). by left.
Qed.

(** ** The interface *)

Section interface.
Context `{J : JsonNumber} {S : Type} `{!MetadataSink S} `{M : !Mpsc PortPacket}.
Implicit Types w : world (S := S).

(** The channels an input port reads. *)
Definition reads (inputs : PortsIn) (p : PortId) (j : nat) : Prop :=
  ∃ h, find_input inputs p = Some h ∧ j ∈ receivers h.

Lemma first_ready_packet w l i x :
  first_ready w l = Some (i, x) →
  i ∈ l ∧ ∃ v q, chan_at w i = Some v ∧ cv_queue v = x :: q.
Proof.
  induction l as [|j l IH]; simpl; [done|]. intros Hf.
  assert (Hrest : first_ready w l = Some (i, x) →
    i ∈ j :: l ∧ ∃ v q, chan_at w i = Some v ∧ cv_queue v = x :: q).
  { intros [Hi Hv]%IH. split; [by right|done]. }
  destruct (chan_at w j) as [v|] eqn:Hv; [|by apply Hrest].
  destruct (cv_queue v) as [|y q] eqn:Hq; [by apply Hrest|]. simplify_eq. split; [by left|eauto].
Qed.

Lemma first_ready_port_none w ports h :
  first_ready_port w ports = None → h ∈ ports → first_ready w (receivers h) = None.
Proof.
  induction ports as [|h' ports IH]; simpl; [set_solver|].
  destruct (first_ready w (receivers h')) as [[i y]|] eqn:Hf; [done|].
  intros Hn [->|Hh]%elem_of_cons; [done|by apply IH].
Qed.

(** Nothing is queued and not every sender is gone: some channel has to be waited for. *)
Lemma not_ready_waits w l :
  in_store w l → first_ready w l = None → ¬ Forall (drained w) l →
  ∃ j v, j ∈ l ∧ chan_at w j = Some v ∧ cv_queue v = [] ∧ cv_senders v = true.
Proof.
  induction l as [|j l IH]; intros Hin Hf Hd; [destruct Hd; constructor|].
  destruct (proj2 (chan_at_is_some w j) (Hin j ltac:(by left))) as [v Hv].
  simpl in Hf. rewrite Hv in Hf. destruct (cv_queue v) eqn:Hq; [|done].
  destruct (cv_senders v) eqn:Hs; [exists j, v; split_and!; try done; by left|].
  destruct IH as (i & u & Hi & Hu); [intros k Hk; apply Hin; by right|done| |].
  - intros Hall. apply Hd. constructor; [|done]. unfold drained. by rewrite Hv.
  - exists i, u. split; [by right|done].
Qed.

(** What a node may rely on during a turn: [owes] says on which ports it still owes a
    packet, and of the packets [due] to it in the run it has [received] some. *)
Record node_ready (ctx : NodeContext) (ins outs : list PortId) (inputs : PortsIn)
    (outputs : PortsOut) (owes : PortId → nat) (received due : nat) w : Prop := {
  nr_active : CancellationToken.is_cancelled (w_signals w) (NodeContext.cancellation_token ctx)
              = false;
  nr_inputs : ∀ p, p ∈ ins → ∃ h, find_input inputs p = Some h;
  nr_handles : ∀ h, h ∈ in_ports inputs →
    in_port_id h ∈ ins ∧ find_input inputs (in_port_id h) = Some h ∧ in_store w (receivers h);
  nr_outputs : ∀ p, p ∈ outs → owes p = 1 → ∃ h, find_output outputs p = Some h
    ∧ NoDup (senders h) ∧ in_store w (senders h) ∧ first_refusal w (senders h) = None;
  nr_validator : out_validator outputs = None;
  nr_due : ∀ p j v x q, p ∈ ins → reads inputs p j → chan_at w j = Some v → cv_queue v = x :: q →
    received < due;
}.

(** What a turn does: it changes no channel, it takes a packet, it sends one, or it
    waits. *)
Inductive one_turn {St : Type} (outs : list PortId) (inputs : PortsIn) (outputs : PortsOut)
    (pending : St → list PortId) (owed : St → PortId → nat) (weight : St → nat) (st : St) w :
    St → world (S := S) → list (PortId * PortPacket) → list (PortId * PortPacket) → Prop :=
| turn_quiet st' w' :
    unchanged w w' →
    (∀ p, p ∈ pending st' → p ∈ pending st) →
    (∀ p j, p ∈ pending st → p ∉ pending st' → reads inputs p j → drained w j) →
    (∀ p, p ∈ outs → owed st' p ≤ owed st p) →
    weight st' < weight st →
    one_turn outs inputs outputs pending owed weight st w st' w' [] []
| turn_receive st' w' p j v x q :
    p ∈ pending st → reads inputs p j → chan_at w j = Some v → cv_queue v = x :: q →
    changes after_recv [j] w w' →
    (∀ p, p ∈ pending st' ↔ p ∈ pending st) →
    (∀ p, p ∈ outs → owed st' p ≤ owed st p) →
    weight st' ≤ weight st + 1 →
    one_turn outs inputs outputs pending owed weight st w st' w' [(p, x)] []
| turn_send st' w' p h x :
    p ∈ outs → find_output outputs p = Some h →
    changes (λ v, with_queue (cv_queue v ++ [x]) v) (senders h) w w' →
    owed st p = 1 → owed st' p = 0 →
    (∀ p, p ∈ pending st' ↔ p ∈ pending st) →
    (∀ p, p ∈ outs → owed st' p ≤ owed st p) →
    weight st' < weight st →
    one_turn outs inputs outputs pending owed weight st w st' w' [] [(p, x)]
| turn_wait w' p j v :
    unchanged w w' → p ∈ pending st → reads inputs p j →
    chan_at w j = Some v → cv_queue v = [] → cv_senders v = true →
    one_turn outs inputs outputs pending owed weight st w st w' [] [].

Lemma one_turn_signals {St : Type} outs inputs outputs pending owed weight (st st' : St) w w' rcv snt :
  one_turn outs inputs outputs pending owed weight st w st' w' rcv snt → w_signals w' = w_signals w.
Proof. by destruct 1 as [? ? []|? ? ? ? ? ? ? ? ? ? ? []|? ? ? ? ? ? ? []|? ? ? ? []]. Qed.

(** The node has not returned an error. *)
Definition not_failed {E St : Type} `{NF : !NodeFuture (S := S) E St} (st : St) : Prop :=
  ∀ err, node_result (E := E) st ≠ Some (Err err).

Class OneShot (E St : Type) `{NF : !NodeFuture (S := S) E St} : Type := {
  (** The executors the promise is made for, at a node with the given ports that is sent
      at most the given number of packets. *)
  admissible : E → NodeContext → list PortId → list PortId → nat → Prop;
  (** The input ports that have not ended, and the packets owed to an output port. *)
  pending : list PortId → St → list PortId;
  owed : St → PortId → nat;
  (** The turns that are left, those that wait and those that follow a packet apart. *)
  weight : E → list PortId → St → nat;
  (** How the packets sent so far follow from those received so far. *)
  accounts : E → NodeContext → St → list (PortId * PortPacket) → list (PortId * PortPacket) → Prop;
  (** The errors the node may end with after the packets received. *)
  fails : E → NodeContext → list (PortId * PortPacket) → PureflowError → Prop;
  (** The states of the runs of an executor. *)
  runs : E → St → Prop;
  one_shot_runs_begin e ctx : runs e (node_begin e ctx);
  one_shot_runs_turn e ctx inputs outputs st w :
    runs e st → runs e (node_turn e ctx inputs outputs false st w).1;
  one_shot_begin e ctx ins outs due :
    admissible e ctx ins outs due →
    let st := node_begin e ctx in
    accounts e ctx st [] [] ∧ (∀ p, p ∈ pending ins st ↔ p ∈ ins)
    ∧ (∀ p, p ∈ outs → owed st p ≤ 1) ∧ not_failed (E := E) st;
  one_shot_result e ctx ins outs due st rcv snt :
    admissible e ctx ins outs due → accounts e ctx st rcv snt → node_result st = Some (Ok tt) →
    pending ins st = [] ∧ ∀ p, p ∈ outs → owed st p = 0;
  one_shot_turn e ctx ins outs due inputs outputs st rcv snt w :
    admissible e ctx ins outs due → accounts e ctx st rcv snt → node_result st = None →
    (∀ p, p ∈ pending ins st → p ∈ ins) →
    node_ready ctx ins outs inputs outputs (owed st) (length rcv) due w →
    let r := node_turn e ctx inputs outputs false st w in
    let rcv' := node_received ctx inputs false st w in
    let snt' := node_sent ctx outputs st w in
    (one_turn outs inputs outputs (pending ins) owed (weight e outs) st w r.1 r.2 rcv' snt'
     ∧ accounts e ctx r.1 (rcv ++ rcv') (snt ++ snt') ∧ not_failed (E := E) r.1)
    ∨ ∃ err, node_result r.1 = Some (Err err) ∧ fails e ctx (rcv ++ rcv') err
             ∧ w_signals r.2 = w_signals w;
  (** Once its token is cancelled, the node does not wait any more. *)
  one_shot_cancelled e ctx ins outs due inputs outputs st w :
    admissible e ctx ins outs due → runs e st → node_result st = None →
    CancellationToken.is_cancelled (w_signals w) (NodeContext.cancellation_token ctx) = true →
    let r := node_turn e ctx inputs outputs false st w in
    w_signals r.2 = w_signals w ∧ weight e outs r.1 < weight e outs st;
}.
End interface.
