(* ===== verification/RunInvariant.v ===== *)
(** What holds of a run of one-shot nodes between any two turns. *)

From Stdlib Require Import Lia.
From stdpp Require Import functions.
From S2P Require Import Prelude RustStr BTree Types Workflow Structure Topology Errors Json Context Message Metadata MetadataSink Channel Ports PortsSpec Traffic Wiring Engine Runtime EngineRun NodeSystem OneShot.

(** ** The starts of a run *)

Section starts.
Context `{J : JsonNumber} {S : Type} `{!MetadataSink S} `{M : !Mpsc PortPacket} {E : Type}.
Implicit Types w : world (S := S).

Context (workflow : WorkflowDefinition) (execution : ExecutionMetadata)
  (executor_of : NodeDefinition → E) (base : nat) (token : CancellationToken).
Notation nodes := (WorkflowDefinition.nodes workflow).
Notation edges := (WorkflowDefinition.edges workflow).

(** What the engine starts a node with, when the first [base] channels are not the
    run's. *)
Definition start_for (node : NodeDefinition) : NodeStart E :=
  mk_start (executor_of node) (NodeDefinition.id node)
    (NodeContext.mk (WorkflowDefinition.id workflow) (NodeDefinition.id node) execution token)
    (ports_in_from_handles (NodeDefinition.input_ports node)
       (edge_handles mk_input EdgeDefinition.target base (NodeDefinition.id node) edges))
    (ports_out_from_handles (NodeDefinition.output_ports node)
       (edge_handles mk_output EdgeDefinition.source base (NodeDefinition.id node) edges)).

Lemma schedule_starts (lookup : NodeId → result E PureflowError) ns wiring w :
  (∀ node, node ∈ ns → lookup (NodeDefinition.id node) = Ok (executor_of node)) →
  NoDup (node_names ns) → wiring_for workflow base ns wiring →
  ∃ w', schedule_nodes workflow execution lookup (CancellationHandle.mk token) None ns wiring w
        = (Ok (start_for <$> ns), w').
Proof.
  revert wiring w.
  induction ns as [|node ns IH]; intros wiring w Hget Hnd Hw; cbn [schedule_nodes]; [by exists w|].
  rewrite Hget by by left. cbn [NodeContext.new CancellationToken.active]. unfold node_validator.
  destruct (Hw node) as [Ho Hi]; [by left|]. rewrite Ho, Hi.
  match goal with |- context [schedule_nodes _ _ _ _ _ ns ?wi ?w0] =>
    destruct (IH wi w0) as [w' Hs]; [| |by apply wiring_for_rest|] end.
  { intros n Hn. apply Hget. by right. }
  { by apply NoDup_cons in Hnd as [_ ?]. }
  rewrite Hs. exists w'. reflexivity.
Qed.
End starts.

Section prepared.
Context `{J : JsonNumber} {S : Type} `{!MetadataSink S} `{M : !Mpsc PortPacket} {E : Type}.
Implicit Types w : world (S := S).

Lemma prepare_starts workflow execution (executor_of : NodeDefinition → E)
    (lookup : NodeId → result E PureflowError) w :
  structurally_valid (WorkflowDefinition.nodes workflow) (WorkflowDefinition.edges workflow) →
  acyclic (arcs (WorkflowDefinition.edges workflow)) →
  NoDup (arcs (WorkflowDefinition.edges workflow)) →
  (∀ node, node ∈ WorkflowDefinition.nodes workflow →
     lookup (NodeDefinition.id node) = Ok (executor_of node)) →
  ∃ c w', prepare_run workflow execution lookup WorkflowRunPolicy.default None w
          = Done (Ok (c, start_for workflow execution executor_of (length (w_chans w))
                           (CancellationHandle.token c) <$> WorkflowDefinition.nodes workflow), w').
Proof.
  intros Hv Ha Hn Hget. unfold prepare_run. rewrite default_policy_accepts by done.
  cbn [exec_bind].
  pose proof (wire_edges_spec (WorkflowDefinition.edges workflow) w) as Hwire.
  unfold build_port_wiring. destruct (foldl wire_edge _ _) as [wiring w1].
  destruct Hwire as (Ho & Hi & ->). cbn [CancellationHandle.new CancellationToken.active].
  match goal with |- context [schedule_nodes _ _ _ (CancellationHandle.mk ?t) _ _ wiring ?w2] =>
    destruct (schedule_starts workflow execution executor_of (length (w_chans w)) t lookup
      (WorkflowDefinition.nodes workflow) wiring w2) as [w' Hs] end;
    [done|apply Hv|intros node _; auto|].
  rewrite Hs. by eexists (CancellationHandle.mk _), w'.
Qed.
End prepared.

(** ** The invariant *)

(** The edges into a node. *)
Definition in_edges (workflow : WorkflowDefinition) (n : NodeId) : list (nat * EdgeDefinition) :=
  filter (λ ie, EdgeEndpoint.node_id (EdgeDefinition.target ie.2) = n)
    (enumerate (WorkflowDefinition.edges workflow)).
Definition indegree (workflow : WorkflowDefinition) (n : NodeId) : nat :=
  length (in_edges workflow n).

(** The packets among [l] that were sent from a port. *)
Definition sent_from `{J : JsonNumber} (p : PortId) (l : list (PortId * PortPacket)) :
    list PortPacket :=
  (filter (λ pp, pp.1 = p) l).*2.

Section invariant.
Context `{J : JsonNumber} {S : Type} `{!MetadataSink S} `{M : !Mpsc PortPacket}
  `{!MpscDrop PortPacket}.
Context {E St : Type} `{NF : !NodeFuture (S := S) E St} `{!OneShot E St}.
Implicit Types (w : world (S := S)) (R : run_system (S := S) St) (ie : nat * EdgeDefinition)
  (t : node_task St).

Context (workflow : WorkflowDefinition) (execution : ExecutionMetadata)
  (executor_of : NodeDefinition → E) (base : nat) (token : CancellationToken).
Notation nodes := (WorkflowDefinition.nodes workflow).
Notation edges := (WorkflowDefinition.edges workflow).
Notation start_for := (start_for workflow execution executor_of base token).
Notation source_node ie := (EdgeEndpoint.node_id (EdgeDefinition.source ie.2)).
Notation source_port ie := (EdgeEndpoint.port_id (EdgeDefinition.source ie.2)).
Notation target_node ie := (EdgeEndpoint.node_id (EdgeDefinition.target ie.2)).
Notation target_port ie := (EdgeEndpoint.port_id (EdgeDefinition.target ie.2)).
Notation in_edges := (in_edges workflow).

Definition context_of (node : NodeDefinition) : NodeContext := start_context (start_for node).

(** What a task still owes each channel of an output port. *)
Definition task_owed t (p : PortId) : nat :=
  match task_at t with
  | TaskSpawned => 1
  | TaskRunning st => owed st p
  | TaskEnded _ => 0
  end.

(** The input ports that have not ended. *)
Definition pending_inputs (node : NodeDefinition) t : list PortId :=
  match task_at t with
  | TaskSpawned => NodeDefinition.input_ports node
  | TaskRunning st => pending (NodeDefinition.input_ports node) st
  | TaskEnded _ => []
  end.

Definition queue_on w ie : list PortPacket :=
  match chan_at w (base + ie.1) with Some v => cv_queue v | None => [] end.

(** The packets sent on an edge. *)
Definition sent_on R ie : list PortPacket :=
  sent_from (source_port ie) (task_sent (sys_tasks R (source_node ie))).

(** Packets of the edges into a node, with the port they arrive on. *)
Definition arriving (f : nat * EdgeDefinition → list PortPacket) (n : NodeId) :
    list (PortId * PortPacket) :=
  in_edges n ≫= λ ie, pair (target_port ie) <$> f ie.

Definition edge_over R ie : Prop :=
  queue_on (sys_world R) ie = [] ∧ task_ended (sys_tasks R (source_node ie)) = true.

Record edge_inv R ie (v : chan_view PortPacket) : Prop := {
  ei_view : chan_at (sys_world R) (base + ie.1) = Some v;
  ei_reserved : cv_reserved v = 0;
  ei_capacity : 0 < cv_capacity v;
  ei_senders : cv_senders v = negb (task_ended (sys_tasks R (source_node ie)));
  ei_receiver : cv_receiver v = negb (task_ended (sys_tasks R (target_node ie)));
  ei_once : length (sent_on R ie) + task_owed (sys_tasks R (source_node ie)) (source_port ie) ≤ 1;
  ei_queue : length (cv_queue v) ≤ length (sent_on R ie);
}.

Definition task_inv (node : NodeDefinition) t : Prop :=
  let accounted := accounts (executor_of node) (context_of node) in
  match task_at t with
  | TaskSpawned => task_received t = [] ∧ task_sent t = []
  | TaskRunning st => accounted st (task_received t) (task_sent t)
  | TaskEnded r =>
      r = Ok tt ∧ ∃ st, node_result st = Some (Ok tt)
                        ∧ accounted st (task_received t) (task_sent t)
  end.

Record node_inv R (node : NodeDefinition) t : Prop := {
  ni_flow : task_received t ++ arriving (queue_on (sys_world R)) (NodeDefinition.id node)
            ≡ₚ arriving (sent_on R) (NodeDefinition.id node);
  ni_pending : ∀ p, p ∈ pending_inputs node t → p ∈ NodeDefinition.input_ports node;
  ni_over : ∀ ie, ie ∈ in_edges (NodeDefinition.id node) →
              target_port ie ∉ pending_inputs node t → edge_over R ie;
  ni_task : task_inv node t;
}.

Record run_inv R : Prop := {
  ri_active : w_signals (sys_world R) !! CancellationToken.signal token = Some None;
  ri_edges : ∀ ie, ie ∈ enumerate edges → ∃ v, edge_inv R ie v;
  ri_nodes : ∀ node, node ∈ nodes → node_inv R node (sys_tasks R (NodeDefinition.id node));
}.

(** Tasks are compared node by node. *)
Definition same_system R R' : Prop :=
  (∀ n, sys_tasks R n = sys_tasks R' n) ∧ sys_world R = sys_world R'.

#[export] Instance same_system_equiv : Equivalence same_system.
Proof.
  split; [done|by intros R R' [? ?]|]. intros R1 R2 R3 [H1 H2] [H3 H4].
  split; [intros n; by rewrite H1|by rewrite H2].
Qed.

#[export] Instance system_turn_proper starts :
  Proper (same_system ==> eq ==> same_system) (system_turn (E := E) starts).
Proof.
  intros R R' [Ht Hw] n _ <-. unfold system_turn. destruct (iter_find _ starts); [|done].
  rewrite Ht, Hw. destruct (task_turn _ _ _) as [t w]. split; [|done]. intros m. simpl.
  destruct (decide (n = m)) as [<-|Hne]; [by rewrite !fn_lookup_insert|].
  by rewrite !fn_lookup_insert_ne.
Qed.

Lemma turn_of_each_same (starts : list (NodeStart E)) R n :
  Forall (λ s, task_turn s (sys_tasks R (start_node_id s)) (sys_world R)
               = (sys_tasks R (start_node_id s), sys_world R)) starts →
  same_system R (system_turn starts R n).
Proof.
  intros Hall. unfold system_turn. destruct (iter_find _ starts) as [s|] eqn:Hs; [|done].
  apply iter_find_elem in Hs as [Hin <-%bool_decide_eq_true]. rewrite Forall_forall in Hall.
  rewrite (Hall s Hin). split; [|done]. intros m. simpl.
  destruct (decide (start_node_id s = m)) as [<-|Hne]; [by rewrite fn_lookup_insert|].
  by rewrite fn_lookup_insert_ne.
Qed.

(** A system whose tasks all wait stays as it is. *)
Lemma schedule_of_each_same (starts : list (NodeStart E)) R schedule :
  Forall (λ s, task_turn s (sys_tasks R (start_node_id s)) (sys_world R)
               = (sys_tasks R (start_node_id s), sys_world R)) starts →
  same_system R (run_schedule starts schedule R).
Proof.
  intros Hall. induction schedule as [|m schedule IH] using rev_ind; [done|].
  unfold run_schedule. rewrite foldl_app. simpl.
  etrans; [by apply (turn_of_each_same starts R m)|]. by apply system_turn_proper.
Qed.

Lemma arriving_ext f g n :
  (∀ ie, ie ∈ in_edges n → f ie = g ie) → arriving f n = arriving g n.
Proof. intros H. apply bind_ext_in. intros ie Hie. by rewrite H. Qed.

Lemma arriving_app f g n :
  arriving (λ ie, f ie ++ g ie) n ≡ₚ arriving f n ++ arriving g n.
Proof.
  unfold arriving. rewrite <- bind_app_perm. apply reflexive_eq, bind_ext_in. intros ie _.
  by rewrite fmap_app.
Qed.

Lemma length_arriving f n :
  length (arriving f n) = sum_list_with (λ ie, length (f ie)) (in_edges n).
Proof.
  unfold arriving. induction (in_edges n) as [|ie l IH]; [done|].
  rewrite bind_cons, length_app, length_fmap, IH. done.
Qed.

#[export] Instance run_inv_proper : Proper (same_system ==> impl) run_inv.
Proof.
  intros R R' [Ht Hw] [Ha He Hn].
  assert (Hs : ∀ ie, sent_on R' ie = sent_on R ie) by (intros; unfold sent_on; by rewrite Ht).
  split.
  - by rewrite <- Hw.
  - intros ie Hie. destruct (He ie Hie) as [v [H1 H2 H3 H4 H5 H6 H7]]. exists v.
    split; rewrite <- ?Hw, <- ?Ht, ?Hs; done.
  - intros node Hnode. rewrite <- Ht. destruct (Hn node Hnode) as [H1 H2 H3 H4].
    split; [|done| |done].
    + rewrite <- Hw, H1. by apply reflexive_eq, arriving_ext.
    + intros ie Hie Hp. destruct (H3 ie Hie Hp). unfold edge_over.
      by rewrite <- Ht, <- Hw.
Qed.

(** ** What a turn changes *)

Context (Hvalid : structurally_valid nodes edges) (Hports : Forall ports_distinct nodes).

Lemma NoDup_in_edges n : NoDup (in_edges n).
Proof.
  apply NoDup_filter, NoDup_alt. intros i j [k e] Hi Hj.
  rewrite enumerate_lookup in Hi, Hj.
  by apply fmap_Some in Hi as (? & _ & [= -> ->]), Hj as (? & _ & [= -> _]).
Qed.

Lemma elem_of_in_edges n ie : ie ∈ in_edges n ↔ ie ∈ enumerate edges ∧ target_node ie = n.
Proof. unfold RunInvariant.in_edges. rewrite list_elem_of_filter. tauto. Qed.

Lemma edge_source_node ie :
  ie ∈ enumerate edges → ∃ node, node ∈ nodes ∧ NodeDefinition.id node = source_node ie
    ∧ source_port ie ∈ NodeDefinition.output_ports node.
Proof.
  destruct ie as [i e]. intros Hie%elem_of_enumerate%list_elem_of_lookup_2.
  destruct Hvalid as [_ Hok]. rewrite Forall_forall in Hok. by destruct (Hok e Hie) as [? _].
Qed.

Lemma edge_source ie node :
  ie ∈ enumerate edges → node ∈ nodes → source_node ie = NodeDefinition.id node →
  source_port ie ∈ NodeDefinition.output_ports node.
Proof.
  destruct ie as [i e]. intros Hie%elem_of_enumerate%list_elem_of_lookup_2 Hnode Hs.
  destruct Hvalid as [Hnd Hok]. rewrite Forall_forall in Hok.
  destruct (Hok e Hie) as [(nd & Hnd' & Hid & Hp) _]. simpl in *.
  assert (nd = node) as -> by (eapply NoDup_fmap_same; [exact Hnd|done|done|congruence]). done.
Qed.

Lemma edge_target ie node :
  ie ∈ enumerate edges → node ∈ nodes → target_node ie = NodeDefinition.id node →
  target_port ie ∈ NodeDefinition.input_ports node.
Proof.
  destruct ie as [i e]. intros Hie%elem_of_enumerate%list_elem_of_lookup_2 Hnode Hs.
  destruct Hvalid as [Hnd Hok]. rewrite Forall_forall in Hok.
  destruct (Hok e Hie) as [_ (nd & Hnd' & Hid & Hp)]. simpl in *.
  assert (nd = node) as -> by (eapply NoDup_fmap_same; [exact Hnd|done|done|congruence]). done.
Qed.

(** One task moves on.  [taken] and [put] are the packets its step takes from each
    edge and puts on it. *)
Lemma run_inv_update R node t' w' (taken put : nat * EdgeDefinition → list PortPacket) :
  run_inv R → node ∈ nodes →
  let n := NodeDefinition.id node in
  let t := sys_tasks R n in
  let R' := mk_system (<[n := t']> (sys_tasks R)) w' in
  w_signals w' = w_signals (sys_world R) →
  (task_ended t = true → task_ended t' = true) →
  (∀ ie, ie ∈ enumerate edges → ∃ v, edge_inv R' ie v) →
  (∀ ie, ie ∈ enumerate edges →
     taken ie ++ queue_on w' ie = queue_on (sys_world R) ie ++ put ie
     ∧ sent_on R' ie = sent_on R ie ++ put ie
     ∧ (target_node ie ≠ n → taken ie = [])
     ∧ (task_ended (sys_tasks R (source_node ie)) = true → put ie = [])) →
  task_received t' = task_received t ++ arriving taken n →
  (∀ p, p ∈ pending_inputs node t' → p ∈ pending_inputs node t) →
  (∀ ie, ie ∈ in_edges n → target_port ie ∈ pending_inputs node t →
     target_port ie ∉ pending_inputs node t' → edge_over R ie) →
  task_inv node t' →
  run_inv R'.
Proof.
  intros HR Hnode n t R' Hsig Hend Hedges Hflow Hrcv Hpend Hclose Htask.
  assert (Hover : ∀ ie, ie ∈ enumerate edges → edge_over R ie → edge_over R' ie).
  { intros ie Hie [Hq He]. destruct (Hflow ie Hie) as (Hf & _ & _ & Hput).
    rewrite Hq, (Hput He) in Hf. apply app_eq_nil in Hf as [_ Hf]. split; [exact Hf|]. simpl.
    destruct (decide (n = source_node ie)) as [Hs|Hs].
    - rewrite Hs, fn_lookup_insert. apply Hend. unfold t. by rewrite Hs.
    - by rewrite fn_lookup_insert_ne. }
  assert (Hnodes : ∀ nd rcv', nd ∈ nodes →
    rcv' = task_received (sys_tasks R (NodeDefinition.id nd)) ++ arriving taken (NodeDefinition.id nd) →
    rcv' ++ arriving (queue_on w') (NodeDefinition.id nd) ≡ₚ arriving (sent_on R') (NodeDefinition.id nd)).
  { intros nd rcv' Hnd ->. destruct (ri_nodes R HR nd Hnd) as [Hc _ _ _].
    rewrite <- app_assoc, <- arriving_app.
    rewrite (arriving_ext _ (λ ie, queue_on (sys_world R) ie ++ put ie)),
      (arriving_ext (sent_on R') (λ ie, sent_on R ie ++ put ie));
      [|intros ie [Hie _]%elem_of_in_edges; by apply Hflow..].
    by rewrite !arriving_app, app_assoc, Hc. }
  split; [simpl; rewrite Hsig; apply HR|done|].
  intros nd Hnd. simpl. destruct (decide (NodeDefinition.id nd = n)) as [Heq|Hne].
  - assert (nd = node) as -> by (by eapply NoDup_fmap_same; [apply Hvalid|..]).
    unfold n. rewrite fn_lookup_insert. fold n.
    destruct (ri_nodes R HR node Hnode) as [_ Hp Ho _].
    split; [by apply Hnodes| |intros ie Hie Hport|done].
    + intros p H. by apply Hp, Hpend.
    + pose proof Hie as [Hie' _]%elem_of_in_edges. apply Hover; [done|].
      destruct (decide (target_port ie ∈ pending_inputs node t)); auto.
  - rewrite fn_lookup_insert_ne by done. destruct (ri_nodes R HR nd Hnd) as [_ Hp Ho Ht].
    split; [|done| |done].
    + apply Hnodes; [done|]. unfold arriving at 1. rewrite bind_nil_in; [by rewrite app_nil_r|].
      intros ie [Hie Htn]%elem_of_in_edges.
      destruct (Hflow ie Hie) as (_ & _ & Htk & _). rewrite Htk; [done|congruence].
    + intros ie Hie Hport. apply Hover; [by apply elem_of_in_edges in Hie as [? _]|auto].
Qed.

(** The task of a node goes from [t] to [t'] without returning. *)
Record same_side (node : NodeDefinition) t t' : Prop := {
  ss_running : task_ended t = false;
  ss_running' : task_ended t' = false;
  ss_pending : ∀ p, p ∈ pending_inputs node t' → p ∈ pending_inputs node t;
  ss_task : task_inv node t';
}.

Lemma tasks_ended_same R node t' w' n :
  same_side node (sys_tasks R (NodeDefinition.id node)) t' →
  task_ended (sys_tasks (mk_system (<[NodeDefinition.id node := t']> (sys_tasks R)) w') n)
  = task_ended (sys_tasks R n).
Proof.
  intros [H1 H2 _ _]. simpl. destruct (decide (NodeDefinition.id node = n)) as [<-|Hne].
  - by rewrite fn_lookup_insert, H1, H2.
  - by rewrite fn_lookup_insert_ne.
Qed.

(** A step of a task that does not return, by what it does to the views of the
    channels. *)
Lemma run_inv_step R node t' w' (taken put : nat * EdgeDefinition → list PortPacket)
  (f : nat * EdgeDefinition → chan_view PortPacket → chan_view PortPacket) :
  run_inv R → node ∈ nodes →
  let n := NodeDefinition.id node in
  let t := sys_tasks R n in
  same_side node t t' →
  w_signals w' = w_signals (sys_world R) →
  (∀ ie, ie ∈ enumerate edges →
     chan_at w' (base + ie.1) = f ie <$> chan_at (sys_world R) (base + ie.1)) →
  (∀ ie v, ie ∈ enumerate edges → chan_at (sys_world R) (base + ie.1) = Some v →
     cv_reserved (f ie v) = cv_reserved v ∧ cv_capacity (f ie v) = cv_capacity v
     ∧ cv_senders (f ie v) = cv_senders v ∧ cv_receiver (f ie v) = cv_receiver v
     ∧ taken ie ++ cv_queue (f ie v) = cv_queue v ++ put ie) →
  (∀ ie, ie ∈ enumerate edges →
     if decide (source_node ie = n) then
       sent_from (source_port ie) (task_sent t')
       = sent_from (source_port ie) (task_sent t) ++ put ie
       ∧ task_owed t' (source_port ie) + length (put ie) ≤ task_owed t (source_port ie)
     else put ie = []) →
  (∀ ie, ie ∈ enumerate edges → target_node ie ≠ n → taken ie = []) →
  task_received t' = task_received t ++ arriving taken n →
  (∀ ie, ie ∈ in_edges n → target_port ie ∈ pending_inputs node t →
     target_port ie ∉ pending_inputs node t' → edge_over R ie) →
  run_inv (mk_system (<[n := t']> (sys_tasks R)) w').
Proof.
  intros HR Hnode n t Hside Hsig Hview Hf Hput Htaken Hrcv Hover. set (R' := mk_system _ w').
  assert (Hsent : ∀ ie, ie ∈ enumerate edges →
    sent_on R' ie = sent_on R ie ++ put ie
    ∧ task_owed (sys_tasks R' (source_node ie)) (source_port ie) + length (put ie)
      ≤ task_owed (sys_tasks R (source_node ie)) (source_port ie)).
  { intros ie Hie. specialize (Hput ie Hie). unfold sent_on. simpl. case_decide as Hs.
    - rewrite Hs, fn_lookup_insert. exact Hput.
    - rewrite fn_lookup_insert_ne, Hput by done. rewrite app_nil_r. simpl. by rewrite Nat.add_0_r. }
  apply (run_inv_update R node t' w' taken put HR Hnode Hsig); fold n t; try done.
  - destruct Hside as [H1 _ _ _]. fold t in H1. congruence.
  - intros ie Hie. destruct (ri_edges R HR ie Hie) as [v [Hv H1 H2 H3 H4 H5 H6]].
    destruct (Hf ie v Hie Hv) as (F1 & F2 & F3 & F4 & F5). exists (f ie v).
    destruct (Hsent ie Hie) as [Hs Ho]. fold R'.
    split; [simpl; by rewrite Hview, Hv|congruence|congruence| | | |].
    + rewrite F3, H3. f_equal. symmetry. by apply tasks_ended_same.
    + rewrite F4, H4. f_equal. symmetry. by apply tasks_ended_same.
    + rewrite Hs, length_app. lia.
    + apply (f_equal length) in F5. rewrite !length_app in F5. rewrite Hs, length_app. lia.
  - intros ie Hie. destruct (ri_edges R HR ie Hie) as [v [Hv _ _ _ _ _ _]].
    split_and!; [|by apply Hsent|by apply Htaken|].
    + unfold queue_on. rewrite Hview, Hv by done. by apply Hf.
    + intros He. specialize (Hput ie Hie). case_decide as Hs; [|done].
      destruct Hside as [H1 _ _ _]. rewrite Hs in He. fold t in H1, He. congruence.
  - apply Hside.
  - apply Hside.
Qed.

(** *** The kinds of steps *)

Lemma arriving_nil n : arriving (λ _, []) n = [].
Proof. by apply bind_nil_in. Qed.

Lemma owed_le_put node t t' ie :
  ie ∈ enumerate edges → node ∈ nodes → task_sent t' = task_sent t →
  (∀ p, p ∈ NodeDefinition.output_ports node → task_owed t' p ≤ task_owed t p) →
  if decide (source_node ie = NodeDefinition.id node) then
    sent_from (source_port ie) (task_sent t') = sent_from (source_port ie) (task_sent t) ++ []
    ∧ task_owed t' (source_port ie) + 0 ≤ task_owed t (source_port ie)
  else [] =@{list PortPacket} [].
Proof.
  intros Hie Hnode Hs Ho. case_decide as Hsrc; [|done]. rewrite app_nil_r, Nat.add_0_r, Hs.
  split; [done|]. by apply Ho, edge_source.
Qed.

(** The step does not touch the channels; it may end input ports whose edges are
    over. *)
Lemma run_inv_quiet R node t' w' :
  run_inv R → node ∈ nodes →
  let n := NodeDefinition.id node in
  let t := sys_tasks R n in
  same_side node t t' → unchanged (sys_world R) w' →
  (∀ p, p ∈ NodeDefinition.output_ports node → task_owed t' p ≤ task_owed t p) →
  task_received t' = task_received t → task_sent t' = task_sent t →
  (∀ ie, ie ∈ in_edges n → target_port ie ∈ pending_inputs node t →
     target_port ie ∉ pending_inputs node t' → edge_over R ie) →
  run_inv (mk_system (<[n := t']> (sys_tasks R)) w').
Proof.
  intros HR Hnode n t Hside [Hsig Hch] Howed Hrcv Hsnt Hover.
  apply (run_inv_step R node t' w' (λ _, []) (λ _, []) (λ _ v, v)); try done.
  - intros ie v _ _. by rewrite app_nil_r.
  - intros ie Hie. by apply owed_le_put.
  - rewrite arriving_nil, app_nil_r. exact Hrcv.
Qed.

Lemma enumerate_same_index (ie ie' : nat * EdgeDefinition) :
  ie ∈ enumerate edges → ie' ∈ enumerate edges → ie'.1 = ie.1 → ie' = ie.
Proof.
  destruct ie as [i e], ie' as [i' e']. intros H%elem_of_enumerate H'%elem_of_enumerate. simpl.
  intros ->. congruence.
Qed.

(** A packet is taken from an edge of a port that has not ended. *)
Lemma run_inv_receive R node t' w' ie0 v0 x q :
  run_inv R → node ∈ nodes →
  let n := NodeDefinition.id node in
  let t := sys_tasks R n in
  same_side node t t' →
  ie0 ∈ in_edges n → chan_at (sys_world R) (base + ie0.1) = Some v0 → cv_queue v0 = x :: q →
  changes after_recv [base + ie0.1] (sys_world R) w' →
  (∀ p, p ∈ NodeDefinition.output_ports node → task_owed t' p ≤ task_owed t p) →
  task_received t' = task_received t ++ [(target_port ie0, x)] → task_sent t' = task_sent t →
  (∀ p, p ∈ pending_inputs node t → p ∈ pending_inputs node t') →
  run_inv (mk_system (<[n := t']> (sys_tasks R)) w').
Proof.
  intros HR Hnode n t Hside Hie0 Hv0 Hq0 [Hsig Hch] Howed Hrcv Hsnt Hpend.
  pose proof Hie0 as [Hin0 Htn0]%elem_of_in_edges.
  apply (run_inv_step R node t' w' (λ ie, if decide (ie.1 = ie0.1) then [x] else []) (λ _, [])
           (λ ie, if decide (ie.1 = ie0.1) then after_recv else λ v, v)); try done; fold n t.
  - intros ie Hie. rewrite Hch. destruct (decide (ie.1 = ie0.1)) as [Heq|Hne].
    + rewrite decide_True; [done|]. rewrite Heq. set_solver.
    + rewrite decide_False; [done|]. rewrite list_elem_of_singleton. lia.
  - intros ie v Hie Hv. rewrite app_nil_r. case_decide as Heq; [|done].
    assert (ie = ie0) as -> by (by apply enumerate_same_index).
    assert (v = v0) as -> by congruence. unfold after_recv. by rewrite Hq0.
  - intros ie Hie. by apply owed_le_put.
  - intros ie Hie Hne. rewrite decide_False; [done|]. intros Heq.
    assert (ie = ie0) as -> by (by apply enumerate_same_index). by apply Hne.
  - rewrite Hrcv. f_equal. unfold arriving. rewrite (bind_single_in _ _ ie0);
      [by rewrite decide_True|apply NoDup_in_edges|done|].
    intros ie [Hie _]%elem_of_in_edges Hne. rewrite decide_False; [done|].
    intros Heq. by apply Hne, enumerate_same_index.
  - intros ie _ Hp Hp'. by apply Hpend in Hp.
Qed.

Lemma sent_from_snoc p q x l :
  sent_from p (l ++ [(q, x)]) = sent_from p l ++ (if decide (q = p) then [x] else []).
Proof.
  unfold sent_from. rewrite filter_app, fmap_app, filter_cons, filter_nil. simpl.
  by case_decide.
Qed.

(** A packet is put on every edge of an output port. *)
Lemma run_inv_send R node t' w' p x :
  run_inv R → node ∈ nodes →
  let n := NodeDefinition.id node in
  let t := sys_tasks R n in
  same_side node t t' →
  changes (λ v, with_queue (cv_queue v ++ [x]) v)
    (edge_channels base EdgeDefinition.source n p edges) (sys_world R) w' →
  (∀ q, q ∈ NodeDefinition.output_ports node →
     task_owed t' q + (if decide (p = q) then 1 else 0) ≤ task_owed t q) →
  task_received t' = task_received t → task_sent t' = task_sent t ++ [(p, x)] →
  (∀ q, q ∈ pending_inputs node t → q ∈ pending_inputs node t') →
  run_inv (mk_system (<[n := t']> (sys_tasks R)) w').
Proof.
  intros HR Hnode n t Hside [Hsig Hch] Howed Hrcv Hsnt Hpend.
  set (here := λ ie : nat * EdgeDefinition, EdgeDefinition.source ie.2 = EdgeEndpoint.new n p).
  apply (run_inv_step R node t' w' (λ _, []) (λ ie, if decide (here ie) then [x] else [])
           (λ ie, if decide (here ie) then λ v, with_queue (cv_queue v ++ [x]) v else λ v, v));
    try done; fold n t.
  - intros [i e] Hie%elem_of_enumerate. rewrite Hch. simpl. f_equal.
    rewrite (decide_ext _ (here (i, e))); [done|].
    rewrite elem_of_edge_channels. split; [|by unfold here; eauto].
    intros (j & e' & Hj & He & Hs). assert (i = j) as <- by lia. unfold here. simpl. congruence.
  - intros ie v Hie Hv. case_decide; [done|]. by rewrite app_nil_r.
  - intros ie Hie. pose proof (edge_source ie node Hie Hnode) as Hdecl. unfold here.
    case_decide as Hs; [|rewrite decide_False; [done|intros Heq; by rewrite Heq in Hs]].
    specialize (Howed (source_port ie) (Hdecl Hs)). rewrite Hsnt, sent_from_snoc.
    destruct (EdgeDefinition.source ie.2) as [sn sp]. simpl in *. subst sn.
    rewrite (decide_ext (EdgeEndpoint.new _ sp = EdgeEndpoint.new _ p) (p = sp))
      by naive_solver.
    split; [done|]. by case_decide.
  - rewrite arriving_nil, app_nil_r. exact Hrcv.
  - intros ie _ Hp Hp'. by apply Hpend in Hp.
Qed.

(** *** The end of a task *)

Lemma chan_do_all_changes (g : Chan → Chan) f l w :
  (∀ c, view (g c) = f (view c)) → (∀ v, f (f v) = f v) → in_store w l →
  changes f l w (foldl (λ w i, chan_do g i w) w l).
Proof.
  intros Hg Hf. revert w. induction l as [|i l IH]; intros w Hin; simpl; [apply changes_refl|].
  destruct (Hin i) as [c Hc]; [by left|].
  destruct (chan_op_changes (λ c, ((), g c)) () f i w c Hc) as [_ H1]; [apply Hg|].
  assert (H2 : changes f l (chan_do g i w) (foldl (λ w i, chan_do g i w) (chan_do g i w) l)).
  { apply IH. eapply in_store_changes; [exact H1|]. intros j Hj. apply Hin. by right. }
  destruct (changes_compose _ _ _ _ _ _ _ H1 H2) as [Hs Hch]. split; [done|].
  intros j. rewrite Hch. destruct (chan_at w j) as [v|]; [|done]. simpl. f_equal.
  repeat case_decide; set_solver.
Qed.

(** The channels of all the ports of a node, on one side. *)
Lemma declared_edge_channels (endpoint : EdgeDefinition → EdgeEndpoint) n (ids : list PortId) ie :
  ie ∈ enumerate edges →
  (EdgeEndpoint.node_id (endpoint ie.2) = n → EdgeEndpoint.port_id (endpoint ie.2) ∈ ids) →
  (∃ p, p ∈ ids ∧ base + ie.1 ∈ edge_channels base endpoint n p edges)
  ↔ EdgeEndpoint.node_id (endpoint ie.2) = n.
Proof.
  destruct ie as [i e]. intros Hie%elem_of_enumerate Hdecl. simpl in *.
  setoid_rewrite elem_of_edge_channels. split.
  - intros (p & _ & i' & e' & Hi & He & Hs). assert (i' = i) as -> by lia. simplify_eq.
    by rewrite Hs.
  - intros Hs. exists (EdgeEndpoint.port_id (endpoint e)). split; [auto|].
    exists i, e. split_and!; [done|done|]. rewrite <- Hs. by destruct (endpoint e).
Qed.

Lemma task_output_channels node ie :
  node ∈ nodes → ie ∈ enumerate edges →
  base + ie.1 ∈ (out_ports (task_outputs (start_for node)) ≫= senders)
  ↔ source_node ie = NodeDefinition.id node.
Proof.
  intros Hnode Hie. pose proof Hports as Hp. rewrite Forall_forall in Hp.
  destruct (Hp node Hnode) as [_ Hout].
  rewrite <- (declared_edge_channels EdgeDefinition.source _ (NodeDefinition.output_ports node))
    by (done || by apply edge_source).
  etrans; [by apply (assembled_channels out_port_id senders output_append output_disconnected)|].
  by setoid_rewrite (edge_handles_channels mk_output out_port_id senders).
Qed.

Lemma task_input_channels node ie :
  node ∈ nodes → ie ∈ enumerate edges →
  base + ie.1 ∈ (in_ports (task_inputs (start_for node)) ≫= receivers)
  ↔ target_node ie = NodeDefinition.id node.
Proof.
  intros Hnode Hie. pose proof Hports as Hp. rewrite Forall_forall in Hp.
  destruct (Hp node Hnode) as [Hin _].
  rewrite <- (declared_edge_channels EdgeDefinition.target _ (NodeDefinition.input_ports node))
    by (done || by apply edge_target).
  etrans; [by apply (assembled_channels in_port_id receivers input_append input_disconnected)|].
  by setoid_rewrite (edge_handles_channels mk_input in_port_id receivers).
Qed.

(** Every channel of a port of the run is in the store. *)
Lemma edge_channels_stored R endpoint n p :
  run_inv R → in_store (sys_world R) (edge_channels base endpoint n p edges).
Proof.
  intros HR j (i & e & -> & Hi & _)%elem_of_edge_channels. apply chan_at_is_some.
  destruct (ri_edges R HR (i, e)) as [v Hv]; [by apply elem_of_enumerate|].
  exists v. apply (ei_view _ _ _ Hv).
Qed.

(** The ports of a node are in the store. *)
Lemma task_ports_stored R node :
  run_inv R → node ∈ nodes →
  in_store (sys_world R) (out_ports (task_outputs (start_for node)) ≫= senders)
  ∧ in_store (sys_world R) (in_ports (task_inputs (start_for node)) ≫= receivers).
Proof.
  intros HR Hnode. pose proof Hports as Hp. rewrite Forall_forall in Hp.
  destruct (Hp node Hnode) as [Hin Hout]. split; intros j Hj.
  - apply (assembled_channels out_port_id senders output_append output_disconnected) in Hj
      as (p & _ & Hj); try done.
    rewrite (edge_handles_channels mk_output out_port_id senders) in Hj by done.
    by eapply (edge_channels_stored R).
  - apply (assembled_channels in_port_id receivers input_append input_disconnected) in Hj
      as (p & _ & Hj); try done.
    rewrite (edge_handles_channels mk_input in_port_id receivers) in Hj by done.
    by eapply (edge_channels_stored R).
Qed.

(** What dropping the ports of a node does to the channel of an edge. *)
Definition after_drop (n : NodeId) ie (v : chan_view PortPacket) : chan_view PortPacket :=
  (if decide (target_node ie = n) then without_receiver else λ v, v)
    ((if decide (source_node ie = n) then without_senders else λ v, v) v).

Lemma after_drop_view n ie v :
  after_drop n ie v =
  mk_view (cv_queue v) (cv_reserved v) (cv_capacity v)
    (if decide (source_node ie = n) then false else cv_senders v)
    (if decide (target_node ie = n) then false else cv_receiver v).
Proof. unfold after_drop. destruct v. by repeat case_decide. Qed.

Lemma drop_ports_views R node :
  run_inv R → node ∈ nodes →
  let w' := drop_ports (task_inputs (start_for node)) (task_outputs (start_for node))
              (sys_world R) in
  w_signals w' = w_signals (sys_world R)
  ∧ ∀ ie, ie ∈ enumerate edges → chan_at w' (base + ie.1)
      = after_drop (NodeDefinition.id node) ie <$> chan_at (sys_world R) (base + ie.1).
Proof.
  intros HR Hnode w'. destruct (task_ports_stored R node HR Hnode) as [Hout Hin].
  pose proof (chan_do_all_changes sender_drop without_senders _ _ sender_drop_view
    ltac:(done) Hout) as H1.
  pose proof (chan_do_all_changes receiver_drop without_receiver _ _ receiver_drop_view
    ltac:(done) (in_store_changes _ _ _ _ _ H1 Hin)) as H2.
  destruct (changes_compose _ _ _ _ _ _ _ H1 H2) as [Hs Hch]. split; [exact Hs|].
  intros ie Hie. unfold w', drop_ports, drop_inputs, drop_outputs. rewrite Hch.
  unfold after_drop.
  rewrite (decide_ext _ _ _ _ (task_output_channels node ie Hnode Hie)).
  by rewrite (decide_ext _ _ _ _ (task_input_channels node ie Hnode Hie)).
Qed.

Lemma run_inv_end R node w' st rcv snt :
  run_inv R → node ∈ nodes →
  let n := NodeDefinition.id node in
  let t' := mk_task (TaskEnded (Ok tt)) rcv snt in
  admissible (executor_of node) (context_of node) (NodeDefinition.input_ports node)
    (NodeDefinition.output_ports node) (indegree workflow n) →
  sys_tasks R n = mk_task (TaskRunning st) rcv snt → node_result st = Some (Ok tt) →
  unchanged (drop_ports (task_inputs (start_for node)) (task_outputs (start_for node))
               (sys_world R)) w' →
  run_inv (mk_system (<[n := t']> (sys_tasks R)) w').
Proof.
  intros HR Hnode n t' Hadm Ht Hres [Hsig Hch]. set (R' := mk_system _ w').
  destruct (drop_ports_views R node HR Hnode) as [Hs Hd].
  assert (Hview : ∀ ie, ie ∈ enumerate edges → chan_at w' (base + ie.1)
    = after_drop n ie <$> chan_at (sys_world R) (base + ie.1)).
  { intros ie Hie. unfold n. rewrite <- Hd by done. rewrite Hch, decide_False by set_solver.
    by destruct (chan_at _ (base + ie.1)). }
  assert (Hsent : ∀ ie, sent_on R' ie = sent_on R ie).
  { intros ie. unfold sent_on. simpl. destruct (decide (n = source_node ie)) as [Heq|Hne].
    - by rewrite <- Heq, fn_lookup_insert, Ht.
    - by rewrite fn_lookup_insert_ne. }
  assert (Hend : ∀ m b, b = negb (task_ended (sys_tasks R m)) →
    (if decide (m = n) then false else b) = negb (task_ended (<[n := t']> (sys_tasks R) m))).
  { intros m b ->. case_decide as Hn; [by rewrite Hn, fn_lookup_insert|].
    by rewrite fn_lookup_insert_ne. }
  pose proof (ni_task _ _ _ (ri_nodes R HR node Hnode)) as Hacc. fold n in Hacc. rewrite Ht in Hacc.
  destruct (one_shot_result _ _ _ _ _ _ _ _ Hadm Hacc Hres) as (Hpend & _).
  apply (run_inv_update R node t' w' (λ _, []) (λ _, []) HR Hnode); fold n; rewrite ?Ht; try done.
  - congruence.
  - intros ie Hie. destruct (ri_edges R HR ie Hie) as [v [Hv H1 H2 H3 H4 H5 H6]].
    fold R'. exists (after_drop n ie v).
    split; rewrite ?after_drop_view; simpl; rewrite ?Hsent; try done;
      [by rewrite Hview, Hv; [simpl; rewrite ?after_drop_view|]|by apply Hend|by apply Hend|].
    destruct (decide (n = source_node ie)) as [Heq|Hne].
    + rewrite <- Heq, fn_lookup_insert. unfold t', task_owed. simpl. lia.
    + by rewrite fn_lookup_insert_ne.
  - intros ie Hie. rewrite !app_nil_r. fold R'. split_and!; try done.
    unfold queue_on. rewrite Hview by done.
    destruct (chan_at _ _); simpl; [by rewrite after_drop_view|done].
  - by rewrite arriving_nil, app_nil_r.
  - intros p Hp. by apply not_elem_of_nil in Hp.
  - intros ie _ Hp. unfold pending_inputs in Hp. cbn [task_at] in Hp.
    rewrite Hpend in Hp. by apply not_elem_of_nil in Hp.
  - by split; [|exists st].
Qed.
End invariant.
