(* ===== verification/RunCompletes.v ===== *)
(** The turns of the tasks of a run of one-shot nodes.

    While no node has failed, a turn keeps the invariant of RunInvariant.v and makes
    [task_measure] smaller, or the node waits for a node upstream, or it is the turn in
    which the node fails.  Once the run is cancelled every turn makes [cancel_measure]
    smaller.  RunEnds.v puts the turns together. *)

From Stdlib Require Import Lia.
From stdpp Require Import functions.
From S2P Require Import Prelude RustStr BTree Types Workflow Structure Topology Validation Errors Json Context Message Metadata MetadataSink Channel Ports PortsSpec Traffic Wiring Engine Runtime EngineRun NodeSystem OneShot RunInvariant.

(** ** Observations *)

Section observations.
Context `{J : JsonNumber} {S : Type} `{!MetadataSink S} `{M : !Mpsc PortPacket}.
Implicit Types w : world (S := S).
Context (sink_accepts : ∀ sig (s : S) r, (sink_record sig s r).1 = Ok tt).

(** Observing a lifecycle event touches the sink only. *)
Lemma observe_lifecycle_unchanged kind ctx w :
  let '(r, (_, w')) := observe_lifecycle kind ctx (noop_hook, w) in r = Ok tt ∧ unchanged w w'.
Proof.
  unfold observe_lifecycle, record_metadata.
  pose proof (sink_accepts (w_signals w) (w_sink w)
    (MetadataRecord.Lifecycle (LifecycleEvent.new kind ctx))) as Hr.
  destruct (sink_record _ _ _) as [r sink]. simpl in Hr. subst r. simpl. split; [done|].
  split; [done|]. intros j. unfold chan_at. simpl.
  by destruct (w_chans w !! j).
Qed.

(** Observing leaves the signals alone, whatever the sink answers. *)
Lemma observe_lifecycle_signals kind ctx w :
  w_signals (observe_lifecycle kind ctx (noop_hook, w)).2.2 = w_signals w.
Proof.
  unfold observe_lifecycle, record_metadata. by destruct (sink_record _ _ _) as [[] sink].
Qed.

Lemma finish_node_ended ctx r w :
  (∀ e, r = Err e → (finish_node ctx r (noop_hook, w)).1 = Err e)
  ∧ w_signals (finish_node ctx r (noop_hook, w)).2.2 = w_signals w.
Proof.
  unfold finish_node. destruct r as [u|err].
  - split; [done|]. pose proof (observe_lifecycle_signals LifecycleEventKind.NodeCompleted ctx w) as Hs.
    destruct (observe_lifecycle _ _ _) as [o [hook w']]. by destruct o.
  - unfold observe_node_error, record_metadata. destruct (sink_record _ _ _) as [o sink].
    pose proof (observe_lifecycle_signals (error_event err) ctx
      (mk_world (w_chans w) sink (w_signals w))) as Hs.
    destruct (observe_lifecycle _ _ _) as [o' [hook w']]. split; [|exact Hs]. by intros e [= ->].
Qed.
End observations.

Lemma active_signal (s : signals) (token : CancellationToken) :
  s !! CancellationToken.signal token = Some None → CancellationToken.is_cancelled s token = false.
Proof. unfold CancellationToken.is_cancelled, CancellationToken.request. by intros ->. Qed.

Lemma cancelled_signal (s : signals) (token : CancellationToken) req :
  s !! CancellationToken.signal token = Some None →
  CancellationToken.is_cancelled (CancellationHandle.cancel s (CancellationHandle.mk token) req).2
    token = true.
Proof.
  intros Hs. apply bool_decide_eq_true. unfold CancellationHandle.cancel.
  rewrite request_cancellation_request by (by eapply lookup_lt_Some).
  rewrite decide_True by done. destruct (CancellationToken.request s _); eauto.
Qed.

Section turns.
Context `{J : JsonNumber} {S : Type} `{!MetadataSink S} `{M : !Mpsc PortPacket}
  `{!MpscDrop PortPacket}.
Context {E St : Type} `{NF : !NodeFuture (S := S) E St} `{!OneShot E St}.
Implicit Types (w : world (S := S)) (R : run_system (S := S) St) (ie : nat * EdgeDefinition)
  (t : node_task St).
Context (sink_accepts : ∀ sig (s : S) r, (sink_record sig s r).1 = Ok tt).

Context (workflow : WorkflowDefinition) (execution : ExecutionMetadata)
  (executor_of : NodeDefinition → E) (base : nat) (token : CancellationToken).
Notation nodes := (WorkflowDefinition.nodes workflow).
Notation edges := (WorkflowDefinition.edges workflow).
Notation start_for := (start_for workflow execution executor_of base token).
Notation context_of := (context_of workflow execution executor_of base token).
Notation run_inv := (run_inv workflow execution executor_of base token).
Notation task_inv := (task_inv workflow execution executor_of base token).

Context (Hvalid : structurally_valid nodes edges) (Hports : Forall ports_distinct nodes)
  (Hadmissible : ∀ node, node ∈ nodes →
     admissible (executor_of node) (context_of node) (NodeDefinition.input_ports node)
       (NodeDefinition.output_ports node) (indegree workflow (NodeDefinition.id node))).

(** ** The measure *)

(** The turns a task may still take that are not waits: two for every packet it may
    still receive, and its weight; when the run is cancelled it receives no more. *)
Definition cancel_measure (node : NodeDefinition) t : nat :=
  let weighs := weight (executor_of node) (NodeDefinition.output_ports node) in
  match task_at t with
  | TaskSpawned => weighs (node_begin (executor_of node) (context_of node)) + 2
  | TaskRunning st => weighs st + 1
  | TaskEnded _ => 0
  end.
Definition task_measure (node : NodeDefinition) t : nat :=
  let left := 2 * (indegree workflow (NodeDefinition.id node) - length (task_received t)) in
  (if task_ended t then 0 else left) + cancel_measure node t.

(** The sum over the tasks of a run. *)
Definition total (measure : NodeDefinition → node_task St → nat) R : nat :=
  sum_list_with (λ node, measure node (sys_tasks R (NodeDefinition.id node))) nodes.

(** ** Ports during a run *)

Lemma task_input_port node p :
  node ∈ nodes → p ∈ NodeDefinition.input_ports node →
  ∃ h, find_input (task_inputs (start_for node)) p = Some h
    ∧ receivers h = edge_channels base EdgeDefinition.target (NodeDefinition.id node) p edges.
Proof.
  intros Hnode Hp. rewrite Forall_forall in Hports. destruct (Hports node Hnode) as [Hin _].
  by eapply start_inputs_wired.
Qed.

Lemma task_output_port node p :
  node ∈ nodes → p ∈ NodeDefinition.output_ports node →
  ∃ h, find_output (task_outputs (start_for node)) p = Some h
    ∧ senders h = edge_channels base EdgeDefinition.source (NodeDefinition.id node) p edges.
Proof.
  intros Hnode Hp. rewrite Forall_forall in Hports. destruct (Hports node Hnode) as [_ Hout].
  by eapply start_outputs_wired.
Qed.

(** The edge behind a channel that an input port reads. *)
Lemma reads_edge node p j :
  node ∈ nodes → p ∈ NodeDefinition.input_ports node → reads (task_inputs (start_for node)) p j →
  ∃ ie, j = base + ie.1 ∧ ie ∈ in_edges workflow (NodeDefinition.id node)
        ∧ EdgeDefinition.target ie.2 = EdgeEndpoint.new (NodeDefinition.id node) p.
Proof.
  intros Hnode Hp (h & Hf & Hj). destruct (task_input_port node p Hnode Hp) as (h' & Hf' & Hh).
  rewrite Hf in Hf'. injection Hf' as <-. rewrite Hh in Hj.
  apply elem_of_edge_channels in Hj as (i & e & -> & Hi & Ht). exists (i, e). split_and!; [done| |done].
  apply elem_of_in_edges. split; [by apply elem_of_enumerate|]. simpl. by rewrite Ht.
Qed.

Lemma edge_reads node ie :
  node ∈ nodes → ie ∈ in_edges workflow (NodeDefinition.id node) →
  reads (task_inputs (start_for node)) (EdgeEndpoint.port_id (EdgeDefinition.target ie.2))
    (base + ie.1).
Proof.
  intros Hnode [Hie Ht]%elem_of_in_edges.
  destruct (task_input_port node (EdgeEndpoint.port_id (EdgeDefinition.target ie.2)) Hnode)
    as (h & Hf & Hh); [by eapply edge_target|]. exists h. split; [done|]. rewrite Hh.
  apply elem_of_edge_channels. destruct ie as [i e]. apply elem_of_enumerate in Hie.
  exists i, e. split_and!; [done|done|]. simpl in *. rewrite <- Ht. by destruct (EdgeDefinition.target e).
Qed.

Lemma first_refusal_none_2 w l :
  (∀ j, j ∈ l → ∃ v, chan_at w j = Some v ∧ reserve_outcome v = Ok tt) → first_refusal w l = None.
Proof.
  induction l as [|j l IH]; simpl; [done|]. intros H.
  destruct (H j) as (v & -> & ->); [by left|]. apply IH. intros i Hi. apply H. by right.
Qed.

(** The edges of a port still owed have room, and their receivers are there. *)
Lemma owed_port_accepts R node p :
  run_inv R → node ∈ nodes →
  task_ended (sys_tasks R (NodeDefinition.id node)) = false →
  task_owed (sys_tasks R (NodeDefinition.id node)) p = 1 →
  first_refusal (sys_world R)
    (edge_channels base EdgeDefinition.source (NodeDefinition.id node) p edges) = None.
Proof.
  intros HR Hnode Hrun Howed. apply first_refusal_none_2. intros j
    (i & e & -> & Hi & Hsrc)%elem_of_edge_channels.
  assert (Hie : (i, e) ∈ enumerate edges) by (by apply elem_of_enumerate).
  destruct (ri_edges _ _ _ _ _ R HR (i, e) Hie) as [v [Hv H1 H2 _ H4 H5 H6]]. simpl in *.
  exists v. split; [done|]. apply reserve_ok_iff. split.
  - rewrite H4. destruct (task_ended (sys_tasks R (EdgeEndpoint.node_id (EdgeDefinition.target e))))
      eqn:Hend; [|done]. exfalso.
    destruct Hvalid as [_ Hok]. rewrite Forall_forall in Hok.
    destruct (Hok e) as [_ (nd & Hnd & Hid & _)]; [by eapply list_elem_of_lookup_2|].
    pose proof (ri_nodes _ _ _ _ _ R HR nd Hnd) as [_ _ Ho _].
    destruct (Ho (i, e)) as [_ He].
    + by apply elem_of_in_edges.
    + rewrite Hid. revert Hend. unfold task_ended, pending_inputs.
      destruct (task_at _); [done|done|set_solver].
    + simpl in He. rewrite Hsrc in He. simpl in He. congruence.
  - rewrite Hsrc in H5. simpl in H5. unfold has_room. lia.
Qed.

(** There is room in the count of a node for a packet that is queued for it. *)
Lemma queued_packet_counts R node ie v x q :
  run_inv R → node ∈ nodes → ie ∈ in_edges workflow (NodeDefinition.id node) →
  chan_at (sys_world R) (base + ie.1) = Some v → cv_queue v = x :: q →
  length (task_received (sys_tasks R (NodeDefinition.id node)))
  < indegree workflow (NodeDefinition.id node).
Proof.
  intros HR Hnode Hie Hv Hq. pose proof (ri_nodes _ _ _ _ _ R HR node Hnode) as [Hc _ _ _].
  apply Permutation_length in Hc. rewrite length_app, !length_arriving in Hc.
  pose proof (sum_list_with_in ie (λ ie, length (queue_on base (sys_world R) ie)) _ Hie) as Hle.
  cbn beta in Hle. unfold queue_on at 1 in Hle. rewrite Hv, Hq in Hle. simpl in Hle.
  enough (sum_list_with (λ ie, length (sent_on R ie)) (in_edges workflow (NodeDefinition.id node))
          ≤ indegree workflow (NodeDefinition.id node)) by lia.
  apply sum_list_with_bound. intros ie' [Hie' _]%elem_of_in_edges.
  destruct (ri_edges _ _ _ _ _ R HR ie' Hie') as [v' Hv'].
  pose proof (ei_once _ _ _ _ Hv'). lia.
Qed.

(** The ports of a running node are ready for its turn. *)
Lemma running_node_ready R node st rcv snt :
  run_inv R → node ∈ nodes →
  sys_tasks R (NodeDefinition.id node) = mk_task (TaskRunning st) rcv snt →
  node_ready (context_of node) (NodeDefinition.input_ports node) (NodeDefinition.output_ports node)
    (task_inputs (start_for node)) (task_outputs (start_for node)) (owed st) (length rcv)
    (indegree workflow (NodeDefinition.id node)) (sys_world R).
Proof.
  intros HR Hnode Ht. pose proof Hports as Hp. rewrite Forall_forall in Hp.
  destruct (Hp node Hnode) as [Hin _]. split.
  - by apply active_signal, (ri_active _ _ _ _ _ R HR).
  - intros p Hip. destruct (task_input_port node p Hnode Hip) as (h & Hf & _). eauto.
  - intros h Hh.
    destruct (assembled_elem in_port_id receivers input_append input_disconnected
      ltac:(done) ltac:(done) ltac:(done) ltac:(done) _ _ h Hin Hh) as [Hip Hf].
    split_and!; [done|exact Hf|].
    destruct (task_ports_stored workflow execution executor_of base token Hports R node HR Hnode)
      as [_ Hst]. intros j Hj. apply Hst. apply list_elem_of_bind. eauto.
  - intros p Hop Howed. destruct (task_output_port node p Hnode Hop) as (h & Hf & Hh).
    exists h. rewrite Hh. split_and!; [done|apply NoDup_edge_channels| |].
    + by apply (edge_channels_stored workflow execution executor_of base token).
    + apply owed_port_accepts; [done|done|by rewrite Ht|by rewrite Ht].
  - done.
  - intros p j v x q Hip Hrd Hv Hq.
    destruct (reads_edge node p j Hnode Hip Hrd) as (ie & -> & Hie & _).
    pose proof (queued_packet_counts R node ie v x q HR Hnode Hie Hv Hq) as Hlt.
    by rewrite Ht in Hlt.
Qed.

(** ** Turns of a running node *)

(** Some node upstream has not returned. *)
Definition waiting R (n : NodeId) : Prop :=
  ∃ a, (a, n) ∈ arcs edges ∧ task_ended (sys_tasks R a) = false.

(** A step that keeps the invariant, and is progress or a wait. *)
Definition good_step R (node : NodeDefinition) t' w' : Prop :=
  let t := sys_tasks R (NodeDefinition.id node) in
  run_inv (mk_system (<[NodeDefinition.id node := t']> (sys_tasks R)) w')
  ∧ w_signals w' = w_signals (sys_world R)
  ∧ (task_measure node t' < task_measure node t ∨ t' = t ∧ waiting R (NodeDefinition.id node)).

(** A channel with nothing queued and no sender left belongs to an edge that is over. *)
Lemma drained_edge_over R ie :
  run_inv R → ie ∈ enumerate edges → drained (sys_world R) (base + ie.1) →
  edge_over base R ie.
Proof.
  intros HR Hie. destruct (ri_edges _ _ _ _ _ R HR ie Hie) as [v [Hv _ _ Hs _ _ _]].
  unfold drained. rewrite Hv. intros [Hq Hns]. rewrite Hns in Hs.
  split; [unfold queue_on; by rewrite Hv|]. by destruct (task_ended _).
Qed.

(** A turn of the node's own future. *)
Lemma running_turn R node st rcv snt :
  run_inv R → node ∈ nodes →
  sys_tasks R (NodeDefinition.id node) = mk_task (TaskRunning st) rcv snt → node_result st = None →
  let ctx := context_of node in
  let inputs := task_inputs (start_for node) in
  let outputs := task_outputs (start_for node) in
  let r := node_turn (executor_of node) ctx inputs outputs false st (sys_world R) in
  let rcv' := node_received ctx inputs false st (sys_world R) in
  good_step R node
    (mk_task (TaskRunning r.1) (rcv ++ rcv') (snt ++ node_sent ctx outputs st (sys_world R))) r.2
  ∧ not_failed (E := E) r.1
  ∨ ∃ err, node_result r.1 = Some (Err err) ∧ fails (executor_of node) ctx (rcv ++ rcv') err
           ∧ w_signals r.2 = w_signals (sys_world R).
Proof.
  intros HR Hnode Ht Hres ctx inputs outputs r rcv'.
  pose proof (ri_nodes _ _ _ _ _ R HR node Hnode) as [_ Hp _ Hti]. rewrite Ht in Hp, Hti.
  destruct (one_shot_turn _ ctx _ _ _ inputs outputs st rcv snt (sys_world R)
    (Hadmissible node Hnode) Hti Hres Hp (running_node_ready R node st rcv snt HR Hnode Ht))
    as [(Hturn & Hacc & Hnf)|Hfail]; [left; split; [|exact Hnf]|right; exact Hfail].
  fold r rcv' in Hturn, Hacc. set (snt' := node_sent _ _ _ _) in *.
  pose proof (one_turn_signals _ _ _ _ _ _ _ _ _ _ _ _ Hturn) as Hsig.
  clear Hnf. clearbody rcv' snt' r. destruct r as [st' w']. cbn [fst snd] in *. unfold good_step. rewrite Ht.
  inversion Hturn as [? ? Hu Hpe Hdr Ho Hw|? ? p j v x q Hpp Hrd Hv Hq Hch Hpe Ho Hw
    |? ? p h x Hpo Hf Hch Ho1 Ho0 Hpe Ho Hw|? p j v Hu Hpp Hrd Hv Hq Hs];
    subst; rewrite ?app_nil_r in *.
  - split_and!; [|done|left; unfold task_measure, cancel_measure; simpl; lia].
    apply run_inv_quiet; rewrite ?Ht; try done.
    intros ie Hie Hin Hnot. pose proof Hie as [Hie' _]%elem_of_in_edges.
    apply drained_edge_over; [done|done|]. apply (Hdr _ _ Hin Hnot). by apply edge_reads.
  - destruct (reads_edge node p j Hnode (Hp p Hpp) Hrd) as (ie & -> & Hie & Htgt).
    split_and!; [|done|].
    + eapply run_inv_receive with (ie0 := ie); rewrite ?Ht; try done; [by split; [..|intros ? ?; apply Hpe|]| |by intros ? ?; apply Hpe].
      simpl. by rewrite Htgt.
    + left. pose proof (queued_packet_counts R node ie v x q HR Hnode Hie Hv Hq) as Hlt.
      rewrite Ht in Hlt. unfold task_measure, cancel_measure. simpl in *. rewrite length_app. simpl. lia.
  - destruct (task_output_port node p Hnode Hpo) as (h' & Hf' & Hh).
    fold outputs in Hf'. rewrite Hf in Hf'. injection Hf' as <-. rewrite Hh in Hch.
    split_and!; [|done|left; unfold task_measure, cancel_measure; simpl; lia].
    eapply run_inv_send; rewrite ?Ht; try done; [by split; [..|intros ? ?; apply Hpe|]| |
      by intros ? ?; apply Hpe].
    intros q Hq. unfold task_owed. simpl. case_decide as Heq; [subst q; lia|].
    specialize (Ho q Hq). lia.
  - split_and!; [apply run_inv_quiet; rewrite ?Ht; try done; by split|done|]. right. split; [done|].
    destruct (reads_edge node p j Hnode (Hp p Hpp) Hrd) as ([i e] & -> & Hie & Htgt).
    apply elem_of_in_edges in Hie as [Hie _].
    destruct (ri_edges _ _ _ _ _ R HR (i, e) Hie) as [v' [Hv' _ _ Hs' _ _ _]].
    assert (v' = v) as -> by (simpl in *; congruence).
    exists (EdgeEndpoint.node_id (EdgeDefinition.source e)). split.
    + apply list_elem_of_fmap. exists e. apply elem_of_enumerate in Hie. simpl in Htgt.
      split; [|by eapply list_elem_of_lookup_2]. unfold arc_of. by rewrite Htgt.
    + simpl in Hs'. rewrite Hs in Hs'. by destruct (task_ended _).
Qed.

(** ** Turns of a task *)

(** A task that runs has not returned. *)
Definition settled (node : NodeDefinition) t : Prop :=
  match task_at t with
  | TaskRunning st => runs (executor_of node) st ∧ node_result st = None
  | _ => True
  end.

Lemma settle_settled node st w rcv snt :
  runs (executor_of node) st → settled node (mk_task (settle (start_for node) st w).1 rcv snt).
Proof.
  intros Hst. unfold settle. destruct (node_result st) as [r|] eqn:Hr; [|done].
  unfold end_task. by destruct (finish_node _ _ _) as [r' [hook w']].
Qed.

Lemma task_turn_settled node t w :
  settled node t → settled node (task_turn (start_for node) t w).1.
Proof.
  destruct t as [[|st|r] rcv snt]; cbn [task_turn]; [intros _|intros [Hst Hr]|done].
  - unfold begin_task. destruct (begin_node _ _ _ _) as [[v|e] [hook w1]]; [|done].
    pose proof (settle_settled node (node_begin (executor_of node) (context_of node)) w1 rcv snt
      (one_shot_runs_begin _ _)) as Hs.
    cbn [start_executor RunInvariant.start_for]. unfold RunInvariant.context_of in Hs.
    by destruct (settle _ _ w1).
  - pose proof (one_shot_runs_turn (executor_of node) (context_of node)
      (task_inputs (start_for node)) (task_outputs (start_for node)) st w Hst) as Hst'.
    cbn [start_executor RunInvariant.start_for]. unfold RunInvariant.context_of in Hst'.
    destruct (node_turn _ _ _ _ _ st w) as [st' w'].
    match goal with |- context [mk_task _ ?rcv' ?snt'] =>
      pose proof (settle_settled node st' w' rcv' snt' Hst') as Hs end.
    by destruct (settle _ st' w').
Qed.

Lemma drop_ports_signals inputs outputs w :
  w_signals (drop_ports inputs outputs w) = w_signals w.
Proof.
  assert (Hdo : ∀ (g : Chan → Chan) l w, w_signals (foldl (λ w i, chan_do g i w) w l) = w_signals w).
  { intros g l. induction l as [|i l IH]; intros w0; simpl; [done|]. rewrite IH.
    unfold chan_do, chan_op. by destruct (w_chans w0 !! i). }
  unfold drop_ports, drop_inputs, drop_outputs. by rewrite !Hdo.
Qed.

(** The end of a task, whatever its result. *)
Lemma end_task_ended (s : NodeStart E) r w :
  let o := end_task (St := St) s r w in
  w_signals o.2 = w_signals w
  ∧ ∃ r', o.1 = TaskEnded r' ∧ ∀ e, r = Err e → r' = Err e.
Proof.
  intros o. unfold o, end_task.
  destruct (finish_node_ended (start_context s) r
    (drop_ports (task_inputs s) (task_outputs s) w)) as [He Hs].
  destruct (finish_node _ r _) as [r' [hook w']]. cbn [fst snd] in *.
  split; [by rewrite Hs, drop_ports_signals|]. by exists r'.
Qed.

(** A node that has returned gives up its ports. *)
Lemma settle_step R node st rcv snt w1 :
  node ∈ nodes →
  let n := NodeDefinition.id node in
  let t1 := mk_task (TaskRunning st) rcv snt in
  run_inv (mk_system (<[n := t1]> (sys_tasks R)) w1) → not_failed (E := E) st →
  let r := settle (start_for node) st w1 in
  let t2 := mk_task r.1 rcv snt in
  run_inv (mk_system (<[n := t2]> (sys_tasks R)) r.2)
  ∧ (t2 = t1 ∨ task_measure node t2 < task_measure node t1).
Proof.
  intros Hnode n t1 HR1 Hnf r t2. set (R1 := mk_system _ w1) in HR1. unfold t2, r, settle.
  assert (Ht : sys_tasks R1 n = t1) by apply fn_lookup_insert.
  destruct (node_result st) as [[[]|e]|] eqn:Hres;
    [|by destruct (Hnf e)|split; [done|by left]].
  unfold end_task, finish_node. set (w2 := drop_ports _ _ w1).
  pose proof (observe_lifecycle_unchanged sink_accepts LifecycleEventKind.NodeCompleted
    (start_context (start_for node)) w2) as Hobs.
  destruct (observe_lifecycle _ _ (noop_hook, w2)) as [o [hook w3]]. destruct Hobs as [-> Hu].
  cbn [fst snd]. split; [|right; unfold task_measure, cancel_measure; simpl; lia].
  eapply run_inv_proper; [|eapply (run_inv_end workflow execution executor_of base token Hvalid
    Hports R1 node w3 st rcv snt HR1 Hnode (Hadmissible node Hnode) Ht Hres Hu)].
  split; [|done]. intros m. simpl. fold n. destruct (decide (n = m)) as [<-|Hne].
  - by rewrite !fn_lookup_insert.
  - by rewrite !fn_lookup_insert_ne.
Qed.

Lemma begin_step R node rcv snt w1 :
  run_inv R → node ∈ nodes →
  sys_tasks R (NodeDefinition.id node) = mk_task TaskSpawned rcv snt →
  unchanged (sys_world R) w1 →
  let st := node_begin (executor_of node) (context_of node) in
  good_step R node (mk_task (TaskRunning st) rcv snt) w1 ∧ not_failed (E := E) st.
Proof.
  intros HR Hnode Ht Hu st.
  pose proof (ri_nodes _ _ _ _ _ R HR node Hnode) as [_ _ _ Hti]. rewrite Ht in Hti.
  destruct Hti as [Hrcv Hsnt]. simpl in Hrcv, Hsnt. subst rcv snt.
  destruct (one_shot_begin _ _ _ _ _ (Hadmissible node Hnode)) as (Hacc & Hpend & Howed & Hnf).
  split; [|done]. split_and!; [|by destruct Hu|left; rewrite Ht; unfold task_measure, cancel_measure, st; simpl; lia].
  apply run_inv_quiet; rewrite ?Ht; try done.
  - split; [done|done|intros p; apply Hpend|done].
  - intros ie _ Hin Hnot. destruct Hnot. by apply Hpend.
Qed.

(** After a good step the task settles. *)
Lemma good_step_settled R node st rcv snt w1 :
  node ∈ nodes → good_step R node (mk_task (TaskRunning st) rcv snt) w1 ∧ not_failed (E := E) st →
  let r := settle (start_for node) st w1 in
  good_step R node (mk_task r.1 rcv snt) r.2.
Proof.
  intros Hnode [(HR & Hsig & Hm) Hnf] r.
  destruct (settle_step R node st rcv snt w1 Hnode HR Hnf) as [HR' Ht].
  fold r in HR', Ht. split_and!; [exact HR'| |].
  { rewrite <- Hsig. unfold r, settle. destruct (node_result st) as [res|]; [|done].
    apply end_task_ended. }
  destruct Ht as [->|Hlt]; [done|]. left.
  destruct Hm as [?|[Heq _]]; [lia|]. by rewrite <- Heq.
Qed.

(** The node has ended with an error of its own. *)
Definition failed_step R (node : NodeDefinition) t' w' : Prop :=
  ∃ err, task_at t' = TaskEnded (Err err)
    ∧ fails (executor_of node) (context_of node) (task_received t') err
    ∧ w_signals w' = w_signals (sys_world R).

(** A turn of a task that has not ended keeps the invariant, and is progress or a wait
    for a node upstream; or it is the failure of the node. *)
Lemma task_turn_ok R node :
  run_inv R → node ∈ nodes →
  let t := sys_tasks R (NodeDefinition.id node) in
  settled node t → task_ended t = false →
  let r := task_turn (start_for node) t (sys_world R) in
  good_step R node r.1 r.2 ∨ failed_step R node r.1 r.2.
Proof.
  intros HR Hnode t Hset Hrun r. subst r.
  destruct t as [[|st|res] rcv snt] eqn:Ht; subst t; cbn [task_turn]; [| |done].
  - unfold begin_task, begin_node.
    pose proof (observe_lifecycle_unchanged sink_accepts LifecycleEventKind.NodeStarted
      (start_context (start_for node)) (sys_world R)) as Hobs.
    destruct (observe_lifecycle _ _ (noop_hook, sys_world R)) as [o [hook w1]].
    destruct Hobs as [-> Hu]. cbn [result_bind].
    pose proof (good_step_settled R node _ rcv snt w1 Hnode
      (begin_step R node rcv snt w1 HR Hnode Ht Hu)) as Hg.
    destruct (settle _ _ w1) as [st' w2]. left. exact Hg.
  - pose proof (running_turn R node st rcv snt HR Hnode Ht (proj2 Hset)) as Hstep.
    unfold RunInvariant.context_of in Hstep. cbn [start_executor RunInvariant.start_for].
    destruct (node_turn _ _ _ _ _ st _) as [st' w']. cbn [fst snd] in Hstep.
    destruct Hstep as [Hstep|(err & Hres & Hfails & Hsig)].
    + apply good_step_settled in Hstep; [|done]. destruct (settle _ st' w'). left. exact Hstep.
    + unfold settle. rewrite Hres.
      destruct (end_task_ended (start_for node) (Err err) w') as (Hs & r' & Hr & He).
      destruct (end_task _ _ w') as [ts w2]. cbn [fst snd] in *. subst ts.
      right. exists err. rewrite (He err) by done. split_and!; [done|done|congruence].
Qed.

(** Once the run is cancelled every turn of a task that has not ended counts. *)
Lemma cancelled_turn node t w :
  node ∈ nodes → CancellationToken.is_cancelled (w_signals w) token = true →
  settled node t → task_ended t = false →
  let r := task_turn (start_for node) t w in
  w_signals r.2 = w_signals w ∧ cancel_measure node r.1 < cancel_measure node t.
Proof.
  intros Hnode Hc Hset Hrun r. subst r.
  assert (Hsettle : ∀ st w' rcv snt, w_signals w' = w_signals w →
    let o := settle (start_for node) st w' in
    let t' := mk_task o.1 rcv snt in
    w_signals o.2 = w_signals w
    ∧ cancel_measure node t' ≤ weight (executor_of node) (NodeDefinition.output_ports node) st + 1).
  { intros st w' rcv snt Hw o. unfold o, settle. destruct (node_result st) as [res|] eqn:Hres.
    - destruct (end_task_ended (start_for node) res w') as (Hs & r' & Hr & _).
      destruct (end_task _ _ w') as [ts w2]. cbn [fst snd] in *. subst ts.
      split; [congruence|]. unfold cancel_measure. simpl. lia.
    - split; [done|]. unfold cancel_measure. simpl. lia. }
  destruct t as [[|st|res] rcv snt]; cbn [task_turn]; [| |done].
  - unfold begin_task, begin_node.
    pose proof (observe_lifecycle_signals LifecycleEventKind.NodeStarted
      (start_context (start_for node)) w) as Hobs.
    destruct (observe_lifecycle _ _ (noop_hook, w)) as [[[]|e] [hook w1]]; cbn [result_bind snd] in *.
    + destruct (Hsettle (node_begin (executor_of node) (context_of node)) w1 rcv snt Hobs)
        as [H2 H3]. cbn [start_executor RunInvariant.start_for].
      unfold RunInvariant.context_of in H2, H3.
      destruct (settle _ _ w1) as [st' w2]. split; [exact H2|].
      eapply Nat.le_lt_trans; [exact H3|]. unfold cancel_measure. cbn [task_at].
      unfold RunInvariant.context_of. lia.
    + split; [by rewrite drop_ports_signals|]. unfold cancel_measure. simpl. lia.
  - destruct (one_shot_cancelled (executor_of node) (context_of node) (NodeDefinition.input_ports node)
      (NodeDefinition.output_ports node) _ (task_inputs (start_for node))
      (task_outputs (start_for node)) st w (Hadmissible node Hnode)
      (proj1 Hset) (proj2 Hset) Hc) as [Hs Hlt].
    unfold RunInvariant.context_of in Hs, Hlt. cbn [start_executor RunInvariant.start_for].
    destruct (node_turn _ _ _ _ _ st w) as [st' w']. cbn [fst snd] in *.
    match goal with |- context [mk_task _ ?rcv' ?snt'] =>
      destruct (Hsettle st' w' rcv' snt' Hs) as [H2 H3] end.
    destruct (settle _ st' w') as [ts w2]. cbn [fst snd] in *. split; [exact H2|].
    eapply Nat.le_lt_trans; [exact H3|]. unfold cancel_measure. cbn [task_at]. lia.
Qed.
End turns.
