(* ===== verification/RunEnds.v ===== *)
(** Runs of one-shot nodes end, with the summary of their results.

    While no node has failed the invariant of RunInvariant.v holds and every turn that
    is not a wait makes the measure of RunCompletes.v smaller.  The first failure
    cancels the run, and from then on no node waits.  A node that waits waits for a
    node upstream, so an acyclic workflow always has a node that moves: as many rounds
    as the measure is at the start are enough, whatever the order of the turns in each
    round. *)

From Stdlib Require Import Lia.
From stdpp Require Import functions.
From S2P Require Import Prelude RustStr BTree Types Workflow Structure Topology Validation Errors Json Context Message Metadata MetadataSink Channel Ports PortsSpec Traffic Wiring Engine Runtime EngineRun NodeSystem OneShot RunInvariant RunCompletes.

Section collected.
Context `{J : JsonNumber} {S : Type} `{!MetadataSink S} `{M : !Mpsc PortPacket}
  `{!MpscDrop PortPacket}.
Context {E St : Type} `{NF : !NodeFuture (S := S) E St} `{!OneShot E St}.
Implicit Types (w : world (S := S)) (R : run_system (S := S) St) (C : collected_run (S := S) St).
Context (sink_accepts : ∀ sig (s : S) r, (sink_record sig s r).1 = Ok tt).

Context (workflow : WorkflowDefinition) (execution : ExecutionMetadata)
  (executor_of : NodeDefinition → E) (base : nat) (token : CancellationToken)
  (policy : WorkflowRunPolicy).
Notation nodes := (WorkflowDefinition.nodes workflow).
Notation edges := (WorkflowDefinition.edges workflow).
Notation start_for := (start_for workflow execution executor_of base token).
Notation context_of := (context_of workflow execution executor_of base token).
Notation run_inv := (run_inv workflow execution executor_of base token).
Notation task_measure := (task_measure workflow execution executor_of base token).
Notation cancel_measure := (cancel_measure workflow execution executor_of base token).
Notation waiting := (waiting workflow).
Notation settled := (settled executor_of).
Notation total := (total workflow).
Notation starts := (start_for <$> nodes).
Notation collection :=
  (mk_collection (CancellationHandle.mk token) workflow execution policy).

Context (Hvalid : structurally_valid nodes edges) (Hports : Forall ports_distinct nodes)
  (Hadmissible : ∀ node, node ∈ nodes →
     admissible (executor_of node) (context_of node) (NodeDefinition.input_ports node)
       (NodeDefinition.output_ports node) (indegree workflow (NodeDefinition.id node)))
  (Hacyclic : acyclic (arcs edges)) (Hfits : (N.of_nat (length nodes) ≤ USIZE_MAX)%N).

(** The signals the run starts with, its own not set. *)
Context (sig : signals) (Hsignal : sig !! CancellationToken.signal token = Some None).

(** ** Turns of the system *)

Lemma insert_same R n m : <[n := sys_tasks R n]> (sys_tasks R) m = sys_tasks R m.
Proof.
  destruct (decide (n = m)) as [<-|Hne]; [by rewrite fn_lookup_insert|].
  by rewrite fn_lookup_insert_ne.
Qed.

Lemma same_node node nd :
  node ∈ nodes → nd ∈ nodes → NodeDefinition.id node = NodeDefinition.id nd → node = nd.
Proof. intros Hn Hnd. eapply NoDup_fmap_same; [apply Hvalid|done|done]. Qed.

Lemma find_start node :
  node ∈ nodes →
  iter_find (λ s, bool_decide (start_node_id s = NodeDefinition.id node)) starts
  = Some (start_for node).
Proof.
  intros Hnode. destruct (iter_find_is_some (λ s, bool_decide (start_node_id s
    = NodeDefinition.id node)) starts (start_for node)) as [s Hs].
  { apply list_elem_of_fmap. by exists node. }
  { by apply bool_decide_eq_true. }
  rewrite Hs. apply iter_find_elem in Hs as [(nd & -> & Hnd)%list_elem_of_fmap Heq].
  apply bool_decide_eq_true in Heq. simpl in Heq. do 2 f_equal. by apply same_node.
Qed.

Lemma system_turn_node R node :
  node ∈ nodes →
  let r := task_turn (start_for node) (sys_tasks R (NodeDefinition.id node)) (sys_world R) in
  system_turn starts R (NodeDefinition.id node)
  = mk_system (<[NodeDefinition.id node := r.1]> (sys_tasks R)) r.2.
Proof.
  intros Hnode r. unfold system_turn. rewrite find_start by done. unfold r.
  by destruct (task_turn _ _ _).
Qed.

(** Only the measure of the node that moves changes. *)
Lemma total_insert (measure : NodeDefinition → node_task St → nat) R node t' w' :
  node ∈ nodes →
  let n := NodeDefinition.id node in
  total measure (mk_system (<[n := t']> (sys_tasks R)) w') + measure node (sys_tasks R n)
  = total measure R + measure node t'.
Proof.
  intros Hnode n. unfold RunCompletes.total. simpl.
  pose proof (sum_list_with_one
    (λ nd, measure nd (<[n := t']> (sys_tasks R) (NodeDefinition.id nd)))
    (λ nd, measure nd (sys_tasks R (NodeDefinition.id nd))) nodes node) as Hsum.
  cbn beta in Hsum. unfold n in *. rewrite fn_lookup_insert in Hsum. apply Hsum; [|done|].
  - destruct Hvalid as [Hnd _]. by apply NoDup_fmap_1 in Hnd.
  - intros y Hy Hne. rewrite fn_lookup_insert_ne; [done|]. intros Heq. by apply Hne, same_node.
Qed.

Lemma total_same measure R R' :
  (∀ m, sys_tasks R' m = sys_tasks R m) → total measure R' = total measure R.
Proof. intros H. apply sum_list_with_ext. intros nd _. by rewrite H. Qed.

Lemma total_cancel_le R : total cancel_measure R ≤ total task_measure R.
Proof. apply sum_list_with_le. intros nd _. unfold RunCompletes.task_measure. lia. Qed.

(** The node has returned, or waits for one that has not. *)
Definition idle R (n : NodeId) : Prop := task_ended (sys_tasks R n) = true ∨ waiting R n.

Lemma idle_same R R' n : (∀ m, sys_tasks R' m = sys_tasks R m) → idle R' n → idle R n.
Proof.
  intros H [He|(a & Ha & He)]; rewrite H in He; [by left|right]. by exists a.
Qed.

(** In an acyclic workflow not every task can be idle, unless all have ended. *)
Lemma all_idle_ended R :
  (∀ n, n ∈ node_names nodes → idle R n) →
  ∀ n, n ∈ node_names nodes → task_ended (sys_tasks R n) = true.
Proof.
  intros Hidle n Hn. destruct (task_ended (sys_tasks R n)) eqn:He; [done|]. exfalso.
  apply (acyclic_no_blocked_set (arcs edges)
    (λ m, m ∈ node_names nodes ∧ task_ended (sys_tasks R m) = false) n Hacyclic); [|done].
  intros m [Hm Hme]. destruct (Hidle m Hm) as [?|(a & Ha & Hae)]; [congruence|].
  exists a. split; [done|]. split; [|done]. by destruct (arcs_declared _ _ _ _ Hvalid Ha).
Qed.

(** ** The collector *)

(** The results are those of the tasks that have ended, once each, and the summary and
    the signals are those of the results. *)
Record collected_inv C : Prop := {
  ci_results : ∀ n r, (n, r) ∈ col_results C →
    n ∈ node_names nodes ∧ task_at (sys_tasks (col_system C) n) = TaskEnded r;
  ci_ended : ∀ n, n ∈ node_names nodes → task_ended (sys_tasks (col_system C) n) = true →
    n ∈ (col_results C).*1;
  ci_once : NoDup (col_results C).*1;
  ci_summary : col_summary C = Ok (summary_of (N.of_nat (length nodes)) (col_results C).*2);
  ci_signals : w_signals (sys_world (col_system C)) = signals_after collection (col_results C).*2 sig;
  ci_settled : ∀ node, node ∈ nodes → settled node (sys_tasks (col_system C) (NodeDefinition.id node));
}.

Lemma collected_room C n :
  collected_inv C → n ∈ node_names nodes → task_ended (sys_tasks (col_system C) n) = false →
  n ∉ (col_results C).*1 ∧ (N.of_nat (length (col_results C).*2) + 1 ≤ USIZE_MAX)%N.
Proof.
  intros HC Hn Hrun.
  assert (Hnew : n ∉ (col_results C).*1).
  { intros ([m r] & -> & Hin)%list_elem_of_fmap. destruct (ci_results C HC m r Hin) as [_ Ht].
    simpl in Hrun. unfold task_ended in Hrun. by rewrite Ht in Hrun. }
  split; [done|]. rewrite length_fmap.
  assert (Hle : length (n :: (col_results C).*1) ≤ length (node_names nodes)).
  { apply submseteq_length, NoDup_submseteq.
    - constructor; [done|apply HC].
    - intros m [->|([m' r] & -> & Hin)%list_elem_of_fmap]%elem_of_cons; [done|].
      by apply (ci_results C HC m' r Hin). }
  unfold node_names in Hle. simpl in Hle. rewrite !length_fmap in Hle. lia.
Qed.

(** A turn that does not end the task. *)
Lemma collected_inv_running C node t' w' :
  collected_inv C → node ∈ nodes →
  let n := NodeDefinition.id node in
  task_ended (sys_tasks (col_system C) n) = false → task_ended t' = false → settled node t' →
  w_signals w' = w_signals (sys_world (col_system C)) →
  collected_inv (mk_collected (mk_system (<[n := t']> (sys_tasks (col_system C))) w')
                   (col_results C) (col_summary C)).
Proof.
  intros [H1 H2 H3 H4 H5 H6] Hnode n Hrun Hrun' Hset Hsig. split; simpl; try done.
  - intros m r Hin. destruct (H1 m r Hin) as [Hm Ht]. split; [done|].
    rewrite fn_lookup_insert_ne; [done|]. intros <-. unfold task_ended in Hrun.
    by rewrite Ht in Hrun.
  - intros m Hm. destruct (decide (n = m)) as [<-|Hne].
    + rewrite fn_lookup_insert. congruence.
    + rewrite fn_lookup_insert_ne by done. by apply H2.
  - by rewrite Hsig.
  - intros nd Hnd. destruct (decide (n = NodeDefinition.id nd)) as [Heq|Hne].
    + rewrite <- Heq, fn_lookup_insert. by rewrite <- (same_node node nd).
    + rewrite fn_lookup_insert_ne by done. by apply H6.
Qed.

(** A turn that ends the task: the collector takes the result. *)
Lemma collected_inv_ended C node t' w' r :
  collected_inv C → node ∈ nodes →
  let n := NodeDefinition.id node in
  let R := mk_system (<[n := t']> (sys_tasks (col_system C))) w' in
  task_ended (sys_tasks (col_system C) n) = false → task_at t' = TaskEnded r →
  w_signals w' = w_signals (sys_world (col_system C)) →
  let s := summary_of (N.of_nat (length nodes)) (col_results C).*2 in
  let o := record_node_run_result collection s r w' in
  collected_inv (mk_collected (mk_system (sys_tasks R) o.2) (col_results C ++ [(n, r)]) o.1).
Proof.
  intros HC Hnode n R Hrun Ht Hsig s o.
  assert (Hn : n ∈ node_names nodes) by (by apply list_elem_of_fmap_2).
  destruct (collected_room C n HC Hn Hrun) as [Hnew Hroom].
  pose proof (record_node_run_result_spec sink_accepts collection (N.of_nat (length nodes))
    (col_results C).*2 r sig w' Hroom) as Ho. fold s o in Ho.
  rewrite (ci_signals C HC) in Hsig. specialize (Ho Hsig). destruct o as [recorded w2].
  destruct Ho as (-> & Hs & _). destruct HC as [H1 H2 H3 H4 H5 H6].
  split; simpl; rewrite ?fmap_app; try done.
  - intros m r' [Hin|Hin%list_elem_of_singleton]%elem_of_app.
    + destruct (H1 m r' Hin) as [Hm Htm]. split; [done|]. rewrite fn_lookup_insert_ne; [done|].
      intros <-. apply Hnew. by apply (list_elem_of_fmap_2 fst _ (n, r')).
    + simplify_eq. by rewrite fn_lookup_insert.
  - intros m Hm Hend. apply elem_of_app. destruct (decide (n = m)) as [<-|Hne]; [right; by left|].
    rewrite fn_lookup_insert_ne in Hend by done. left. by apply H2.
  - apply NoDup_app. split_and!; [done| |apply NoDup_singleton].
    intros m Hm ->%list_elem_of_singleton. done.
  - intros nd Hnd. destruct (decide (n = NodeDefinition.id nd)) as [<-|Hne].
    + rewrite fn_lookup_insert. unfold settled. by rewrite Ht.
    + rewrite fn_lookup_insert_ne by done. by apply H6.
Qed.

Lemma errors_after (l : list (NodeId * result unit PureflowError)) n r :
  errors_of (l ++ [(n, r)]).*2
  = errors_of l.*2 ++ match result_error r with Some e => [e] | None => [] end.
Proof. rewrite fmap_app. apply errors_of_snoc. Qed.

(** ** The two phases of a run *)

Definition healthy C : Prop :=
  collected_inv C ∧ run_inv (col_system C) ∧ errors_of (col_results C).*2 = [].

(** A node has failed, with an error of its own, and before any other. *)
Definition broken C : Prop :=
  collected_inv C ∧ ∃ node err, node ∈ nodes ∧ head (errors_of (col_results C).*2) = Some err
    ∧ let t := sys_tasks (col_system C) (NodeDefinition.id node) in
      task_at t = TaskEnded (Err err)
      ∧ fails (executor_of node) (context_of node) (task_received t) err.

(** The turns that are left. *)
Inductive phase_at C : nat → Prop :=
| phase_healthy : healthy C → phase_at C (total task_measure (col_system C))
| phase_broken : broken C → phase_at C (total cancel_measure (col_system C)).

Lemma broken_cancelled C :
  broken C → CancellationToken.is_cancelled (w_signals (sys_world (col_system C))) token = true.
Proof.
  intros [HC (node & err & _ & Hh & _)]. rewrite (ci_signals C HC). unfold signals_after.
  rewrite Hh. by apply cancelled_signal.
Qed.

Lemma collected_turn_ended C n :
  task_ended (sys_tasks (col_system C) n) = true → collected_turn collection starts C n = C.
Proof. destruct C as [R results [s|e]]; simpl; [|done]. by intros ->. Qed.

(** The turn of a node that has not ended. *)
Lemma collected_turn_node C node :
  collected_inv C → node ∈ nodes →
  let n := NodeDefinition.id node in
  let R := col_system C in
  task_ended (sys_tasks R n) = false →
  let r := task_turn (start_for node) (sys_tasks R n) (sys_world R) in
  let R' := mk_system (<[n := r.1]> (sys_tasks R)) r.2 in
  collected_turn collection starts C n
  = match task_at r.1 with
    | TaskEnded res =>
        let o := record_node_run_result collection
                   (summary_of (N.of_nat (length nodes)) (col_results C).*2) res r.2 in
        mk_collected (mk_system (sys_tasks R') o.2) (col_results C ++ [(n, res)]) o.1
    | _ => mk_collected R' (col_results C) (col_summary C)
    end.
Proof.
  intros HC Hnode n R Hrun r R'. pose proof (ci_summary C HC) as Hs.
  assert (Hturn : system_turn starts R n = R') by (by apply system_turn_node).
  destruct C as [R0 results summary]. simpl in *. subst summary. subst R. rewrite Hrun, Hturn.
  unfold R'. cbn [sys_tasks sys_world]. rewrite fn_lookup_insert.
  destruct (task_at r.1) as [|st|res]; [done|done|].
  by destruct (record_node_run_result _ _ _ _) as [recorded w2].
Qed.

Lemma task_ended_at (t : node_task St) r : task_at t = TaskEnded r → task_ended t = true.
Proof. unfold task_ended. by intros ->. Qed.

Lemma healthy_turn C node :
  healthy C → node ∈ nodes →
  let n := NodeDefinition.id node in
  task_ended (sys_tasks (col_system C) n) = false →
  let C' := collected_turn collection starts C n in
  ∃ m, phase_at C' m
    ∧ (m < total task_measure (col_system C)
       ∨ m = total task_measure (col_system C)
         ∧ (∀ k, sys_tasks (col_system C') k = sys_tasks (col_system C) k)
         ∧ waiting (col_system C) n).
Proof.
  intros (HC & HR & Herr) Hnode n Hrun C'. unfold C', n.
  rewrite (collected_turn_node C node HC Hnode Hrun).
  pose proof (task_turn_ok sink_accepts workflow execution executor_of base token Hvalid Hports
    Hadmissible (col_system C) node HR Hnode (ci_settled C HC node Hnode) Hrun) as Hstep.
  pose proof (task_turn_settled workflow execution executor_of base token node
    (sys_tasks (col_system C) n) (sys_world (col_system C)) (ci_settled C HC node Hnode)) as Hset.
  fold n in Hset, Hstep |- *. set (r := task_turn _ _ _) in *. clearbody r. destruct r as [t' w'].
  cbn [fst snd] in *. set (R' := mk_system (<[n := t']> _) w').
  destruct Hstep as [(HR' & Hsig & Hm)|(err & Ht & Hfails & Hsig)].
  - assert (Hphase : ∀ C1, healthy C1 → (∀ k, sys_tasks (col_system C1) k = sys_tasks R' k) →
      ∃ m, phase_at C1 m ∧ (m < total task_measure (col_system C)
        ∨ m = total task_measure (col_system C)
          ∧ (∀ k, sys_tasks (col_system C1) k = sys_tasks (col_system C) k)
          ∧ waiting (col_system C) n)).
    { intros C1 H1 Hs. exists (total task_measure (col_system C1)). split; [by constructor|].
      pose proof (total_insert task_measure (col_system C) node t' w' Hnode) as Htot; cbv zeta in Htot.
      fold n R' in Htot. rewrite (total_same task_measure R' (col_system C1) Hs).
      destruct Hm as [Hlt|[-> Hw]]; [left; fold n in Hlt; lia|]. right. fold n in Htot.
      split_and!; [lia| |exact Hw]. intros k. rewrite Hs. apply insert_same. }
    destruct (task_at t') as [|st|res] eqn:Hat.
    1,2: apply Hphase; [|done]; split_and!; [|exact HR'|exact Herr];
      apply collected_inv_running; [done|done|done|unfold task_ended; by rewrite Hat|done|done].
    pose proof (ri_nodes _ _ _ _ _ _ HR' node Hnode) as [_ _ _ Hti]. fold n in Hti.
    simpl in Hti. rewrite fn_lookup_insert in Hti. unfold task_inv in Hti. rewrite Hat in Hti.
    destruct Hti as [-> _]. apply Hphase; [|done].
    split_and!; [by apply (collected_inv_ended C node t' w')|exact HR'|].
    cbn [col_results]. by rewrite errors_after, Herr.
  - rewrite Ht. exists (total cancel_measure R'). split.
    + match goal with |- phase_at ?C1 _ => change (phase_at C1 (total cancel_measure (col_system C1))) end.
      constructor. split; [by apply (collected_inv_ended C node t' w')|].
      exists node, err. cbn [col_results col_system sys_tasks].
      unfold R'. cbn [sys_tasks]. fold n. by rewrite fn_lookup_insert, errors_after, Herr.
    + left. pose proof (total_insert cancel_measure (col_system C) node t' w' Hnode) as Htot; cbv zeta in Htot.
      fold n R' in Htot. pose proof (total_cancel_le (col_system C)) as Hle.
      assert (Hz : cancel_measure node t' = 0) by (unfold RunCompletes.cancel_measure; by rewrite Ht).
      assert (Hp : 0 < cancel_measure node (sys_tasks (col_system C) n)).
      { unfold RunCompletes.cancel_measure. unfold task_ended in Hrun. fold n in Hrun.
        destruct (task_at (sys_tasks (col_system C) n)); [lia|lia|done]. }
      lia.
Qed.

Lemma broken_turn C node :
  broken C → node ∈ nodes →
  let n := NodeDefinition.id node in
  task_ended (sys_tasks (col_system C) n) = false →
  let C' := collected_turn collection starts C n in
  broken C' ∧ total cancel_measure (col_system C') < total cancel_measure (col_system C).
Proof.
  intros HB Hnode n Hrun C'. unfold C', n. pose proof HB as [HC (nd & err & Hnd & Hh & Hat & Hf)].
  rewrite (collected_turn_node C node HC Hnode Hrun).
  destruct (cancelled_turn workflow execution executor_of base token Hadmissible node
    (sys_tasks (col_system C) n) (sys_world (col_system C)) Hnode (broken_cancelled C HB)
    (ci_settled C HC node Hnode) Hrun) as [Hsig Hlt].
  pose proof (task_turn_settled workflow execution executor_of base token node
    (sys_tasks (col_system C) n) (sys_world (col_system C)) (ci_settled C HC node Hnode)) as Hset.
  fold n in Hset, Hsig, Hlt |- *. set (r := task_turn _ _ _) in *. clearbody r.
  destruct r as [t' w']. cbn [fst snd] in *.
  assert (Hother : n ≠ NodeDefinition.id nd).
  { intros Heq. apply task_ended_at in Hat. rewrite <- Heq in Hat. fold n in Hrun. congruence. }
  pose proof (total_insert cancel_measure (col_system C) node t' w' Hnode) as Htot; cbv zeta in Htot. fold n in Htot.
  destruct (task_at t') as [|st|res] eqn:Ht'.
  1,2: (split; [|simpl; lia]); (split; [apply collected_inv_running;
      [done|done|done|unfold task_ended; by rewrite Ht'|done|done]|]);
    exists nd, err; simpl; rewrite fn_lookup_insert_ne by done; done.
  split; [|cbn [col_system]; rewrite (total_same cancel_measure
    (mk_system (<[n := t']> (sys_tasks (col_system C))) w')) by done; lia].
  split; [by apply (collected_inv_ended C node t' w')|]. exists nd, err.
  cbn [col_results col_system sys_tasks].
  rewrite fn_lookup_insert_ne, errors_after by done. split_and!; try done.
  by destruct (errors_of (col_results C).*2).
Qed.

(** ** Schedules *)

Lemma system_turn_unknown R n : n ∉ node_names nodes → system_turn starts R n = R.
Proof.
  intros Hn. unfold system_turn. destruct (iter_find _ starts) as [s|] eqn:Hs; [|done].
  apply iter_find_elem in Hs as [(nd & -> & Hnd)%list_elem_of_fmap Heq].
  apply bool_decide_eq_true in Heq. simpl in Heq. destruct Hn. apply list_elem_of_fmap. by exists nd.
Qed.

Lemma collected_turn_unknown C n :
  n ∉ node_names nodes → collected_turn collection starts C n = C.
Proof.
  intros Hn. destruct C as [R results [s|e]]; simpl; [|done].
  destruct (task_ended (sys_tasks R n)) eqn:He; [done|]. rewrite system_turn_unknown by done.
  unfold task_ended in He. by destruct (task_at (sys_tasks R n)).
Qed.

(** A turn brings the run nearer to its end, or its node is idle. *)
Lemma collected_turn_ok C m n :
  phase_at C m →
  let C' := collected_turn collection starts C n in
  ∃ m', phase_at C' m'
    ∧ (m' < m ∨ m' = m ∧ (∀ k, sys_tasks (col_system C') k = sys_tasks (col_system C) k)
                ∧ (n ∈ node_names nodes → idle (col_system C) n)).
Proof.
  intros Hph C'. destruct (decide (n ∈ node_names nodes)) as [Hn|Hn].
  2: { exists m. unfold C'. rewrite collected_turn_unknown by done. split; [done|].
       right. by split_and!. }
  destruct (task_ended (sys_tasks (col_system C) n)) eqn:He.
  { exists m. unfold C'. rewrite collected_turn_ended by done. split; [done|].
    right. split_and!; [done|done|]. intros _. by left. }
  apply list_elem_of_fmap in Hn as (node & -> & Hnode). destruct Hph as [HC|HC].
  - destruct (healthy_turn C node HC Hnode He) as (m' & Hph & Hm). exists m'. split; [exact Hph|].
    destruct Hm as [Hlt|(Hm & Hs & Hw)]; [by left|right].
    split_and!; [exact Hm|exact Hs|]. intros _. by right.
  - destruct (broken_turn C node HC Hnode He) as [HB Hlt].
    exists (total cancel_measure (col_system C')). split; [by constructor|by left].
Qed.

Lemma run_collected_ok schedule C m :
  phase_at C m →
  let C' := run_collected collection starts schedule C in
  ∃ m', phase_at C' m'
    ∧ (m' < m ∨ m' = m ∧ (∀ k, sys_tasks (col_system C') k = sys_tasks (col_system C) k)
                ∧ ∀ n, n ∈ schedule → n ∈ node_names nodes → idle (col_system C) n).
Proof.
  revert C m. induction schedule as [|n schedule IH]; intros C m HC; simpl.
  { exists m. split; [done|]. right. split_and!; [done|done|set_solver]. }
  destruct (collected_turn_ok C m n HC) as (m1 & HC1 & Hm1).
  destruct (IH _ m1 HC1) as (m2 & HC2 & Hm2). exists m2. split; [exact HC2|].
  destruct Hm1 as [?|(-> & Hs1 & Hi1)], Hm2 as [?|(-> & Hs2 & Hi2)]; try (left; lia).
  right. split_and!; [done|intros k; etrans; [apply Hs2|apply Hs1]|].
  intros k [->|Hk]%elem_of_cons Hin; [auto|]. by eapply idle_same, Hi2.
Qed.

(** The measure is nought exactly when every node has returned. *)
Lemma ended_total C m :
  phase_at C m →
  m = 0 ↔ ∀ n, n ∈ node_names nodes → task_ended (sys_tasks (col_system C) n) = true.
Proof.
  assert (Hz : ∀ node t, task_measure node t = 0 ↔ task_ended t = true).
  { intros node t. unfold RunCompletes.task_measure, RunCompletes.cancel_measure, task_ended.
    destruct (task_at t); split; done || lia. }
  assert (Hc : ∀ node t, cancel_measure node t = 0 ↔ task_ended t = true).
  { intros node t. unfold RunCompletes.cancel_measure, task_ended.
    destruct (task_at t); split; done || lia. }
  assert (Hall : ∀ measure, (∀ node t, measure node t = 0 ↔ task_ended t = true) →
    total measure (col_system C) = 0
    ↔ ∀ n, n ∈ node_names nodes → task_ended (sys_tasks (col_system C) n) = true).
  { intros measure Hmz. split.
    - intros H n (node & -> & Hnode)%list_elem_of_fmap. apply (Hmz node).
      pose proof (sum_list_with_in node (λ node, measure node
        (sys_tasks (col_system C) (NodeDefinition.id node))) nodes Hnode) as Hle.
      cbn beta in Hle. unfold RunCompletes.total in H. lia.
    - intros H. apply sum_list_with_zero. intros node Hnode. apply Hmz, H.
      by apply list_elem_of_fmap_2. }
  intros [_|_]; by apply Hall.
Qed.

(** A round gives every node a turn, in any order and any number of times. *)
Definition round (schedule : list NodeId) : Prop := ∀ n, n ∈ node_names nodes → n ∈ schedule.

Lemma rounds_end rounds C m :
  phase_at C m → Forall round rounds → m ≤ length rounds →
  let C' := run_collected collection starts (concat rounds) C in
  (healthy C' ∨ broken C')
  ∧ ∀ n, n ∈ node_names nodes → task_ended (sys_tasks (col_system C') n) = true.
Proof.
  revert C m. induction rounds as [|schedule rounds IH]; intros C m HC Hfair Hlen.
  { simpl in *. split; [by destruct HC; auto|]. apply (ended_total C m HC). lia. }
  apply Forall_cons in Hfair as [Hround Hfair]. simpl in Hlen. simpl.
  unfold run_collected. rewrite foldl_app.
  destruct (run_collected_ok schedule C m HC) as (m' & HC' & Hm).
  apply (IH _ m' HC' Hfair). destruct Hm as [?|(-> & Hs & Hi)]; [lia|].
  enough (m = 0) by lia. apply (ended_total C m HC), all_idle_ended.
  intros n Hn. apply Hi; [by apply Hround|done].
Qed.

(** ** The start of a run *)

Lemma collection_start_healthy w w' c (ss : list (NodeStart E)) :
  base = length (w_chans w) → token = CancellationHandle.token c → sig = w_signals w' →
  prepared workflow w w' c ss → healthy (collection_start (length nodes) w').
Proof.
  intros Hb Htok Hsig Hp.
  assert (Hview : ∀ ie, ie ∈ enumerate edges → chan_at w' (base + ie.1) = Some
    (mk_view [] 0 (Pos.to_nat (EdgeCapacity.resolve (EdgeDefinition.capacity ie.2)
       DEFAULT_EDGE_CAPACITY)) true true)).
  { intros [i e] Hi%elem_of_enumerate. simpl. by rewrite Hb, (prep_new _ _ _ _ _ Hp), Hi. }
  split_and!; [split; simpl; try done; [set_solver|constructor]| |done].
  split.
  - rewrite Htok. apply (prep_active _ _ _ _ _ Hp).
  - intros ie Hie. eexists. split; [simpl; by apply Hview|done|simpl; lia|done|done|done|done].
  - intros node Hnode. split.
    + simpl. apply reflexive_eq, arriving_ext. intros ie [Hie _]%elem_of_in_edges.
      unfold queue_on. by rewrite Hview.
    + done.
    + intros ie [Hie Htn]%elem_of_in_edges Hnot. destruct Hnot. simpl. by eapply edge_target.
    + by split.
Qed.

(** Every node has given the collector its result. *)
Lemma results_complete C :
  collected_inv C →
  (∀ n, n ∈ node_names nodes → task_ended (sys_tasks (col_system C) n) = true) →
  (col_results C).*1 ≡ₚ node_names nodes.
Proof.
  intros HC Hall. apply NoDup_Permutation; [apply HC|apply Hvalid|]. intros n. split.
  - intros ([m r] & -> & Hin)%list_elem_of_fmap. by apply (ci_results C HC m r Hin).
  - intros Hn. apply (ci_ended C HC n Hn). by apply Hall.
Qed.
End collected.

(** ** The end of a run *)

Section completion.
Context `{J : JsonNumber} {S : Type} `{!MetadataSink S} `{M : !Mpsc PortPacket}
  `{!MpscDrop PortPacket}.
Context {E St : Type} `{NF : !NodeFuture (S := S) E St} `{!OneShot E St}.

(** Every node has returned and the collector has made the summary of the results. *)
Record run_ended (workflow : WorkflowDefinition) (C : collected_run (S := S) St) : Prop := {
  re_nodes : (col_results C).*1 ≡ₚ node_names (WorkflowDefinition.nodes workflow);
  re_results : ∀ n r, (n, r) ∈ col_results C → task_at (sys_tasks (col_system C) n) = TaskEnded r;
  re_summary : col_summary C
    = Ok (summary_of (N.of_nat (length (WorkflowDefinition.nodes workflow))) (col_results C).*2);
}.

(** What the caller of the run is given. *)
Definition run_result (C : collected_run (S := S) St) : result unit PureflowError :=
  let? summary := col_summary C in WorkflowRunSummary.into_result summary.

Lemma run_ended_result workflow C :
  run_ended workflow C →
  run_result C = match head (errors_of (col_results C).*2) with Some e => Err e | None => Ok tt end.
Proof. intros [_ _ Hs]. unfold run_result. by rewrite Hs. Qed.

(** Without an error, the summary counts every node as completed. *)
Lemma run_ended_completed workflow C :
  run_ended workflow C → errors_of (col_results C).*2 = [] →
  let n := N.of_nat (length (WorkflowDefinition.nodes workflow)) in
  col_summary C
  = Ok (WorkflowRunSummary.mk WorkflowTerminalState.Completed n n 0 0 0 0 None None).
Proof.
  intros [Hn _ ->] He n. unfold summary_of. rewrite He. cbv zeta. simpl.
  rewrite length_fmap, Nat.sub_0_r. apply Permutation_length in Hn.
  unfold node_names in Hn. rewrite !length_fmap in Hn. by rewrite Hn.
Qed.

Lemma run_ended_tasks workflow C node :
  run_ended workflow C → node ∈ WorkflowDefinition.nodes workflow →
  task_ended (sys_tasks (col_system C) (NodeDefinition.id node)) = true.
Proof.
  intros [Hn Hr _] Hnode. assert (Hin : NodeDefinition.id node ∈ (col_results C).*1).
  { rewrite Hn. by apply list_elem_of_fmap_2. }
  apply list_elem_of_fmap in Hin as ([m r] & -> & Hin). unfold task_ended. simpl.
  by rewrite (Hr m r Hin).
Qed.

(** A run prepared with executors that keep the promise of [OneShot]: once every task
    has had as many turns as its measure allows, the run has ended.  Either every node
    has completed, has received what was sent to it and nothing else, and has accounted
    for it; or the first error of the run is one that a node has failed with. *)
Lemma one_shot_run_ends (workflow : WorkflowDefinition) (execution : ExecutionMetadata)
  (executor_of : NodeDefinition → E) (lookup : NodeId → result E PureflowError)
  (bound : NodeDefinition → nat) (w : world (S := S)) (rounds : list (list NodeId)) :
  let nodes := WorkflowDefinition.nodes workflow in
  let edges := WorkflowDefinition.edges workflow in
  let context_of token node :=
    NodeContext.mk (WorkflowDefinition.id workflow) (NodeDefinition.id node) execution token in
  (∀ sig (s : S) r, (sink_record sig s r).1 = Ok tt) →
  structurally_valid nodes edges → Forall ports_distinct nodes → acyclic (arcs edges) →
  NoDup (arcs edges) → (N.of_nat (length nodes) ≤ USIZE_MAX)%N →
  (∀ node, node ∈ nodes → lookup (NodeDefinition.id node) = Ok (executor_of node)) →
  (∀ node token, node ∈ nodes →
     admissible (executor_of node) (context_of token node) (NodeDefinition.input_ports node)
       (NodeDefinition.output_ports node) (indegree workflow (NodeDefinition.id node))
     ∧ weight (executor_of node) (NodeDefinition.output_ports node)
         (node_begin (executor_of node) (context_of token node)) ≤ bound node) →
  Forall (round workflow) rounds →
  sum_list_with (λ node, 2 * indegree workflow (NodeDefinition.id node) + bound node + 2) nodes
    ≤ length rounds →
  ∃ c starts w',
    prepare_run workflow execution lookup WorkflowRunPolicy.default None w
    = Done (Ok (c, starts), w')
    ∧ let C := run_collected (mk_collection c workflow execution WorkflowRunPolicy.default) starts
                 (concat rounds) (collection_start (length nodes) w') in
      let R := col_system C in
      run_ended workflow C
      ∧ ((errors_of (col_results C).*2 = [] ∧ ∀ node, node ∈ nodes →
            let t := sys_tasks R (NodeDefinition.id node) in
            task_at t = TaskEnded (Ok tt)
            ∧ task_received t ≡ₚ arriving workflow (sent_on R) (NodeDefinition.id node)
            ∧ ∃ st, node_result st = Some (Ok tt)
                    ∧ accounts (executor_of node) (context_of (CancellationHandle.token c) node) st
                        (task_received t) (task_sent t))
         ∨ ∃ node err, node ∈ nodes ∧ head (errors_of (col_results C).*2) = Some err
             ∧ let t := sys_tasks R (NodeDefinition.id node) in
               task_at t = TaskEnded (Err err)
               ∧ fails (executor_of node) (context_of (CancellationHandle.token c) node)
                   (task_received t) err).
Proof.
  intros nodes edges context_of Hsink Hvalid Hports Hacyclic Hsimple Hfits Hget Hexec Hrounds Henough.
  destruct (prepare_starts workflow execution executor_of lookup w Hvalid Hacyclic Hsimple Hget)
    as (c & w' & Hprep).
  eexists c, _, w'. split; [exact Hprep|]. intros C R.
  apply prepare_run_prepared in Hprep; [|apply Hvalid|done].
  destruct c as [token].
  pose proof (phase_healthy workflow execution executor_of (length (w_chans w)) token
    WorkflowRunPolicy.default (w_signals w') (collection_start (length nodes) w')
    (collection_start_healthy Hsink workflow execution executor_of (length (w_chans w)) token
       WorkflowRunPolicy.default Hvalid Hports (λ nd Hnd, proj1 (Hexec nd token Hnd)) Hacyclic Hfits
       (w_signals w') (prep_active _ _ _ _ _ Hprep) w w' (CancellationHandle.mk token) _
       eq_refl eq_refl eq_refl Hprep)) as Hstart.
  destruct (rounds_end Hsink workflow execution executor_of (length (w_chans w)) token
    WorkflowRunPolicy.default Hvalid Hports (λ nd Hnd, proj1 (Hexec nd token Hnd)) Hacyclic Hfits
    (w_signals w') (prep_active _ _ _ _ _ Hprep) rounds _ _ Hstart Hrounds) as [HC Hended].
  { etrans; [|exact Henough]. apply sum_list_with_le. intros nd Hnd.
    destruct (Hexec nd token Hnd) as [_ Hb].
    change (context_of token nd) with
      (RunInvariant.context_of workflow execution executor_of (length (w_chans w)) token nd) in Hb.
    unfold task_measure, cancel_measure. simpl. lia. }
  change (healthy workflow execution executor_of (length (w_chans w)) token
      WorkflowRunPolicy.default (w_signals w') C
    ∨ broken workflow execution executor_of (length (w_chans w)) token
        WorkflowRunPolicy.default (w_signals w') C) in HC.
  change (∀ n, n ∈ node_names nodes → task_ended (sys_tasks R n) = true) in Hended.
  assert (Hci : collected_inv workflow execution executor_of token WorkflowRunPolicy.default (w_signals w') C)
    by (by destruct HC as [[? _]|[? _]]).
  split.
  { split; [by eapply results_complete| |apply Hci].
    intros n r Hin. by apply (ci_results _ _ _ _ _ _ C Hci n r Hin). }
  destruct HC as [(_ & HR & Herr)|[_ Hfail]]; [left; split; [exact Herr|]|right; exact Hfail].
  intros node Hnode t. pose proof (ri_nodes _ _ _ _ _ _ HR node Hnode) as [Hflow _ Ho Hti].
  specialize (Hended (NodeDefinition.id node) ltac:(by apply list_elem_of_fmap; exists node)).
  fold R in Hflow, Ho, Hti. fold t in Hended, Hflow, Ho, Hti. unfold task_inv, pending_inputs, task_ended in *.
  destruct (task_at t) as [| |r]; [done|done|]. destruct Hti as [-> Hacc].
  split_and!; [done| |exact Hacc]. rewrite <- Hflow.
  assert (arriving workflow (queue_on (length (w_chans w)) (sys_world R)) (NodeDefinition.id node)
    = []) as ->; [|by rewrite app_nil_r].
  apply bind_nil_in. intros ie Hie. destruct (Ho ie Hie) as [Hq _]; [set_solver|].
  by rewrite Hq.
Qed.
End completion.
