(* ===== verification/Introspection.v ===== *)
(** [pureflow-introspection], views of workflows
    (src/crates/pureflow-introspection/src/lib.rs): the projection of a validated
    workflow, and its JSON rendering under the serde feature. *)

From S2P Require Import Prelude RustStr BTree Types Workflow Structure Capability Errors Contract Json Context Message Metadata MetadataJson.

(** ** The view *)

Module EnforcementLevel.
Inductive EnforcementLevel : Set := Advisory | Strict.
End EnforcementLevel.
Notation EnforcementLevel := EnforcementLevel.EnforcementLevel.

Module PortIntrospection.
Record PortIntrospection : Set := mk {
  port_id : PortId;
  direction : PortDirection;
  schema : option SchemaRef;
  capability : PortCapabilityDirection;
}.
End PortIntrospection.
Notation PortIntrospection := PortIntrospection.PortIntrospection.

Module NodeIntrospection.
Record NodeIntrospection : Set := mk {
  node_id : NodeId;
  ports : list PortIntrospection;
  execution_mode : ExecutionMode;
  enforcement : EnforcementLevel;
  determinism : Determinism;
  retry : RetryDisposition;
  effects : list EffectCapability;
}.
End NodeIntrospection.
Notation NodeIntrospection := NodeIntrospection.NodeIntrospection.

Module EndpointIntrospection.
Record EndpointIntrospection : Set := mk { node_id : NodeId; port_id : PortId }.
Definition from_endpoint (endpoint : EdgeEndpoint) : EndpointIntrospection :=
  mk (EdgeEndpoint.node_id endpoint) (EdgeEndpoint.port_id endpoint).
End EndpointIntrospection.
Notation EndpointIntrospection := EndpointIntrospection.EndpointIntrospection.

Module EdgeIntrospection.
Record EdgeIntrospection : Set := mk {
  source : EndpointIntrospection;
  target : EndpointIntrospection;
  capacity : EdgeCapacity;
  source_schema : option SchemaRef;
  target_schema : option SchemaRef;
}.
End EdgeIntrospection.
Notation EdgeIntrospection := EdgeIntrospection.EdgeIntrospection.

Module WorkflowIntrospection.
Record WorkflowIntrospection : Set := mk {
  workflow_id : WorkflowId;
  nodes : list NodeIntrospection;
  edges : list EdgeIntrospection;
}.
End WorkflowIntrospection.
Notation WorkflowIntrospection := WorkflowIntrospection.WorkflowIntrospection.

(** ** The projection *)

Definition enforcement_for (execution_mode : ExecutionMode) : EnforcementLevel :=
  match execution_mode with
  | ExecutionMode.Native => EnforcementLevel.Advisory
  | ExecutionMode.Wasm | ExecutionMode.Process => EnforcementLevel.Strict
  end.

Definition endpoint_schema (endpoint : EdgeEndpoint)
    (contracts_by_node : btree_map NodeId NodeContract) : option SchemaRef :=
  match BTreeMap.get (EdgeEndpoint.node_id endpoint) contracts_by_node with
  | None => None
  | Some contract =>
      match iter_find (λ port, bool_decide (PortContract.port_id port = EdgeEndpoint.port_id endpoint))
              (NodeContract.ports contract) with
      | None => None
      | Some port => PortContract.schema port
      end
  end.

Definition introspect_edge (contracts_by_node : btree_map NodeId NodeContract)
    (edge : EdgeDefinition) : EdgeIntrospection :=
  EdgeIntrospection.mk (EndpointIntrospection.from_endpoint (EdgeDefinition.source edge))
    (EndpointIntrospection.from_endpoint (EdgeDefinition.target edge))
    (EdgeDefinition.capacity edge)
    (endpoint_schema (EdgeDefinition.source edge) contracts_by_node)
    (endpoint_schema (EdgeDefinition.target edge) contracts_by_node).

Definition introspect_port (node_id : NodeId) (contract_ports : btree_map PortId PortContract)
    (capability_ports : btree_map PortId PortCapability) (entry : PortId * PortDirection) :
    result PortIntrospection ContractValidationError :=
  let (port_id, direction) := entry in
  let? contract := ok_or (BTreeMap.get port_id contract_ports)
    (ContractValidationError.UnknownWorkflowPort node_id port_id direction) in
  let? capability := ok_or (BTreeMap.get port_id capability_ports)
    (ContractValidationError.MissingCapabilityDescriptor node_id) in
  Ok (PortIntrospection.mk port_id direction (PortContract.schema contract)
        (PortCapability.direction capability)).

Definition capability_port_map (c : NodeCapabilities) : btree_map PortId PortCapability :=
  BTreeMap.collect ((λ port, (PortCapability.port_id port, port)) <$> NodeCapabilities.ports c).

(** The ports of a node in the order they are described. *)
Definition directed_ports (node : NodeDefinition) : list (PortId * PortDirection) :=
  ((λ p, (p, PortDirection.Input)) <$> NodeDefinition.input_ports node)
  ++ ((λ p, (p, PortDirection.Output)) <$> NodeDefinition.output_ports node).

Definition introspect_node (node : NodeDefinition) (contract : NodeContract)
    (capability : NodeCapabilities) : result NodeIntrospection ContractValidationError :=
  let contract_ports := NodeContract.port_map contract in
  let capability_ports := capability_port_map capability in
  let? ports := try_collect
    (introspect_port (NodeDefinition.id node) contract_ports capability_ports)
    (directed_ports node) in
  Ok (NodeIntrospection.mk (NodeDefinition.id node) ports (NodeContract.execution_mode contract)
        (enforcement_for (NodeContract.execution_mode contract))
        (NodeContract.determinism contract) (NodeContract.retry contract)
        (NodeCapabilities.effects capability)).

Definition introspect_workflow (workflow : WorkflowDefinition) (contracts : list NodeContract)
    (capabilities : list NodeCapabilities) :
    result WorkflowIntrospection ContractValidationError :=
  let? _ := validate_workflow_contracts workflow contracts capabilities in
  let contracts_by_node := BTreeMap.collect ((λ c, (NodeContract.id c, c)) <$> contracts) in
  let capabilities_by_node :=
    BTreeMap.collect ((λ c, (NodeCapabilities.node_id c, c)) <$> capabilities) in
  let? nodes := try_collect (λ node,
    let? contract := ok_or (BTreeMap.get (NodeDefinition.id node) contracts_by_node)
      (ContractValidationError.UnknownWorkflowNode (NodeDefinition.id node)) in
    let? capability := ok_or (BTreeMap.get (NodeDefinition.id node) capabilities_by_node)
      (ContractValidationError.MissingCapabilityDescriptor (NodeDefinition.id node)) in
    introspect_node node contract capability) (WorkflowDefinition.nodes workflow) in
  let edges := introspect_edge contracts_by_node <$> WorkflowDefinition.edges workflow in
  Ok (WorkflowIntrospection.mk (WorkflowDefinition.id workflow) nodes edges).

(** ** The JSON rendering *)

Definition execution_mode_label (m : ExecutionMode) : rstr :=
  match m with
  | ExecutionMode.Native => lit "native"
  | ExecutionMode.Wasm => lit "wasm"
  | ExecutionMode.Process => lit "process"
  end.
Definition enforcement_label (e : EnforcementLevel) : rstr :=
  match e with
  | EnforcementLevel.Advisory => lit "advisory"
  | EnforcementLevel.Strict => lit "strict"
  end.
Definition determinism_label (d : Determinism) : rstr :=
  match d with
  | Determinism.Deterministic => lit "deterministic"
  | Determinism.NonDeterministic => lit "non_deterministic"
  | Determinism.Unknown => lit "unknown"
  end.
Definition retry_label (r : RetryDisposition) : rstr :=
  match r with
  | RetryDisposition.Never => lit "never"
  | RetryDisposition.Safe => lit "safe"
  | RetryDisposition.Unknown => lit "unknown"
  end.
Definition port_direction_label (d : PortDirection) : rstr :=
  match d with PortDirection.Input => lit "input" | PortDirection.Output => lit "output" end.
Definition port_capability_label (c : PortCapabilityDirection) : rstr :=
  match c with
  | PortCapabilityDirection.Receive => lit "receive"
  | PortCapabilityDirection.Emit => lit "emit"
  end.
Definition effect_label (e : EffectCapability) : rstr := EffectCapability.as_str e.

Section json.
Context `{J : JsonNumber}.
Notation str := Value.String.
Notation obj := Value.object.

Definition endpoint_to_json (e : EndpointIntrospection) : Value :=
  obj [(lit "node_id", str (as_str (EndpointIntrospection.node_id e)));
       (lit "port_id", str (as_str (EndpointIntrospection.port_id e)))].

Definition edge_capacity_to_json (c : EdgeCapacity) : Value :=
  match c with
  | EdgeCapacity.Default => obj [(lit "kind", str (lit "default"))]
  | EdgeCapacity.Explicit value =>
      obj [(lit "kind", str (lit "explicit")); (lit "value", Value.of_usize (Npos value))]
  end.

Definition schema_to_json (s : option SchemaRef) : Value :=
  Value.of_option (λ s, str (PortContract.schema_str s)) s.

Definition edge_to_json (e : EdgeIntrospection) : Value :=
  obj [(lit "source", endpoint_to_json (EdgeIntrospection.source e));
       (lit "target", endpoint_to_json (EdgeIntrospection.target e));
       (lit "capacity", edge_capacity_to_json (EdgeIntrospection.capacity e));
       (lit "source_schema", schema_to_json (EdgeIntrospection.source_schema e));
       (lit "target_schema", schema_to_json (EdgeIntrospection.target_schema e))].

Definition port_to_json (p : PortIntrospection) : Value :=
  obj [(lit "port_id", str (as_str (PortIntrospection.port_id p)));
       (lit "direction", str (port_direction_label (PortIntrospection.direction p)));
       (lit "schema", schema_to_json (PortIntrospection.schema p));
       (lit "capability", str (port_capability_label (PortIntrospection.capability p)))].

Definition node_to_json (n : NodeIntrospection) : Value :=
  obj [(lit "node_id", str (as_str (NodeIntrospection.node_id n)));
       (lit "execution_mode", str (execution_mode_label (NodeIntrospection.execution_mode n)));
       (lit "enforcement", str (enforcement_label (NodeIntrospection.enforcement n)));
       (lit "determinism", str (determinism_label (NodeIntrospection.determinism n)));
       (lit "retry", str (retry_label (NodeIntrospection.retry n)));
       (lit "effects", Value.Array ((λ e, str (effect_label e)) <$> NodeIntrospection.effects n));
       (lit "ports", Value.Array (port_to_json <$> NodeIntrospection.ports n))].

Definition workflow_introspection_to_json_value (w : WorkflowIntrospection) : Value :=
  obj [(lit "workflow_id", str (as_str (WorkflowIntrospection.workflow_id w)));
       (lit "nodes", Value.Array (node_to_json <$> WorkflowIntrospection.nodes w));
       (lit "edges", Value.Array (edge_to_json <$> WorkflowIntrospection.edges w))].
End json.

(** ** Lemmas *)

(** A port the descriptor claims, in whatever direction. *)
Definition port_claimed (cap : NodeCapabilities) (p : PortId) : Prop :=
  p ∈ PortCapability.port_id <$> NodeCapabilities.ports cap.

(** Validation does not ask for it, but a description does. *)
Definition all_ports_claimed (capabilities : list NodeCapabilities) (node : NodeDefinition) : Prop :=
  ∀ cap p, capability_for capabilities (NodeDefinition.id node) = Some cap →
    p ∈ NodeDefinition.input_ports node ++ NodeDefinition.output_ports node → port_claimed cap p.

(** The view of a port as its contract and its descriptor state it. *)
Definition port_view (c : NodeContract) (cap : NodeCapabilities) (entry : PortId * PortDirection)
    (v : PortIntrospection) : Prop :=
  PortIntrospection.port_id v = entry.1 ∧ PortIntrospection.direction v = entry.2
  ∧ PortContract.new entry.1 entry.2 (PortIntrospection.schema v) ∈ NodeContract.ports c
  ∧ PortCapability.new entry.1 (PortIntrospection.capability v) ∈ NodeCapabilities.ports cap.

Lemma directed_ports_elem node p d : (p, d) ∈ directed_ports node ↔ p ∈ ports_of d node.
Proof.
  unfold directed_ports. rewrite elem_of_app, !list_elem_of_fmap. destruct d; simpl; naive_solver.
Qed.

Lemma capability_port_map_get cap p port :
  BTreeMap.get p (capability_port_map cap) = Some port →
  port ∈ NodeCapabilities.ports cap ∧ PortCapability.port_id port = p.
Proof.
  unfold capability_port_map. intros Hg. rewrite BTreeMap.get_collect_last in Hg.
  apply last_Some_elem_of, list_elem_of_filter in Hg. tauto.
Qed.

Lemma capability_port_map_claimed cap p :
  is_Some (BTreeMap.get p (capability_port_map cap)) ↔ port_claimed cap p.
Proof.
  unfold capability_port_map, port_claimed.
  rewrite BTreeMap.get_Some_keys, BTreeMap.elem_of_keys_collect.
  by rewrite <- list_fmap_compose.
Qed.

Lemma introspect_port_ok n c cap entry v :
  contract_wf c →
  (∃ s, PortContract.new entry.1 entry.2 s ∈ NodeContract.ports c) →
  introspect_port n (NodeContract.port_map c) (capability_port_map cap) entry = Ok v →
  port_view c cap entry v.
Proof.
  destruct entry as [p d]. simpl. intros Hwf [s Hs]
    (port & Hport%ok_or_ok & (claim & Hclaim%ok_or_ok & ?)%result_bind_ok)%result_bind_ok.
  rewrite (proj2 (port_map_get c p _ Hwf) (conj Hs eq_refl)) in Hport. simplify_eq.
  apply capability_port_map_get in Hclaim as [Hin Hid].
  split_and!; [done|done|done|]. simpl. destruct claim as [q e]. simpl in *. by subst.
Qed.

Lemma introspect_port_total n c cap entry :
  contract_wf c → (∃ s, PortContract.new entry.1 entry.2 s ∈ NodeContract.ports c) →
  (∃ v, introspect_port n (NodeContract.port_map c) (capability_port_map cap) entry = Ok v)
  ↔ port_claimed cap entry.1.
Proof.
  destruct entry as [p d]. simpl. intros Hwf [s Hs].
  rewrite (proj2 (port_map_get c p _ Hwf) (conj Hs eq_refl)). simpl.
  rewrite <- capability_port_map_claimed. unfold is_Some.
  destruct (BTreeMap.get p (capability_port_map cap)); simpl; naive_solver.
Qed.

(** The view of a node. *)
Definition node_view (contracts : list NodeContract) (capabilities : list NodeCapabilities)
    (node : NodeDefinition) (v : NodeIntrospection) : Prop :=
  ∃ c cap, contract_for contracts (NodeDefinition.id node) = Some c
    ∧ capability_for capabilities (NodeDefinition.id node) = Some cap
    ∧ NodeIntrospection.node_id v = NodeDefinition.id node
    ∧ Forall2 (port_view c cap) (directed_ports node) (NodeIntrospection.ports v)
    ∧ NodeIntrospection.execution_mode v = NodeContract.execution_mode c
    ∧ NodeIntrospection.determinism v = NodeContract.determinism c
    ∧ NodeIntrospection.retry v = NodeContract.retry c
    ∧ NodeIntrospection.effects v = NodeCapabilities.effects cap
    ∧ (NodeIntrospection.enforcement v = EnforcementLevel.Strict →
       NodeIntrospection.effects v = []).

(** The maps from a node to its contract, and its description through them. *)
Definition contracts_by_node (contracts : list NodeContract) : btree_map NodeId NodeContract :=
  BTreeMap.collect ((λ c, (NodeContract.id c, c)) <$> contracts).

Definition describe_node (contracts : list NodeContract) (capabilities : list NodeCapabilities)
    (node : NodeDefinition) : result NodeIntrospection ContractValidationError :=
  let? contract := ok_or (BTreeMap.get (NodeDefinition.id node) (contracts_by_node contracts))
    (ContractValidationError.UnknownWorkflowNode (NodeDefinition.id node)) in
  let? capability := ok_or (BTreeMap.get (NodeDefinition.id node)
      (BTreeMap.collect ((λ c, (NodeCapabilities.node_id c, c)) <$> capabilities)))
    (ContractValidationError.MissingCapabilityDescriptor (NodeDefinition.id node)) in
  introspect_node node contract capability.

Lemma describe_node_eq contracts capabilities node c cap :
  contract_for contracts (NodeDefinition.id node) = Some c →
  capability_for capabilities (NodeDefinition.id node) = Some cap →
  describe_node contracts capabilities node = introspect_node node c cap.
Proof.
  intros Hc Hcap. unfold describe_node, contracts_by_node.
  rewrite !BTreeMap.get_collect_last.
  fold (contract_for contracts (NodeDefinition.id node)).
  fold (capability_for capabilities (NodeDefinition.id node)). by rewrite Hc, Hcap.
Qed.

(** The schema a contract gives to an endpoint, and the view of an edge. *)
Definition endpoint_view (contracts : list NodeContract) (ep : EdgeEndpoint) (d : PortDirection)
    (s : option SchemaRef) : Prop :=
  ∃ c, contract_for contracts (EdgeEndpoint.node_id ep) = Some c
    ∧ PortContract.new (EdgeEndpoint.port_id ep) d s ∈ NodeContract.ports c.

Definition edge_view (contracts : list NodeContract) (e : EdgeDefinition) (v : EdgeIntrospection) :
    Prop :=
  EdgeIntrospection.source v
    = EndpointIntrospection.mk (EdgeEndpoint.node_id (EdgeDefinition.source e))
        (EdgeEndpoint.port_id (EdgeDefinition.source e))
  ∧ EdgeIntrospection.target v
    = EndpointIntrospection.mk (EdgeEndpoint.node_id (EdgeDefinition.target e))
        (EdgeEndpoint.port_id (EdgeDefinition.target e))
  ∧ EdgeIntrospection.capacity v = EdgeDefinition.capacity e
  ∧ endpoint_view contracts (EdgeDefinition.source e) PortDirection.Output
      (EdgeIntrospection.source_schema v)
  ∧ endpoint_view contracts (EdgeDefinition.target e) PortDirection.Input
      (EdgeIntrospection.target_schema v).

Section projection.
Variables (w : WorkflowDefinition) (contracts : list NodeContract)
  (capabilities : list NodeCapabilities).
Hypothesis Hw : workflow_wf w.
Hypothesis Hwf : Forall contract_wf contracts.

Lemma introspect_node_ok node c cap v :
  contract_for contracts (NodeDefinition.id node) = Some c →
  capability_for capabilities (NodeDefinition.id node) = Some cap →
  contract_matches node c → effects_enforceable c cap →
  introspect_node node c cap = Ok v → node_view contracts capabilities node v.
Proof.
  intros Hc Hcap Hm He (ports & Hports%try_collect_ok & ?)%result_bind_ok. simplify_eq.
  exists c, cap. split_and!; try done; simpl.
  - assert (Hmem : ∀ entry, entry ∈ directed_ports node →
      ∃ s, PortContract.new entry.1 entry.2 s ∈ NodeContract.ports c).
    { intros [p d] Hin%directed_ports_elem. by apply Hm. }
    apply contract_for_wf in Hc; [|done]. clear -Hports Hmem Hc.
    induction Hports as [|entry pv l k Hpv _ IH]; constructor.
    + eapply introspect_port_ok; [done|apply Hmem; left|exact Hpv].
    + apply IH. intros e Hin. apply Hmem. by right.
  - destruct He as [->|?]; [done|done].
Qed.

Lemma introspect_node_total node c cap :
  contract_wf c → contract_matches node c →
  (∃ v, introspect_node node c cap = Ok v)
  ↔ (∀ p, p ∈ NodeDefinition.input_ports node ++ NodeDefinition.output_ports node →
       port_claimed cap p).
Proof.
  intros Hc Hm. transitivity (Forall (λ entry, port_claimed cap entry.1) (directed_ports node)).
  - unfold introspect_node. transitivity (∃ ps, try_collect
      (introspect_port (NodeDefinition.id node) (NodeContract.port_map c) (capability_port_map cap))
      (directed_ports node) = Ok ps).
    { split; [intros (v & (ps & Hps & _)%result_bind_ok); by exists ps|].
      intros (ps & ->). simpl. by eexists. }
    assert (Hmem : ∀ entry, entry ∈ directed_ports node →
      ∃ s, PortContract.new entry.1 entry.2 s ∈ NodeContract.ports c).
    { intros [p d] Hin%directed_ports_elem. by apply Hm. }
    setoid_rewrite try_collect_ok. induction (directed_ports node) as [|entry l IH].
    { split; [done|]. intros _. exists []. constructor. }
    rewrite Forall_cons, <- (introspect_port_total (NodeDefinition.id node) c cap entry Hc)
      by (apply Hmem; left). rewrite <- IH by (intros e He; apply Hmem; by right). split.
    + intros (ps & Hps). inversion Hps; subst. eauto.
    + intros [[v Hv] [ps Hps]]. exists (v :: ps). by constructor.
  - rewrite Forall_forall. split.
    + intros Hall p. rewrite elem_of_app. intros [Hp|Hp].
      * apply (Hall (p, PortDirection.Input)). by apply directed_ports_elem.
      * apply (Hall (p, PortDirection.Output)). by apply directed_ports_elem.
    + intros Hall [p d] Hin%directed_ports_elem. apply Hall. apply elem_of_app.
      destruct d; [by left|by right].
Qed.

(** The nodes are described when validation passed and every port is claimed. *)
Lemma introspect_nodes_total :
  contracts_valid w contracts capabilities →
  (∃ vs, try_collect (describe_node contracts capabilities) (WorkflowDefinition.nodes w) = Ok vs)
  ↔ Forall (all_ports_claimed capabilities) (WorkflowDefinition.nodes w).
Proof.
  intros Hv. pose proof (cv_nodes _ _ _ Hv) as Hn. revert Hn.
  induction (WorkflowDefinition.nodes w) as [|node l IH]; intros Hn.
  { split; [done|]. intros _. by exists []. }
  rewrite Forall_cons, <- IH by (intros; apply Hn; by right).
  destruct (Hn node ltac:(left)) as (c & cap & Hc & Hcap & Hm & _).
  simpl. rewrite (describe_node_eq _ _ node c cap) by done.
  assert (Hclaim : all_ports_claimed capabilities node ↔
    ∃ v, introspect_node node c cap = Ok v).
  { rewrite introspect_node_total by eauto using contract_for_wf.
    unfold all_ports_claimed. naive_solver. }
  rewrite Hclaim. setoid_rewrite result_bind_ok. setoid_rewrite result_bind_ok. naive_solver.
Qed.

Lemma introspect_nodes_view vs :
  contracts_valid w contracts capabilities →
  try_collect (describe_node contracts capabilities) (WorkflowDefinition.nodes w) = Ok vs →
  Forall2 (node_view contracts capabilities) (WorkflowDefinition.nodes w) vs.
Proof.
  intros Hv Hvs%try_collect_ok. pose proof (cv_nodes _ _ _ Hv) as Hn. revert Hn.
  induction Hvs as [|node v l k Hnode _ IH]; intros Hn; constructor.
  - destruct (Hn node ltac:(left)) as (c & cap & Hc & Hcap & Hm & He).
    rewrite (describe_node_eq _ _ node c cap) in Hnode by done.
    by eapply introspect_node_ok.
  - apply IH. intros node' ?. apply Hn. by right.
Qed.

Lemma endpoint_schema_view ep d :
  contracts_valid w contracts capabilities →
  endpoint_ok (WorkflowDefinition.nodes w) ep d →
  endpoint_view contracts ep d (endpoint_schema ep (contracts_by_node contracts)).
Proof.
  intros Hv (node & Hin & Hid & Hport).
  destruct (cv_nodes _ _ _ Hv node Hin) as (c & cap & Hc & _ & Hm & _). rewrite Hid in Hc.
  exists c. split; [done|]. unfold endpoint_schema, contracts_by_node.
  rewrite BTreeMap.get_collect_last. fold (contract_for contracts (EdgeEndpoint.node_id ep)).
  rewrite Hc. destruct (proj1 (Hm _ _) Hport) as [s Hs]. apply contract_for_wf in Hc; [|done].
  assert (is_Some (iter_find (λ port, bool_decide (PortContract.port_id port = EdgeEndpoint.port_id ep))
    (NodeContract.ports c))) as [port Hf].
  { eapply iter_find_is_some; [exact Hs|]. by apply bool_decide_eq_true. }
  rewrite Hf. apply iter_find_elem in Hf as [Hpin Hp%bool_decide_eq_true].
  pose proof (proj2 (port_map_get c _ port Hc) (conj Hpin Hp)) as E1.
  rewrite (proj2 (port_map_get c (EdgeEndpoint.port_id ep) _ Hc) (conj Hs eq_refl)) in E1. by simplify_eq.
Qed.

Lemma introspect_edges_view :
  contracts_valid w contracts capabilities →
  Forall2 (edge_view contracts) (WorkflowDefinition.edges w)
    (introspect_edge (contracts_by_node contracts) <$> WorkflowDefinition.edges w).
Proof.
  intros Hv. destruct Hw as [[_ Hedges] _].
  apply Forall2_fmap_r, Forall_Forall2_diag, (Forall_impl _ _ _ Hedges).
  intros e [Hs Ht]. split_and!; try done; simpl; by apply endpoint_schema_view.
Qed.
End projection.

(** ** Properties *)

(** [introspect_workflow] describes a workflow exactly when the contract
    validation accepts it and the capability descriptor of every node names every
    port the node declares, and the description then lists the nodes in order,
    each port with the schema of its contract and the direction its descriptor
    claims, strict nodes without effects, and every edge with its endpoints,
    capacity and the schemas of the two ports it joins. *)
Theorem introspect_workflow_spec (w : WorkflowDefinition) (contracts : list NodeContract)
  (capabilities : list NodeCapabilities)
  (Hw : workflow_wf w) (Hwf : Forall contract_wf contracts) :
  ((∃ view, introspect_workflow w contracts capabilities = Ok view)
    ↔ contracts_valid w contracts capabilities
      ∧ Forall (all_ports_claimed capabilities) (WorkflowDefinition.nodes w))
  ∧ (∀ view, introspect_workflow w contracts capabilities = Ok view →
      WorkflowIntrospection.workflow_id view = WorkflowDefinition.id w
      ∧ Forall2 (node_view contracts capabilities) (WorkflowDefinition.nodes w)
          (WorkflowIntrospection.nodes view)
      ∧ Forall2 (edge_view contracts) (WorkflowDefinition.edges w)
          (WorkflowIntrospection.edges view)).
Proof.
  split; [split|].
  - intros (view & ([] & Hv & (vs & Hvs & _)%result_bind_ok)%result_bind_ok).
    apply validate_workflow_contracts_ok in Hv; [|done..].
    split; [done|]. apply (introspect_nodes_total w contracts capabilities Hwf Hv). by exists vs.
  - intros [Hv Hall]. apply (introspect_nodes_total w contracts capabilities Hwf Hv) in Hall as [vs Hvs].
    unfold introspect_workflow.
    rewrite (proj2 (validate_workflow_contracts_ok w contracts capabilities Hw Hwf) Hv).
    simpl. unfold describe_node, contracts_by_node in Hvs. rewrite Hvs. by eexists.
  - intros view ([] & Hv & (vs & Hvs & E)%result_bind_ok)%result_bind_ok. cbv zeta in E. injection E as <-.
    apply validate_workflow_contracts_ok in Hv; [|done..]. split_and!; [done|..].
    + by apply introspect_nodes_view.
    + by apply (introspect_edges_view w contracts capabilities).
Qed.

Lemma introspect_workflow_spec_witness :
  ∃ view, introspect_workflow pipeline pipeline_contracts pipeline_capabilities = Ok view
    ∧ Forall2 (node_view pipeline_contracts pipeline_capabilities)
        (WorkflowDefinition.nodes pipeline) (WorkflowIntrospection.nodes view).
Proof.
  assert (Hwf : Forall contract_wf pipeline_contracts).
  { unfold contract_wf. apply (bool_decide_eq_true_1 _). vm_compute. done. }
  eexists. split; [vm_compute; reflexivity|].
  destruct (introspect_workflow_spec pipeline pipeline_contracts pipeline_capabilities
              pipeline_wf Hwf) as [_ Hview].
  apply Hview. vm_compute. reflexivity.
Defined.

(** A descriptor may leave ports out: the contracts validate, yet the workflow has
    no description. *)
Example unclaimed_port_has_no_description :
  let silent := [NodeCapabilities.mk (ident "a") [] [];
                 NodeCapabilities.mk (ident "b") [] []] in
  validate_workflow_contracts pipeline pipeline_contracts silent = Ok tt
  ∧ introspect_workflow pipeline pipeline_contracts silent
    = Err (ContractValidationError.MissingCapabilityDescriptor (ident "a")).
Proof. split; vm_compute; reflexivity. Qed.
