(* ===== verification/IntrospectRules.v ===== *)
(** [pureflow-introspection], views of rule sets
    (src/crates/pureflow-introspection/src/rules.rs): the summary of every rule,
    the surfaces its condition reads, and the analysis of unreachable rules. *)

From Stdlib Require Import ZArith Floats.SpecFloat.
From S2P Require Import Prelude RustStr BTree Types Json Context Message Metadata Rules RuleEval RuleContract.

(** ** The view *)

Module RuleActionSummary.
Inductive RuleActionSummary : Set :=
| Route (port : PortId)
| Drop
| DeadLetter
| Tag (key : rstr)
| Halt.
End RuleActionSummary.
Notation RuleActionSummary := RuleActionSummary.RuleActionSummary.

Module ConditionSurfaceSummary.
Record ConditionSurfaceSummary : Set := mk {
  payload : bool;
  tag : bool;
  provenance : bool;
  execution_context : bool;
  constant : bool;
}.
Definition default : ConditionSurfaceSummary := mk false false false false false.
Definition is_constant_only (s : ConditionSurfaceSummary) : bool :=
  constant s && negb (payload s) && negb (tag s) && negb (provenance s)
  && negb (execution_context s).
End ConditionSurfaceSummary.
Notation ConditionSurfaceSummary := ConditionSurfaceSummary.ConditionSurfaceSummary.

Module UnreachableReason.
Inductive UnreachableReason : Set :=
| ConditionIsNever
| ShadowedByAlways (shadowing_rule_id : rstr)
| ExactFieldEqSubsumed (shadowing_rule_id : rstr).
End UnreachableReason.
Notation UnreachableReason := UnreachableReason.UnreachableReason.

Module UnreachableRule.
Record UnreachableRule : Set := mk { rule_id : rstr; reason : UnreachableReason }.
End UnreachableRule.
Notation UnreachableRule := UnreachableRule.UnreachableRule.

Module RuleIntrospection.
Record RuleIntrospection : Set := mk {
  id : rstr;
  priority : N;
  description : rstr;
  action : RuleActionSummary;
  condition_surfaces : ConditionSurfaceSummary;
  target_ports : list PortId;
}.
End RuleIntrospection.
Notation RuleIntrospection := RuleIntrospection.RuleIntrospection.

Module RuleSetIntrospection.
Record RuleSetIntrospection : Set := mk {
  id : rstr;
  strategy : RuleEvalStrategy;
  rules : list RuleIntrospection;
  default_action : RuleActionSummary;
  trace_conditions : bool;
  unreachable_rules : list UnreachableRule;
}.
End RuleSetIntrospection.
Notation RuleSetIntrospection := RuleSetIntrospection.RuleSetIntrospection.

(** ** The projection *)

(** The first [match] of [collect_surfaces_inner]: the flag of one condition. *)
Definition mark_surface (s : ConditionSurface) (out : ConditionSurfaceSummary) :
    ConditionSurfaceSummary :=
  let 'ConditionSurfaceSummary.mk payload tag provenance execution_context constant := out in
  match s with
  | ConditionSurface.Payload =>
      ConditionSurfaceSummary.mk true tag provenance execution_context constant
  | ConditionSurface.Tag =>
      ConditionSurfaceSummary.mk payload true provenance execution_context constant
  | ConditionSurface.Provenance =>
      ConditionSurfaceSummary.mk payload tag true execution_context constant
  | ConditionSurface.ExecutionContext =>
      ConditionSurfaceSummary.mk payload tag provenance true constant
  | ConditionSurface.Constant =>
      ConditionSurfaceSummary.mk payload tag provenance execution_context true
  | ConditionSurface.Combinator => out
  end.

Fixpoint collect_surfaces_inner (condition : Condition) (out : ConditionSurfaceSummary) :
    ConditionSurfaceSummary :=
  let out := mark_surface (Condition.surface condition) out in
  match condition with
  | Condition.And inner | Condition.Or inner =>
      fold_left (λ out c, collect_surfaces_inner c out) inner out
  | Condition.Not inner => collect_surfaces_inner inner out
  | _ => out
  end.

Definition collect_surfaces (condition : Condition) : ConditionSurfaceSummary :=
  collect_surfaces_inner condition ConditionSurfaceSummary.default.

Definition collect_target_ports (action : RuleAction) : list PortId :=
  match action with RuleAction.Route port => [port] | _ => [] end.

Definition action_summary (action : RuleAction) : RuleActionSummary :=
  match action with
  | RuleAction.Route port => RuleActionSummary.Route port
  | RuleAction.Drop => RuleActionSummary.Drop
  | RuleAction.DeadLetter _ => RuleActionSummary.DeadLetter
  | RuleAction.Tag key _ => RuleActionSummary.Tag key
  | RuleAction.Halt _ => RuleActionSummary.Halt
  end.

(** [strategy_to_eval] of this crate. *)
Definition strategy_view (s : EvaluationStrategy) : RuleEvalStrategy :=
  match s with
  | EvaluationStrategy.FirstMatch => RuleEvalStrategy.FirstMatch
  | EvaluationStrategy.AllMatches => RuleEvalStrategy.AllMatches
  | EvaluationStrategy.Score => RuleEvalStrategy.Score
  end.

Definition is_never (condition : Condition) : bool :=
  match condition with Condition.Never => true | _ => false end.

Definition is_always (condition : Condition) : bool :=
  match condition with Condition.Always => true | _ => false end.

(** The three passes of [detect_unreachable], each appending to the report. *)
Fixpoint never_pass (rules : list Rule) (unreachable : list UnreachableRule) :
    list UnreachableRule :=
  match rules with
  | [] => unreachable
  | rule :: rules =>
      never_pass rules
        (if is_never (Rule.condition rule) then
           unreachable ++ [UnreachableRule.mk (Rule.id rule) UnreachableReason.ConditionIsNever]
         else unreachable)
  end.

Fixpoint always_pass (rules : list Rule) (always_rule_id : option rstr)
    (unreachable : list UnreachableRule) : list UnreachableRule :=
  match rules with
  | [] => unreachable
  | rule :: rules =>
      let unreachable :=
        match always_rule_id with
        | Some shadower =>
            if negb (is_never (Rule.condition rule)) then
              unreachable ++ [UnreachableRule.mk (Rule.id rule)
                                (UnreachableReason.ShadowedByAlways shadower)]
            else unreachable
        | None => unreachable
        end in
      let always_rule_id :=
        match always_rule_id with
        | None => if is_always (Rule.condition rule) then Some (Rule.id rule) else None
        | Some _ => always_rule_id
        end in
      always_pass rules always_rule_id unreachable
  end.

Definition already_reported (rule_id : rstr) (unreachable : list UnreachableRule) : bool :=
  existsb (λ u, bool_decide (UnreachableRule.rule_id u = rule_id)) unreachable.

(** The inner loop over the rules after [rule]; the derived equality of scalar
    values compares them as [scalar_eq] does. *)
Fixpoint field_eq_inner (rule : Rule) (p1 : FieldPath) (v1 : ScalarValue) (rules : list Rule)
    (unreachable : list UnreachableRule) : list UnreachableRule :=
  match rules with
  | [] => unreachable
  | later :: rules =>
      field_eq_inner rule p1 v1 rules
        (match Rule.condition later with
         | Condition.FieldEq p2 v2 =>
             if bool_decide (p1 = p2) && scalar_eq v1 v2
                && negb (already_reported (Rule.id later) unreachable) then
               unreachable ++ [UnreachableRule.mk (Rule.id later)
                                 (UnreachableReason.ExactFieldEqSubsumed (Rule.id rule))]
             else unreachable
         | _ => unreachable
         end)
  end.

Fixpoint field_eq_pass (rules : list Rule) (unreachable : list UnreachableRule) :
    list UnreachableRule :=
  match rules with
  | [] => unreachable
  | rule :: rules =>
      field_eq_pass rules
        (match Rule.condition rule with
         | Condition.FieldEq p1 v1 => field_eq_inner rule p1 v1 rules unreachable
         | _ => unreachable
         end)
  end.

Definition detect_unreachable (rule_set : RuleSet) : list UnreachableRule :=
  let rules := RuleSet.rules rule_set in
  let unreachable := never_pass rules [] in
  if decide (RuleSet.strategy rule_set = EvaluationStrategy.FirstMatch) then
    let unreachable := always_pass rules None unreachable in
    field_eq_pass rules unreachable
  else unreachable.

Definition introspect_rule (rule : Rule) : RuleIntrospection :=
  RuleIntrospection.mk (Rule.id rule) (Rule.priority rule) (Rule.description rule)
    (action_summary (Rule.action rule)) (collect_surfaces (Rule.condition rule))
    (collect_target_ports (Rule.action rule)).

Definition introspect_rule_set (rule_set : RuleSet) : RuleSetIntrospection :=
  RuleSetIntrospection.mk (RuleSet.id rule_set) (strategy_view (RuleSet.strategy rule_set))
    (introspect_rule <$> RuleSet.rules rule_set) (action_summary (RuleSet.default_action rule_set))
    (RuleSet.trace_conditions rule_set) (detect_unreachable rule_set).

(** ** What is reported *)

(** A rule after one it can not get past. *)
Definition always_shadows (s : Rule) : Prop := Rule.condition s = Condition.Always.
Definition field_eq_shadows (s r : Rule) : Prop :=
  ∃ p v1 v2, Rule.condition s = Condition.FieldEq p v1
    ∧ Rule.condition r = Condition.FieldEq p v2 ∧ scalar_eq v1 v2 = true.

(** The report [u] is about a rule of the list, for a reason that holds of it. *)
Definition explained (rules : list Rule) (u : UnreachableRule) : Prop :=
  ∃ l1 r l2, rules = l1 ++ r :: l2 ∧ Rule.id r = UnreachableRule.rule_id u
  ∧ match UnreachableRule.reason u with
    | UnreachableReason.ConditionIsNever => Rule.condition r = Condition.Never
    | UnreachableReason.ShadowedByAlways sid =>
        ∃ s, s ∈ l1 ∧ Rule.id s = sid ∧ always_shadows s
    | UnreachableReason.ExactFieldEqSubsumed sid =>
        ∃ s, s ∈ l1 ∧ Rule.id s = sid ∧ field_eq_shadows s r
    end.

(** The report names the rule. *)
Definition reported (report : list UnreachableRule) (r : Rule) : Prop :=
  Exists (λ u, UnreachableRule.rule_id u = Rule.id r) report.

#[export] Instance reported_dec report r : Decision (reported report r).
Proof. apply Exists_dec. intros u. apply _. Defined.

Lemma is_never_true c : is_never c = true ↔ c = Condition.Never.
Proof. by destruct c. Qed.
Lemma is_always_true c : is_always c = true ↔ c = Condition.Always.
Proof. by destruct c. Qed.

Lemma already_reported_true r report :
  already_reported (Rule.id r) report = true ↔ reported report r.
Proof.
  unfold already_reported, reported. rewrite existsb_exists, Exists_exists.
  setoid_rewrite bool_decide_eq_true. setoid_rewrite <- list_elem_of_In. done.
Qed.

Lemma reported_snoc report u r :
  reported (report ++ [u]) r ↔ reported report r ∨ UnreachableRule.rule_id u = Rule.id r.
Proof. unfold reported. rewrite Exists_app, Exists_cons, Exists_nil. tauto. Qed.

(** Each pass reports only what it can explain, loses no report, and reports what
    it looks for. *)
Lemma never_pass_sound pre rules acc :
  Forall (explained (pre ++ rules)) acc → Forall (explained (pre ++ rules)) (never_pass rules acc).
Proof.
  revert pre acc. induction rules as [|r rules IH]; intros pre acc Hacc; simpl; [done|].
  rewrite cons_middle, app_assoc. apply IH. rewrite <- app_assoc. simpl.
  destruct (is_never _) eqn:Hn; [|done]. apply is_never_true in Hn.
  apply Forall_app_2; [done|]. constructor; [|constructor]. by exists pre, r, rules.
Qed.

Lemma never_pass_reports rules acc r :
  reported acc r ∨ (r ∈ rules ∧ Rule.condition r = Condition.Never) →
  reported (never_pass rules acc) r.
Proof.
  revert acc. induction rules as [|x rules IH]; intros acc; simpl; [set_solver|].
  rewrite elem_of_cons. intros [Hr|[[->|Hin] Hn]]; apply IH.
  - left. destruct (is_never _); [apply reported_snoc; by left|done].
  - left. apply is_never_true in Hn as ->. apply reported_snoc. by right.
  - by right.
Qed.

Lemma always_pass_sound pre rules always acc :
  (∀ sid, always = Some sid → ∃ s, s ∈ pre ∧ Rule.id s = sid ∧ always_shadows s) →
  Forall (explained (pre ++ rules)) acc →
  Forall (explained (pre ++ rules)) (always_pass rules always acc).
Proof.
  revert pre always acc. induction rules as [|r rules IH]; intros pre always acc Ha Hacc; simpl;
    [done|].
  rewrite cons_middle, app_assoc. apply IH.
  - intros sid Hsid. destruct always as [sid'|]; simplify_eq.
    + destruct (Ha sid eq_refl) as (s & ? & ? & ?). exists s. rewrite elem_of_app. eauto.
    + destruct (is_always _) eqn:Hr; simplify_eq. apply is_always_true in Hr.
      exists r. rewrite elem_of_app. split_and!; [right; left|done|done].
  - rewrite <- app_assoc. simpl. destruct always as [sid|]; [|done].
    destruct (is_never _); simpl; [done|]. apply Forall_app_2; [done|].
    constructor; [|constructor]. exists pre, r, rules. split_and!; [done|done|].
    by apply Ha.
Qed.

Lemma always_pass_reports rules always acc r :
  reported acc r
  ∨ (∃ l1 l2, rules = l1 ++ r :: l2 ∧ Rule.condition r ≠ Condition.Never
      ∧ (is_Some always ∨ Exists always_shadows l1)) →
  reported (always_pass rules always acc) r.
Proof.
  revert always acc. induction rules as [|x rules IH]; intros always acc; simpl.
  { intros [?|(l1 & l2 & E & _)]; [done|]. by destruct l1. }
  intros [Hr|(l1 & l2 & E & Hn & Hs)]; apply IH.
  - left. destruct always; [|done]. destruct (is_never _); simpl; [done|].
    apply reported_snoc. by left.
  - destruct l1 as [|y l1]; simplify_eq/=.
    + left. destruct Hs as [[sid ->]|Hs]; [|by apply Exists_nil in Hs].
      destruct (is_never _) eqn:E; [by apply is_never_true in E|].
      apply reported_snoc. by right.
    + right. exists l1, l2. split_and!; [done|done|].
      destruct always as [sid|]; [by left; eexists|].
      destruct Hs as [[? ?]|[Hy|Hs]%Exists_cons]; [done| |by right].
      left. by rewrite (proj2 (is_always_true _) Hy).
Qed.

Lemma field_eq_inner_sound pre rule mid rules p v acc :
  Rule.condition rule = Condition.FieldEq p v →
  let all := pre ++ rule :: mid ++ rules in
  Forall (explained all) acc → Forall (explained all) (field_eq_inner rule p v rules acc).
Proof.
  intros Hc. simpl. revert mid acc. induction rules as [|r rules IH]; intros mid acc Hacc; simpl;
    [done|].
  rewrite (cons_middle r mid rules), (app_assoc mid [r] rules). apply IH. rewrite <- app_assoc.
  simpl. destruct (Rule.condition r) eqn:Hr; try done.
  destruct (bool_decide _ && _) eqn:Hb; simpl; [|done].
  destruct (negb _); [|done]. apply andb_true_iff in Hb as [<-%bool_decide_eq_true Hv].
  apply Forall_app_2; [done|]. constructor; [|constructor].
  exists (pre ++ rule :: mid), r, rules. split_and!; [by rewrite <- app_assoc|done|].
  exists rule. split_and!; [|done|by repeat eexists].
  apply elem_of_app. right. left.
Qed.

Lemma field_eq_inner_reports rule p v rules acc r :
  reported acc r
  ∨ (r ∈ rules ∧ ∃ v2, Rule.condition r = Condition.FieldEq p v2 ∧ scalar_eq v v2 = true) →
  reported (field_eq_inner rule p v rules acc) r.
Proof.
  revert acc. induction rules as [|x rules IH]; intros acc; simpl; [set_solver|].
  rewrite elem_of_cons. intros [Hr|[[<-|Hin] (v2 & Hc & Hv)]]; apply IH; [left|left|eauto].
  - destruct (Rule.condition x); try done. destruct (_ && _); [|done].
    apply reported_snoc. by left.
  - rewrite Hc, bool_decide_eq_true_2, Hv by done. simpl.
    destruct (already_reported _ _) eqn:Ha; simpl; [by apply already_reported_true|].
    apply reported_snoc. by right.
Qed.

Lemma field_eq_pass_sound pre rules acc :
  Forall (explained (pre ++ rules)) acc →
  Forall (explained (pre ++ rules)) (field_eq_pass rules acc).
Proof.
  revert pre acc. induction rules as [|r rules IH]; intros pre acc Hacc; simpl; [done|].
  rewrite cons_middle, app_assoc. apply IH. rewrite <- app_assoc. simpl.
  destruct (Rule.condition r) eqn:Hr; try done.
  by apply (field_eq_inner_sound pre r [] rules).
Qed.

Lemma field_eq_pass_reports rules acc r :
  reported acc r
  ∨ (∃ l1 l2, rules = l1 ++ r :: l2 ∧ Exists (λ s, field_eq_shadows s r) l1) →
  reported (field_eq_pass rules acc) r.
Proof.
  revert acc. induction rules as [|x rules IH]; intros acc; simpl.
  { intros [?|(l1 & l2 & E & _)]; [done|]. by destruct l1. }
  intros [Hr|(l1 & l2 & E & Hs)]; apply IH.
  - left. destruct (Rule.condition x); try done. apply field_eq_inner_reports. by left.
  - destruct l1 as [|y l1]; simplify_eq/=; [by apply Exists_nil in Hs|].
    apply Exists_cons in Hs as [(p & v1 & v2 & Hy & Hr & Hv)|Hs]; [left|eauto].
    rewrite Hy. apply field_eq_inner_reports. right. split; [|eauto].
    apply elem_of_app. right. left.
Qed.

(** ** What is reported can not fire *)

Lemma f64_eqb_compat v a b : f64_eqb a b = true → f64_eqb v a = f64_eqb v b.
Proof.
  unfold f64_eqb, SFeqb, SFcompare.
  destruct a as [[]|[]| |[] ma ea], b as [[]|[]| |[] mb eb]; try done;
    (destruct (Z.compare_spec ea eb) as [->|?|?]; [|done|done]);
    change (Pos.compare_cont Eq ma mb) with (Pos.compare ma mb);
    destruct (Pos.compare_spec ma mb) as [->|?|?]; done.
Qed.

Section inert.
Context `{J : JsonNumber}.

Lemma json_value_eq_scalar_compat json v1 v2 :
  scalar_eq v1 v2 = true → json_value_eq_scalar json v1 = json_value_eq_scalar json v2.
Proof.
  destruct v1, v2; simpl; try done.
  - by intros ->%bool_decide_eq_true.
  - by intros ->%Z.eqb_eq.
  - intros Hf. destruct json; simpl; try done. destruct (as_f64 _); [|done].
    by apply f64_eqb_compat.
  - by intros ->%Bool.eqb_prop.
Qed.

(** A rule after one with the same field test matches only when that one does. *)
Lemma field_eq_shadows_match payload context s r :
  field_eq_shadows s r → rule_matches payload context s = rule_matches payload context r.
Proof.
  intros (p & v1 & v2 & Hs & Hr & Hv). unfold rule_matches. rewrite Hs, Hr. simpl.
  destruct (resolve_payload payload p); simpl; [|done]. by apply json_value_eq_scalar_compat.
Qed.

Section pruning.
Variables (live : Rule → Prop) (payload : PacketPayload) (context : EvalContext).
Context `{∀ r, Decision (live r)}.

(** Leaving out rules that match only after a deciding one changes neither the
    deciding rule nor the tags applied before it. *)
Lemma prune_before_first rules :
  (∀ l1 r l2, rules = l1 ++ r :: l2 → ¬ live r → rule_matches payload context r = true →
    Exists (λ s, decisive payload context s = true) l1) →
  iter_find (decisive payload context) (filter live rules)
    = iter_find (decisive payload context) rules
  ∧ tags_from payload context (before_first (decisive payload context) (filter live rules))
    = tags_from payload context (before_first (decisive payload context) rules).
Proof.
  induction rules as [|r rules IH]; intros Hdead; [done|].
  assert (decisive payload context r = false →
    iter_find (decisive payload context) (filter live rules)
      = iter_find (decisive payload context) rules
    ∧ tags_from payload context (before_first (decisive payload context) (filter live rules))
      = tags_from payload context (before_first (decisive payload context) rules)) as IH'.
  { intros Hd. apply IH. intros l1 x l2 -> Hx Hm.
    destruct (proj1 (Exists_cons _ _ _) (Hdead (r :: l1) x l2 eq_refl Hx Hm)); [congruence|done]. }
  rewrite filter_cons. case_decide as Hl; simpl.
  - destruct (decisive payload context r); [done|]. rewrite !tags_from_cons.
    destruct (IH' eq_refl) as [-> ->]. done.
  - destruct (rule_matches payload context r) eqn:Hm.
    { by apply (Hdead [] r rules) in Hl as Hnil%Exists_nil. }
    assert (decisive payload context r = false) as Hd by (unfold decisive; by rewrite Hm).
    rewrite Hd, tags_from_cons, Hm. by apply IH'.
Qed.

(** Leaving out rules that do not match changes no tag. *)
Lemma prune_tags rules :
  (∀ r, r ∈ rules → ¬ live r → rule_matches payload context r = false) →
  tags_from payload context (filter live rules) = tags_from payload context rules.
Proof.
  induction rules as [|r rules IH]; intros Hdead; [done|].
  assert (tags_from payload context (filter live rules) = tags_from payload context rules) as IH'
    by (apply IH; intros; apply Hdead; [by right|done]).
  rewrite filter_cons, tags_from_cons. case_decide as Hl.
  - by rewrite tags_from_cons, IH'.
  - rewrite (Hdead r) by (by left || done). done.
Qed.
End pruning.
End inert.

(** An identifier determines where a rule stands. *)
Lemma split_by_id (l1 l1' l2 l2' : list Rule) r r' :
  NoDup (Rule.id <$> l1 ++ r :: l2) → l1 ++ r :: l2 = l1' ++ r' :: l2' →
  Rule.id r = Rule.id r' → l1 = l1' ∧ r = r'.
Proof.
  revert l1'. induction l1 as [|x l1 IH]; intros [|y l1'] Hnd E Hid; simplify_eq/=; [done|..].
  - apply NoDup_cons in Hnd as [Hni _]. destruct Hni.
    apply list_elem_of_fmap. exists r'. split; [done|]. apply elem_of_app. right. left.
  - apply NoDup_cons in Hnd as [Hni _]. destruct Hni. rewrite <- Hid.
    apply (list_elem_of_fmap_2 Rule.id), elem_of_app. right. left.
  - apply NoDup_cons in Hnd as [_ Hnd]. destruct (IH l1') as [-> ->]; done.
Qed.

Definition shadowing_rule_id (u : UnreachableRule) : option rstr :=
  match UnreachableRule.reason u with
  | UnreachableReason.ConditionIsNever => None
  | UnreachableReason.ShadowedByAlways sid | UnreachableReason.ExactFieldEqSubsumed sid => Some sid
  end.

(** The rules the report names as shadowing end evaluation when they match. *)
Definition shadows_terminal (rs : RuleSet) : Prop :=
  Forall (λ u, Forall (λ s, shadowing_rule_id u = Some (Rule.id s) →
    RuleAction.is_terminal (Rule.action s) = true) (RuleSet.rules rs)) (detect_unreachable rs).

(** The rule set without the rules reported as unreachable. *)
Definition without_unreachable (rs : RuleSet) : RuleSet :=
  RuleSet.mk (RuleSet.id rs) (RuleSet.strategy rs)
    (filter (λ r, ¬ reported (detect_unreachable rs) r) (RuleSet.rules rs))
    (RuleSet.default_action rs) (RuleSet.trace_conditions rs).

Lemma never_pass_reasons rules acc :
  Forall (λ u, shadowing_rule_id u = None) acc →
  Forall (λ u, shadowing_rule_id u = None) (never_pass rules acc).
Proof.
  revert acc. induction rules as [|r rules IH]; intros acc Hacc; simpl; [done|]. apply IH.
  destruct (is_never _); [|done]. apply Forall_app_2; [done|]. by constructor.
Qed.

Lemma detect_unreachable_explained rs :
  Forall (explained (RuleSet.rules rs)) (detect_unreachable rs)
  ∧ (RuleSet.strategy rs ≠ EvaluationStrategy.FirstMatch →
     Forall (λ u, shadowing_rule_id u = None) (detect_unreachable rs)).
Proof.
  unfold detect_unreachable. split.
  - pose proof (never_pass_sound [] (RuleSet.rules rs) [] ltac:(constructor)) as Hn.
    case_decide; [|done]. apply (field_eq_pass_sound []), (always_pass_sound []); [|done].
    intros ? [=].
  - intros Hs. rewrite decide_False by done. by apply never_pass_reasons.
Qed.

Section soundness.
Context `{J : JsonNumber, FloatDisplay}.
Variable rs : RuleSet.
Hypothesis Hids : NoDup (Rule.id <$> RuleSet.rules rs).
Hypothesis Hterm : shadows_terminal rs.

(** A reported rule that matches comes after a rule that decides. *)
Lemma reported_after_decisive payload context l1 r l2 :
  RuleSet.rules rs = l1 ++ r :: l2 → reported (detect_unreachable rs) r →
  rule_matches payload context r = true →
  RuleSet.strategy rs = EvaluationStrategy.FirstMatch
  ∧ Exists (λ s, decisive payload context s = true) l1.
Proof.
  intros E (u & Hu & Hid)%Exists_exists Hm.
  destruct (detect_unreachable_explained rs) as [Hex Hreason].
  rewrite Forall_forall in Hex. destruct (Hex u Hu) as (l1' & r' & l2' & E' & Hid' & Hwhy).
  destruct (split_by_id l1 l1' l2 l2' r r') as [<- <-]; [by rewrite <- E|congruence..|].
  assert (∀ s, s ∈ l1 → shadowing_rule_id u = Some (Rule.id s) →
    RuleAction.is_terminal (Rule.action s) = true) as Hst.
  { intros s Hs Hsid. unfold shadows_terminal in Hterm. rewrite Forall_forall in Hterm.
    specialize (Hterm u Hu). rewrite Forall_forall in Hterm. apply Hterm; [|done].
    rewrite E. apply elem_of_app. by left. }
  assert (Hfm : is_Some (shadowing_rule_id u) →
    RuleSet.strategy rs = EvaluationStrategy.FirstMatch).
  { intros [sid Hsid]. destruct (decide (RuleSet.strategy rs = EvaluationStrategy.FirstMatch))
      as [?|Hn]; [done|]. specialize (Hreason Hn). rewrite Forall_forall in Hreason.
    specialize (Hreason u Hu). congruence. }
  unfold shadowing_rule_id in Hst, Hfm.
  destruct (UnreachableRule.reason u); [exfalso|split; [eauto|]; apply Exists_exists..].
  - unfold rule_matches in Hm. by rewrite Hwhy in Hm.
  - destruct Hwhy as (s & Hs & <- & Ha). exists s. split; [done|]. unfold decisive.
    rewrite (Hst s) by done. unfold rule_matches. by rewrite Ha.
  - destruct Hwhy as (s & Hs & <- & Ha). exists s. split; [done|]. unfold decisive.
    by rewrite (Hst s), (field_eq_shadows_match _ _ s r), Hm by done.
Qed.

End soundness.

(** ** Surfaces *)

Section surfaces.
Context `{J : JsonNumber}.

(** Two inputs agree on the surfaces of a summary. *)
Record agree_on (s : ConditionSurfaceSummary) (p1 p2 : PacketPayload) (c1 c2 : EvalContext) : Prop := {
  agree_payload : ConditionSurfaceSummary.payload s = true → p1 = p2;
  agree_tag : ConditionSurfaceSummary.tag s = true → EvalContext.tags c1 = EvalContext.tags c2;
  agree_provenance : ConditionSurfaceSummary.provenance s = true →
    EvalContext.source_node c1 = EvalContext.source_node c2
    ∧ EvalContext.arrival_port c1 = EvalContext.arrival_port c2
    ∧ EvalContext.hop_count c1 = EvalContext.hop_count c2;
  agree_execution : ConditionSurfaceSummary.execution_context s = true →
    EvalContext.workflow_id c1 = EvalContext.workflow_id c2
    ∧ EvalContext.execution_metadata c1 = EvalContext.execution_metadata c2;
}.

Variables (p1 p2 : PacketPayload) (c1 c2 : EvalContext).

Lemma agree_on_mark s out : agree_on (mark_surface s out) p1 p2 c1 c2 → agree_on out p1 p2 c1 c2.
Proof. destruct out, s; intros []; constructor; simpl in *; auto. Qed.

Lemma agree_on_children cs out :
  Forall (λ c, ∀ out, agree_on (collect_surfaces_inner c out) p1 p2 c1 c2 → agree_on out p1 p2 c1 c2) cs →
  agree_on (fold_left (λ out c, collect_surfaces_inner c out) cs out) p1 p2 c1 c2 →
  agree_on out p1 p2 c1 c2.
Proof. intros Hcs. revert out. induction Hcs; simpl; auto. Qed.

Lemma agree_on_collect c out :
  agree_on (collect_surfaces_inner c out) p1 p2 c1 c2 → agree_on out p1 p2 c1 c2.
Proof.
  revert out. pattern c. revert c. apply condition_ind; [intros c|intros cs IH|intros cs IH|intros c IH].
  - destruct c; try exact I; intros out; simpl; apply agree_on_mark.
  - intros out. simpl. intros ?%agree_on_children%(agree_on_mark ConditionSurface.Combinator); done.
  - intros out. simpl. intros ?%agree_on_children%(agree_on_mark ConditionSurface.Combinator); done.
  - intros out. simpl. intros ?%IH%(agree_on_mark ConditionSurface.Combinator). done.
Qed.

Lemma eval_condition_agree_children cs out :
  Forall (λ c, ∀ out, agree_on (collect_surfaces_inner c out) p1 p2 c1 c2 →
    eval_condition c p1 c1 = eval_condition c p2 c2) cs →
  agree_on (fold_left (λ out c, collect_surfaces_inner c out) cs out) p1 p2 c1 c2 →
  Forall (λ c, eval_condition c p1 c1 = eval_condition c p2 c2) cs.
Proof.
  intros Hcs. revert out. induction Hcs as [|c cs Hc Hcs IH]; intros out Ha; constructor; simpl in *.
  - apply (Hc out). eapply agree_on_children; [|exact Ha].
    apply Forall_forall. intros x _. apply agree_on_collect.
  - by apply (IH (collect_surfaces_inner c out)).
Qed.

Lemma eval_condition_agree c out :
  agree_on (collect_surfaces_inner c out) p1 p2 c1 c2 →
  eval_condition c p1 c1 = eval_condition c p2 c2.
Proof.
  revert out. pattern c. revert c. apply condition_ind; [intros c|intros cs IH|intros cs IH|intros c IH].
  - destruct c; try exact I; intros [] [Hp Ht Hv He]; simpl in *;
      repeat match goal with
        | H : true = true → _ |- _ => specialize (H eq_refl)
        | H : _ ∧ _ |- _ => destruct H
        | H : _ = _ |- _ => rewrite ?H; clear H
        end; done.
  - intros out Ha%eval_condition_agree_children; [|done]. simpl.
    induction Ha as [|c cs Hc _ IHcs]; simpl; [done|].
    rewrite Hc, IHcs; [done|]. by apply Forall_cons in IH as [_ ?].
  - intros out Ha%eval_condition_agree_children; [|done]. simpl.
    induction Ha as [|c cs Hc _ IHcs]; simpl; [done|].
    rewrite Hc, IHcs; [done|]. by apply Forall_cons in IH as [_ ?].
  - intros out. simpl. intros ->%IH. done.
Qed.
End surfaces.

(** ** Properties *)

(** The report of unreachable rules: every entry names a rule of the set for a
    reason that holds of it (its condition is [Never]; an earlier rule is
    [Always]; an earlier rule tests the same field for an equal value), outside
    [FirstMatch] the only reason is [Never], and every rule with such a reason is
    reported. *)
Theorem unreachable_report_exact (rs : RuleSet) :
  let report := RuleSetIntrospection.unreachable_rules (introspect_rule_set rs) in
  Forall (explained (RuleSet.rules rs)) report
  ∧ (RuleSet.strategy rs ≠ EvaluationStrategy.FirstMatch →
     Forall (λ u, UnreachableRule.reason u = UnreachableReason.ConditionIsNever) report)
  ∧ (∀ l1 r l2, RuleSet.rules rs = l1 ++ r :: l2 →
     Rule.condition r = Condition.Never
     ∨ (RuleSet.strategy rs = EvaluationStrategy.FirstMatch
        ∧ Exists (λ s, always_shadows s ∨ field_eq_shadows s r) l1) →
     reported report r).
Proof.
  destruct (detect_unreachable_explained rs) as [He Hn]. simpl. split_and!; [done|..].
  - intros Hs. eapply Forall_impl; [by apply Hn|].
    intros [? []]; simpl; [done|discriminate..].
  - intros l1 r l2 Hr Hwhy. unfold detect_unreachable.
    assert (Hmem : r ∈ RuleSet.rules rs) by (rewrite Hr; apply elem_of_app; right; left).
    destruct (is_never (Rule.condition r)) eqn:Hnever.
    { apply is_never_true in Hnever.
      assert (reported (never_pass (RuleSet.rules rs) []) r)
        by (apply never_pass_reports; by right).
      case_decide; [|done]. apply field_eq_pass_reports. left.
      apply always_pass_reports. by left. }
    assert (Rule.condition r ≠ Condition.Never) by (rewrite <- is_never_true; congruence).
    destruct Hwhy as [?|[-> Hs]]; [done|]. rewrite decide_True by done.
    apply Exists_exists in Hs as (s & Hin & [Ha|Hf]); apply field_eq_pass_reports.
    + left. apply always_pass_reports. right. exists l1, l2. split_and!; [done|done|].
      right. apply Exists_exists. eauto.
    + right. exists l1, l2. split; [done|]. apply Exists_exists. eauto.
Qed.

(** C26. Rules reported as unreachable have no effect: when rule identifiers are
    distinct and the rules reported as shadowing are terminal, evaluation takes the
    same action by the same rule with the same tags on every packet when all
    reported rules are removed from the set. *)
Theorem unreachable_rules_inert `{J : JsonNumber, FloatDisplay} (rs : RuleSet)
  (packet : PortPacket) (context : EvalContext)
  (Hids : NoDup (Rule.id <$> RuleSet.rules rs)) (Hterm : shadows_terminal rs) :
  ∃ d d', evaluate rs packet context = Ok d
    ∧ evaluate (without_unreachable rs) packet context = Ok d'
    ∧ RuleDecision.action d' = RuleDecision.action d
    ∧ RuleDecision.matched_rule d' = RuleDecision.matched_rule d
    ∧ RuleDecision.tags_applied d' = RuleDecision.tags_applied d.
Proof.
  rewrite !evaluate_spec. cbv zeta. eexists _, _. split; [done|]. split; [done|].
  destruct (prune_before_first (λ r, ¬ reported (detect_unreachable rs) r)
    (MessageEnvelope.payload packet) context (RuleSet.rules rs)) as [Hd Ht].
  { intros l1 r l2 E Hr%dec_stable Hm. by eapply (reported_after_decisive rs). }
  assert (RuleSet.strategy rs ≠ EvaluationStrategy.FirstMatch →
    tags_from (MessageEnvelope.payload packet) context (RuleSet.rules (without_unreachable rs))
    = tags_from (MessageEnvelope.payload packet) context (RuleSet.rules rs)) as Hall.
  { intros Hs. apply prune_tags. intros r (l1 & l2 & E)%list_elem_of_split Hr%dec_stable.
    destruct (rule_matches _ context r) eqn:Hm; [|done].
    destruct Hs. by eapply (reported_after_decisive rs). }
  change (RuleSet.strategy (without_unreachable rs)) with (RuleSet.strategy rs).
  simpl in Hall. simpl.
  destruct (RuleSet.strategy rs); simpl; rewrite ?Hd, ?Ht, ?Hall by done; done.
Qed.

(** A condition depends on nothing but the surfaces its summary names: two
    packets and contexts that agree on them give the same result, and a condition
    that is constant only gives one result for all of them. *)
Theorem condition_reads_its_surfaces `{J : JsonNumber} (c : Condition)
  (p1 p2 : PacketPayload) (c1 c2 : EvalContext)
  (Hagree : ConditionSurfaceSummary.is_constant_only (collect_surfaces c) = true
            ∨ agree_on (collect_surfaces c) p1 p2 c1 c2) :
  eval_condition c p1 c1 = eval_condition c p2 c2.
Proof.
  apply (eval_condition_agree _ _ _ _ c ConditionSurfaceSummary.default).
  destruct Hagree as [Hc|?]; [|done]. unfold ConditionSurfaceSummary.is_constant_only in Hc.
  unfold collect_surfaces in Hc.
  destruct (collect_surfaces_inner c _) as [[] [] [] [] []]; try discriminate Hc.
  constructor; simpl; discriminate.
Qed.

(** ** Examples *)

Section examples.
Let rule (id : string) (c : Condition) (a : RuleAction) (priority : N) : Rule :=
  Rule.mk (lit id) c a priority [].
Let status : Condition :=
  Condition.FieldEq (FieldPath.mk (lit "status")) (ScalarValue.String (lit "ok")).
Let packet : PortPacket :=
  MessageEnvelope.new
    (MessageMetadata.new (ident "m1") (ident "flow")
       (ExecutionMetadata.first_attempt (ident "run-1"))
       (MessageRoute.new None (MessageEndpoint.new (ident "router") (ident "in"))))
    (PacketPayload.Control (Value.object [(lit "status", Value.String (lit "ok"))])).
Let context : EvalContext := EvalContext.mk [] None (Some (ident "in")) 0 (ident "flow") [].
#[local] Instance no_display : FloatDisplay := λ _, lit "float".

Definition shadowing_set : RuleSet :=
  RuleSet.mk (lit "orders") EvaluationStrategy.FirstMatch
    [rule "first" status (RuleAction.Route (ident "fast")) 10;
     rule "dead" Condition.Never RuleAction.Drop 20;
     rule "same" status (RuleAction.Route (ident "slow")) 30;
     rule "rest" Condition.Always RuleAction.Drop 40;
     rule "late" (Condition.TagExists (lit "k")) (RuleAction.Tag (lit "x") ScalarValue.Null) 50]
    RuleAction.Drop false.

Example shadowing_report :
  detect_unreachable shadowing_set =
  [UnreachableRule.mk (lit "dead") UnreachableReason.ConditionIsNever;
   UnreachableRule.mk (lit "late") (UnreachableReason.ShadowedByAlways (lit "rest"));
   UnreachableRule.mk (lit "same") (UnreachableReason.ExactFieldEqSubsumed (lit "first"))].
Proof. reflexivity. Qed.

Lemma unreachable_rules_inert_witness :
  ∃ d d', evaluate shadowing_set packet context = Ok d
    ∧ evaluate (without_unreachable shadowing_set) packet context = Ok d'
    ∧ RuleDecision.action d' = RuleDecision.action d
    ∧ RuleDecision.matched_rule d' = RuleDecision.matched_rule d
    ∧ RuleDecision.tags_applied d' = RuleDecision.tags_applied d.
Proof.
  apply (unreachable_rules_inert shadowing_set packet context).
  - apply (bool_decide_eq_true_1 _). reflexivity.
  - unfold shadows_terminal. rewrite shadowing_report.
    repeat constructor; intros; try reflexivity; discriminate.
Defined.

Lemma condition_reads_its_surfaces_witness :
  eval_condition (Condition.And [Condition.Always; status]) (MessageEnvelope.payload packet) context
  = eval_condition (Condition.And [Condition.Always; status]) (MessageEnvelope.payload packet)
      (EvalContext.mk [] None None 7 (ident "other") []).
Proof.
  apply condition_reads_its_surfaces. right. constructor; simpl; [done|discriminate..].
Defined.

(** A shadowing rule that only tags does not end evaluation: the rule after it is
    reported as unreachable and decides the packet. *)
Definition tagging_set : RuleSet :=
  RuleSet.mk (lit "orders") EvaluationStrategy.FirstMatch
    [rule "mark" Condition.Always (RuleAction.Tag (lit "seen") (ScalarValue.Boolean true)) 10;
     rule "send" status (RuleAction.Route (ident "fast")) 20]
    RuleAction.Drop false.

Example tagging_rule_shadows_nothing :
  detect_unreachable tagging_set =
    [UnreachableRule.mk (lit "send") (UnreachableReason.ShadowedByAlways (lit "mark"))]
  ∧ evaluate tagging_set packet context =
    Ok (RuleDecision.mk (RuleAction.Route (ident "fast")) (Some (lit "send"))
          [(lit "seen", ScalarValue.Boolean true)] []).
Proof. split; reflexivity. Qed.
End examples.
