(* ===== verification/Wasm.v ===== *)
(** [pureflow-wasm], the batch boundary
    (src/crates/pureflow-wasm/src/lib.rs).

    A WASM component is called with Component Model values: the batch is encoded
    as a [Val], the guest is called, and its answer is decoded.  Wasmtime is a
    parameter ([Wasmtime]); [Val] has the constructors the program builds or
    matches on, and [Opaque] for all others.  The thread that watches for
    cancellation during the call runs next to the guest, so the call is a step
    relation ([call_step]) over the interleavings of the two. *)

From Stdlib Require Import Lia Strings.Byte.
From stdpp Require Import relations.
From S2P Require Import Prelude RustStr BTree Types Capability Errors Json Context Message Metadata RuleNode Wiring.

(** ** Libraries *)

(** [serde_json::from_str] and [serde_json::to_string]. *)
Class JsonText `{J : JsonNumber} := {
  json_error : Set;
  json_error_fmt : json_error → rstr;
  json_from_str : rstr → result Value json_error;
  json_to_string : Value → result rstr json_error;
}.

(** [wasmtime::component::Val]. *)
Inductive Val : Set :=
| ValBool (b : bool)
| ValU8 (n : byte)
| ValU32 (n : N)
| ValS64 (i : Z)
| ValFloat64 (f : f64)
| ValString (s : rstr)
| ValList (values : list Val)
| ValRecord (fields : list (rstr * Val))
| ValVariant (name : rstr) (payload : option Val)
| ValEnum (name : rstr)
| ValOption (o : option Val)
| ValResult (r : result (option Val) (option Val))
| ValOpaque (repr : rstr).

(** What the program calls of Wasmtime, apart from the guest call itself. *)
Class Wasmtime := {
  wasm_error : Set;
  wasm_error_fmt : wasm_error → rstr;
  wasm_component : Set;
  wasm_instance : Set;
  export_index : Set;
  wasm_func : Set;
  engine_new : result unit wasm_error;
  component_from_binary : list byte → result wasm_component wasm_error;
  store_set_fuel : N → result unit wasm_error;
  instantiate : wasm_component → result wasm_instance wasm_error;
  get_export_index : wasm_instance → option export_index → rstr → option export_index;
  get_func : wasm_instance → export_index → option wasm_func;
}.

(** [s.to_ascii_lowercase()] and [s.contains(needle)]. *)
Definition to_ascii_lowercase (s : rstr) : rstr :=
  (λ c, if N.leb 65 c && N.leb c 90 then (c + 32)%N else c) <$> s.
Fixpoint str_contains (needle s : rstr) : bool :=
  bool_decide (needle `prefix_of` s)
  || match s with [] => false | _ :: s => str_contains needle s end.

(** ** Limits *)

Module WasmtimeExecutionLimits.
Definition DEFAULT_GUEST_FUEL : N := 100000000.
Definition DEFAULT_CANCELLATION_EPOCH_DEADLINE : N := 1.
Definition DEFAULT_CANCELLATION_POLL_INTERVAL : Duration := 1000000.

Record WasmtimeExecutionLimits : Set := mk {
  fuel : N;
  cancellation_epoch_deadline : N;
  cancellation_poll_interval : Duration;
}.
Definition new (fuel : N) : WasmtimeExecutionLimits :=
  mk fuel DEFAULT_CANCELLATION_EPOCH_DEADLINE DEFAULT_CANCELLATION_POLL_INTERVAL.
Definition default : WasmtimeExecutionLimits := new DEFAULT_GUEST_FUEL.
Definition with_cancellation_epoch_deadline (l : WasmtimeExecutionLimits) (ticks : N) :
    WasmtimeExecutionLimits :=
  mk (fuel l) ticks (cancellation_poll_interval l).
Definition with_cancellation_poll_interval (l : WasmtimeExecutionLimits) (interval : Duration) :
    WasmtimeExecutionLimits :=
  mk (fuel l) (cancellation_epoch_deadline l) interval.
End WasmtimeExecutionLimits.
Notation WasmtimeExecutionLimits := WasmtimeExecutionLimits.WasmtimeExecutionLimits.

Definition validate_wasm_capabilities (capabilities : NodeCapabilities) :
    result unit PureflowError :=
  match NodeCapabilities.effects capabilities with
  | effect :: _ =>
      Err (PureflowError.from_capability
             (CapabilityValidationError.UnenforceableEffectCapability
                (NodeCapabilities.node_id capabilities) effect))
  | [] => Ok tt
  end.

(** ** The WIT shapes *)

Module WitPayload.
Inductive WitPayload : Set := Bytes (bytes : list byte) | Control (value : rstr).
End WitPayload.
Notation WitPayload := WitPayload.WitPayload.

Module WitPacket.
Record WitPacket : Set := mk { metadata : MessageMetadata; payload : WitPayload }.
End WitPacket.
Notation WitPacket := WitPacket.WitPacket.

Module WitPortBatch.
Record WitPortBatch : Set := mk { port_id : rstr; packets : list WitPacket }.
End WitPortBatch.
Notation WitPortBatch := WitPortBatch.WitPortBatch.

(** [fail(text)] is [Err(PureflowError::execution(text))]. *)
Definition fail {A} (message : rstr) : result A PureflowError :=
  Err (PureflowError.execution message).

Section codec.
Context `{J : JsonNumber} `{!JsonText} `{!JsonDisplay}.

Definition to_wit_packet (packet : PortPacket) : result WitPacket PureflowError :=
  let payload :=
    match MessageEnvelope.payload packet with
    | PacketPayload.Bytes bytes => WitPayload.Bytes bytes
    | PacketPayload.Control value => WitPayload.Control (value_to_string value)
    end in
  Ok (WitPacket.mk (MessageEnvelope.metadata packet) payload).

Definition from_wit_packet (packet : WitPacket) : result PortPacket PureflowError :=
  let? payload :=
    match WitPacket.payload packet with
    | WitPayload.Bytes bytes => Ok (PacketPayload.Bytes bytes)
    | WitPayload.Control value =>
        let? value := map_err (λ err, PureflowError.execution
            (lit "guest returned invalid control payload: " ++ json_error_fmt err))
          (json_from_str value) in
        Ok (PacketPayload.Control value)
    end in
  Ok (MessageEnvelope.new (WitPacket.metadata packet) payload).

Definition to_wit_port_batches (inputs : Batch) : result (list WitPortBatch) PureflowError :=
  try_collect (λ '(port_id, packets),
    let? packets := try_collect to_wit_packet packets in
    Ok (WitPortBatch.mk (as_str port_id) packets)) (Batch.packets_by_port inputs).

(** The two nested loops of [from_wit_port_batches]. *)
Fixpoint push_wit_packets (port_id : PortId) (packets : list WitPacket) (outputs : Batch) :
    result Batch PureflowError :=
  match packets with
  | [] => Ok outputs
  | packet :: packets =>
      let? packet := from_wit_packet packet in
      push_wit_packets port_id packets (Batch.push outputs port_id packet)
  end.

Fixpoint push_wit_batches (port_batches : list WitPortBatch) (outputs : Batch) :
    result Batch PureflowError :=
  match port_batches with
  | [] => Ok outputs
  | port_batch :: port_batches =>
      let? port_id := map_err PureflowError.from_identifier
        (identifier_new (WitPortBatch.port_id port_batch)) in
      let? outputs := push_wit_packets port_id (WitPortBatch.packets port_batch) outputs in
      push_wit_batches port_batches outputs
  end.

Definition from_wit_port_batches (port_batches : list WitPortBatch) : result Batch PureflowError :=
  push_wit_batches port_batches Batch.new.

(** ** Encoding *)

Definition endpoint_to_val (endpoint : MessageEndpoint) : Val :=
  ValRecord [(lit "node-id", ValString (as_str (MessageEndpoint.node_id endpoint)));
             (lit "port-id", ValString (as_str (MessageEndpoint.port_id endpoint)))].

Definition route_to_val (route : MessageRoute) : Val :=
  ValRecord [(lit "source", ValOption (endpoint_to_val <$> MessageRoute.source route));
             (lit "target", endpoint_to_val (MessageRoute.target route))].

Definition metadata_to_val (metadata : MessageMetadata) : Val :=
  let execution := MessageMetadata.execution metadata in
  ValRecord
    [(lit "message-id", ValString (as_str (MessageMetadata.message_id metadata)));
     (lit "workflow-id", ValString (as_str (MessageMetadata.workflow_id metadata)));
     (lit "execution", ValRecord
        [(lit "execution-id", ValString (as_str (ExecutionMetadata.execution_id execution)));
         (lit "attempt", ValU32 (ExecutionAttempt.get (ExecutionMetadata.attempt execution)))]);
     (lit "route", route_to_val (MessageMetadata.route metadata))].

Definition bytes_to_list_val (bytes : list byte) : Val := ValList (ValU8 <$> bytes).

Definition payload_to_val (payload : WitPayload) : Val :=
  match payload with
  | WitPayload.Bytes bytes => ValVariant (lit "bytes") (Some (bytes_to_list_val bytes))
  | WitPayload.Control value => ValVariant (lit "control") (Some (ValString value))
  end.

Definition packet_to_val (packet : WitPacket) : Val :=
  ValRecord [(lit "metadata", metadata_to_val (WitPacket.metadata packet));
             (lit "payload", payload_to_val (WitPacket.payload packet))].

Definition port_batch_to_val (port_batch : WitPortBatch) : Val :=
  ValRecord [(lit "port-id", ValString (WitPortBatch.port_id port_batch));
             (lit "packets", ValList (packet_to_val <$> WitPortBatch.packets port_batch))].

Definition batch_inputs_to_val (inputs : Batch) : result Val PureflowError :=
  let? batches := to_wit_port_batches inputs in
  Ok (ValList (port_batch_to_val <$> batches)).

(** ** Decoding *)

Definition record_fields (value : Val) (context : rstr) : result (list (rstr * Val)) PureflowError :=
  match value with
  | ValRecord fields => Ok fields
  | _ => fail (lit "guest returned non-record " ++ context)
  end.

Definition required_field (fields : list (rstr * Val)) (name context : rstr) :
    result Val PureflowError :=
  ok_or (snd <$> iter_find (λ field, bool_decide (field.1 = name)) fields)
    (PureflowError.execution (lit "guest omitted " ++ context ++ lit " field " ++ name)).

Definition required_string_field (fields : list (rstr * Val)) (name context : rstr) :
    result rstr PureflowError :=
  let? value := required_field fields name context in
  match value with
  | ValString value => Ok value
  | _ => fail (lit "guest returned non-string " ++ context ++ lit " field " ++ name)
  end.

Definition required_u32_field (fields : list (rstr * Val)) (name context : rstr) :
    result N PureflowError :=
  let? value := required_field fields name context in
  match value with
  | ValU32 value => Ok value
  | _ => fail (lit "guest returned non-u32 " ++ context ++ lit " field " ++ name)
  end.

Definition required_list_field (fields : list (rstr * Val)) (name context : rstr) :
    result (list Val) PureflowError :=
  let? value := required_field fields name context in
  match value with
  | ValList values => Ok values
  | _ => fail (lit "guest returned non-list " ++ context ++ lit " field " ++ name)
  end.

(** [Id::new(required_string_field(..)?)?]. *)
Definition required_id_field {kind} (fields : list (rstr * Val)) (name context : rstr) :
    result (identifier kind) PureflowError :=
  let? text := required_string_field fields name context in
  map_err PureflowError.from_identifier (identifier_new text).

Definition endpoint_from_val (value : Val) : result MessageEndpoint PureflowError :=
  let context := lit "message endpoint" in
  let? fields := record_fields value context in
  let? node_id := required_id_field fields (lit "node-id") context in
  let? port_id := required_id_field fields (lit "port-id") context in
  Ok (MessageEndpoint.new node_id port_id).

Definition route_from_val (value : Val) : result MessageRoute PureflowError :=
  let context := lit "message route" in
  let? fields := record_fields value context in
  let? source := required_field fields (lit "source") context in
  let? source :=
    match source with
    | ValOption (Some source) =>
        let? source := endpoint_from_val source in Ok (Some source)
    | ValOption None => Ok None
    | _ => fail (lit "guest returned non-option route source")
    end in
  let? target := required_field fields (lit "target") context in
  let? target := endpoint_from_val target in
  Ok (MessageRoute.new source target).

Definition execution_from_val (value : Val) : result ExecutionMetadata PureflowError :=
  let context := lit "execution metadata" in
  let? fields := record_fields value context in
  let? execution_id := required_id_field fields (lit "execution-id") context in
  let? attempt := required_u32_field fields (lit "attempt") context in
  let? attempt :=
    match attempt with
    | N0 => fail (lit "guest returned zero execution attempt")
    | Npos attempt => Ok (ExecutionAttempt.new attempt)
    end in
  Ok (ExecutionMetadata.new execution_id attempt).

Definition metadata_from_val (value : Val) : result MessageMetadata PureflowError :=
  let context := lit "message metadata" in
  let? fields := record_fields value context in
  let? message_id := required_id_field fields (lit "message-id") context in
  let? workflow_id := required_id_field fields (lit "workflow-id") context in
  let? execution := required_field fields (lit "execution") context in
  let? execution := execution_from_val execution in
  let? route := required_field fields (lit "route") context in
  let? route := route_from_val route in
  Ok (MessageMetadata.new message_id workflow_id execution route).

Definition bytes_from_val (value : Val) : result (list byte) PureflowError :=
  match value with
  | ValList values =>
      try_collect (λ value,
        match value with
        | ValU8 byte => Ok byte
        | _ => fail (lit "guest returned non-u8 byte payload element")
        end) values
  | _ => fail (lit "guest returned non-list bytes payload")
  end.

Definition payload_from_val (value : Val) : result WitPayload PureflowError :=
  match value with
  | ValVariant name payload =>
      match payload with
      | Some value =>
          if decide (name = lit "bytes") then
            let? bytes := bytes_from_val value in Ok (WitPayload.Bytes bytes)
          else if decide (name = lit "control") then
            match value with
            | ValString value => Ok (WitPayload.Control value)
            | _ => fail (lit "guest returned non-string control payload")
            end
          else fail (lit "guest returned unsupported payload variant: " ++ name)
      | None => fail (lit "guest returned unsupported payload variant: " ++ name)
      end
  | _ => fail (lit "guest returned non-variant payload")
  end.

Definition packet_from_val (value : Val) : result WitPacket PureflowError :=
  let context := lit "packet" in
  let? fields := record_fields value context in
  let? metadata := required_field fields (lit "metadata") context in
  let? metadata := metadata_from_val metadata in
  let? payload := required_field fields (lit "payload") context in
  let? payload := payload_from_val payload in
  Ok (WitPacket.mk metadata payload).

Definition port_batch_from_val (value : Val) : result WitPortBatch PureflowError :=
  let context := lit "port batch" in
  let? fields := record_fields value context in
  let? port_id := required_string_field fields (lit "port-id") context in
  let? packets := required_list_field fields (lit "packets") context in
  let? packets := try_collect packet_from_val packets in
  Ok (WitPortBatch.mk port_id packets).

Definition port_batches_from_val (value : Val) : result (list WitPortBatch) PureflowError :=
  match value with
  | ValList values => try_collect port_batch_from_val values
  | _ => fail (lit "guest returned non-list batch output")
  end.

Definition batch_error_from_val (value : Val) : PureflowError :=
  match value with
  | ValVariant name (Some (ValString message)) =>
      PureflowError.execution (lit "guest returned " ++ name ++ lit ": " ++ message)
  | ValVariant name (Some _) =>
      PureflowError.execution (lit "guest returned malformed " ++ name ++ lit " error")
  | ValVariant name None =>
      PureflowError.execution (lit "guest returned " ++ name ++ lit " without detail")
  | _ => PureflowError.execution (lit "guest returned malformed batch error")
  end.

Definition batch_outputs_from_result_val (value : Val) : result Batch PureflowError :=
  match value with
  | ValResult (Ok (Some value)) =>
      let? batches := port_batches_from_val value in from_wit_port_batches batches
  | ValResult (Ok None) => fail (lit "guest returned empty ok result from batch.invoke")
  | ValResult (Err (Some value)) => Err (batch_error_from_val value)
  | ValResult (Err None) => fail (lit "guest returned empty error from batch.invoke")
  | _ => fail (lit "guest returned non-result from batch.invoke")
  end.
End codec.

(** ** The guest call and its watcher *)

(** Where the watcher thread of [CancellationWatcher::spawn] stands: before the
    load of [complete], before the test of the token, before the store of
    [interrupted], before the increment of the epoch, or gone. *)
Inductive watcher_pc : Set := WatchHead | WatchTest | WatchStore | WatchTick | WatchExited.

#[export] Instance watcher_pc_eq_dec : EqDecision watcher_pc.
Proof. solve_decision. Defined.

(** The call in progress, as the two threads see it: the shared flags, the epoch of
    the engine, what the guest has returned, and what [finish] has returned. *)
Record call_state (E : Set) : Type := mk_call {
  call_signals : signals;
  complete : bool;
  interrupted : bool;
  watcher : watcher_pc;
  epoch : N;
  guest : option (result Val E);
  finished : option bool;
}.
Arguments mk_call {_} _ _ _ _ _ _ _.
Arguments call_signals {_} _.
Arguments complete {_} _.
Arguments interrupted {_} _.
Arguments watcher {_} _.
Arguments epoch {_} _.
Arguments guest {_} _.
Arguments finished {_} _.

Section call.
Context {E : Set}.
Variables (cancellation : CancellationToken) (deadline : N) (shared : bool).
Notation call_state := (call_state E).

(** One iteration step of the watcher loop. *)
Definition watcher_step (c : call_state) : call_state :=
  match watcher c with
  | WatchHead =>
      mk_call (call_signals c) (complete c) (interrupted c)
        (if complete c then WatchExited else WatchTest) (epoch c) (guest c) (finished c)
  | WatchTest =>
      mk_call (call_signals c) (complete c) (interrupted c)
        (if CancellationToken.is_cancelled (call_signals c) cancellation then WatchStore
         else WatchHead) (epoch c) (guest c) (finished c)
  | WatchStore =>
      mk_call (call_signals c) (complete c) true WatchTick (epoch c) (guest c) (finished c)
  | WatchTick =>
      mk_call (call_signals c) (complete c) (interrupted c) WatchExited (epoch c + 1)
        (guest c) (finished c)
  | WatchExited => c
  end.

(** [CancellationWatcher::finish]: the store of [complete], and the load of
    [interrupted] once the thread is joined. *)
Definition finish_store (c : call_state) : call_state :=
  mk_call (call_signals c) true (interrupted c) (watcher c) (epoch c) (guest c) (finished c).
Definition finish_load (c : call_state) : call_state :=
  mk_call (call_signals c) (complete c) (interrupted c) (watcher c) (epoch c) (guest c)
    (Some (interrupted c)).

(** The interleavings.  The guest runs only below the deadline of its store; it
    returns or traps at any time.  The environment requests cancellations and, where
    other invocations share the engine of the component, increments the epoch. *)
Inductive call_step : call_state → call_state → Prop :=
| step_watcher c : call_step c (watcher_step c)
| step_guest_runs c : guest c = None → (epoch c < deadline)%N → call_step c c
| step_guest_returns c r :
    guest c = None →
    call_step c (mk_call (call_signals c) (complete c) (interrupted c) (watcher c) (epoch c)
                   (Some r) (finished c))
| step_finish_store c : guest c ≠ None → call_step c (finish_store c)
| step_finish_load c :
    complete c = true → watcher c = WatchExited → call_step c (finish_load c)
| step_cancel c t req :
    call_step c (mk_call (CancellationToken.request_cancellation (call_signals c) t req).2
                   (complete c) (interrupted c) (watcher c) (epoch c) (guest c) (finished c))
| step_foreign_tick c :
    shared = true →
    call_step c (mk_call (call_signals c) (complete c) (interrupted c) (watcher c) (epoch c + 1)
                   (guest c) (finished c)).

(** The state in which [spawn] leaves the call. *)
Definition call_start (s : signals) (current : N) : call_state :=
  mk_call s false false WatchHead current None None.

End call.

(** ** Components *)

Section invoke.
Context `{J : JsonNumber} `{!JsonText} `{!JsonDisplay} `{W : !Wasmtime}.

Record WasmtimeBatchComponent : Set := mk_batch_component {
  component : wasm_component;
  limits : WasmtimeExecutionLimits;
}.

Definition component_engine : result unit PureflowError :=
  map_err (λ err, PureflowError.execution
             (lit "failed to create Wasmtime engine: " ++ wasm_error_fmt err)) engine_new.

Definition from_component_bytes_with_limits (bytes : list byte)
    (limits : WasmtimeExecutionLimits) : result WasmtimeBatchComponent PureflowError :=
  let? _ := component_engine in
  let? component := map_err (λ err, PureflowError.execution
      (lit "failed to compile component: " ++ wasm_error_fmt err)) (component_from_binary bytes) in
  Ok (mk_batch_component component limits).

Definition from_component_bytes (bytes : list byte) :
    result WasmtimeBatchComponent PureflowError :=
  from_component_bytes_with_limits bytes WasmtimeExecutionLimits.default.

Definition from_component_bytes_with_capabilities_and_limits (bytes : list byte)
    (capabilities : NodeCapabilities) (limits : WasmtimeExecutionLimits) :
    result WasmtimeBatchComponent PureflowError :=
  let? _ := validate_wasm_capabilities capabilities in
  from_component_bytes_with_limits bytes limits.

Definition from_component_bytes_with_capabilities (bytes : list byte)
    (capabilities : NodeCapabilities) : result WasmtimeBatchComponent PureflowError :=
  from_component_bytes_with_capabilities_and_limits bytes capabilities
    WasmtimeExecutionLimits.default.

Definition map_guest_call_error (err : wasm_error) (limits : WasmtimeExecutionLimits)
    (remaining_fuel : option N) : PureflowError :=
  let message := wasm_error_fmt err in
  if bool_decide (remaining_fuel = Some 0%N)
     || str_contains (lit "fuel") (to_ascii_lowercase message) then
    PureflowError.execution
      (lit "guest exceeded Wasmtime fuel limit of "
       ++ show_N (WasmtimeExecutionLimits.fuel limits) ++ lit " units")
  else PureflowError.execution (lit "guest invoke failed: " ++ wasm_error_fmt err).

(** What the call of a function did: its result or trap, what [finish] returned,
    the fuel left, and the signals when the call is over. *)
Record guest_call : Type := mk_guest_call {
  call_result : result Val wasm_error;
  call_interrupted : bool;
  remaining_fuel : option N;
  signals_after : signals;
}.

(** Everything the two entry points do up to the guest function, which is called
    with the values [params]; the texts are those of the caller. *)
Definition find_function (interface function : rstr) (not_instantiated : wasm_error → rstr)
    (no_interface no_function not_a_function : rstr) (component : wasm_component) :
    result wasm_func PureflowError :=
  let? instance := map_err (λ err, PureflowError.execution (not_instantiated err))
    (instantiate component) in
  let? interface_index := ok_or (get_export_index instance None interface)
    (PureflowError.execution no_interface) in
  let? function_index := ok_or (get_export_index instance (Some interface_index) function)
    (PureflowError.execution no_function) in
  ok_or (get_func instance function_index) (PureflowError.execution not_a_function).

(** What is made of the call: a noticed cancellation, the trap, or the value. *)
Definition settle_call (limits : WasmtimeExecutionLimits) (cancellation : CancellationToken)
    (no_reason : rstr) (call : guest_call) : result Val PureflowError :=
  if call_interrupted call then
    Err (PureflowError.cancelled
           (match CancellationToken.request (signals_after call) cancellation with
            | Some request => CancellationRequest.reason request
            | None => no_reason
            end))
  else
    map_err (λ err, map_guest_call_error err limits (remaining_fuel call)) (call_result call).

Definition invoke_with_cancellation (c : WasmtimeBatchComponent) (inputs : Batch)
    (cancellation : CancellationToken) (s : signals) (spawned : result unit rstr)
    (call : wasm_func → list Val → guest_call) : result Batch PureflowError :=
  match CancellationToken.request s cancellation with
  | Some request => Err (PureflowError.cancelled (CancellationRequest.reason request))
  | None =>
      let? _ := map_err (λ err, PureflowError.execution
          (lit "failed to configure guest fuel: " ++ wasm_error_fmt err))
        (store_set_fuel (WasmtimeExecutionLimits.fuel (limits c))) in
      let? _ := map_err (λ err, PureflowError.execution
          (lit "failed to start WASM cancellation watcher: " ++ err)) spawned in
      let? invoke := find_function (lit "pureflow:batch/batch@0.1.0") (lit "invoke")
        (λ err, lit "failed to instantiate component: " ++ wasm_error_fmt err)
        (lit "component does not export pureflow:batch/batch@0.1.0")
        (lit "component does not export batch.invoke")
        (lit "batch.invoke export is not a function") (component c) in
      let? param := batch_inputs_to_val inputs in
      let? value := settle_call (limits c) cancellation (lit "wasm guest invocation cancelled")
        (call invoke [param]) in
      batch_outputs_from_result_val value
  end.

(** [invoke] with a token of its own, which nobody else can cancel. *)
Definition invoke (c : WasmtimeBatchComponent) (inputs : Batch) (s : signals)
    (spawned : result unit rstr) (call : wasm_func → list Val → guest_call) :
    result Batch PureflowError :=
  let (token, s) := CancellationToken.active s in
  invoke_with_cancellation c inputs token s spawned call.
End invoke.
