(* ===== verification/WasmSpec.v ===== *)
(** The WASM batch boundary (Wasm.v): what is encoded for the guest decodes to the
    same packets, the guest call with its cancellation watcher, and the faults a
    guest can cause. *)

From Stdlib Require Import Lia Strings.Byte.
From stdpp Require Import relations.
From S2P Require Import Prelude RustStr BTree Types Capability Errors Json Context Message Metadata RuleNode Wiring Wasm.

(** ** Encoding and decoding *)

Section roundtrip.
Context `{J : JsonNumber} `{!JsonText} `{!JsonDisplay}.

(** The identifiers are ones the constructors accept. *)
Definition endpoint_valid (e : MessageEndpoint) : Prop :=
  valid_identifier (as_str (MessageEndpoint.node_id e))
  ∧ valid_identifier (as_str (MessageEndpoint.port_id e)).
Record metadata_valid (m : MessageMetadata) : Prop := {
  mv_message : valid_identifier (as_str (MessageMetadata.message_id m));
  mv_workflow : valid_identifier (as_str (MessageMetadata.workflow_id m));
  mv_execution : valid_identifier
    (as_str (ExecutionMetadata.execution_id (MessageMetadata.execution m)));
  mv_source : ∀ e, MessageRoute.source (MessageMetadata.route m) = Some e → endpoint_valid e;
  mv_target : endpoint_valid (MessageRoute.target (MessageMetadata.route m));
}.

(** The JSON library reads back what it prints, for the payload of the packet. *)
Definition payload_prints_back (payload : PacketPayload) : Prop :=
  match payload with
  | PacketPayload.Bytes _ => True
  | PacketPayload.Control value => json_from_str (value_to_string value) = Ok value
  end.

Definition packet_valid (packet : PortPacket) : Prop :=
  metadata_valid (MessageEnvelope.metadata packet)
  ∧ payload_prints_back (MessageEnvelope.payload packet).

Lemma required_id_ok {kind} fields name context (id : identifier kind) :
  required_field fields name context = Ok (ValString (as_str id)) →
  valid_identifier (as_str id) → required_id_field fields name context = Ok id.
Proof.
  intros Hf Hv. unfold required_id_field, required_string_field. rewrite Hf. simpl.
  by rewrite (proj2 (identifier_new_ok _ _ id) (conj eq_refl Hv)).
Qed.

Lemma endpoint_roundtrip e : endpoint_valid e → endpoint_from_val (endpoint_to_val e) = Ok e.
Proof.
  intros [Hn Hp]. unfold endpoint_from_val. cbn [record_fields endpoint_to_val result_bind].
  rewrite (required_id_ok _ _ _ (MessageEndpoint.node_id e)) by done. cbn [result_bind].
  rewrite (required_id_ok _ _ _ (MessageEndpoint.port_id e)) by done. by destruct e.
Qed.

Lemma route_roundtrip r :
  (∀ e, MessageRoute.source r = Some e → endpoint_valid e) → endpoint_valid (MessageRoute.target r) →
  route_from_val (route_to_val r) = Ok r.
Proof.
  destruct r as [source target]. simpl. intros Hs Ht. unfold route_from_val.
  cbn [record_fields route_to_val result_bind MessageRoute.source MessageRoute.target].
  change (required_field _ (lit "source") _)
    with (Ok (E := PureflowError) (ValOption (endpoint_to_val <$> source))).
  change (required_field _ (lit "target") _)
    with (Ok (E := PureflowError) (endpoint_to_val target)).
  destruct source as [e|]; cbn [fmap option_fmap option_map result_bind].
  - rewrite endpoint_roundtrip by auto. cbn [result_bind]. by rewrite endpoint_roundtrip.
  - by rewrite endpoint_roundtrip.
Qed.

Lemma metadata_roundtrip m : metadata_valid m → metadata_from_val (metadata_to_val m) = Ok m.
Proof.
  destruct m as [mid wid [eid [attempt]] route]. intros [Hm Hw He Hs Ht]. simpl in *.
  unfold metadata_from_val, metadata_to_val. cbn [record_fields result_bind].
  rewrite (required_id_ok _ _ _ mid) by done. cbn [result_bind].
  rewrite (required_id_ok _ _ _ wid) by done. cbn [result_bind].
  change (required_field _ (lit "execution") _) with (Ok (E := PureflowError) (ValRecord
    [(lit "execution-id", ValString (as_str eid)); (lit "attempt", ValU32 (Npos attempt))])).
  change (required_field _ (lit "route") _)
    with (Ok (E := PureflowError) (route_to_val route)).
  cbn [result_bind]. unfold execution_from_val. cbn [record_fields result_bind].
  rewrite (required_id_ok _ _ _ eid) by done. cbn [result_bind].
  change (required_u32_field _ _ _) with (Ok (E := PureflowError) (Npos attempt)).
  cbn [result_bind]. by rewrite route_roundtrip.
Qed.

Lemma payload_roundtrip p : payload_from_val (payload_to_val p) = Ok p.
Proof.
  destruct p as [bytes|value]; [|done]. unfold payload_from_val, payload_to_val.
  rewrite decide_True by done. cbn [bytes_from_val bytes_to_list_val].
  assert (try_collect (λ value, match value with
      | ValU8 byte => Ok byte
      | _ => fail (lit "guest returned non-u8 byte payload element")
      end) (ValU8 <$> bytes) = Ok bytes) as ->; [|done].
  apply try_collect_ok, Forall2_fmap_l, Forall_Forall2_diag, Forall_true. done.
Qed.

Lemma wit_packet_roundtrip p :
  metadata_valid (WitPacket.metadata p) → packet_from_val (packet_to_val p) = Ok p.
Proof.
  intros Hm. destruct p as [m payload]. unfold packet_from_val, packet_to_val.
  cbn [record_fields result_bind WitPacket.metadata WitPacket.payload].
  change (required_field _ (lit "metadata") _) with (Ok (E := PureflowError) (metadata_to_val m)).
  change (required_field _ (lit "payload") _) with (Ok (E := PureflowError) (payload_to_val payload)).
  cbn [result_bind]. rewrite metadata_roundtrip by done. cbn [result_bind].
  by rewrite payload_roundtrip.
Qed.

Lemma port_batch_roundtrip b :
  Forall (λ p, metadata_valid (WitPacket.metadata p)) (WitPortBatch.packets b) →
  port_batch_from_val (port_batch_to_val b) = Ok b.
Proof.
  intros Hp. destruct b as [port packets]. unfold port_batch_from_val, port_batch_to_val.
  cbn [record_fields result_bind WitPortBatch.port_id WitPortBatch.packets] in *.
  change (required_string_field _ _ _) with (Ok (E := PureflowError) port).
  change (required_list_field _ _ _) with (Ok (E := PureflowError) (packet_to_val <$> packets)).
  cbn [result_bind].
  assert (try_collect packet_from_val (packet_to_val <$> packets) = Ok packets) as ->; [|done].
  apply try_collect_ok, Forall2_fmap_l, Forall_Forall2_diag, (Forall_impl _ _ _ Hp).
  apply wit_packet_roundtrip.
Qed.

(** The packet on the WIT side. *)
Definition wit_packet (packet : PortPacket) : WitPacket :=
  WitPacket.mk (MessageEnvelope.metadata packet)
    (match MessageEnvelope.payload packet with
     | PacketPayload.Bytes bytes => WitPayload.Bytes bytes
     | PacketPayload.Control value => WitPayload.Control (value_to_string value)
     end).
Definition wit_batches (b : Batch) : list WitPortBatch :=
  (λ pp, WitPortBatch.mk (as_str pp.1) (wit_packet <$> pp.2)) <$> Batch.packets_by_port b.

Lemma to_wit_port_batches_eq b : to_wit_port_batches b = Ok (wit_batches b).
Proof.
  unfold to_wit_port_batches, wit_batches.
  apply try_collect_ok, Forall2_fmap_r, Forall_Forall2_diag, Forall_true. intros [p packets].
  assert (try_collect to_wit_packet packets = Ok (wit_packet <$> packets)) as ->; [|done].
  apply try_collect_ok, Forall2_fmap_r, Forall_Forall2_diag, Forall_true. done.
Qed.

Lemma from_wit_packet_ok packet :
  payload_prints_back (MessageEnvelope.payload packet) →
  from_wit_packet (wit_packet packet) = Ok packet.
Proof.
  destruct packet as [m [bytes|value]]; simpl; [done|]. unfold from_wit_packet. simpl.
  by intros ->.
Qed.

Lemma push_wit_packets_ok p packets out :
  Forall packet_valid packets →
  push_wit_packets p (wit_packet <$> packets) out
  = Ok (foldl (λ b pp, Batch.push b pp.1 pp.2) out (pair p <$> packets)).
Proof.
  intros Hp. revert out. induction Hp as [|packet packets [_ Hv] _ IH]; intros out; [done|].
  cbn [fmap list_fmap push_wit_packets]. rewrite from_wit_packet_ok by done. apply IH.
Qed.

(** The packets of a batch, port by port. *)
Definition batch_packets (m : btree_map PortId (list PortPacket)) : list (PortId * PortPacket) :=
  m ≫= λ pp, pair pp.1 <$> pp.2.

Lemma push_wit_batches_ok m out :
  Forall (λ pp, valid_identifier (as_str pp.1) ∧ Forall packet_valid pp.2) m →
  push_wit_batches (wit_batches (Batch.from_packets m)) out
  = Ok (foldl (λ b pp, Batch.push b pp.1 pp.2) out (batch_packets m)).
Proof.
  intros Hm. revert out. induction Hm as [|[p packets] m [Hp Hv] _ IH]; intros out; [done|].
  unfold wit_batches in *. simpl in *.
  rewrite (proj2 (identifier_new_ok _ _ p) (conj eq_refl Hp)). simpl.
  rewrite push_wit_packets_ok by done. simpl. rewrite IH. unfold batch_packets. simpl.
  by rewrite foldl_app.
Qed.

Lemma batch_packets_at m q :
  NoDup (BTreeMap.keys m) →
  (filter (λ pp, pp.1 = q) (batch_packets m)).*2
  = match BTreeMap.get q m with Some packets => packets | None => [] end.
Proof.
  induction m as [|[p packets] m IH]; [done|].
  intros [Hp Hnd]%NoDup_cons. unfold batch_packets. rewrite bind_cons, filter_app, fmap_app.
  fold (batch_packets m). rewrite IH by done. cbn [fst snd BTreeMap.get].
  assert (Hsame : ∀ l : list PortPacket, (filter (λ pp, pp.1 = q) (pair p <$> l)).*2
    = if decide (p = q) then l else []).
  { intros l. case_decide as E; induction l as [|x l IHl]; try done;
      rewrite fmap_cons, filter_cons; [rewrite decide_True by done|by rewrite decide_False].
    by rewrite fmap_cons, IHl. }
  rewrite Hsame. clear Hsame. case_decide as E; subst.
  - rewrite decide_True by done. apply (BTreeMap.get_None_keys q m) in Hp as ->.
    apply app_nil_r.
  - by rewrite decide_False by congruence.
Qed.
End roundtrip.

(** ** The watcher *)

Lemma cancelled_stays s t t' req :
  CancellationToken.is_cancelled s t = true →
  CancellationToken.is_cancelled (CancellationToken.request_cancellation s t' req).2 t = true.
Proof.
  unfold CancellationToken.is_cancelled. rewrite !bool_decide_eq_true. intros [r Hr].
  unfold CancellationToken.request_cancellation.
  destruct (CancellationToken.request s t') eqn:Ht'; simpl; [by exists r|].
  unfold CancellationToken.request in *.
  destruct (decide (CancellationToken.signal t = CancellationToken.signal t')) as [E|E].
  - rewrite E in Hr. by rewrite Hr in Ht'.
  - rewrite list_lookup_insert_ne by done. by exists r.
Qed.

Section watcher.
Context {E : Set}.
Variables (cancellation : CancellationToken) (deadline : N) (shared : bool).

(** The watcher has raised its flag and not yet, or already, the epoch; it does
    the first only for a request, and the second once. *)
Record call_inv (current : N) (c : call_state E) : Prop := {
  ci_noticed : watcher c = WatchStore ∨ interrupted c = true →
    CancellationToken.is_cancelled (call_signals c) cancellation = true;
  ci_flag : interrupted c = true → watcher c = WatchTick ∨ watcher c = WatchExited;
  ci_tick : watcher c = WatchTick → interrupted c = true;
  ci_epoch : (current + (if interrupted c && bool_decide (watcher c = WatchExited) then 1 else 0)
              <= epoch c)%N;
  ci_lone : shared = false →
    epoch c = (current + (if interrupted c && bool_decide (watcher c = WatchExited) then 1 else 0))%N;
  ci_exit : watcher c = WatchExited → complete c = true ∨ interrupted c = true;
  ci_finished : ∀ b, finished c = Some b → watcher c = WatchExited ∧ b = interrupted c;
}.

Lemma call_inv_start s current : call_inv current (call_start s current).
Proof. split; simpl; try done; try lia; by intros [?|?]. Qed.

Ltac call_cases Hinv :=
  destruct Hinv as [Hn Hf Ht He Hl Hx Hfin]; simpl in *;
  split; simpl; intros;
  try match goal with H : _ = Some _ |- _ => apply Hfin in H as [??] end;
  try solve [tauto|congruence|lia|eauto|intuition (congruence || lia || eauto)].

Lemma call_inv_step current c c' :
  call_step cancellation deadline shared c c' → call_inv current c → call_inv current c'.
Proof.
  intros Hstep Hinv. destruct Hstep as [c|c Hg Hd|c r Hg|c Hg|c Hc Hw|c t req|c Hs]; [| | | | | |].
  - destruct c as [sg co it [] ep gu fi]; unfold watcher_step; simpl.
    + destruct co, it; call_cases Hinv.
    + destruct (CancellationToken.is_cancelled sg cancellation) eqn:Hcan, it; call_cases Hinv.
    + destruct it; call_cases Hinv.
    + destruct it; call_cases Hinv.
    + done.
  - done.
  - destruct c as [sg co it wt ep gu fi]. call_cases Hinv.
  - destruct c as [sg co it wt ep gu fi]. call_cases Hinv.
  - destruct c as [sg co it wt ep gu fi]. call_cases Hinv.
  - destruct c as [sg co it wt ep gu fi]. destruct Hinv as [Hn Hf Ht He Hl Hx Hfin].
    split; try done. intros Hr. by apply cancelled_stays, Hn.
  - destruct c as [sg co it wt ep gu fi]. destruct Hinv as [Hn Hf Ht He Hl Hx Hfin]. simpl in *.
    split; try done; simpl; [lia|congruence].
Qed.

Lemma call_inv_reachable s current c :
  rtc (call_step cancellation deadline shared) (call_start s current) c → call_inv current c.
Proof.
  intros Hr. assert (Hs : call_inv current (call_start s current)) by apply call_inv_start.
  induction Hr as [|c1 c2 c3 Hstep _ IH]; [done|]. by apply IH, call_inv_step with c1.
Qed.
End watcher.

(** ** Faults of a guest *)

(** A failure of the guest call or of the decoding is an execution failure or an
    invalid identifier. *)
Definition guest_fault (e : PureflowError) : Prop :=
  PureflowError.code e = ErrorCode.NodeExecutionFailed
  ∨ PureflowError.code e = ErrorCode.InvalidIdentifier.
Definition faults_only {A} (r : result A PureflowError) : Prop := ∀ e, r = Err e → guest_fault e.

Lemma faults_ok {A} (a : A) : faults_only (Ok a).
Proof. by intros e. Qed.
Lemma faults_fail {A} text : faults_only (A := A) (fail text).
Proof. intros e [= <-]. by left. Qed.
Lemma faults_bind {A B} (r : result A PureflowError) (k : A → result B PureflowError) :
  faults_only r → (∀ a, faults_only (k a)) → faults_only (result_bind r k).
Proof. intros Hr Hk e [He|(a & _ & He)]%result_bind_err; [by apply Hr|by apply (Hk a)]. Qed.
Lemma faults_ok_or {A} (o : option A) text : faults_only (ok_or o (PureflowError.execution text)).
Proof. intros e [_ <-]%ok_or_err. by left. Qed.
Lemma faults_execution {A F} (f : F → rstr) (r : result A F) :
  faults_only (map_err (λ err, PureflowError.execution (f err)) r).
Proof. intros e (err & _ & <-)%map_err_err. by left. Qed.
Lemma faults_identifier {A} (r : result A IdentifierError) :
  faults_only (map_err PureflowError.from_identifier r).
Proof. intros e (err & _ & <-)%map_err_err. by right. Qed.
Lemma faults_collect {A B} (f : A → result B PureflowError) l :
  (∀ a, faults_only (f a)) → faults_only (try_collect f l).
Proof.
  intros Hf. induction l as [|a l IH]; [apply faults_ok|]. simpl.
  apply faults_bind; [done|]. intros b. apply faults_bind; [done|]. intros. apply faults_ok.
Qed.

Create HintDb faults.
#[export] Hint Resolve faults_ok faults_fail faults_bind faults_ok_or faults_execution
  faults_identifier faults_collect : faults.

(** Decoders are sequences of such steps and case distinctions. *)
Ltac faults_step :=
  match goal with
  | |- faults_only (result_bind _ _) => apply faults_bind; [|intros]
  | |- faults_only (try_collect _ _) => apply faults_collect; intros
  | |- faults_only (match ?v with _ => _ end) => destruct v
  end.
Ltac faults := repeat (faults_step || solve [eauto with faults]).

Section faults.
Context `{J : JsonNumber} `{!JsonText} `{!JsonDisplay}.

Lemma record_fields_faults v context : faults_only (record_fields v context).
Proof. unfold record_fields. faults. Qed.
Lemma required_field_faults fields name context : faults_only (required_field fields name context).
Proof. unfold required_field. faults. Qed.
#[local] Hint Resolve record_fields_faults required_field_faults : faults.

Lemma required_string_faults fields name context :
  faults_only (required_string_field fields name context).
Proof. unfold required_string_field. faults. Qed.
Lemma required_u32_faults fields name context : faults_only (required_u32_field fields name context).
Proof. unfold required_u32_field. faults. Qed.
Lemma required_list_faults fields name context : faults_only (required_list_field fields name context).
Proof. unfold required_list_field. faults. Qed.
#[local] Hint Resolve required_string_faults required_u32_faults required_list_faults : faults.

Lemma required_id_faults {kind} fields name context :
  faults_only (required_id_field (kind := kind) fields name context).
Proof. unfold required_id_field. faults. Qed.
#[local] Hint Resolve required_id_faults : faults.

Lemma endpoint_faults v : faults_only (endpoint_from_val v).
Proof. unfold endpoint_from_val. faults. Qed.
#[local] Hint Resolve endpoint_faults : faults.
Lemma route_faults v : faults_only (route_from_val v).
Proof. unfold route_from_val. faults. Qed.
Lemma execution_faults v : faults_only (execution_from_val v).
Proof. unfold execution_from_val. faults. Qed.
#[local] Hint Resolve route_faults execution_faults : faults.
Lemma metadata_faults v : faults_only (metadata_from_val v).
Proof. unfold metadata_from_val. faults. Qed.
Lemma bytes_faults v : faults_only (bytes_from_val v).
Proof. unfold bytes_from_val. faults. Qed.
#[local] Hint Resolve metadata_faults bytes_faults : faults.
Lemma payload_faults v : faults_only (payload_from_val v).
Proof. unfold payload_from_val. faults. Qed.
#[local] Hint Resolve payload_faults : faults.
Lemma packet_faults v : faults_only (packet_from_val v).
Proof. unfold packet_from_val. faults. Qed.
#[local] Hint Resolve packet_faults : faults.
Lemma port_batch_faults v : faults_only (port_batch_from_val v).
Proof. unfold port_batch_from_val. faults. Qed.
#[local] Hint Resolve port_batch_faults : faults.
Lemma port_batches_faults v : faults_only (port_batches_from_val v).
Proof. unfold port_batches_from_val. faults. Qed.

Lemma from_wit_packet_faults p : faults_only (from_wit_packet p).
Proof. unfold from_wit_packet. faults. Qed.
#[local] Hint Resolve port_batches_faults from_wit_packet_faults : faults.
Lemma push_wit_packets_faults p packets out : faults_only (push_wit_packets p packets out).
Proof. revert out. induction packets as [|x packets IH]; intros out; simpl; faults. Qed.
#[local] Hint Resolve push_wit_packets_faults : faults.
Lemma push_wit_batches_faults batches out : faults_only (push_wit_batches batches out).
Proof. revert out. induction batches as [|x batches IH]; intros out; simpl; faults. Qed.

Lemma batch_outputs_faults v : faults_only (batch_outputs_from_result_val v).
Proof.
  unfold batch_outputs_from_result_val, from_wit_port_batches.
  destruct v as [| | | | | | | | | | |[[v|]|[v|]]|]; try apply faults_fail.
  - apply faults_bind; [apply port_batches_faults|]. intros. apply push_wit_batches_faults.
  - intros e [= <-]. left. unfold batch_error_from_val. by repeat case_match.
Qed.
End faults.

Lemma find_function_faults `{W : !Wasmtime} interface function f t1 t2 t3 component :
  faults_only (find_function interface function f t1 t2 t3 component).
Proof.
  unfold find_function. apply faults_bind; [apply faults_execution|]. intros instance. faults.
Qed.

(** ** Properties *)

(** C18. What crosses the WASM boundary comes back unchanged: for a batch whose
    identifiers are valid and whose control payloads the JSON library reads back
    from their text, the value given to the guest exists, and a guest that answers
    with that value produces a batch with the same packets, in the same order, on
    every port. *)
Theorem wasm_batch_roundtrip `{J : JsonNumber} `{!JsonText} `{!JsonDisplay} (b : Batch)
  (Hsorted : BTreeMap.sorted_map (Batch.packets_by_port b))
  (Hvalid : Forall (λ pp, valid_identifier (as_str pp.1) ∧ Forall packet_valid pp.2)
              (Batch.packets_by_port b)) :
  ∃ v b', batch_inputs_to_val b = Ok v
    ∧ batch_outputs_from_result_val (ValResult (Ok (Some v))) = Ok b'
    ∧ ∀ p, Batch.packets b' p = Batch.packets b p.
Proof.
  unfold batch_inputs_to_val. rewrite to_wit_port_batches_eq. cbn [result_bind].
  destruct b as [m]. eexists _, _. split; [done|]. split.
  - cbn [batch_outputs_from_result_val port_batches_from_val].
    assert (try_collect port_batch_from_val (port_batch_to_val <$> wit_batches (Batch.from_packets m))
      = Ok (wit_batches (Batch.from_packets m))) as ->; cbn [result_bind].
    + apply try_collect_ok, Forall2_fmap_l, Forall_Forall2_diag, Forall_fmap,
        (Forall_impl _ _ _ Hvalid).
      intros [p packets] [_ Hp]. apply port_batch_roundtrip, Forall_fmap, (Forall_impl _ _ _ Hp).
      by intros packet [? _].
    + by apply push_wit_batches_ok.
  - intros p. rewrite Batch.packets_pushes. simpl.
    by apply batch_packets_at, BTreeMap.sorted_map_NoDup.
Qed.

(** C31. Along every interleaving of a guest call, its watcher, and whatever the
    rest of the system does: the watcher reports an interruption only for a
    requested cancellation, and then the epoch has advanced, which stops a guest
    whose deadline is at most one tick away; as long as no other invocation uses
    the engine the epoch advances at most once, so a guest with a deadline of two
    or more ticks is never stopped by a cancellation. *)
Theorem guest_call_cancellation {E : Set} (cancellation : CancellationToken)
  (limits : WasmtimeExecutionLimits) (shared : bool) (s : signals) (current : N)
  (c : call_state E) :
  let ticks := WasmtimeExecutionLimits.cancellation_epoch_deadline limits in
  let deadline := (current + ticks)%N in
  rtc (call_step cancellation deadline shared) (call_start s current) c →
  (finished c = Some true →
     CancellationToken.is_cancelled (call_signals c) cancellation = true
     ∧ (current + 1 <= epoch c)%N ∧ ((ticks <= 1)%N → (deadline <= epoch c)%N))
  ∧ (finished c = Some false → interrupted c = false)
  ∧ (shared = false → (2 <= ticks)%N → (epoch c < deadline)%N).
Proof.
  intros ticks deadline Hr. destruct (call_inv_reachable _ _ _ _ _ _ Hr) as [Hn Hf Ht He Hl Hx Hfin].
  split_and!.
  - intros [Hw Hi]%Hfin. rewrite <- Hi, bool_decide_eq_true_2 in He by done. simpl in He.
    split; [by apply Hn; right|]. subst deadline. lia.
  - by intros [_ ?]%Hfin.
  - intros Hs Ht2. rewrite (Hl Hs). subst deadline. destruct (_ && _); lia.
Qed.

(** An invocation reports a cancellation only when one was requested, with the
    reason of the request, before the call or during it; every other failure of it
    is an execution failure or an invalid identifier: a guest can not pass for a
    cancelled one. *)
Theorem wasm_cancellation_reported `{J : JsonNumber} `{!JsonText} `{!JsonDisplay} `{W : !Wasmtime}
  (c : WasmtimeBatchComponent) (inputs : Batch) (cancellation : CancellationToken) (s : signals)
  (spawned : result unit rstr) (call : wasm_func → list Val → guest_call) (e : PureflowError)
  (Hcall : ∀ f params, ∃ current deadline shared (st : call_state wasm_error),
     rtc (call_step cancellation deadline shared) (call_start s current) st
     ∧ finished st = Some (call_interrupted (call f params))
     ∧ call_signals st = signals_after (call f params))
  (He : invoke_with_cancellation c inputs cancellation s spawned call = Err e) :
  guest_fault e
  ∨ ∃ s' request, e = PureflowError.cancelled (CancellationRequest.reason request)
      ∧ CancellationToken.request s' cancellation = Some request
      ∧ (s' = s ∨ ∃ f params, s' = signals_after (call f params)).
Proof.
  unfold invoke_with_cancellation in He.
  destruct (CancellationToken.request s cancellation) as [request|] eqn:Hreq.
  { injection He as <-. right. exists s, request. auto. }
  apply result_bind_err in He as [He|([] & _ & He)]; [left; exact (faults_execution _ _ _ He)|].
  apply result_bind_err in He as [He|([] & _ & He)]; [left; exact (faults_execution _ _ _ He)|].
  apply result_bind_err in He as [He|(f & _ & He)].
  { left. exact (find_function_faults _ _ _ _ _ _ _ _ He). }
  apply result_bind_err in He as [He|(v & _ & He)].
  { unfold batch_inputs_to_val in He. by rewrite to_wit_port_batches_eq in He. }
  apply result_bind_err in He as [He|(r & _ & He)]; [|left; exact (batch_outputs_faults _ _ He)].
  unfold settle_call in He. destruct (call_interrupted (call f [v])) eqn:Hi.
  - right. destruct (Hcall f [v]) as (current & deadline & shared & st & Hst & Hfin & Hsig).
    rewrite Hi in Hfin. apply call_inv_reachable in Hst as [Hn _ _ _ _ _ Hf].
    apply Hf in Hfin as [_ Hint]. specialize (Hn (or_intror (eq_sym Hint))).
    unfold CancellationToken.is_cancelled in Hn. apply bool_decide_eq_true in Hn as [request Hr].
    rewrite Hsig in Hr. rewrite Hr in He. injection He as <-.
    exists (signals_after (call f [v])), request. split_and!; [done|done|]. right. by exists f, [v].
  - left. apply map_err_err in He as (err & _ & <-). unfold map_guest_call_error.
    destruct (_ || _); by left.
Qed.

(** ** Examples *)

Section examples.
#[local] Instance no_json_text : JsonText :=
  {| json_error := unit; json_error_fmt := λ _, lit "json";
     json_from_str := λ _, Ok Value.Null; json_to_string := λ _, Ok (lit "null") |}.
#[local] Instance null_display : JsonDisplay := λ _, lit "null".
Let packet : PortPacket :=
  MessageEnvelope.new
    (MessageMetadata.new (ident "m1") (ident "flow")
       (ExecutionMetadata.first_attempt (ident "run-1"))
       (MessageRoute.new (Some (MessageEndpoint.new (ident "a") (ident "out")))
          (MessageEndpoint.new (ident "b") (ident "in"))))
    (PacketPayload.Control Value.Null).
Let batch : Batch :=
  Batch.from_packets [(ident "in", [packet]); (ident "side", [packet; packet])].

Lemma valid_text (kind : IdentifierKind) (value : rstr) :
  validate_identifier kind value = Ok tt → valid_identifier value.
Proof. apply validate_identifier_ok. Qed.

Lemma packet_is_valid : packet_valid packet.
Proof.
  split; [|done]. split; simpl; try (eapply (valid_text IdentifierKind.Node); reflexivity).
  - intros e [= <-]. split; eapply (valid_text IdentifierKind.Node); reflexivity.
  - split; eapply (valid_text IdentifierKind.Node); reflexivity.
Qed.

Lemma wasm_batch_roundtrip_witness :
  ∃ v b', batch_inputs_to_val batch = Ok v
    ∧ batch_outputs_from_result_val (ValResult (Ok (Some v))) = Ok b'
    ∧ ∀ p, Batch.packets b' p = Batch.packets batch p.
Proof.
  apply (wasm_batch_roundtrip batch).
  - constructor; [constructor; constructor|].
    constructor; [|constructor]. reflexivity.
  - apply Forall_cons; split; [|apply Forall_cons; split; [|constructor]].
    + split; [exact (valid_text IdentifierKind.Port (lit "in") eq_refl)|].
      apply Forall_cons; split; [exact packet_is_valid|constructor].
    + split; [exact (valid_text IdentifierKind.Port (lit "side") eq_refl)|].
      apply Forall_cons; split; [exact packet_is_valid|].
      apply Forall_cons; split; [exact packet_is_valid|constructor].
Defined.

(** A cancellation that the watcher notices while the guest runs. *)
Let token : CancellationToken := CancellationToken.mk 0.
Let stop : CancellationRequest := CancellationRequest.new (lit "stop").
Let noticed : call_state unit :=
  mk_call [Some stop] true true WatchExited 8 (Some (Err tt)) (Some true).

Lemma noticed_reachable ticks :
  rtc (call_step token (7 + ticks) false) (call_start [None] 7) noticed.
Proof.
  eapply rtc_l; [exact (step_watcher _ _ _ _)|].
  eapply rtc_l; [exact (step_cancel _ _ _ _ token stop)|].
  eapply rtc_l; [exact (step_watcher _ _ _ _)|].
  eapply rtc_l; [exact (step_watcher _ _ _ _)|].
  eapply rtc_l; [exact (step_watcher _ _ _ _)|].
  eapply rtc_l; [by apply (step_guest_returns _ _ _ _ (Err tt))|].
  eapply rtc_l; [by apply step_finish_store|].
  eapply rtc_l; [by apply step_finish_load|]. done.
Qed.

Lemma guest_call_cancellation_witness :
  CancellationToken.is_cancelled (call_signals noticed) token = true
  ∧ (7 + 1 <= epoch noticed)%N.
Proof.
  destruct (guest_call_cancellation token WasmtimeExecutionLimits.default false [None] 7 noticed
              (noticed_reachable 1)) as [H _].
  destruct (H eq_refl) as (H1 & H2 & _). split; [exact H1|exact H2].
Defined.

(** Another invocation of the component is cancelled: this guest is stopped, and its
    watcher has nothing to report. *)
Example foreign_cancellation_stops_guest :
  ∃ c : call_state unit,
    rtc (call_step token (7 + 1) true) (call_start [None] 7) c
    ∧ CancellationToken.is_cancelled (call_signals c) token = false
    ∧ guest c = None ∧ ¬ (epoch c < 7 + 1)%N.
Proof.
  eexists. split; [eapply rtc_l; [by apply step_foreign_tick|done]|].
  split_and!; [reflexivity|reflexivity|]. simpl. lia.
Qed.

#[local] Instance toy_wasmtime : Wasmtime :=
  {| wasm_error := unit; wasm_error_fmt := λ _, lit "trap"; wasm_component := unit;
     wasm_instance := unit; export_index := unit; wasm_func := unit;
     engine_new := Ok tt; component_from_binary := λ _, Ok tt; store_set_fuel := λ _, Ok tt;
     instantiate := λ _, Ok tt; get_export_index := λ _ _ _, Some tt; get_func := λ _ _, Some tt |}.

Lemma wasm_cancellation_reported_witness :
  let e := PureflowError.cancelled (lit "stop") in
  guest_fault e
  ∨ ∃ s' request, e = PureflowError.cancelled (CancellationRequest.reason request)
      ∧ CancellationToken.request s' token = Some request
      ∧ (s' = [None] ∨ ∃ (f : unit) (params : list Val), s' = [Some stop]).
Proof.
  apply (wasm_cancellation_reported (W := toy_wasmtime)
           (mk_batch_component (W := toy_wasmtime) tt WasmtimeExecutionLimits.default) batch
           token [None] (Ok tt)
           (λ _ _, mk_guest_call (W := toy_wasmtime) (Err tt) true None [Some stop])).
  - intros f params. exists 7%N, 8%N, false, noticed.
    split; [exact (noticed_reachable 1)|split; reflexivity].
  - reflexivity.
Defined.
End examples.
