(* ===== verification/WasmRules.v ===== *)
(** [pureflow-wasm], the rule boundary
    (src/crates/pureflow-wasm/src/rules.rs): a rule set and the context of a packet
    are encoded as Component Model values, the guest evaluates them, and its answer
    is decoded into a decision.

    Conditions are recursive and Component Model values are not, so a condition is
    encoded as an arena of nodes that name their children by index. *)

From Stdlib Require Import Strings.Byte.
From S2P Require Import Prelude RustStr BTree Types Capability Errors Json Context Message Metadata Rules RuleNode Wiring Wasm.

(** ** Constants and state *)

Definition WIT_RULES_PACKAGE : rstr := lit "pureflow:rules@0.1.0".
Definition WIT_RULES_WORLD : rstr := lit "pureflow-rules-node".
Definition RULES_INTERFACE_EXPORT : rstr := lit "pureflow:rules/rules@0.1.0".
Definition EVALUATE_EXPORT : rstr := lit "evaluate".

(** [u32::MAX]. *)
Definition u32_max : N := 2 ^ 32 - 1.

Module HostEvalContext.
Section context.
Context `{J : JsonNumber}.

Record HostEvalContext : Type := mk {
  payload : PacketPayload;
  tags : btree_map rstr ScalarValue;
  source_node : option rstr;
  arrival_port : option rstr;
  hop_count : N;
  workflow_id : rstr;
  execution_metadata : btree_map rstr ScalarValue;
}.

Definition default : HostEvalContext := mk (PacketPayload.Bytes []) [] None None 0 [] [].
End context.
End HostEvalContext.
Notation HostEvalContext := HostEvalContext.HostEvalContext.

(** ** Encoding *)

Definition variant (name : rstr) (payload : option Val) : Val := ValVariant name payload.

Definition scalar_to_val (scalar : ScalarValue) : Val :=
  match scalar with
  | ScalarValue.String text => variant (lit "text") (Some (ValString text))
  | ScalarValue.Integer value => variant (lit "integer") (Some (ValS64 value))
  | ScalarValue.Float value => variant (lit "float-value") (Some (ValFloat64 value))
  | ScalarValue.Boolean value => variant (lit "boolean") (Some (ValBool value))
  | ScalarValue.Null => variant (lit "null-value") None
  end.

Definition scalar_entry_to_val (key : rstr) (value : ScalarValue) : Val :=
  ValRecord [(lit "key", ValString key); (lit "value", scalar_to_val value)].

Definition field_predicate (path : rstr) (value : ScalarValue) : Val :=
  ValRecord [(lit "path", ValString path); (lit "value", scalar_to_val value)].

Definition action_to_val (action : RuleAction) : Val :=
  match action with
  | RuleAction.Route port => variant (lit "route") (Some (ValString (as_str port)))
  | RuleAction.Drop => variant (lit "drop") None
  | RuleAction.DeadLetter reason => variant (lit "dead-letter") (Some (ValString reason))
  | RuleAction.Tag key value => variant (lit "tag") (Some (scalar_entry_to_val key value))
  | RuleAction.Halt message => variant (lit "halt") (Some (ValString message))
  end.

Definition strategy_to_val (strategy : EvaluationStrategy) : Val :=
  ValEnum (match strategy with
           | EvaluationStrategy.FirstMatch => lit "first-match"
           | EvaluationStrategy.AllMatches => lit "all-matches"
           | EvaluationStrategy.Score => lit "score"
           end).

(** The end of [push_condition]: the index of the new node, which saturates. *)
Definition push_node {A} (node : A) (nodes : list A) : N * list A :=
  (N.min (N.of_nat (length nodes)) u32_max, nodes ++ [node]).

(** [children.iter().map(|child| push_condition(child, nodes)).collect()]. *)
Definition push_children {A C} (push : C → list A → N * list A) (children : list C)
    (nodes : list A) : list N * list A :=
  fold_left (λ acc child, let (index, nodes) := push child acc.2 in (acc.1 ++ [index], nodes))
    children ([], nodes).

Fixpoint push_condition (condition : Condition) (nodes : list Val) : N * list Val :=
  match condition with
  | Condition.FieldEq path value =>
      push_node (variant (lit "field-eq") (Some (field_predicate (FieldPath.path path) value))) nodes
  | Condition.FieldNeq path value =>
      push_node (variant (lit "field-neq") (Some (field_predicate (FieldPath.path path) value))) nodes
  | Condition.FieldGt path value =>
      push_node (variant (lit "field-gt") (Some (field_predicate (FieldPath.path path) value))) nodes
  | Condition.FieldLt path value =>
      push_node (variant (lit "field-lt") (Some (field_predicate (FieldPath.path path) value))) nodes
  | Condition.FieldGte path value =>
      push_node (variant (lit "field-gte") (Some (field_predicate (FieldPath.path path) value))) nodes
  | Condition.FieldLte path value =>
      push_node (variant (lit "field-lte") (Some (field_predicate (FieldPath.path path) value))) nodes
  | Condition.FieldIn path values =>
      push_node (variant (lit "field-in") (Some (ValRecord
        [(lit "path", ValString (FieldPath.path path));
         (lit "values", ValList (scalar_to_val <$> values))]))) nodes
  | Condition.FieldExists path =>
      push_node (variant (lit "field-exists") (Some (ValString (FieldPath.path path)))) nodes
  | Condition.FieldAbsent path =>
      push_node (variant (lit "field-absent") (Some (ValString (FieldPath.path path)))) nodes
  | Condition.FieldMatches path pattern =>
      push_node (variant (lit "field-matches") (Some (ValRecord
        [(lit "path", ValString (FieldPath.path path));
         (lit "pattern", ValString (GlobPattern.pattern pattern))]))) nodes
  | Condition.TagEq key value =>
      push_node (variant (lit "tag-eq") (Some (scalar_entry_to_val key value))) nodes
  | Condition.TagExists key =>
      push_node (variant (lit "tag-exists") (Some (ValString key))) nodes
  | Condition.TagAbsent key =>
      push_node (variant (lit "tag-absent") (Some (ValString key))) nodes
  | Condition.SourceNode node_id =>
      push_node (variant (lit "source-node") (Some (ValString (as_str node_id)))) nodes
  | Condition.ArrivedOnPort port_id =>
      push_node (variant (lit "arrived-on-port") (Some (ValString (as_str port_id)))) nodes
  | Condition.HopCountGt n => push_node (variant (lit "hop-count-gt") (Some (ValU32 n))) nodes
  | Condition.HopCountLte n => push_node (variant (lit "hop-count-lte") (Some (ValU32 n))) nodes
  | Condition.WorkflowIs workflow_id =>
      push_node (variant (lit "workflow-is") (Some (ValString (as_str workflow_id)))) nodes
  | Condition.ExecutionMetadataEq key value =>
      push_node (variant (lit "execution-metadata-eq") (Some (scalar_entry_to_val key value))) nodes
  | Condition.And children =>
      let (indices, nodes) := push_children push_condition children nodes in
      push_node (variant (lit "and-node") (Some (ValList (ValU32 <$> indices)))) nodes
  | Condition.Or children =>
      let (indices, nodes) := push_children push_condition children nodes in
      push_node (variant (lit "or-node") (Some (ValList (ValU32 <$> indices)))) nodes
  | Condition.Not inner =>
      let (index, nodes) := push_condition inner nodes in
      push_node (variant (lit "not-node") (Some (ValU32 index))) nodes
  | Condition.Always => push_node (variant (lit "always") None) nodes
  | Condition.Never => push_node (variant (lit "never") None) nodes
  end.

Definition condition_tree_to_val (condition : Condition) : Val :=
  let (root, nodes) := push_condition condition [] in
  ValRecord [(lit "nodes", ValList nodes); (lit "root", ValU32 root)].

Definition rule_to_val (rule : Rule) : result Val PureflowError :=
  Ok (ValRecord
    [(lit "id", ValString (Rule.id rule));
     (lit "condition", condition_tree_to_val (Rule.condition rule));
     (lit "action", action_to_val (Rule.action rule));
     (lit "priority", ValU32 (Rule.priority rule));
     (lit "description", ValString (Rule.description rule))]).

Definition rule_set_to_val (rule_set : RuleSet) : result Val PureflowError :=
  let? rules := try_collect rule_to_val (RuleSet.rules rule_set) in
  Ok (ValRecord
    [(lit "id", ValString (RuleSet.id rule_set));
     (lit "strategy", strategy_to_val (RuleSet.strategy rule_set));
     (lit "rules", ValList rules);
     (lit "default-action", action_to_val (RuleSet.default_action rule_set));
     (lit "trace-conditions", ValBool (RuleSet.trace_conditions rule_set))]).

Definition scalar_entries_to_val (entries : btree_map rstr ScalarValue) : list Val :=
  (λ kv, scalar_entry_to_val kv.1 kv.2) <$> entries.

Section context.
Context `{J : JsonNumber} `{!JsonText}.

(** [payload_to_val] of this module. *)
Definition context_payload_to_val (payload : PacketPayload) : result Val PureflowError :=
  match payload with
  | PacketPayload.Bytes bytes => Ok (variant (lit "bytes") (Some (ValList (ValU8 <$> bytes))))
  | PacketPayload.Control value =>
      let? encoded := map_err (λ err, PureflowError.execution
          (lit "failed to encode control payload: " ++ json_error_fmt err))
        (json_to_string value) in
      Ok (variant (lit "control") (Some (ValString encoded)))
  end.

Definition eval_context_to_val (context : HostEvalContext) : result Val PureflowError :=
  let? payload := context_payload_to_val (HostEvalContext.payload context) in
  Ok (ValRecord
    [(lit "payload", payload);
     (lit "tags", ValList (scalar_entries_to_val (HostEvalContext.tags context)));
     (lit "source-node", ValOption (ValString <$> HostEvalContext.source_node context));
     (lit "arrival-port", ValOption (ValString <$> HostEvalContext.arrival_port context));
     (lit "hop-count", ValU32 (HostEvalContext.hop_count context));
     (lit "workflow-id", ValString (HostEvalContext.workflow_id context));
     (lit "execution-metadata",
        ValList (scalar_entries_to_val (HostEvalContext.execution_metadata context)))]).
End context.

(** ** Decoding *)

Definition as_variant (value : Val) (context : rstr) :
    result (rstr * option Val) PureflowError :=
  match value with
  | ValVariant name payload => Ok (name, payload)
  | _ => fail (lit "guest returned non-variant " ++ context)
  end.

Definition as_string (value : Val) (context : rstr) : result rstr PureflowError :=
  match value with
  | ValString value => Ok value
  | _ => fail (lit "guest returned non-string " ++ context)
  end.

Definition optional_string (value : Val) : result (option rstr) PureflowError :=
  match value with
  | ValOption (Some inner) =>
      let? inner := as_string inner (lit "option string") in Ok (Some inner)
  | ValOption None => Ok None
  | _ => fail (lit "guest returned non-option value")
  end.

Definition scalar_from_val (value : Val) : result ScalarValue PureflowError :=
  let? variant := as_variant value (lit "scalar value") in
  let (name, payload) := variant : rstr * option Val in
  let unsupported := fail (lit "guest returned unsupported scalar value: " ++ name) in
  if decide (name = lit "null-value") then Ok ScalarValue.Null
  else
    match payload with
    | None => unsupported
    | Some payload =>
        if decide (name = lit "text") then
          let? text := as_string payload (lit "text scalar") in Ok (ScalarValue.String text)
        else if decide (name = lit "integer") then
          match payload with
          | ValS64 value => Ok (ScalarValue.Integer value)
          | _ => fail (lit "guest returned non-s64 integer scalar")
          end
        else if decide (name = lit "float-value") then
          match payload with
          | ValFloat64 value => Ok (ScalarValue.Float value)
          | _ => fail (lit "guest returned non-f64 float scalar")
          end
        else if decide (name = lit "boolean") then
          match payload with
          | ValBool value => Ok (ScalarValue.Boolean value)
          | _ => fail (lit "guest returned non-bool boolean scalar")
          end
        else unsupported
    end.

Definition scalar_entry_from_val (value : Val) : result (rstr * ScalarValue) PureflowError :=
  let? fields := record_fields value (lit "scalar entry") in
  let? key := required_string_field fields (lit "key") (lit "scalar entry") in
  let? value := required_field fields (lit "value") (lit "scalar entry") in
  let? value := scalar_from_val value in
  Ok (key, value).

Definition action_from_val (value : Val) : result RuleAction PureflowError :=
  let? variant := as_variant value (lit "rule action") in
  let (name, payload) := variant : rstr * option Val in
  let unsupported := fail (lit "guest returned unsupported rule action: " ++ name) in
  if decide (name = lit "drop") then Ok RuleAction.Drop
  else
    match payload with
    | None => unsupported
    | Some payload =>
        if decide (name = lit "route") then
          let? port := as_string payload (lit "route port") in
          let? port := map_err PureflowError.from_identifier (identifier_new port) in
          Ok (RuleAction.Route port)
        else if decide (name = lit "dead-letter") then
          let? reason := as_string payload (lit "dead-letter reason") in
          Ok (RuleAction.DeadLetter reason)
        else if decide (name = lit "tag") then
          let? entry := scalar_entry_from_val payload in
          Ok (RuleAction.Tag entry.1 entry.2)
        else if decide (name = lit "halt") then
          let? message := as_string payload (lit "halt message") in
          Ok (RuleAction.Halt message)
        else unsupported
    end.

Definition surface_from_val (value : Val) :
    result ConditionTrace.ConditionSurfaceRecord PureflowError :=
  match value with
  | ValEnum name =>
      if decide (name = lit "payload") then Ok ConditionTrace.Payload
      else if decide (name = lit "tag") then Ok ConditionTrace.Tag
      else if decide (name = lit "provenance") then Ok ConditionTrace.Provenance
      else if decide (name = lit "execution-context") then Ok ConditionTrace.ExecutionContext
      else if decide (name = lit "combinator") then Ok ConditionTrace.Combinator
      else if decide (name = lit "constant") then Ok ConditionTrace.Constant
      else fail (lit "guest returned unknown condition surface: " ++ name)
  | _ => fail (lit "guest returned non-enum condition surface")
  end.

Definition condition_trace_from_val (value : Val) : result ConditionTrace PureflowError :=
  let context := lit "condition trace" in
  let? fields := record_fields value context in
  let? rule_id := required_string_field fields (lit "rule-id") context in
  let? surface := required_field fields (lit "surface") context in
  let? surface := surface_from_val surface in
  let? matched := required_field fields (lit "matched") context in
  let? matched :=
    match matched with
    | ValBool value => Ok value
    | _ => fail (lit "guest returned non-bool condition trace match")
    end in
  Ok (ConditionTrace.new rule_id [] matched surface).

Definition decision_from_val (value : Val) : result RuleDecision PureflowError :=
  let context := lit "rule decision" in
  let? fields := record_fields value context in
  let? action := required_field fields (lit "action") context in
  let? action := action_from_val action in
  let? matched_rule := required_field fields (lit "matched-rule") context in
  let? matched_rule := optional_string matched_rule in
  let? tags := required_list_field fields (lit "tags-applied") context in
  let? tags_applied := try_collect scalar_entry_from_val tags in
  let? traces := required_list_field fields (lit "conditions-evaluated") context in
  let? conditions_evaluated := try_collect condition_trace_from_val traces in
  Ok (RuleDecision.mk action matched_rule tags_applied conditions_evaluated).

Definition rule_error_from_val (value : Val) : PureflowError :=
  match value with
  | ValVariant name (Some (ValString message)) =>
      PureflowError.execution (lit "guest rule " ++ name ++ lit ": " ++ message)
  | ValVariant name (Some _) =>
      PureflowError.execution (lit "guest returned malformed " ++ name ++ lit " rule error")
  | ValVariant name None =>
      PureflowError.execution (lit "guest returned " ++ name ++ lit " without detail")
  | _ => PureflowError.execution (lit "guest returned malformed rule error")
  end.

Definition decision_from_result_val (value : Val) : result RuleDecision PureflowError :=
  match value with
  | ValResult (Ok (Some value)) => decision_from_val value
  | ValResult (Ok None) => fail (lit "guest returned empty ok result from rules.evaluate")
  | ValResult (Err (Some value)) => Err (rule_error_from_val value)
  | ValResult (Err None) => fail (lit "guest returned empty error from rules.evaluate")
  | _ => fail (lit "guest returned non-result from rules.evaluate")
  end.

(** ** Components *)

Section evaluate.
Context `{J : JsonNumber} `{!JsonText} `{W : !Wasmtime}.

Record WasmtimeRuleComponent : Set := mk_rule_component {
  rule_component : wasm_component;
  rule_limits : WasmtimeExecutionLimits;
}.

Definition rule_component_with_limits (bytes : list byte) (limits : WasmtimeExecutionLimits) :
    result WasmtimeRuleComponent PureflowError :=
  let? _ := component_engine in
  let? component := map_err (λ err, PureflowError.execution
      (lit "failed to compile rule component: " ++ wasm_error_fmt err))
    (component_from_binary bytes) in
  Ok (mk_rule_component component limits).

Definition rule_component_from_bytes (bytes : list byte) :
    result WasmtimeRuleComponent PureflowError :=
  rule_component_with_limits bytes WasmtimeExecutionLimits.default.

Definition rule_component_with_capabilities (bytes : list byte) (capabilities : NodeCapabilities) :
    result WasmtimeRuleComponent PureflowError :=
  let? _ := validate_wasm_capabilities capabilities in
  rule_component_from_bytes bytes.

Definition evaluate_with_cancellation (c : WasmtimeRuleComponent) (rule_set : RuleSet)
    (context : HostEvalContext) (cancellation : CancellationToken) (s : signals)
    (spawned : result unit rstr) (call : wasm_func → list Val → guest_call) :
    result RuleDecision PureflowError :=
  match CancellationToken.request s cancellation with
  | Some request => Err (PureflowError.cancelled (CancellationRequest.reason request))
  | None =>
      let? _ := map_err (λ err, PureflowError.execution
          (lit "failed to configure guest fuel: " ++ wasm_error_fmt err))
        (store_set_fuel (WasmtimeExecutionLimits.fuel (rule_limits c))) in
      let? _ := map_err (λ err, PureflowError.execution
          (lit "failed to start WASM cancellation watcher: " ++ err)) spawned in
      let? evaluate := find_function RULES_INTERFACE_EXPORT EVALUATE_EXPORT
        (λ err, lit "failed to instantiate rule component: " ++ wasm_error_fmt err)
        (lit "component does not export " ++ RULES_INTERFACE_EXPORT)
        (lit "component does not export rules.evaluate")
        (lit "rules.evaluate export is not a function") (rule_component c) in
      let? rule_set := rule_set_to_val rule_set in
      let? context := eval_context_to_val context in
      let? value := settle_call (rule_limits c) cancellation (lit "wasm rule evaluation cancelled")
        (call evaluate [rule_set; context]) in
      decision_from_result_val value
  end.

(** [evaluate] with a token of its own. *)
Definition evaluate_uncancelled (c : WasmtimeRuleComponent) (rule_set : RuleSet)
    (context : HostEvalContext) (s : signals) (spawned : result unit rstr)
    (call : wasm_func → list Val → guest_call) : result RuleDecision PureflowError :=
  let (token, s) := CancellationToken.active s in
  evaluate_with_cancellation c rule_set context token s spawned call.
End evaluate.
