(* ===== verification/RulesGuest.v ===== *)
(** The sample rule guest
    (src/crates/pureflow-wasm/fixtures/rules-guest/src/lib.rs), which evaluates a
    rule set over the arena of condition nodes, and the types of
    src/crates/pureflow-wasm/wit/pureflow-rules.wit it is written against, with the
    Component Model values that stand for them.

    An arena is data from outside, so the recursion of the guest over it is not
    structural: [eval_node] takes fuel, and has no answer when the fuel is used up,
    as on an arena whose nodes refer to each other in a circle.  The allocator and
    the C runtime of the fixture are not modelled. *)

From Stdlib Require Import Lia Strings.Byte.
From S2P Require Import Prelude RustStr BTree Types Errors Json Context Message Metadata Rules RuleEval RuleContract RuleNode Wiring Wasm WasmRules.

(** ** The WIT types *)

Module Wit.
Inductive ScalarValue : Set :=
| Text (s : rstr)
| Integer (i : Z)
| FloatValue (f : f64)
| Boolean (b : bool)
| NullValue.

Record ScalarEntry : Set := mk_entry { key : rstr; value : ScalarValue }.
Record FieldPredicate : Set := mk_predicate { path : rstr; field_value : ScalarValue }.

Inductive ConditionNode : Set :=
| FieldEq (p : FieldPredicate)
| FieldNeq (p : FieldPredicate)
| FieldGt (p : FieldPredicate)
| FieldLt (p : FieldPredicate)
| FieldGte (p : FieldPredicate)
| FieldLte (p : FieldPredicate)
| FieldIn (path : rstr) (values : list ScalarValue)
| FieldExists (path : rstr)
| FieldAbsent (path : rstr)
| FieldMatches (path pattern : rstr)
| TagEq (entry : ScalarEntry)
| TagExists (key : rstr)
| TagAbsent (key : rstr)
| SourceNode (node_id : rstr)
| ArrivedOnPort (port_id : rstr)
| HopCountGt (n : N)
| HopCountLte (n : N)
| WorkflowIs (id : rstr)
| ExecutionMetadataEq (entry : ScalarEntry)
| AndNode (children : list N)
| OrNode (children : list N)
| NotNode (child : N)
| Always
| Never.

Record ConditionTree : Set := mk_tree { nodes : list ConditionNode; root : N }.

Inductive RuleAction : Set :=
| Route (port : rstr)
| Drop
| DeadLetter (reason : rstr)
| Tag (entry : ScalarEntry)
| Halt (message : rstr).

Record Rule : Set := mk_rule {
  rule_id : rstr;
  condition : ConditionTree;
  action : RuleAction;
  priority : N;
  description : rstr;
}.

Record RuleSet : Set := mk_rule_set {
  rule_set_id : rstr;
  strategy : EvaluationStrategy;
  rules : list Rule;
  default_action : RuleAction;
  trace_conditions : bool;
}.

Inductive PacketPayload : Set := Bytes (bytes : list byte) | Control (text : rstr).

Record EvalContext : Set := mk_context {
  payload : PacketPayload;
  tags : list ScalarEntry;
  source_node : option rstr;
  arrival_port : option rstr;
  hop_count : N;
  workflow_id : rstr;
  execution_metadata : list ScalarEntry;
}.

Record Trace : Set := mk_trace {
  trace_rule : rstr;
  trace_surface : ConditionSurface;
  trace_matched : bool;
}.

Record RuleDecision : Set := mk_decision {
  decided : RuleAction;
  matched_rule : option rstr;
  tags_applied : list ScalarEntry;
  conditions_evaluated : list Trace;
}.

(** *** Their Component Model values *)

Definition scalar_val (v : ScalarValue) : Val :=
  match v with
  | Text s => ValVariant (lit "text") (Some (ValString s))
  | Integer i => ValVariant (lit "integer") (Some (ValS64 i))
  | FloatValue f => ValVariant (lit "float-value") (Some (ValFloat64 f))
  | Boolean b => ValVariant (lit "boolean") (Some (ValBool b))
  | NullValue => ValVariant (lit "null-value") None
  end.
Definition entry_val (e : ScalarEntry) : Val :=
  ValRecord [(lit "key", ValString (key e)); (lit "value", scalar_val (value e))].
Definition predicate_val (p : FieldPredicate) : Val :=
  ValRecord [(lit "path", ValString (path p)); (lit "value", scalar_val (field_value p))].

Definition node_val (n : ConditionNode) : Val :=
  let case name payload := ValVariant (lit name) payload in
  match n with
  | FieldEq p => case "field-eq" (Some (predicate_val p))
  | FieldNeq p => case "field-neq" (Some (predicate_val p))
  | FieldGt p => case "field-gt" (Some (predicate_val p))
  | FieldLt p => case "field-lt" (Some (predicate_val p))
  | FieldGte p => case "field-gte" (Some (predicate_val p))
  | FieldLte p => case "field-lte" (Some (predicate_val p))
  | FieldIn path values =>
      case "field-in" (Some (ValRecord
        [(lit "path", ValString path); (lit "values", ValList (scalar_val <$> values))]))
  | FieldExists path => case "field-exists" (Some (ValString path))
  | FieldAbsent path => case "field-absent" (Some (ValString path))
  | FieldMatches path pattern =>
      case "field-matches" (Some (ValRecord
        [(lit "path", ValString path); (lit "pattern", ValString pattern)]))
  | TagEq e => case "tag-eq" (Some (entry_val e))
  | TagExists key => case "tag-exists" (Some (ValString key))
  | TagAbsent key => case "tag-absent" (Some (ValString key))
  | SourceNode id => case "source-node" (Some (ValString id))
  | ArrivedOnPort id => case "arrived-on-port" (Some (ValString id))
  | HopCountGt n => case "hop-count-gt" (Some (ValU32 n))
  | HopCountLte n => case "hop-count-lte" (Some (ValU32 n))
  | WorkflowIs id => case "workflow-is" (Some (ValString id))
  | ExecutionMetadataEq e => case "execution-metadata-eq" (Some (entry_val e))
  | AndNode children => case "and-node" (Some (ValList (ValU32 <$> children)))
  | OrNode children => case "or-node" (Some (ValList (ValU32 <$> children)))
  | NotNode child => case "not-node" (Some (ValU32 child))
  | Always => case "always" None
  | Never => case "never" None
  end%string.

Definition tree_val (t : ConditionTree) : Val :=
  ValRecord [(lit "nodes", ValList (node_val <$> nodes t)); (lit "root", ValU32 (root t))].

Definition action_val (a : RuleAction) : Val :=
  match a with
  | Route port => ValVariant (lit "route") (Some (ValString port))
  | Drop => ValVariant (lit "drop") None
  | DeadLetter reason => ValVariant (lit "dead-letter") (Some (ValString reason))
  | Tag e => ValVariant (lit "tag") (Some (entry_val e))
  | Halt message => ValVariant (lit "halt") (Some (ValString message))
  end.

Definition rule_val (r : Rule) : Val :=
  ValRecord
    [(lit "id", ValString (rule_id r)); (lit "condition", tree_val (condition r));
     (lit "action", action_val (action r)); (lit "priority", ValU32 (priority r));
     (lit "description", ValString (description r))].

Definition rule_set_val (rs : RuleSet) : Val :=
  ValRecord
    [(lit "id", ValString (rule_set_id rs)); (lit "strategy", strategy_to_val (strategy rs));
     (lit "rules", ValList (rule_val <$> rules rs));
     (lit "default-action", action_val (default_action rs));
     (lit "trace-conditions", ValBool (trace_conditions rs))].

Definition payload_val (p : PacketPayload) : Val :=
  match p with
  | Bytes bytes => ValVariant (lit "bytes") (Some (ValList (ValU8 <$> bytes)))
  | Control text => ValVariant (lit "control") (Some (ValString text))
  end.

Definition context_val (c : EvalContext) : Val :=
  ValRecord
    [(lit "payload", payload_val (payload c)); (lit "tags", ValList (entry_val <$> tags c));
     (lit "source-node", ValOption (ValString <$> source_node c));
     (lit "arrival-port", ValOption (ValString <$> arrival_port c));
     (lit "hop-count", ValU32 (hop_count c)); (lit "workflow-id", ValString (workflow_id c));
     (lit "execution-metadata", ValList (entry_val <$> execution_metadata c))].

Definition surface_val (s : ConditionSurface) : Val :=
  ValEnum (match s with
           | ConditionSurface.Payload => lit "payload"
           | ConditionSurface.Tag => lit "tag"
           | ConditionSurface.Provenance => lit "provenance"
           | ConditionSurface.ExecutionContext => lit "execution-context"
           | ConditionSurface.Combinator => lit "combinator"
           | ConditionSurface.Constant => lit "constant"
           end).

Definition trace_val (t : Trace) : Val :=
  ValRecord
    [(lit "rule-id", ValString (trace_rule t)); (lit "surface", surface_val (trace_surface t));
     (lit "matched", ValBool (trace_matched t))].

Definition decision_val (d : RuleDecision) : Val :=
  ValRecord
    [(lit "action", action_val (decided d));
     (lit "matched-rule", ValOption (ValString <$> matched_rule d));
     (lit "tags-applied", ValList (entry_val <$> tags_applied d));
     (lit "conditions-evaluated", ValList (trace_val <$> conditions_evaluated d))].
End Wit.

(** ** The guest *)

Module Guest.
Section guest.
Context `{J : JsonNumber} `{!JsonText}.

Definition resolve (payload : option Value) (path : rstr) : option Value :=
  match payload with
  | None => None
  | Some value => FieldPath.resolve_segments (split_on 46%N path) value
  end.

Definition json_eq (json : Value) (scalar : Wit.ScalarValue) : bool :=
  match json, scalar with
  | Value.String s, Wit.Text r => bool_decide (s = r)
  | Value.Num n, Wit.Integer i => bool_decide (as_i64 n = Some i)
  | Value.Num n, Wit.FloatValue f =>
      match as_f64 n with Some v => f64_eqb v f | None => false end
  | Value.Bool b, Wit.Boolean r => Bool.eqb b r
  | Value.Null, Wit.NullValue => true
  | _, _ => false
  end.

Definition json_cmp (json : Value) (scalar : Wit.ScalarValue) : option comparison :=
  match Value.value_as_f64 json with
  | None => None
  | Some json_f =>
      match scalar with
      | Wit.Integer i => f64_partial_cmp json_f (f64_of_int i)
      | Wit.FloatValue f => f64_partial_cmp json_f f
      | _ => None
      end
  end.

Definition scalar_eq (a b : Wit.ScalarValue) : bool :=
  match a, b with
  | Wit.Text x, Wit.Text y => bool_decide (x = y)
  | Wit.Integer x, Wit.Integer y => Z.eqb x y
  | Wit.FloatValue x, Wit.FloatValue y => f64_eqb x y
  | Wit.Boolean x, Wit.Boolean y => Bool.eqb x y
  | Wit.NullValue, Wit.NullValue => true
  | _, _ => false
  end.

Definition tag_value (entries : list Wit.ScalarEntry) (key : rstr) : option Wit.ScalarValue :=
  Wit.value <$> iter_find (λ entry, bool_decide (Wit.key entry = key)) entries.

(** [glob_match_inner], as in the native crate. *)
Fixpoint glob_match (pattern value : rstr) : bool :=
  match pattern with
  | [] => match value with [] => true | _ => false end
  | p :: rest_p =>
      if N.eqb p 42 then
        (fix star (value : rstr) : bool :=
           if glob_match rest_p value then true
           else match value with [] => false | _ :: value => star value end) value
      else if N.eqb p 63 then
        match value with [] => false | _ :: rest_v => glob_match rest_p rest_v end
      else
        match value with
        | [] => false
        | v :: rest_v => if N.eqb p v then glob_match rest_p rest_v else false
        end
  end.

Definition compare_field (payload : option Value) (p : Wit.FieldPredicate)
    (test : comparison → bool) : bool :=
  match resolve payload (Wit.path p) with
  | None => false
  | Some v => match json_cmp v (Wit.field_value p) with Some ord => test ord | None => false end
  end.

(** The nodes without children. *)
Definition eval_leaf (node : Wit.ConditionNode) (payload : option Value) (ctx : Wit.EvalContext) :
    bool :=
  match node with
  | Wit.FieldEq p =>
      match resolve payload (Wit.path p) with
      | Some v => json_eq v (Wit.field_value p) | None => false end
  | Wit.FieldNeq p =>
      match resolve payload (Wit.path p) with
      | Some v => negb (json_eq v (Wit.field_value p)) | None => false end
  | Wit.FieldGt p => compare_field payload p (λ o, match o with Gt => true | _ => false end)
  | Wit.FieldLt p => compare_field payload p (λ o, match o with Lt => true | _ => false end)
  | Wit.FieldGte p => compare_field payload p (λ o, match o with Lt => false | _ => true end)
  | Wit.FieldLte p => compare_field payload p (λ o, match o with Gt => false | _ => true end)
  | Wit.FieldIn path values =>
      match resolve payload path with
      | Some v => existsb (λ s, json_eq v s) values | None => false end
  | Wit.FieldExists path =>
      match resolve payload path with Some _ => true | None => false end
  | Wit.FieldAbsent path =>
      match resolve payload path with Some v => Value.is_null v | None => true end
  | Wit.FieldMatches path pattern =>
      match resolve payload path with
      | None => false
      | Some v => match Value.as_str v with Some s => glob_match pattern s | None => false end
      end
  | Wit.TagEq entry =>
      match tag_value (Wit.tags ctx) (Wit.key entry) with
      | Some v => scalar_eq v (Wit.value entry) | None => false end
  | Wit.TagExists key =>
      match tag_value (Wit.tags ctx) key with Some _ => true | None => false end
  | Wit.TagAbsent key =>
      match tag_value (Wit.tags ctx) key with Some _ => false | None => true end
  | Wit.SourceNode node_id => bool_decide (Wit.source_node ctx = Some node_id)
  | Wit.ArrivedOnPort port_id => bool_decide (Wit.arrival_port ctx = Some port_id)
  | Wit.HopCountGt n => N.ltb n (Wit.hop_count ctx)
  | Wit.HopCountLte n => N.leb (Wit.hop_count ctx) n
  | Wit.WorkflowIs id => bool_decide (Wit.workflow_id ctx = id)
  | Wit.ExecutionMetadataEq entry =>
      match tag_value (Wit.execution_metadata ctx) (Wit.key entry) with
      | Some v => scalar_eq v (Wit.value entry) | None => false end
  | Wit.AndNode _ | Wit.OrNode _ | Wit.NotNode _ => false
  | Wit.Always => true
  | Wit.Never => false
  end.

(** [children.iter().all(..)] and [.any(..)], where a child may have no answer. *)
Fixpoint all_children (eval : N → option bool) (children : list N) : option bool :=
  match children with
  | [] => Some true
  | c :: children =>
      match eval c with
      | None => None
      | Some false => Some false
      | Some true => all_children eval children
      end
  end.
Fixpoint any_child (eval : N → option bool) (children : list N) : option bool :=
  match children with
  | [] => Some false
  | c :: children =>
      match eval c with
      | None => None
      | Some true => Some true
      | Some false => any_child eval children
      end
  end.

Fixpoint eval_node (fuel : nat) (nodes : list Wit.ConditionNode) (index : N)
    (payload : option Value) (ctx : Wit.EvalContext) : option bool :=
  match fuel with
  | 0 => None
  | Datatypes.S fuel =>
      match nodes !! N.to_nat index with
      | None => Some false
      | Some (Wit.AndNode children) =>
          all_children (λ c, eval_node fuel nodes c payload ctx) children
      | Some (Wit.OrNode children) =>
          any_child (λ c, eval_node fuel nodes c payload ctx) children
      | Some (Wit.NotNode child) => negb <$> eval_node fuel nodes child payload ctx
      | Some node => Some (eval_leaf node payload ctx)
      end
  end.

Definition eval_rule (fuel : nat) (rule : Wit.Rule) (payload : option Value)
    (ctx : Wit.EvalContext) : option bool :=
  eval_node fuel (Wit.nodes (Wit.condition rule)) (Wit.root (Wit.condition rule)) payload ctx.

Definition surface_of (node : Wit.ConditionNode) : ConditionSurface :=
  match node with
  | Wit.FieldEq _ | Wit.FieldNeq _ | Wit.FieldGt _ | Wit.FieldLt _ | Wit.FieldGte _
  | Wit.FieldLte _ | Wit.FieldIn _ _ | Wit.FieldExists _ | Wit.FieldAbsent _
  | Wit.FieldMatches _ _ => ConditionSurface.Payload
  | Wit.TagEq _ | Wit.TagExists _ | Wit.TagAbsent _ => ConditionSurface.Tag
  | Wit.SourceNode _ | Wit.ArrivedOnPort _ | Wit.HopCountGt _ | Wit.HopCountLte _ =>
      ConditionSurface.Provenance
  | Wit.WorkflowIs _ | Wit.ExecutionMetadataEq _ => ConditionSurface.ExecutionContext
  | Wit.AndNode _ | Wit.OrNode _ | Wit.NotNode _ => ConditionSurface.Combinator
  | Wit.Always | Wit.Never => ConditionSurface.Constant
  end.

Definition trace_of (rule : Wit.Rule) (matched : bool) : Wit.Trace :=
  let tree := Wit.condition rule in
  let surface :=
    match Wit.nodes tree !! N.to_nat (Wit.root tree) with
    | Some node => surface_of node
    | None => ConditionSurface.Constant
    end in
  Wit.mk_trace (Wit.rule_id rule) surface matched.

Definition is_terminal (action : Wit.RuleAction) : bool :=
  match action with Wit.Tag _ => false | _ => true end.

Definition default_decision (action : Wit.RuleAction) (tags_applied : list Wit.ScalarEntry)
    (conditions_evaluated : list Wit.Trace) : Wit.RuleDecision :=
  Wit.mk_decision action None tags_applied conditions_evaluated.

Definition rule_decision (rule : Wit.Rule) (tags_applied : list Wit.ScalarEntry)
    (conditions_evaluated : list Wit.Trace) : Wit.RuleDecision :=
  Wit.mk_decision (Wit.action rule) (Some (Wit.rule_id rule)) tags_applied conditions_evaluated.

Definition push_trace (trace : bool) (rule : Wit.Rule) (matched : bool) (traces : list Wit.Trace) :
    list Wit.Trace :=
  if trace then traces ++ [trace_of rule matched] else traces.

Definition apply_tag (action : Wit.RuleAction) (tags : list Wit.ScalarEntry) :
    list Wit.ScalarEntry :=
  match action with Wit.Tag entry => tags ++ [entry] | _ => tags end.

(** The three loops of [evaluate]; without an answer for a condition there is none
    for the rule set. *)
Section loops.
Variables (fuel : nat) (rule_set : Wit.RuleSet) (payload : option Value) (ctx : Wit.EvalContext).

Fixpoint first_match (rules : list Wit.Rule) (tags : list Wit.ScalarEntry)
    (traces : list Wit.Trace) : option Wit.RuleDecision :=
  match rules with
  | [] => Some (default_decision (Wit.default_action rule_set) tags traces)
  | rule :: rules =>
      match eval_rule fuel rule payload ctx with
      | None => None
      | Some matched =>
          let traces := push_trace (Wit.trace_conditions rule_set) rule matched traces in
          if matched then
            let tags := apply_tag (Wit.action rule) tags in
            if is_terminal (Wit.action rule) then Some (rule_decision rule tags traces)
            else first_match rules tags traces
          else first_match rules tags traces
      end
  end.

Fixpoint all_matches (rules : list Wit.Rule) (tags : list Wit.ScalarEntry)
    (traces : list Wit.Trace) : option Wit.RuleDecision :=
  match rules with
  | [] => Some (default_decision (Wit.default_action rule_set) tags traces)
  | rule :: rules =>
      match eval_rule fuel rule payload ctx with
      | None => None
      | Some matched =>
          let traces := push_trace (Wit.trace_conditions rule_set) rule matched traces in
          all_matches rules (if matched then apply_tag (Wit.action rule) tags else tags) traces
      end
  end.

Fixpoint score (rules : list Wit.Rule) (best : option Wit.Rule) (tags : list Wit.ScalarEntry)
    (traces : list Wit.Trace) : option Wit.RuleDecision :=
  match rules with
  | [] =>
      Some (match best with
            | Some rule => rule_decision rule tags traces
            | None => default_decision (Wit.default_action rule_set) tags traces
            end)
  | rule :: rules =>
      match eval_rule fuel rule payload ctx with
      | None => None
      | Some matched =>
          let traces := push_trace (Wit.trace_conditions rule_set) rule matched traces in
          if matched then
            let tags := apply_tag (Wit.action rule) tags in
            let best :=
              match best with
              | None => if is_terminal (Wit.action rule) then Some rule else None
              | Some _ => best
              end in
            score rules best tags traces
          else score rules best tags traces
      end
  end.
End loops.

(** [evaluate], which never returns an error. *)
Definition evaluate (fuel : nat) (rule_set : Wit.RuleSet) (context : Wit.EvalContext) :
    option Wit.RuleDecision :=
  let payload :=
    match Wit.payload context with
    | Wit.Control text => match json_from_str text with Ok v => Some v | Err _ => None end
    | Wit.Bytes _ => None
    end in
  match Wit.strategy rule_set with
  | EvaluationStrategy.FirstMatch =>
      first_match fuel rule_set payload context (Wit.rules rule_set) [] []
  | EvaluationStrategy.AllMatches =>
      all_matches fuel rule_set payload context (Wit.rules rule_set) [] []
  | EvaluationStrategy.Score =>
      score fuel rule_set payload context (Wit.rules rule_set) None [] []
  end.
End guest.
End Guest.
