(* ===== verification/WasmRulesSpec.v ===== *)
(** Native and WASM rule evaluation agree: the encoding of a rule set (WasmRules.v)
    is read by the sample guest (RulesGuest.v) as the rule set it was made from, the
    guest decides what the native evaluator (Rules.v) decides, and the decision
    comes back through the decoding, its traces without their descriptions. *)

From Stdlib Require Import Lia Strings.Byte.
From S2P Require Import Prelude RustStr BTree Types Errors Json Context Message Metadata Rules RuleEval RuleContract RuleNode Wiring Wasm WasmSpec WasmRules RulesGuest.

(** ** The rule set on the WIT side *)

Definition wit_scalar (v : ScalarValue) : Wit.ScalarValue :=
  match v with
  | ScalarValue.String s => Wit.Text s
  | ScalarValue.Integer i => Wit.Integer i
  | ScalarValue.Float f => Wit.FloatValue f
  | ScalarValue.Boolean b => Wit.Boolean b
  | ScalarValue.Null => Wit.NullValue
  end.
Definition wit_entry (kv : rstr * ScalarValue) : Wit.ScalarEntry :=
  Wit.mk_entry kv.1 (wit_scalar kv.2).
Definition wit_predicate (path : FieldPath) (v : ScalarValue) : Wit.FieldPredicate :=
  Wit.mk_predicate (FieldPath.path path) (wit_scalar v).

Definition wit_action (a : RuleAction) : Wit.RuleAction :=
  match a with
  | RuleAction.Route port => Wit.Route (as_str port)
  | RuleAction.Drop => Wit.Drop
  | RuleAction.DeadLetter reason => Wit.DeadLetter reason
  | RuleAction.Tag key value => Wit.Tag (wit_entry (key, value))
  | RuleAction.Halt message => Wit.Halt message
  end.

(** The node of a condition without children. *)
Definition wit_leaf (c : Condition) : Wit.ConditionNode :=
  match c with
  | Condition.FieldEq p v => Wit.FieldEq (wit_predicate p v)
  | Condition.FieldNeq p v => Wit.FieldNeq (wit_predicate p v)
  | Condition.FieldGt p v => Wit.FieldGt (wit_predicate p v)
  | Condition.FieldLt p v => Wit.FieldLt (wit_predicate p v)
  | Condition.FieldGte p v => Wit.FieldGte (wit_predicate p v)
  | Condition.FieldLte p v => Wit.FieldLte (wit_predicate p v)
  | Condition.FieldIn p vs => Wit.FieldIn (FieldPath.path p) (wit_scalar <$> vs)
  | Condition.FieldExists p => Wit.FieldExists (FieldPath.path p)
  | Condition.FieldAbsent p => Wit.FieldAbsent (FieldPath.path p)
  | Condition.FieldMatches p g => Wit.FieldMatches (FieldPath.path p) (GlobPattern.pattern g)
  | Condition.TagEq k v => Wit.TagEq (wit_entry (k, v))
  | Condition.TagExists k => Wit.TagExists k
  | Condition.TagAbsent k => Wit.TagAbsent k
  | Condition.SourceNode n => Wit.SourceNode (as_str n)
  | Condition.ArrivedOnPort p => Wit.ArrivedOnPort (as_str p)
  | Condition.HopCountGt n => Wit.HopCountGt n
  | Condition.HopCountLte n => Wit.HopCountLte n
  | Condition.WorkflowIs w => Wit.WorkflowIs (as_str w)
  | Condition.ExecutionMetadataEq k v => Wit.ExecutionMetadataEq (wit_entry (k, v))
  | Condition.And _ => Wit.AndNode []
  | Condition.Or _ => Wit.OrNode []
  | Condition.Not _ => Wit.Never
  | Condition.Always => Wit.Always
  | Condition.Never => Wit.Never
  end.

Fixpoint arena (c : Condition) (nodes : list Wit.ConditionNode) : N * list Wit.ConditionNode :=
  match c with
  | Condition.And children =>
      let (indices, nodes) := push_children arena children nodes in
      push_node (Wit.AndNode indices) nodes
  | Condition.Or children =>
      let (indices, nodes) := push_children arena children nodes in
      push_node (Wit.OrNode indices) nodes
  | Condition.Not inner =>
      let (index, nodes) := arena inner nodes in push_node (Wit.NotNode index) nodes
  | _ => push_node (wit_leaf c) nodes
  end.

Definition wit_tree (c : Condition) : Wit.ConditionTree :=
  let (root, nodes) := arena c [] in Wit.mk_tree nodes root.
Definition wit_rule (r : Rule) : Wit.Rule :=
  Wit.mk_rule (Rule.id r) (wit_tree (Rule.condition r)) (wit_action (Rule.action r))
    (Rule.priority r) (Rule.description r).
Definition wit_rule_set (rs : RuleSet) : Wit.RuleSet :=
  Wit.mk_rule_set (RuleSet.id rs) (RuleSet.strategy rs) (wit_rule <$> RuleSet.rules rs)
    (wit_action (RuleSet.default_action rs)) (RuleSet.trace_conditions rs).

(** ** The encoding *)

Lemma scalar_val_eq v : Wit.scalar_val (wit_scalar v) = scalar_to_val v.
Proof. by destruct v. Qed.
Lemma action_val_eq a : Wit.action_val (wit_action a) = action_to_val a.
Proof. destruct a; try done. simpl. unfold Wit.entry_val. simpl. by rewrite scalar_val_eq. Qed.
Lemma scalar_vals_eq (vs : list ScalarValue) : Wit.scalar_val <$> (wit_scalar <$> vs) = scalar_to_val <$> vs.
Proof. rewrite <- list_fmap_compose. apply list_fmap_ext. intros ? v _. apply scalar_val_eq. Qed.

(** Encoding a node after encoding an arena is encoding the longer arena. *)
Definition encodes (c : Condition) : Prop :=
  ∀ nodes, push_condition c (Wit.node_val <$> nodes)
    = let (i, nodes) := arena c nodes in (i, Wit.node_val <$> nodes).

Lemma push_node_val n nodes :
  push_node (Wit.node_val n) (Wit.node_val <$> nodes)
  = let (i, nodes) := push_node n nodes in (i, Wit.node_val <$> nodes).
Proof. unfold push_node. by rewrite length_fmap, fmap_app. Qed.

Lemma push_children_val cs nodes :
  Forall encodes cs →
  push_children push_condition cs (Wit.node_val <$> nodes)
  = let (ids, nodes) := push_children arena cs nodes in (ids, Wit.node_val <$> nodes).
Proof.
  unfold push_children. generalize (@nil N) at 2 4. intros acc Hcs. revert acc nodes.
  induction Hcs as [|c cs Hc _ IH]; intros acc nodes; simpl; [done|].
  rewrite Hc. destruct (arena c nodes) as [i nodes']. simpl. apply IH.
Qed.

Lemma push_condition_val c : encodes c.
Proof.
  revert c. apply condition_ind; [intros c|intros cs IH|intros cs IH|intros c IH].
  - destruct c; try exact I; intros nodes;
      (match goal with |- push_condition ?c _ = _ =>
         transitivity (push_node (Wit.node_val (wit_leaf c)) (Wit.node_val <$> nodes));
         [|exact (push_node_val (wit_leaf c) nodes)] end);
      cbn [push_condition]; f_equal;
      unfold Wit.node_val, Wit.predicate_val, Wit.entry_val; simpl;
      rewrite ?scalar_vals_eq, ?scalar_val_eq; done.
  - intros nodes. simpl. rewrite (push_children_val cs nodes IH).
    destruct (push_children arena cs nodes) as [ids nodes']. apply (push_node_val (Wit.AndNode ids)).
  - intros nodes. simpl. rewrite (push_children_val cs nodes IH).
    destruct (push_children arena cs nodes) as [ids nodes']. apply (push_node_val (Wit.OrNode ids)).
  - intros nodes. simpl. rewrite IH. destruct (arena c nodes) as [i nodes'].
    apply (push_node_val (Wit.NotNode i)).
Qed.

Lemma rule_set_val_eq rs : rule_set_to_val rs = Ok (Wit.rule_set_val (wit_rule_set rs)).
Proof.
  unfold rule_set_to_val.
  assert (try_collect rule_to_val (RuleSet.rules rs)
    = Ok (Wit.rule_val <$> (wit_rule <$> RuleSet.rules rs))) as ->.
  { apply try_collect_ok, Forall2_fmap_r, Forall2_fmap_r, Forall_Forall2_diag, Forall_true. intros r.
    unfold rule_to_val, Wit.rule_val, Wit.tree_val, condition_tree_to_val. simpl.
    pose proof (push_condition_val (Rule.condition r) []) as Hc. simpl in Hc. rewrite Hc.
    unfold wit_tree. destruct (arena (Rule.condition r) []). simpl. by rewrite action_val_eq. }
  simpl. unfold Wit.rule_set_val. simpl. by rewrite action_val_eq.
Qed.

(** ** Evaluation *)

Section evaluation.
Context `{J : JsonNumber} `{!JsonText} `{!FloatDisplay}.
Variables (payload : PacketPayload) (context : EvalContext).

(** The payload the guest parses, and the context it is given. *)
Definition guest_payload : option Value :=
  match payload with PacketPayload.Control v => Some v | PacketPayload.Bytes _ => None end.
Definition wit_context (text : Wit.PacketPayload) : Wit.EvalContext :=
  Wit.mk_context text (wit_entry <$> EvalContext.tags context)
    (as_str <$> EvalContext.source_node context) (as_str <$> EvalContext.arrival_port context)
    (EvalContext.hop_count context) (as_str (EvalContext.workflow_id context))
    (wit_entry <$> EvalContext.execution_metadata context).
Variable text : Wit.PacketPayload.
Notation ctx := (wit_context text).

Lemma guest_resolve p :
  Guest.resolve guest_payload (FieldPath.path p) = resolve_payload payload p.
Proof. unfold guest_payload, resolve_payload. destruct payload; reflexivity. Qed.

Lemma guest_json_eq v s : Guest.json_eq v (wit_scalar s) = json_value_eq_scalar v s.
Proof. by destruct v, s. Qed.
Lemma guest_json_cmp v s : Guest.json_cmp v (wit_scalar s) = json_value_cmp_scalar v s.
Proof. unfold Guest.json_cmp, json_value_cmp_scalar. by destruct (Value.value_as_f64 v), s. Qed.
Lemma guest_scalar_eq a b : Guest.scalar_eq (wit_scalar a) (wit_scalar b) = scalar_eq a b.
Proof. by destruct a, b. Qed.

Lemma guest_tag_value (m : btree_map rstr ScalarValue) k :
  Guest.tag_value (wit_entry <$> m) k = wit_scalar <$> BTreeMap.get k m.
Proof.
  unfold Guest.tag_value. induction m as [|[x v] m IH]; simpl; [done|].
  case_decide as E; [subst; by rewrite bool_decide_eq_true_2|].
  by rewrite bool_decide_eq_false_2 by congruence.
Qed.

Lemma guest_compare_field p v test :
  Guest.compare_field guest_payload (wit_predicate p v) test = field_cmp payload p v test.
Proof.
  unfold Guest.compare_field, field_cmp. simpl. rewrite guest_resolve.
  destruct (resolve_payload payload p); [|done]. by rewrite guest_json_cmp.
Qed.

Lemma guest_id_eq {kind} (o : option (identifier kind)) id :
  bool_decide (as_str <$> o = Some (as_str id)) = is_some_and o (λ x, bool_decide (x = id)).
Proof.
  destruct o as [x|]; cbn [fmap option_fmap option_map is_some_and];
    [|by rewrite bool_decide_eq_false_2].
  apply bool_decide_ext. destruct x, id. simpl. naive_solver.
Qed.

Lemma guest_field_in v (values : list ScalarValue) :
  existsb (λ s, Guest.json_eq v s) (wit_scalar <$> values)
  = existsb (λ s, json_value_eq_scalar v s) values.
Proof.
  induction values as [|s values IH]; [done|]. rewrite fmap_cons. cbn [existsb].
  by rewrite guest_json_eq, IH.
Qed.

(** A condition without children is evaluated alike. *)
Lemma guest_leaf c :
  match c with
  | Condition.And _ | Condition.Or _ | Condition.Not _ => True
  | _ => Guest.eval_leaf (wit_leaf c) guest_payload ctx = eval_condition c payload context
  end.
Proof.
  destruct c; try exact I;
    cbn [wit_leaf Guest.eval_leaf eval_condition wit_predicate Wit.path Wit.field_value
         wit_context Wit.tags Wit.source_node Wit.arrival_port Wit.hop_count Wit.workflow_id
         Wit.execution_metadata Wit.key Wit.value wit_entry fst snd];
    rewrite ?guest_compare_field, ?guest_resolve, ?guest_tag_value, ?guest_id_eq; try done.
  all: try (destruct (resolve_payload payload path) as [v|]; simpl;
            rewrite ?guest_json_eq; try done).
  - apply guest_field_in.
  - destruct (BTreeMap.get key (EvalContext.tags context)); simpl; [apply guest_scalar_eq|done].
  - unfold BTreeMap.contains_key. by destruct (BTreeMap.get key (EvalContext.tags context)).
  - unfold BTreeMap.contains_key. by destruct (BTreeMap.get key (EvalContext.tags context)).
  - apply bool_decide_ext. destruct (EvalContext.workflow_id context), workflow_id. simpl.
    naive_solver.
  - destruct (BTreeMap.get key (EvalContext.execution_metadata context)); simpl;
      [apply guest_scalar_eq|done].
Qed.

(** Reading an arena: with enough fuel the node a condition was stored at has its
    value, whatever comes after it. *)
Definition reads (c : Condition) : Prop :=
  ∀ nodes, let (i, nodes') := arena c nodes in
  (∃ ext, nodes' = nodes ++ ext)
  ∧ ((N.of_nat (length nodes') <= 2 ^ 32)%N →
     N.to_nat i < length nodes'
     ∧ ∀ more, (∃ n, (nodes' ++ more) !! N.to_nat i = Some n
                 ∧ Guest.surface_of n = Condition.surface c)
       ∧ ∀ fuel, N.to_nat i < fuel →
         Guest.eval_node fuel (nodes' ++ more) i guest_payload ctx
         = Some (eval_condition c payload context)).

Lemma push_node_reads c n nodes :
  Guest.surface_of n = Condition.surface c →
  (∀ more fuel, (N.of_nat (length (nodes ++ [n])) <= 2 ^ 32)%N → length nodes < fuel →
     (nodes ++ [n] ++ more) !! length nodes = Some n →
     Guest.eval_node fuel (nodes ++ [n] ++ more) (N.of_nat (length nodes)) guest_payload ctx
     = Some (eval_condition c payload context)) →
  let (i, nodes') := push_node n nodes in
  ((N.of_nat (length nodes') <= 2 ^ 32)%N →
     N.to_nat i < length nodes'
     ∧ ∀ more, (∃ n, (nodes' ++ more) !! N.to_nat i = Some n
                 ∧ Guest.surface_of n = Condition.surface c)
       ∧ ∀ fuel, N.to_nat i < fuel →
         Guest.eval_node fuel (nodes' ++ more) i guest_payload ctx
         = Some (eval_condition c payload context)).
Proof.
  intros Hs He. unfold push_node. rewrite length_app. simpl. intros Hlen.
  assert (N.min (N.of_nat (length nodes)) u32_max = N.of_nat (length nodes)) as ->
    by (unfold u32_max; lia).
  rewrite Nat2N.id. split; [lia|]. intros more.
  assert (Hn : (nodes ++ [n] ++ more) !! length nodes = Some n).
  { rewrite lookup_app_r by lia. by rewrite Nat.sub_diag. }
  rewrite <- app_assoc. split; [by exists n|]. intros fuel Hf.
  apply He; [|lia|done]. rewrite length_app. simpl. lia.
Qed.

(** The children of a combinator, each read where it was stored. *)
Lemma push_children_reads cs nodes :
  Forall reads cs →
  let (ids, nodes') := push_children arena cs nodes in
  (∃ ext, nodes' = nodes ++ ext)
  ∧ ((N.of_nat (length nodes') <= 2 ^ 32)%N → ∀ more fuel, length nodes' ≤ fuel →
       Forall2 (λ i c, Guest.eval_node fuel (nodes' ++ more) i guest_payload ctx
                       = Some (eval_condition c payload context)) ids cs).
Proof.
  intros Hcs. unfold push_children.
  assert (∀ acc, let (ids, nodes') := fold_left (λ acc child,
      let (index, nodes) := arena child acc.2 in (acc.1 ++ [index], nodes)) cs (acc, nodes) in
    (∃ ext, nodes' = nodes ++ ext) ∧ ∃ ids', ids = acc ++ ids'
    ∧ ((N.of_nat (length nodes') <= 2 ^ 32)%N → ∀ more fuel, length nodes' ≤ fuel →
       Forall2 (λ i c, Guest.eval_node fuel (nodes' ++ more) i guest_payload ctx
                       = Some (eval_condition c payload context)) ids' cs)) as Hacc.
  { revert nodes. induction Hcs as [|c cs Hc _ IH]; intros nodes acc; simpl.
    { split; [exists []; by rewrite app_nil_r|]. exists []. rewrite app_nil_r.
      split; [done|]. constructor. }
    specialize (Hc nodes). destruct (arena c nodes) as [i nodes1].
    destruct Hc as [[ext1 ->] Hread]. simpl.
    specialize (IH (nodes ++ ext1) (acc ++ [i])).
    destruct (fold_left _ cs _) as [ids nodes2].
    destruct IH as [[ext2 ->] (ids' & -> & Hrest)].
    split; [exists (ext1 ++ ext2); by rewrite app_assoc|].
    exists (i :: ids'). split; [by rewrite <- app_assoc|]. intros Hlen more fuel Hf.
    constructor; [|by apply Hrest]. rewrite length_app in Hlen, Hf.
    destruct Hread as [Hi Hread]; [lia|]. rewrite <- app_assoc. apply Hread. lia. }
  specialize (Hacc []). destruct (fold_left _ cs _) as [ids nodes'].
  destruct Hacc as [Hext (ids' & -> & Hread)]. done.
Qed.

Lemma all_children_reads eval ids cs :
  Forall2 (λ i c, eval i = Some (eval_condition c payload context)) ids cs →
  Guest.all_children eval ids = Some (forallb (λ c, eval_condition c payload context) cs)
  ∧ Guest.any_child eval ids = Some (existsb (λ c, eval_condition c payload context) cs).
Proof.
  induction 1 as [|i c ids cs Hi _ [IH1 IH2]]; [done|]. simpl. rewrite Hi, IH1, IH2.
  by destruct (eval_condition c payload context).
Qed.

Lemma eval_node_lookup fuel nodes i n :
  nodes !! N.to_nat i = Some n →
  Guest.eval_node (Datatypes.S fuel) nodes i guest_payload ctx =
  match n with
  | Wit.AndNode children =>
      Guest.all_children (λ c, Guest.eval_node fuel nodes c guest_payload ctx) children
  | Wit.OrNode children =>
      Guest.any_child (λ c, Guest.eval_node fuel nodes c guest_payload ctx) children
  | Wit.NotNode child => negb <$> Guest.eval_node fuel nodes child guest_payload ctx
  | _ => Some (Guest.eval_leaf n guest_payload ctx)
  end.
Proof. intros Hn. cbn [Guest.eval_node]. rewrite Hn. by destruct n. Qed.

Lemma push_node_ext {A} (n : A) nodes ext : ∃ ext', (push_node n (nodes ++ ext)).2 = nodes ++ ext'.
Proof. exists (ext ++ [n]). simpl. by rewrite app_assoc. Qed.

(** A combinator over children that are read. *)
Lemma push_children_node c cs mk nodes :
  Forall reads cs →
  (∀ ids, Guest.surface_of (mk ids) = Condition.surface c) →
  (∀ fuel nodes i ids, nodes !! N.to_nat i = Some (mk ids) →
     Forall2 (λ j c, Guest.eval_node fuel nodes j guest_payload ctx
                     = Some (eval_condition c payload context)) ids cs →
     Guest.eval_node (Datatypes.S fuel) nodes i guest_payload ctx
     = Some (eval_condition c payload context)) →
  let (i, nodes') :=
    (let (ids, nodes) := push_children arena cs nodes in push_node (mk ids) nodes) in
  (∃ ext, nodes' = nodes ++ ext)
  ∧ ((N.of_nat (length nodes') <= 2 ^ 32)%N →
     N.to_nat i < length nodes'
     ∧ ∀ more, (∃ n, (nodes' ++ more) !! N.to_nat i = Some n
                 ∧ Guest.surface_of n = Condition.surface c)
       ∧ ∀ fuel, N.to_nat i < fuel →
         Guest.eval_node fuel (nodes' ++ more) i guest_payload ctx
         = Some (eval_condition c payload context)).
Proof.
  intros Hcs Hs Heval. pose proof (push_children_reads cs nodes Hcs) as Hc.
  destruct (push_children arena cs nodes) as [ids nodes1]. destruct Hc as [[ext ->] Hread].
  pose proof (push_node_reads c (mk ids) (nodes ++ ext) (Hs ids)) as Hp.
  destruct (push_node_ext (mk ids) nodes ext) as [ext' He'].
  destruct (push_node (mk ids) (nodes ++ ext)) as [i nodes']. simpl in He'. subst nodes'.
  split; [by exists ext'|]. apply Hp. clear Hp. intros more fuel Hlen Hf Hn.
  destruct fuel as [|fuel]; [lia|]. apply (Heval fuel _ _ ids); [by rewrite Nat2N.id|].
  apply Hread; [|lia]. rewrite length_app in Hlen. lia.
Qed.

Lemma arena_reads c : reads c.
Proof.
  revert c. apply condition_ind; [intros c|intros cs IH|intros cs IH|intros c IH].
  - pose proof (guest_leaf c) as Hleaf.
    assert (Hall : Guest.surface_of (wit_leaf c) = Condition.surface c →
      (∀ fuel nodes i, nodes !! N.to_nat i = Some (wit_leaf c) →
        Guest.eval_node (Datatypes.S fuel) nodes i guest_payload ctx
        = Some (Guest.eval_leaf (wit_leaf c) guest_payload ctx)) →
      Guest.eval_leaf (wit_leaf c) guest_payload ctx = eval_condition c payload context →
      (∀ nodes, arena c nodes = push_node (wit_leaf c) nodes) → reads c).
    { intros Hs He Hl Ha nodes. rewrite Ha. split; [by exists [wit_leaf c]|].
      apply (push_node_reads c (wit_leaf c) nodes Hs). intros more fuel _ Hf Hn.
      destruct fuel as [|fuel]; [lia|]. rewrite He; [by rewrite Hl|]. by rewrite Nat2N.id. }
    destruct c; try exact I; (apply Hall; [done| |exact Hleaf|done]);
      intros fuel nodes i Hn; by rewrite (eval_node_lookup _ _ _ _ Hn).
  - intros nodes. apply (push_children_node (Condition.And cs) cs Wit.AndNode nodes IH); [done|].
    intros fuel nodes' i ids Hn Hc. rewrite (eval_node_lookup _ _ _ _ Hn).
    by apply (all_children_reads _ _ _ Hc).
  - intros nodes. apply (push_children_node (Condition.Or cs) cs Wit.OrNode nodes IH); [done|].
    intros fuel nodes' i ids Hn Hc. rewrite (eval_node_lookup _ _ _ _ Hn).
    by apply (all_children_reads _ _ _ Hc).
  - intros nodes. simpl. specialize (IH nodes). destruct (arena c nodes) as [j nodes1].
    destruct IH as [[ext ->] Hread].
    split; [exists (ext ++ [Wit.NotNode j]); by rewrite app_assoc|].
    apply (push_node_reads (Condition.Not c) (Wit.NotNode j) (nodes ++ ext)); [done|].
    intros more fuel Hlen Hf Hn. destruct fuel as [|fuel]; [lia|].
    rewrite (eval_node_lookup _ _ _ (Wit.NotNode j)) by (by rewrite Nat2N.id).
    rewrite length_app in Hlen. destruct Hread as [Hj Hread]; [lia|].
    destruct (Hread ([Wit.NotNode j] ++ more)) as [_ Hev]. rewrite Hev by lia. done.
Qed.

(** *** Rules *)

(** The arena of the condition has as many nodes as indices can name, and the fuel
    suffices for it. *)
Definition rule_fits (fuel : nat) (r : Rule) : Prop :=
  (N.of_nat (length (Wit.nodes (wit_tree (Rule.condition r)))) <= 2 ^ 32)%N
  ∧ length (Wit.nodes (wit_tree (Rule.condition r))) ≤ fuel.

Lemma guest_eval_rule fuel r :
  rule_fits fuel r →
  Guest.eval_rule fuel (wit_rule r) guest_payload ctx
  = Some (eval_condition (Rule.condition r) payload context).
Proof.
  unfold rule_fits, Guest.eval_rule, wit_rule, wit_tree. simpl.
  pose proof (arena_reads (Rule.condition r) []) as Hr.
  destruct (arena (Rule.condition r) []) as [i nodes]. simpl. intros [Hlen Hf].
  destruct Hr as [_ Hr]. destruct (Hr Hlen) as [Hi Hread].
  destruct (Hread []) as [_ He]. rewrite app_nil_r in He. apply He. lia.
Qed.

Lemma guest_trace_of fuel r m :
  rule_fits fuel r →
  Guest.trace_of (wit_rule r) m
  = Wit.mk_trace (Rule.id r) (Condition.surface (Rule.condition r)) m.
Proof.
  unfold rule_fits, Guest.trace_of, wit_rule, wit_tree. simpl.
  pose proof (arena_reads (Rule.condition r) []) as Hr.
  destruct (arena (Rule.condition r) []) as [i nodes]. simpl. intros [Hlen Hf].
  destruct Hr as [_ Hr]. destruct (Hr Hlen) as [_ Hread].
  destruct (Hread []) as [(n & Hn & Hs) _]. rewrite app_nil_r in Hn. by rewrite Hn, Hs.
Qed.
End evaluation.

(** ** Decisions *)

Definition record_surface (s : ConditionTrace.ConditionSurfaceRecord) : ConditionSurface :=
  match s with
  | ConditionTrace.Payload => ConditionSurface.Payload
  | ConditionTrace.Tag => ConditionSurface.Tag
  | ConditionTrace.Provenance => ConditionSurface.Provenance
  | ConditionTrace.ExecutionContext => ConditionSurface.ExecutionContext
  | ConditionTrace.Combinator => ConditionSurface.Combinator
  | ConditionTrace.Constant => ConditionSurface.Constant
  end.
Definition wit_trace (t : ConditionTrace) : Wit.Trace :=
  Wit.mk_trace (ConditionTrace.rule_id t) (record_surface (ConditionTrace.surface t))
    (ConditionTrace.matched t).
Definition wit_decision (d : RuleDecision) : Wit.RuleDecision :=
  Wit.mk_decision (wit_action (RuleDecision.action d)) (RuleDecision.matched_rule d)
    (wit_entry <$> RuleDecision.tags_applied d) (wit_trace <$> RuleDecision.conditions_evaluated d).

Lemma guest_is_terminal a : Guest.is_terminal (wit_action a) = RuleAction.is_terminal a.
Proof. by destruct a. Qed.

Lemma guest_apply_tag r tags :
  Guest.apply_tag (wit_action (Rule.action r)) (wit_entry <$> tags)
  = wit_entry <$> apply_terminal_or_tag r tags.
Proof. unfold apply_terminal_or_tag. destruct (Rule.action r); try done. by rewrite fmap_app. Qed.

Section loops.
Context `{J : JsonNumber} `{!JsonText} `{!FloatDisplay}.
Variables (rs : RuleSet) (payload : PacketPayload) (context : EvalContext)
  (text : Wit.PacketPayload) (fuel : nat).
Notation ctx := (wit_context context text).
Notation value := (guest_payload payload).
Notation rset := (wit_rule_set rs).

Lemma guest_push_trace r m traces :
  rule_fits fuel r →
  Guest.push_trace (RuleSet.trace_conditions rs) (wit_rule r) m (wit_trace <$> traces)
  = wit_trace <$> push_trace rs r m traces.
Proof.
  intros Hf. unfold Guest.push_trace, push_trace.
  destruct (RuleSet.trace_conditions rs); [|done]. rewrite fmap_app.
  rewrite (guest_trace_of payload context text fuel) by done. do 2 f_equal.
  unfold wit_trace, condition_trace. simpl. f_equal. by destruct (Condition.surface _).
Qed.

Ltac guest_rule Hf :=
  rewrite (guest_eval_rule payload context text fuel) by exact Hf;
  cbn [wit_rule Wit.action wit_rule_set Wit.trace_conditions];
  rewrite (guest_push_trace _ _ _ Hf), ?guest_apply_tag, ?guest_is_terminal.

Lemma guest_first_match rules tags traces :
  Forall (rule_fits fuel) rules →
  Guest.first_match fuel rset value ctx (wit_rule <$> rules) (wit_entry <$> tags)
    (wit_trace <$> traces)
  = Some (wit_decision (first_match_loop rs payload context rules tags traces)).
Proof.
  intros Hr. revert tags traces. induction Hr as [|r rules Hf _ IH]; intros tags traces; [done|].
  rewrite fmap_cons. cbn [Guest.first_match first_match_loop]. guest_rule Hf.
  destruct (eval_condition _ payload context); [|apply IH].
  destruct (RuleAction.is_terminal _); [done|apply IH].
Qed.

Lemma guest_all_matches rules tags traces :
  Forall (rule_fits fuel) rules →
  Guest.all_matches fuel rset value ctx (wit_rule <$> rules) (wit_entry <$> tags)
    (wit_trace <$> traces)
  = Some (wit_decision (let (tags, traces) := all_matches_loop rs payload context rules tags traces in
                        RuleDecision.mk (RuleSet.default_action rs) None tags traces)).
Proof.
  intros Hr. revert tags traces. induction Hr as [|r rules Hf _ IH]; intros tags traces; [done|].
  rewrite fmap_cons. cbn [Guest.all_matches all_matches_loop]. guest_rule Hf.
  destruct (eval_condition _ payload context); apply IH.
Qed.

Lemma guest_score rules best tags traces :
  Forall (rule_fits fuel) rules →
  Guest.score fuel rset value ctx (wit_rule <$> rules) (wit_rule <$> best) (wit_entry <$> tags)
    (wit_trace <$> traces)
  = Some (wit_decision
      (let '(best, tags, traces) := score_loop rs payload context rules best tags traces in
       match best with
       | Some rule => RuleDecision.mk (Rule.action rule) (Some (Rule.id rule)) tags traces
       | None => RuleDecision.mk (RuleSet.default_action rs) None tags traces
       end)).
Proof.
  intros Hr. revert best tags traces. induction Hr as [|r rules Hf _ IH]; intros best tags traces;
    [by destruct best|].
  rewrite fmap_cons. cbn [Guest.score score_loop]. guest_rule Hf.
  destruct (eval_condition _ payload context); [|apply IH].
  rewrite <- IH. f_equal. destruct best; [done|]. by destruct (RuleAction.is_terminal _).
Qed.

(** The guest reads the payload back from its text. *)
Definition text_of (payload : PacketPayload) (text : Wit.PacketPayload) : Prop :=
  match payload, text with
  | PacketPayload.Bytes bytes, Wit.Bytes bytes' => bytes = bytes'
  | PacketPayload.Control value, Wit.Control text => json_from_str text = Ok value
  | _, _ => False
  end.

(** The guest decides what the native evaluator decides. *)
Lemma guest_evaluate packet :
  MessageEnvelope.payload packet = payload → text_of payload text →
  Forall (rule_fits fuel) (RuleSet.rules rs) →
  ∃ d, evaluate rs packet context = Ok d
    ∧ Guest.evaluate fuel rset ctx = Some (wit_decision d).
Proof.
  intros Hp Ht Hr.
  assert (Hv : match Wit.payload ctx with
      | Wit.Control text => match json_from_str text with Ok v => Some v | Err _ => None end
      | Wit.Bytes _ => None
      end = value).
  { unfold text_of in Ht. simpl. destruct payload, text; try done. simpl. by rewrite Ht. }
  unfold Guest.evaluate. rewrite Hv. clear Hv.
  unfold evaluate, evaluate_first_match, evaluate_all_matches, evaluate_score. rewrite Hp.
  cbn [wit_rule_set Wit.strategy Wit.rules]. destruct (RuleSet.strategy rs).
  - eexists. split; [done|]. by apply (guest_first_match _ [] []).
  - pose proof (guest_all_matches (RuleSet.rules rs) [] [] Hr) as Hall.
    destruct (all_matches_loop _ _ _ _ _ _) as [tags traces]. eauto.
  - pose proof (guest_score (RuleSet.rules rs) None [] [] Hr) as Hall.
    destruct (score_loop _ _ _ _ _ _ _) as [[[r|] tags] traces]; eauto.
Qed.
End loops.

(** ** The decoding *)

(** A decision as the boundary delivers it: traces carry no descriptions. *)
Definition blank_trace (t : ConditionTrace) : ConditionTrace :=
  ConditionTrace.new (ConditionTrace.rule_id t) [] (ConditionTrace.matched t)
    (ConditionTrace.surface t).
Definition undescribed (d : RuleDecision) : RuleDecision :=
  RuleDecision.mk (RuleDecision.action d) (RuleDecision.matched_rule d)
    (RuleDecision.tags_applied d) (blank_trace <$> RuleDecision.conditions_evaluated d).

(** The port of a route is an identifier the constructors accept. *)
Definition action_valid (a : RuleAction) : Prop :=
  match a with RuleAction.Route port => valid_identifier (as_str port) | _ => True end.
Definition rule_set_valid (rs : RuleSet) : Prop :=
  action_valid (RuleSet.default_action rs)
  ∧ Forall (λ r, action_valid (Rule.action r)) (RuleSet.rules rs).

Lemma scalar_roundtrip v : scalar_from_val (Wit.scalar_val (wit_scalar v)) = Ok v.
Proof. by destruct v. Qed.

Lemma entry_roundtrip e : scalar_entry_from_val (Wit.entry_val (wit_entry e)) = Ok e.
Proof.
  destruct e as [k v]. unfold scalar_entry_from_val, Wit.entry_val.
  cbn [record_fields result_bind wit_entry Wit.key Wit.value fst snd].
  change (required_string_field _ _ _) with (Ok (E := PureflowError) k).
  change (required_field _ _ _) with (Ok (E := PureflowError) (Wit.scalar_val (wit_scalar v))).
  cbn [result_bind]. by rewrite scalar_roundtrip.
Qed.

Lemma action_roundtrip a :
  action_valid a → action_from_val (Wit.action_val (wit_action a)) = Ok a.
Proof.
  destruct a as [port| |reason|k v|message]; simpl; try done.
  - intros Hp. unfold action_from_val. cbn [as_variant result_bind].
    rewrite decide_False by done. rewrite decide_True by done. cbn [as_string result_bind].
    by rewrite (proj2 (identifier_new_ok _ _ port) (conj eq_refl Hp)).
  - intros _. unfold action_from_val. cbn [as_variant result_bind].
    rewrite !decide_False, decide_True by done. by rewrite entry_roundtrip.
Qed.

Lemma trace_roundtrip t : condition_trace_from_val (Wit.trace_val (wit_trace t)) = Ok (blank_trace t).
Proof. destruct t as [rule_id description matched surface]. by destruct surface. Qed.

Lemma decision_roundtrip d :
  action_valid (RuleDecision.action d) →
  decision_from_result_val (ValResult (Ok (Some (Wit.decision_val (wit_decision d)))))
  = Ok (undescribed d).
Proof.
  destruct d as [action matched tags traces]. simpl. intros Ha.
  unfold decision_from_val, Wit.decision_val, wit_decision.
  cbn [record_fields result_bind Wit.decided Wit.matched_rule Wit.tags_applied
       Wit.conditions_evaluated RuleDecision.action RuleDecision.matched_rule
       RuleDecision.tags_applied RuleDecision.conditions_evaluated].
  change (required_field _ (lit "action") _)
    with (Ok (E := PureflowError) (Wit.action_val (wit_action action))).
  change (required_field _ (lit "matched-rule") _)
    with (Ok (E := PureflowError) (ValOption (ValString <$> matched))).
  change (required_list_field _ (lit "tags-applied") _)
    with (Ok (E := PureflowError) (Wit.entry_val <$> (wit_entry <$> tags))).
  change (required_list_field _ (lit "conditions-evaluated") _)
    with (Ok (E := PureflowError) (Wit.trace_val <$> (wit_trace <$> traces))).
  cbn [result_bind]. rewrite action_roundtrip by done. cbn [result_bind].
  assert (optional_string (ValOption (ValString <$> matched)) = Ok matched) as ->
    by by destruct matched.
  assert (try_collect scalar_entry_from_val (Wit.entry_val <$> (wit_entry <$> tags)) = Ok tags) as ->.
  { apply try_collect_ok, Forall2_fmap_l, Forall2_fmap_l, Forall_Forall2_diag, Forall_true.
    apply entry_roundtrip. }
  assert (try_collect condition_trace_from_val (Wit.trace_val <$> (wit_trace <$> traces))
    = Ok (blank_trace <$> traces)) as ->; [|done].
  apply try_collect_ok, Forall2_fmap_l, Forall2_fmap_l, Forall2_fmap_r, Forall_Forall2_diag,
    Forall_true. apply trace_roundtrip.
Qed.

Section boundary.
Context `{J : JsonNumber} `{!JsonText} `{!FloatDisplay} `{W : !Wasmtime}.

Lemma decision_action_valid rs packet context d :
  rule_set_valid rs → evaluate rs packet context = Ok d → action_valid (RuleDecision.action d).
Proof.
  intros [Hd Hr] He. rewrite evaluate_spec in He. cbv zeta in He. injection He as <-.
  rewrite Forall_forall in Hr.
  assert (∀ o : option Rule, (∀ r, o = Some r → r ∈ RuleSet.rules rs) → ∀ tagging traced,
    action_valid (RuleDecision.action (decision_of rs (MessageEnvelope.payload packet) context o
                                         tagging traced))) as Hall.
  { intros [r|] Ho tagging traced; simpl; [by apply Hr, Ho|done]. }
  destruct (RuleSet.strategy rs); apply Hall; try done; by intros r [? _]%iter_find_elem.
Qed.

(** The context the host encodes for a packet. *)
Definition host_context (payload : PacketPayload) (context : EvalContext) : HostEvalContext :=
  HostEvalContext.mk payload (EvalContext.tags context) (as_str <$> EvalContext.source_node context)
    (as_str <$> EvalContext.arrival_port context) (EvalContext.hop_count context)
    (as_str (EvalContext.workflow_id context)) (EvalContext.execution_metadata context).

(** [serde_json] prints the payload, and parses the text back to it. *)
Definition payload_text (payload : PacketPayload) (text : Wit.PacketPayload) : Prop :=
  match payload, text with
  | PacketPayload.Bytes bytes, Wit.Bytes bytes' => bytes = bytes'
  | PacketPayload.Control value, Wit.Control text =>
      json_to_string value = Ok text ∧ json_from_str text = Ok value
  | _, _ => False
  end.

Lemma payload_text_of payload text : payload_text payload text → text_of payload text.
Proof. destruct payload, text; simpl; naive_solver. Qed.

Lemma entries_val (m : btree_map rstr ScalarValue) :
  scalar_entries_to_val m = Wit.entry_val <$> (wit_entry <$> m).
Proof.
  unfold scalar_entries_to_val. rewrite <- list_fmap_compose. apply list_fmap_ext.
  intros _ [k v] _. unfold Wit.entry_val, scalar_entry_to_val. simpl. by rewrite scalar_val_eq.
Qed.

Lemma context_val_eq payload context text :
  payload_text payload text →
  eval_context_to_val (host_context payload context)
  = Ok (Wit.context_val (wit_context context text)).
Proof.
  intros Ht. unfold eval_context_to_val. cbn [host_context HostEvalContext.payload].
  assert (context_payload_to_val payload = Ok (Wit.payload_val text)) as ->.
  { destruct payload, text; simpl in Ht; try done; simpl; [by subst|].
    destruct Ht as [-> _]. done. }
  cbn [result_bind]. rewrite !entries_val. unfold Wit.context_val. simpl.
  by rewrite <- !option_fmap_compose.
Qed.

(** The arena of every condition has at most [2^32] nodes. *)
Definition rule_small (r : Rule) : Prop :=
  (N.of_nat (length (Wit.nodes (wit_tree (Rule.condition r)))) <= 2 ^ 32)%N.

Lemma rules_fit rules : Forall rule_small rules → ∃ fuel, Forall (rule_fits fuel) rules.
Proof.
  induction 1 as [|r rules Hr _ [fuel IH]]; [by exists 0|].
  exists (length (Wit.nodes (wit_tree (Rule.condition r))) + fuel).
  constructor; [split; [done|lia]|]. eapply Forall_impl; [exact IH|].
  intros r' [? ?]. split; [done|lia].
Qed.

(** The component exports [rules.evaluate]. *)
Definition exports_evaluate (c : WasmtimeRuleComponent) (f : wasm_func) : Prop :=
  ∃ instance interface function,
    instantiate (rule_component c) = Ok instance
    ∧ get_export_index instance None RULES_INTERFACE_EXPORT = Some interface
    ∧ get_export_index instance (Some interface) EVALUATE_EXPORT = Some function
    ∧ get_func instance function = Some f.

(** The guest runs to its end: when the guest of RulesGuest.v decides the rule set
    in the context, the call returns that decision, and no cancellation is noticed. *)
Definition runs_guest (call : wasm_func → list Val → guest_call) (f : wasm_func)
    (rs : Wit.RuleSet) (context : Wit.EvalContext) : Prop :=
  ∀ fuel d, Guest.evaluate fuel rs context = Some d →
    call_interrupted (call f [Wit.rule_set_val rs; Wit.context_val context]) = false
    ∧ call_result (call f [Wit.rule_set_val rs; Wit.context_val context])
      = Ok (ValResult (Ok (Some (Wit.decision_val d)))).

Lemma evaluate_with_cancellation_ok c rs packet context text cancellation s call f :
  rule_set_valid rs → Forall rule_small (RuleSet.rules rs) →
  payload_text (MessageEnvelope.payload packet) text →
  CancellationToken.request s cancellation = None →
  store_set_fuel (WasmtimeExecutionLimits.fuel (rule_limits c)) = Ok tt →
  exports_evaluate c f → runs_guest call f (wit_rule_set rs) (wit_context context text) →
  ∃ d, evaluate rs packet context = Ok d
    ∧ evaluate_with_cancellation c rs (host_context (MessageEnvelope.payload packet) context)
        cancellation s (Ok tt) call = Ok (undescribed d).
Proof.
  intros Hv Hsmall Ht Hact Hset (instance & interface & function & H1 & H2 & H3 & H4) Hguest.
  destruct (rules_fit _ Hsmall) as [fuel Hfits].
  destruct (guest_evaluate rs (MessageEnvelope.payload packet) context text fuel packet)
    as (d & Hd & Hg); [done|by apply payload_text_of|done|].
  exists d. split; [done|]. unfold evaluate_with_cancellation, find_function, settle_call.
  rewrite Hact, Hset, H1. cbn [map_err result_bind]. rewrite H2. cbn [ok_or result_bind].
  rewrite H3. cbn [ok_or result_bind]. rewrite H4. cbn [ok_or result_bind].
  rewrite rule_set_val_eq. cbn [result_bind]. rewrite (context_val_eq _ _ text) by done.
  cbn [result_bind]. destruct (Hguest fuel _ Hg) as [-> ->]. cbn [map_err result_bind].
  apply decision_roundtrip. by eapply decision_action_valid.
Qed.
End boundary.

(** ** Properties *)

(** C9. Native and WASM evaluation agree: for every rule set, packet and context,
    an evaluation through the boundary by a component that runs the sample guest to
    its end returns the decision of the native evaluator, with the same action,
    matched rule and tags and the same traces but for their descriptions.  The
    conditions must have at most [2^32] nodes, and the JSON library must read back
    the payload it prints. *)
Theorem wasm_evaluation_agrees `{J : JsonNumber} `{!JsonText} `{!FloatDisplay} `{W : !Wasmtime}
  (c : WasmtimeRuleComponent) (rs : RuleSet) (packet : PortPacket) (context : EvalContext)
  (text : Wit.PacketPayload) (cancellation : CancellationToken) (s : signals)
  (call : wasm_func → list Val → guest_call) (f : wasm_func)
  (Hvalid : rule_set_valid rs) (Hsmall : Forall rule_small (RuleSet.rules rs))
  (Htext : payload_text (MessageEnvelope.payload packet) text)
  (Hactive : CancellationToken.request s cancellation = None)
  (Hfuel : store_set_fuel (WasmtimeExecutionLimits.fuel (rule_limits c)) = Ok tt)
  (Hexports : exports_evaluate c f)
  (Hguest : runs_guest call f (wit_rule_set rs) (wit_context context text)) :
  ∃ d, evaluate rs packet context = Ok d
    ∧ evaluate_with_cancellation c rs (host_context (MessageEnvelope.payload packet) context)
        cancellation s (Ok tt) call = Ok (undescribed d).
Proof. by eapply evaluate_with_cancellation_ok. Qed.

(** The arena a condition is encoded as evaluates, at its root, to the condition,
    whatever nodes are stored before or after it: children are stored before their
    parents, so the recursion of the guest ends after at most as many calls as the
    root index says. *)
Theorem condition_arena_faithful `{J : JsonNumber} `{!JsonText} (c : Condition)
  (before after : list Wit.ConditionNode) (payload : PacketPayload) (context : EvalContext)
  (text : Wit.PacketPayload) :
  let (root, nodes) := arena c before in
  push_condition c (Wit.node_val <$> before) = (root, Wit.node_val <$> nodes)
  ∧ ((N.of_nat (length nodes) <= 2 ^ 32)%N →
     ∀ fuel, N.to_nat root < fuel →
       Guest.eval_node fuel (nodes ++ after) root (guest_payload payload)
         (wit_context context text)
       = Some (eval_condition c payload context)).
Proof.
  pose proof (push_condition_val c before) as Hv.
  pose proof (arena_reads payload context text c before) as Hr.
  destruct (arena c before) as [root nodes]. split; [done|]. intros Hlen.
  destruct Hr as [_ Hr]. by destruct (Hr Hlen) as [_ Hread], (Hread after) as [_ ?].
Qed.

(** ** Examples *)

Section examples.
#[local] Instance null_text : JsonText :=
  {| json_error := unit; json_error_fmt := λ _, lit "json";
     json_from_str := λ _, Ok Value.Null; json_to_string := λ _, Ok (lit "null") |}.
#[local] Instance no_floats : FloatDisplay := λ _, lit "float".
#[local] Instance toy_wasmtime : Wasmtime :=
  {| wasm_error := unit; wasm_error_fmt := λ _, lit "trap"; wasm_component := unit;
     wasm_instance := unit; export_index := unit; wasm_func := unit;
     engine_new := Ok tt; component_from_binary := λ _, Ok tt; store_set_fuel := λ _, Ok tt;
     instantiate := λ _, Ok tt; get_export_index := λ _ _ _, Some tt; get_func := λ _ _, Some tt |}.
Let packet : PortPacket :=
  MessageEnvelope.new
    (MessageMetadata.new (ident "m1") (ident "flow")
       (ExecutionMetadata.first_attempt (ident "run-1"))
       (MessageRoute.new None (MessageEndpoint.new (ident "router") (ident "in"))))
    (PacketPayload.Control Value.Null).
Let context : EvalContext := EvalContext.mk [] None (Some (ident "in")) 0 (ident "flow") [].
Let rs : RuleSet :=
  RuleSet.mk (lit "orders") EvaluationStrategy.FirstMatch
    [Rule.mk (lit "all") (Condition.Not Condition.Never) RuleAction.Drop 0 []]
    (RuleAction.Halt (lit "none")) true.
Let answer : Val :=
  ValResult (Ok (Some (Wit.decision_val
    (Wit.mk_decision Wit.Drop (Some (lit "all")) []
       [Wit.mk_trace (lit "all") ConditionSurface.Combinator true])))).

Lemma wasm_evaluation_agrees_witness :
  ∃ d, evaluate rs packet context = Ok d
    ∧ evaluate_with_cancellation (mk_rule_component (W := toy_wasmtime) tt
          WasmtimeExecutionLimits.default) rs
        (host_context (MessageEnvelope.payload packet) context) (CancellationToken.mk 0) [None]
        (Ok tt) (λ _ _, mk_guest_call (W := toy_wasmtime) (Ok answer) false None [None])
      = Ok (undescribed d).
Proof.
  apply (wasm_evaluation_agrees (W := toy_wasmtime)) with (text := Wit.Control (lit "null")) (f := tt).
  - split; [exact I|]. constructor; [exact I|constructor].
  - constructor; [|constructor]. unfold rule_small. simpl. lia.
  - split; reflexivity.
  - reflexivity.
  - reflexivity.
  - exists tt, tt, tt. repeat split.
  - intros [|[|fuel]] d Hd; [discriminate Hd|discriminate Hd|].
    injection Hd as <-. split; reflexivity.
Defined.
End examples.
