(* ===== verification/WasmRuleNode.v ===== *)
(** [pureflow-wasm], the rule node with a WASM guest
    (src/crates/pureflow-wasm/src/rules_node.rs).

    The node differs from the native one (RuleNode.v) in its evaluation: the rule
    set and the packet go through the boundary of WasmRules.v.  The functions that
    act on the decision ([execute_action], [forward_packet], the evaluation record)
    are the same code in both crates and are used from RuleNode.v.  The evaluation
    is a state of its own, because the rest of the system runs on while the guest
    does. *)

From Stdlib Require Import Lia.
From stdpp Require Import relations.
From S2P Require Import Prelude RustStr BTree Types Workflow Errors Json Context Message Metadata MetadataSink Rules RuleEval Channel Ports PortsSpec RuleContract RuleNode Wiring Wasm WasmSpec WasmRules RulesGuest WasmRulesSpec.

Section node.
Context `{J : JsonNumber} `{!JsonDisplay} `{!FloatDisplay} `{!JsonText} `{W : !Wasmtime}
  {S : Type} `{!MetadataSink S} `{M : !Mpsc PortPacket}.

(** [packet_counter] as in the native node. *)
Record WasmRuleNode : Set := mk_wasm_node {
  wasm_rule_set : RuleSet;
  wasm_component_of : WasmtimeRuleComponent;
  wasm_sink : bool;
  wasm_counter : N;
}.

Definition wasm_node_new (rs : RuleSet) (component : WasmtimeRuleComponent) : WasmRuleNode :=
  mk_wasm_node rs component false 0.
Definition wasm_node_with_metadata_sink (n : WasmRuleNode) : WasmRuleNode :=
  mk_wasm_node (wasm_rule_set n) (wasm_component_of n) true (wasm_counter n).

Definition build_host_context (ctx : NodeContext) (packet : PortPacket) : HostEvalContext :=
  HostEvalContext.mk (MessageEnvelope.payload packet) []
    ((λ ep, as_str (MessageEndpoint.node_id ep)) <$>
       MessageRoute.source (MessageMetadata.route (MessageEnvelope.metadata packet)))
    (Some (as_str (packet_arrival packet))) 0 (as_str (NodeContext.workflow_id ctx)) [].

(** The suspension points of [run], the evaluation, and its end. *)
Inductive wasm_state : Type :=
| WBegin
| WLoopHead (in_port : PortId)
| WReceiving (in_port : PortId)
| WEvaluating (in_port : PortId) (packet : PortPacket)
| WSending (in_port : PortId) (kind : SendKind) (port_id : PortId) (packet : PortPacket)
| WFinished (r : result unit PureflowError).

Definition wasm_after_packet (ctx : NodeContext) (in_port : PortId) (w : world (S := S)) :
    wasm_state :=
  if CancellationToken.is_cancelled (w_signals w) (NodeContext.cancellation_token ctx) then
    WFinished (Err (PureflowError.cancelled
                      (lit "wasm rule node cancelled after processing packet")))
  else WLoopHead in_port.

(** What the libraries do in an evaluation: whether the watcher thread starts, and
    what the guest call does. *)
Record evaluation : Type := mk_evaluation {
  spawned : result unit rstr;
  call : wasm_func → list Val → guest_call;
}.

(** From a received packet to the send it needs: evaluate, record, count, act. *)
Definition wasm_process_packet (ctx : NodeContext) (ev : evaluation) (node : WasmRuleNode)
    (packet : PortPacket) (w : world (S := S)) :
    WasmRuleNode * result (option (SendKind * PortId * PortPacket)) PureflowError
    * world (S := S) :=
  match map_err (λ e, PureflowError.execution
                        (lit "wasm rule evaluation error: " ++ PureflowError.fmt e))
          (evaluate_with_cancellation (wasm_component_of node) (wasm_rule_set node)
             (build_host_context ctx packet) (NodeContext.cancellation_token ctx) (w_signals w)
             (spawned ev) (call ev)) with
  | Err e => (node, Err e, w)
  | Ok decision =>
      let w := record_to (wasm_sink node)
        (MetadataRecord.RuleEval
           (build_rule_eval_record ctx (wasm_rule_set node) packet decision [])) w in
      let (seq, counter) := fetch_add (wasm_counter node) in
      (mk_wasm_node (wasm_rule_set node) (wasm_component_of node) (wasm_sink node) counter,
       start_action (RuleDecision.action decision) ctx seq packet, w)
  end.

Definition wasm_turn (ctx : NodeContext) (inputs : PortsIn) (outputs : PortsOut)
    (cx_cancelled : bool) (ev : evaluation) (node : WasmRuleNode) (st : wasm_state)
    (w : world (S := S)) : WasmRuleNode * wasm_state * world (S := S) :=
  let cancellation := NodeContext.cancellation_token ctx in
  match st with
  | WBegin =>
      match map_err (λ e, PureflowError.execution
                            (lit "invalid port id: " ++ IdentifierError.fmt e))
              (identifier_new IN_PORT) with
      | Ok in_port => (node, WLoopHead in_port, w)
      | Err e => (node, WFinished (Err e), w)
      end
  | WLoopHead in_port => (node, WReceiving in_port, start_recv inputs in_port w)
  | WReceiving in_port =>
      let (r, w) := poll_recv inputs in_port cancellation cx_cancelled w in
      match r with
      | Pending => (node, WReceiving in_port, w)
      | Ready (Ok (Some packet)) => (node, WEvaluating in_port packet, w)
      | Ready (Ok None) | Ready (Err (PortRecvError.Disconnected _)) =>
          (node, WFinished (Ok tt), w)
      | Ready (Err (PortRecvError.UnknownPort port_id)) =>
          (node, WFinished (Err (PureflowError.execution
             (lit "wasm rule node: input port `" ++ as_str port_id ++ lit "` not declared"))), w)
      | Ready (Err (PortRecvError.Cancelled _)) =>
          (node, WFinished (Err (PureflowError.cancelled
             (lit "wasm rule node cancelled while waiting for input"))), w)
      end
  | WEvaluating in_port packet =>
      let '(node, r, w) := wasm_process_packet ctx ev node packet w in
      (node,
       match r with
       | Err e => WFinished (Err e)
       | Ok None => wasm_after_packet ctx in_port w
       | Ok (Some (kind, port_id, forwarded)) => WSending in_port kind port_id forwarded
       end, w)
  | WSending in_port kind port_id packet =>
      let (r, w) := poll_send outputs port_id packet cancellation w in
      match r with
      | Pending => (node, WSending in_port kind port_id packet, w)
      | Ready (Ok _) => (node, wasm_after_packet ctx in_port w, w)
      | Ready (Err e) => (node, WFinished (Err (send_failure kind e)), w)
      end
  | WFinished r => (node, WFinished r, w)
  end.

(** ** Specification *)

(** A guest whose answers are those of the sample guest: it may fail, be cancelled
    or run for ever, but what it returns is what the sample guest decides, given
    enough recursion depth. *)
Definition guest_answers (rs : Wit.RuleSet) (context : Wit.EvalContext) (d : Wit.RuleDecision) :
    Prop :=
  ∃ n, ∀ fuel, n ≤ fuel → Guest.evaluate fuel rs context = Some d.

Definition faithful_call (rs : RuleSet) (call : wasm_func → list Val → guest_call) : Prop :=
  ∀ f context v,
    let params := [Wit.rule_set_val (wit_rule_set rs); Wit.context_val context] in
    call_interrupted (call f params) = false → call_result (call f params) = Ok v →
    ∃ d, guest_answers (wit_rule_set rs) context d ∧ v = ValResult (Ok (Some (Wit.decision_val d))).

(** The packets a turn evaluates, each with the sequence number it draws; what it
    sends. *)
Definition wasm_evaluated (node : WasmRuleNode) (st : wasm_state) : list (N * PortPacket) :=
  match st with WEvaluating _ packet => [(wasm_counter node, packet)] | _ => [] end.
Definition wasm_sent (ctx : NodeContext) (outputs : PortsOut) (st : wasm_state)
    (w : world (S := S)) : list (PortId * PortPacket) :=
  match st with
  | WSending _ _ port_id packet =>
      match (poll_send outputs port_id packet (NodeContext.cancellation_token ctx) w).1 with
      | Ready (Ok _) => [(port_id, packet)]
      | _ => []
      end
  | _ => []
  end.

Record wasm_run : Type := mk_wasm_run {
  wr_state : wasm_state;
  wr_world : world (S := S);
  wr_counter : N;
  wr_evaluated : list (N * PortPacket);
  wr_sent : list (PortId * PortPacket);
}.

(** A step is a turn of the node, in which a guest call is faithful, or anything the
    rest of the system does to the channels, the sink, the signals and the counter. *)
Inductive wasm_step (ctx : NodeContext) (inputs : PortsIn) (outputs : PortsOut) (rs : RuleSet)
    (component : WasmtimeRuleComponent) (sink : bool) : wasm_run → wasm_run → Prop :=
| wasm_step_turn cx_cancelled ev st w counter evd snt counter' st' w' :
    faithful_call rs (call ev) →
    wasm_turn ctx inputs outputs cx_cancelled ev (mk_wasm_node rs component sink counter) st w
    = (mk_wasm_node rs component sink counter', st', w') →
    wasm_step ctx inputs outputs rs component sink (mk_wasm_run st w counter evd snt)
      (mk_wasm_run st' w' counter'
         (evd ++ wasm_evaluated (mk_wasm_node rs component sink counter) st)
         (snt ++ wasm_sent ctx outputs st w))
| wasm_step_environment st w counter evd snt w' counter' :
    wasm_step ctx inputs outputs rs component sink (mk_wasm_run st w counter evd snt)
      (mk_wasm_run st w' counter' evd snt).

(** How the packets sent relate to the packets given to the evaluation: they are what
    the native node makes of them, but for the one being sent or lost in a failure. *)
Definition wasm_accounts (ctx : NodeContext) (rs : RuleSet) (st : wasm_state)
    (evd : list (N * PortPacket)) (snt : list (PortId * PortPacket)) : Prop :=
  match st with
  | WSending _ _ port packet => routed ctx rs evd = snt ++ [(port, packet)]
  | WFinished (Err e) =>
      routed ctx rs evd = snt ∨ ∃ port packet, routed ctx rs evd = snt ++ [(port, packet)]
  | _ => routed ctx rs evd = snt
  end.

(** ** Lemmas *)

Lemma build_host_context_eq ctx packet :
  build_host_context ctx packet
  = host_context (MessageEnvelope.payload packet) (packet_context ctx packet).
Proof.
  unfold build_host_context, host_context, packet_context, packet_source. simpl.
  by destruct (MessageRoute.source _).
Qed.

Lemma guest_answers_unique rs context d d' :
  guest_answers rs context d → guest_answers rs context d' → d = d'.
Proof.
  intros [n Hn] [n' Hn']. specialize (Hn (n + n') ltac:(lia)).
  specialize (Hn' (n + n') ltac:(lia)). congruence.
Qed.

(** The sample guest answers every rule set the host encodes. *)
Lemma guest_answers_native rs packet context text :
  Forall rule_small (RuleSet.rules rs) → payload_text (MessageEnvelope.payload packet) text →
  ∃ d, evaluate rs packet context = Ok d
    ∧ guest_answers (wit_rule_set rs) (wit_context context text) (wit_decision d).
Proof.
  intros Hs Ht. destruct (rules_fit _ Hs) as [n Hn].
  destruct (guest_evaluate rs (MessageEnvelope.payload packet) context text n packet)
    as (d & Hd & _); [done|by apply payload_text_of|done|].
  exists d. split; [done|]. exists n. intros fuel Hf.
  destruct (guest_evaluate rs (MessageEnvelope.payload packet) context text fuel packet)
    as (d' & Hd' & He); [done|by apply payload_text_of| |congruence].
  eapply Forall_impl; [exact Hn|]. intros r [? ?]. split; [done|lia].
Qed.

Section decisions.
Variables (rs : RuleSet).
Hypothesis Hvalid : rule_set_valid rs.
Hypothesis Hsmall : Forall rule_small (RuleSet.rules rs).

(** What the boundary returns is the native decision. *)
Lemma evaluate_with_cancellation_native component packet context text cancellation s spawned call d :
  payload_text (MessageEnvelope.payload packet) text → faithful_call rs call →
  evaluate_with_cancellation component rs
    (host_context (MessageEnvelope.payload packet) context) cancellation s spawned call = Ok d →
  ∃ d0, evaluate rs packet context = Ok d0 ∧ d = undescribed d0.
Proof.
  intros Ht Hf. unfold evaluate_with_cancellation.
  destruct (CancellationToken.request s cancellation); [done|].
  intros (_ & _ & (_ & _ & (f & _ & (v1 & Hv1 & (v2 & Hv2 & (v & Hv & Hd)%result_bind_ok)
    %result_bind_ok)%result_bind_ok)%result_bind_ok)%result_bind_ok)%result_bind_ok.
  rewrite rule_set_val_eq in Hv1. injection Hv1 as <-.
  rewrite (context_val_eq _ _ text) in Hv2 by done. injection Hv2 as <-.
  unfold settle_call in Hv. destruct (call_interrupted _) eqn:Hi; [done|].
  apply map_err_ok in Hv. destruct (Hf _ _ _ Hi Hv) as (gd & Hg & ->).
  destruct (guest_answers_native rs packet context text Hsmall Ht) as (d0 & Hd0 & Hg0).
  rewrite (guest_answers_unique _ _ _ _ Hg Hg0) in Hd.
  rewrite decision_roundtrip in Hd by (by eapply decision_action_valid).
  injection Hd as <-. eauto.
Qed.

Definition readable (packet : PortPacket) : Prop :=
  ∃ text, payload_text (MessageEnvelope.payload packet) text.

Lemma wasm_process_packet_routed ctx ev component sink counter packet w :
  readable packet → faithful_call rs (call ev) →
  let '(node', r, _) :=
    wasm_process_packet ctx ev (mk_wasm_node rs component sink counter) packet w in
  match r with
  | Ok o => routed_packet ctx rs counter packet
            = match o with Some (_, port, forwarded) => [(port, forwarded)] | None => [] end
  | Err _ => True
  end.
Proof.
  intros [text Ht] Hf. unfold wasm_process_packet. rewrite build_host_context_eq. simpl.
  destruct (evaluate_with_cancellation _ _ _ _ _ _ _) as [d|] eqn:Hd; simpl; [|done].
  eapply evaluate_with_cancellation_native in Hd as (d0 & Hd0 & ->); [|done|done].
  unfold routed_packet. rewrite Hd0. simpl.
  destruct (RuleDecision.action d0) as [port| |reason| |]; simpl; try done;
    rewrite ?dead_letter_port; simpl; by destruct (forward_packet _ _ _ _).
Qed.

Lemma routed_packet_short ctx seq packet :
  routed_packet ctx rs seq packet = []
  ∨ ∃ port forwarded, routed_packet ctx rs seq packet = [(port, forwarded)].
Proof. unfold routed_packet. repeat case_match; eauto. Qed.

Lemma wasm_accounts_idle ctx st evd snt :
  match st with WSending _ _ _ _ => False | _ => True end →
  routed ctx rs evd = snt → wasm_accounts ctx rs st evd snt.
Proof. destruct st as [| | | | |[]]; simpl; auto; done. Qed.

Lemma wasm_after_packet_idle ctx in_port w :
  match wasm_after_packet ctx in_port w with WSending _ _ _ _ => False | _ => True end.
Proof. unfold wasm_after_packet. by destruct (CancellationToken.is_cancelled _ _). Qed.

Lemma wasm_turn_accounts ctx inputs outputs cx ev component sink counter st w evd snt :
  faithful_call rs (call ev) →
  (∀ in_port packet, st = WEvaluating in_port packet → readable packet) →
  wasm_accounts ctx rs st evd snt →
  let node := mk_wasm_node rs component sink counter in
  wasm_accounts ctx rs (wasm_turn ctx inputs outputs cx ev node st w).1.2
    (evd ++ wasm_evaluated node st) (snt ++ wasm_sent ctx outputs st w).
Proof.
  intros Hf Hread Hacc node.
  destruct st as [|in_port|in_port|in_port packet|in_port kind port packet|r];
    cbn [wasm_turn wasm_evaluated wasm_sent].
  - rewrite in_port_ok, !app_nil_r. done.
  - by rewrite !app_nil_r.
  - rewrite !app_nil_r. destruct (poll_recv _ _ _ _ _) as [r w1]. simpl in Hacc.
    by destruct r as [[[packet|]|[]]|]; simpl; auto.
  - rewrite app_nil_r. simpl in Hacc. unfold node.
    pose proof (wasm_process_packet_routed ctx ev component sink counter packet w
      (Hread _ _ eq_refl) Hf) as Hp.
    destruct (wasm_process_packet _ _ _ _ _) as [[node' r] w2]. simpl.
    pose proof (routed_snoc ctx rs evd counter packet) as Hs. rewrite Hacc in Hs.
    destruct r as [[[[kind port] forwarded]|]|e].
    + rewrite Hp in Hs. done.
    + rewrite Hp, app_nil_r in Hs. apply wasm_accounts_idle; [apply wasm_after_packet_idle|done].
    + simpl. destruct (routed_packet_short ctx counter packet) as [E|(port & fwd & E)];
        rewrite E in Hs; [left; by rewrite app_nil_r in Hs|right; eauto].
  - rewrite app_nil_r. simpl in Hacc. destruct (poll_send _ _ _ _ _) as [[[?|e]|] w1]; simpl.
    + apply wasm_accounts_idle; [apply wasm_after_packet_idle|done].
    + right. rewrite app_nil_r. eauto.
    + by rewrite app_nil_r.
  - by rewrite !app_nil_r.
Qed.
End decisions.

(** ** Properties *)

(** C16. A WASM rule node routes as a native one: whatever the rest of the system does
    between its turns and during its guest calls, and whether those succeed, trap, run
    out of fuel or are cancelled, as long as what a guest returns is what the sample
    guest decides, the packets the node has sent are in order exactly what the native
    rule node makes of the packets it has evaluated, except for at most one: the one
    being sent, or the one the run failed on. *)
Theorem wasm_rule_node_routes_natively (ctx : NodeContext) (inputs : PortsIn)
  (outputs : PortsOut) (rs : RuleSet) (component : WasmtimeRuleComponent) (sink : bool)
  (w : world (S := S)) (counter : N) (R : wasm_run)
  (Hvalid : rule_set_valid rs) (Hsmall : Forall rule_small (RuleSet.rules rs))
  (Hrun : rtc (wasm_step ctx inputs outputs rs component sink)
            (mk_wasm_run WBegin w counter [] []) R)
  (Hread : Forall (λ sp, readable sp.2) (wr_evaluated R)) :
  wasm_accounts ctx rs (wr_state R) (wr_evaluated R) (wr_sent R).
Proof.
  remember (mk_wasm_run WBegin w counter [] []) as R0 eqn:E.
  assert (Hacc : wasm_accounts ctx rs (wr_state R0) (wr_evaluated R0) (wr_sent R0)) by by subst.
  clear E. assert (Hgrow : ∀ R1 R2, rtc (wasm_step ctx inputs outputs rs component sink) R1 R2 →
    wr_evaluated R1 `prefix_of` wr_evaluated R2).
  { intros R1 R2. induction 1 as [|R1 R2 R3 Hs _ IH]; [done|].
    etransitivity; [|exact IH]. destruct Hs; simpl; [by eexists|done]. }
  induction Hrun as [|R0 R1 R Hstep Hrest IH]; [done|]. apply IH; [done|].
  specialize (Hgrow _ _ Hrest).
  destruct Hstep as [cx ev st w0 c evd snt c' st' w' Hf Ht|]; [|done].
  assert (Hpkt : ∀ in_port packet, st = WEvaluating in_port packet → readable packet).
  { intros in_port packet ->. destruct Hgrow as [k Hk]. simpl in Hk. rewrite Hk in Hread.
    apply Forall_app in Hread as [Hread _]. apply Forall_app in Hread as [_ Hread].
    by apply Forall_inv in Hread. }
  pose proof (wasm_turn_accounts rs Hvalid Hsmall ctx inputs outputs cx ev component sink c st w0
    evd snt Hf Hpkt Hacc) as Ha. cbv zeta in Ha. rewrite Ht in Ha. exact Ha.
Qed.

(** A cancellation that arrives after a packet was received and before its evaluation
    loses the packet: the run ends without a guest call, and reports an execution
    failure instead of a cancellation. *)
Theorem wasm_cancelled_packet_lost (ctx : NodeContext) (inputs : PortsIn) (outputs : PortsOut)
  (cx_cancelled : bool) (ev : evaluation) (node : WasmRuleNode) (in_port : PortId)
  (packet : PortPacket) (w : world (S := S))
  (Hcancelled : CancellationToken.is_cancelled (w_signals w)
                  (NodeContext.cancellation_token ctx) = true) :
  ∃ e, wasm_turn ctx inputs outputs cx_cancelled ev node (WEvaluating in_port packet) w
       = (node, WFinished (Err e), w)
    ∧ PureflowError.code e = ErrorCode.NodeExecutionFailed.
Proof.
  unfold CancellationToken.is_cancelled in Hcancelled.
  apply bool_decide_eq_true in Hcancelled as [request Hr].
  cbn [wasm_turn]. unfold wasm_process_packet, evaluate_with_cancellation. rewrite Hr. simpl.
  eexists. split; done.
Qed.
End node.

(** ** Examples *)

Section examples.
#[local] Instance null_text : JsonText :=
  {| json_error := unit; json_error_fmt := λ _, lit "json";
     json_from_str := λ _, Ok Value.Null; json_to_string := λ _, Ok (lit "null") |}.
#[local] Instance null_display : JsonDisplay := λ _, lit "null".
#[local] Instance no_floats : FloatDisplay := λ _, lit "float".
#[local] Instance toy_wasmtime : Wasmtime :=
  {| wasm_error := unit; wasm_error_fmt := λ _, lit "trap"; wasm_component := unit;
     wasm_instance := unit; export_index := unit; wasm_func := unit;
     engine_new := Ok tt; component_from_binary := λ _, Ok tt; store_set_fuel := λ _, Ok tt;
     instantiate := λ _, Ok tt; get_export_index := λ _ _ _, Some tt; get_func := λ _ _, Some tt |}.
Let packet : PortPacket :=
  MessageEnvelope.new
    (MessageMetadata.new (ident "m1") (ident "flow")
       (ExecutionMetadata.first_attempt (ident "run-1"))
       (MessageRoute.new None (MessageEndpoint.new (ident "router") (ident "in"))))
    (PacketPayload.Control Value.Null).
Let rs : RuleSet :=
  RuleSet.mk (lit "orders") EvaluationStrategy.FirstMatch
    [Rule.mk (lit "all") Condition.Always (RuleAction.Route (ident "high")) 0 []]
    RuleAction.Drop false.
Let ctx : NodeContext :=
  NodeContext.mk (ident "flow") (ident "router")
    (ExecutionMetadata.first_attempt (ident "run-1")) (CancellationToken.mk 0).
Let inputs : PortsIn := mk_ports_in [ident "in"] [mk_input (ident "in") [0]] true None.
Let outputs : PortsOut := mk_ports_out [ident "high"] [mk_output (ident "high") [1]] true None None.
Let start : world (S := list MetadataRecord) :=
  mk_world [mk_view [packet] 0 1 false true; mk_view [] 0 1 true true] [] [None].
Let decision : Wit.RuleDecision := Wit.mk_decision (Wit.Route (lit "high")) (Some (lit "all")) [] [].
Let ev : evaluation (W := toy_wasmtime) :=
  mk_evaluation (W := toy_wasmtime) (Ok tt) (λ _ _, mk_guest_call (W := toy_wasmtime)
    (Ok (ValResult (Ok (Some (Wit.decision_val decision))))) false None [None]).
Let component : WasmtimeRuleComponent (W := toy_wasmtime) :=
  mk_rule_component (W := toy_wasmtime) tt WasmtimeExecutionLimits.default.

Lemma ev_faithful : faithful_call (W := toy_wasmtime) rs (call ev).
Proof.
  intros f context v params _ [= <-]. exists decision. split; [|done].
  exists 1. intros [|fuel] Hf; [lia|]. reflexivity.
Qed.

(** One packet is received, evaluated by the guest and sent. *)
Lemma wasm_rule_node_routes_natively_witness :
  ∃ R, rtc (wasm_step (W := toy_wasmtime) ctx inputs outputs rs component false)
         (mk_wasm_run WBegin start 0 [] []) R
    ∧ length (wr_sent R) = 1 ∧ routed ctx rs (wr_evaluated R) = wr_sent R.
Proof.
  assert (∃ R, rtc (wasm_step (W := toy_wasmtime) ctx inputs outputs rs component false)
                 (mk_wasm_run WBegin start 0 [] []) R
    ∧ length (wr_sent R) = 1 ∧ wr_evaluated R = [(0%N, packet)]
    ∧ wr_state R = WLoopHead (ident "in")) as (R & HR & Hl & He & Hst).
  { eexists. split.
    - do 5 (eapply rtc_l;
        [apply (wasm_step_turn _ _ _ _ _ _ false ev); [exact ev_faithful|reflexivity]|]).
      apply rtc_refl.
    - split; [reflexivity|]. split; reflexivity. }
  exists R. split; [exact HR|]. split; [exact Hl|].
  pose proof (wasm_rule_node_routes_natively (W := toy_wasmtime) ctx inputs outputs rs component
    false start 0 R) as H. rewrite Hst in H. apply H.
  - split; [exact I|]. constructor; [|constructor].
    apply (proj1 (validate_identifier_ok IdentifierKind.Port _)). reflexivity.
  - constructor; [|constructor]. unfold rule_small. simpl. lia.
  - exact HR.
  - rewrite He. constructor; [|constructor]. exists (Wit.Control (lit "null")). split; reflexivity.
Defined.
End examples.
