(* ===== verification/FsWatcher.v ===== *)
(** [pureflow-nodes-fs] (src/crates/pureflow-nodes-fs/src/lib.rs): the node that
    watches a path and emits a packet for every change.

    The run is a state machine over its suspension points, the send and the yield.
    The file system watcher of the notify crate and the channel it feeds are given
    by what each turn finds there; the clock is read once per event.  The theorem
    relates the packets sent to the events taken from that channel. *)

From Stdlib Require Import Lia Strings.Byte.
From stdpp Require Import relations.
From S2P Require Import Prelude RustStr BTree Types Workflow Errors Json Context Message Metadata MetadataSink Channel Ports PortsSpec Wiring.

(** [PathBuf], with [path.to_string_lossy().into_owned().into_bytes()]. *)
Class FsPath := { fs_path : Set; path_lossy_bytes : fs_path → list byte }.

Section watcher.
Context `{J : JsonNumber} `{P : !FsPath} {S : Type} `{!MetadataSink S} `{M : !Mpsc PortPacket}.

Record FsWatcherNode : Set := mk_fs_node { watch_path : fs_path; debounce_ms : N }.
Definition fs_node_new (watch_path : fs_path) : FsWatcherNode := mk_fs_node watch_path 50.

(** [Duration::from_millis]. *)
Definition debounce (node : FsWatcherNode) : Duration := (debounce_ms node * 1000000)%N.

(** [Instant], in nanoseconds; [duration_since] saturates at zero. *)
Notation Instant := N.

(** What [rx.try_recv()] finds: the paths of an event and the time it is taken, no
    event, or no watcher. *)
Inductive fs_event : Set :=
| FsEvent (now : Instant) (paths : list fs_path)
| FsEmpty
| FsDisconnected.

Definition make_packet (ctx : NodeContext) (port : PortId) (payload : list byte) (seq : N) :
    result PortPacket PureflowError :=
  let source := MessageEndpoint.new (NodeContext.node_id ctx) port in
  let target := MessageEndpoint.new (NodeContext.node_id ctx) port in
  let route := MessageRoute.new (Some source) target in
  let? msg_id :=
    map_err (λ e, PureflowError.execution
                    (lit "message id build failed: " ++ IdentifierError.fmt e))
      (identifier_new (as_str (NodeContext.node_id ctx) ++ lit "-changes-" ++ show_N seq)) in
  Ok (MessageEnvelope.new
        (MessageMetadata.new msg_id (NodeContext.workflow_id ctx) (NodeContext.execution ctx) route)
        (PacketPayload.Bytes payload)).

(** The head of the outer loop, the head of the loop over events, and a send, with
    the paths of the event still to be reported. *)
Inductive fs_state : Type :=
| FsBegin
| FsLoop (last_emit : option Instant) (seq : N)
| FsDrain (got_event : bool) (last_emit : option Instant) (seq : N)
| FsSending (packet : PortPacket) (paths : list fs_path) (last_emit : option Instant) (seq : N)
| FsFinished (r : result unit PureflowError)
| FsPanicked.

Definition changes_port : PortId := ident "changes".
Definition control_port : PortId := ident "control".

Definition within_debounce (d : Duration) (last_emit : option Instant) (now : Instant) : bool :=
  match last_emit with Some t => N.ltb (now - t) d | None => false end.

(** The loop over the paths of an event, up to its next send; [seq += 1] is checked
    for overflow. *)
Definition next_path (ctx : NodeContext) (paths : list fs_path) (last_emit : option Instant)
    (seq : N) : fs_state :=
  match paths with
  | [] => FsDrain true last_emit seq
  | path :: paths =>
      match make_packet ctx changes_port (path_lossy_bytes path) seq with
      | Err e => FsFinished (Err e)
      | Ok packet =>
          if N.ltb (seq + 1) (2 ^ 64) then FsSending packet paths last_emit (seq + 1)
          else FsPanicked
      end
  end.

Definition fs_turn (node : FsWatcherNode) (ctx : NodeContext) (inputs : PortsIn)
    (outputs : PortsOut) (started : result unit rstr) (watching : result unit rstr)
    (event : fs_event) (st : fs_state) (w : world (S := S)) : fs_state * world (S := S) :=
  let cancellation := NodeContext.cancellation_token ctx in
  match st with
  | FsBegin =>
      match started, watching with
      | Err e, _ =>
          (FsFinished (Err (PureflowError.execution (lit "fs watcher init failed: " ++ e))), w)
      | Ok _, Err e =>
          (FsFinished (Err (PureflowError.execution (lit "watch path failed: " ++ e))), w)
      | Ok _, Ok _ => (FsLoop None 0, w)
      end
  | FsLoop last_emit seq =>
      if CancellationToken.is_cancelled (w_signals w) cancellation then
        (FsFinished (Err (PureflowError.cancelled (lit "fs watcher cancelled"))), w)
      else
        let (r, w) := try_recv inputs control_port w in
        match r with
        | Err e => (FsFinished (Err (PureflowError.from_port_recv e)), w)
        | Ok (Some _) => (FsFinished (Ok tt), w)
        | Ok None => (FsDrain false last_emit seq, w)
        end
  | FsDrain got_event last_emit seq =>
      match event with
      | FsEvent now paths =>
          if within_debounce (debounce node) last_emit now then (FsDrain true last_emit seq, w)
          else (next_path ctx paths (Some now) seq, w)
      | FsEmpty => (FsLoop last_emit seq, w)
      | FsDisconnected => (FsFinished (Ok tt), w)
      end
  | FsSending packet paths last_emit seq =>
      let (r, w) := poll_send outputs changes_port packet cancellation w in
      match r with
      | Pending => (FsSending packet paths last_emit seq, w)
      | Ready (Ok _) => (next_path ctx paths last_emit seq, w)
      | Ready (Err e) => (FsFinished (Err (PureflowError.from_port_send e)), w)
      end
  | FsFinished r => (FsFinished r, w)
  | FsPanicked => (FsPanicked, w)
  end.

(** ** Specification *)

(** Which paths are to be reported, [last] being the time of the event reported last: those
    of the first event, and those of every later event that comes at least [d] after the
    event reported before it; an event that comes earlier is suppressed, whatever it
    names.  With no interval every event is reported. *)
Inductive debounced (d : Duration) :
    option Instant → list (Instant * list fs_path) → list fs_path → Prop :=
| deb_nil last : debounced d last [] []
| deb_first now paths events kept :
    debounced d (Some now) events kept → debounced d None ((now, paths) :: events) (paths ++ kept)
| deb_later t now paths events kept :
    (t + d ≤ now ∨ d = 0)%N → debounced d (Some now) events kept →
    debounced d (Some t) ((now, paths) :: events) (paths ++ kept)
| deb_dropped t now paths events kept :
    (now < t + d ∧ 0 < d)%N → debounced d (Some t) events kept →
    debounced d (Some t) ((now, paths) :: events) kept.

(** The packet that reports a changed path, [i] packets having been made before it. *)
Record change_report (ctx : NodeContext) (i : nat) (path : fs_path) (packet : PortPacket) : Prop := {
  chg_id : as_str (MessageMetadata.message_id (MessageEnvelope.metadata packet))
    = as_str (NodeContext.node_id ctx) ++ lit "-changes-" ++ show_N (N.of_nat i);
  chg_workflow : MessageMetadata.workflow_id (MessageEnvelope.metadata packet)
    = NodeContext.workflow_id ctx;
  chg_execution : MessageMetadata.execution (MessageEnvelope.metadata packet)
    = NodeContext.execution ctx;
  chg_route : MessageMetadata.route (MessageEnvelope.metadata packet)
    = let port := MessageEndpoint.new (NodeContext.node_id ctx) (ident "changes") in
      MessageRoute.new (Some port) port;
  chg_payload : MessageEnvelope.payload packet = PacketPayload.Bytes (path_lossy_bytes path);
}.

Fixpoint change_reports (ctx : NodeContext) (i : nat) (paths : list fs_path)
    (packets : list PortPacket) : Prop :=
  match paths, packets with
  | [], [] => True
  | path :: paths, packet :: packets =>
      change_report ctx i path packet ∧ change_reports ctx (i + 1) paths packets
  | _, _ => False
  end.

(** The events that the node reports, as its control state sees it. *)
Fixpoint reported (d : Duration) (last : option Instant)
    (events : list (Instant * list fs_path)) : list (Instant * list fs_path) :=
  match events with
  | [] => []
  | (now, paths) :: events =>
      if within_debounce d last now then reported d last events
      else (now, paths) :: reported d (Some now) events
  end.

Definition reported_paths (d : Duration) (events : list (Instant * list fs_path)) : list fs_path :=
  concat (reported d None events).*2.

(** The event reported last. *)
Fixpoint last_reported (d : Duration) (last : option Instant)
    (events : list (Instant * list fs_path)) : option Instant :=
  match events with
  | [] => last
  | (now, _) :: events =>
      if within_debounce d last now then last_reported d last events
      else last_reported d (Some now) events
  end.

(** The packets of a list of paths, numbered from [seq]. *)
Fixpoint change_packets (ctx : NodeContext) (seq : N) (paths : list fs_path) :
    option (list PortPacket) :=
  match paths with
  | [] => Some []
  | path :: paths =>
      match make_packet ctx changes_port (path_lossy_bytes path) seq,
            change_packets ctx (seq + 1) paths with
      | Ok packet, Some packets => Some (packet :: packets)
      | _, _ => None
      end
  end.

Definition taken_by (event : fs_event) (st : fs_state) : list (Instant * list fs_path) :=
  match st, event with FsDrain _ _ _, FsEvent now paths => [(now, paths)] | _, _ => [] end.
Definition fs_sent_by (ctx : NodeContext) (outputs : PortsOut) (st : fs_state)
    (w : world (S := S)) : list PortPacket :=
  match st with
  | FsSending packet _ _ _ =>
      match (poll_send outputs changes_port packet (NodeContext.cancellation_token ctx) w).1 with
      | Ready (Ok _) => [packet]
      | _ => []
      end
  | _ => []
  end.

Record fs_run : Type := mk_fs_run {
  fs_at : fs_state;
  fs_world : world (S := S);
  fs_taken : list (Instant * list fs_path);
  fs_sent : list PortPacket;
}.

(** A turn of the node, or anything the rest of the system does. *)
Inductive fs_step (node : FsWatcherNode) (ctx : NodeContext) (inputs : PortsIn)
    (outputs : PortsOut) : fs_run → fs_run → Prop :=
| fs_step_turn started watching event st w tk snt st' w' :
    fs_turn node ctx inputs outputs started watching event st w = (st', w') →
    fs_step node ctx inputs outputs (mk_fs_run st w tk snt)
      (mk_fs_run st' w' (tk ++ taken_by event st) (snt ++ fs_sent_by ctx outputs st w))
| fs_step_environment st w tk snt w' :
    fs_step node ctx inputs outputs (mk_fs_run st w tk snt) (mk_fs_run st w' tk snt).

(** The packets sent so far are those of the first paths to report; [unsent] are the
    paths of the event being reported. *)
Definition fs_accounts (node : FsWatcherNode) (ctx : NodeContext) (st : fs_state)
    (tk : list (Instant * list fs_path)) (snt : list PortPacket) : Prop :=
  let paths := reported_paths (debounce node) tk in
  let last := last_reported (debounce node) None tk in
  let sent_for done seq := change_packets ctx 0 done = Some snt ∧ seq = N.of_nat (length done) in
  match st with
  | FsBegin => tk = [] ∧ snt = []
  | FsLoop last_emit seq | FsDrain _ last_emit seq => last_emit = last ∧ sent_for paths seq
  | FsSending packet unsent last_emit seq =>
      last_emit = last ∧ ∃ done path, paths = done ++ path :: unsent
        ∧ change_packets ctx 0 done = Some snt ∧ seq = (N.of_nat (length done) + 1)%N
        ∧ make_packet ctx changes_port (path_lossy_bytes path) (N.of_nat (length done)) = Ok packet
  | FsFinished (Ok _) => change_packets ctx 0 paths = Some snt
  | FsFinished (Err _) | FsPanicked =>
      ∃ done unsent, paths = done ++ unsent ∧ change_packets ctx 0 done = Some snt
  end.

(** ** Lemmas *)

Lemma fs_reported_app d last tk now paths :
  reported d last (tk ++ [(now, paths)])
  = reported d last tk
    ++ (if within_debounce d (last_reported d last tk) now then [] else [(now, paths)])
  ∧ last_reported d last (tk ++ [(now, paths)])
    = if within_debounce d (last_reported d last tk) now then last_reported d last tk
      else Some now.
Proof.
  revert last. induction tk as [|[t ps] tk IH]; intros last; simpl.
  - by destruct (within_debounce d last now).
  - destruct (within_debounce d last t); [apply IH|].
    destruct (IH (Some t)) as [-> ->]. done.
Qed.

Lemma fs_reported_snoc d tk now paths :
  reported_paths d (tk ++ [(now, paths)])
  = reported_paths d tk
    ++ (if within_debounce d (last_reported d None tk) now then [] else paths)
  ∧ last_reported d None (tk ++ [(now, paths)])
    = if within_debounce d (last_reported d None tk) now then last_reported d None tk
      else Some now.
Proof.
  unfold reported_paths. destruct (fs_reported_app d None tk now paths) as [-> ->].
  split; [|done]. rewrite fmap_app, concat_app.
  destruct (within_debounce _ _ _); simpl; by rewrite ?app_nil_r.
Qed.

Lemma change_packets_snoc ctx seq paths packets path packet :
  change_packets ctx seq paths = Some packets →
  make_packet ctx changes_port (path_lossy_bytes path) (seq + N.of_nat (length paths)) = Ok packet →
  change_packets ctx seq (paths ++ [path]) = Some (packets ++ [packet]).
Proof.
  revert seq packets. induction paths as [|p paths IH]; intros seq packets.
  - intros [= <-] Hp. rewrite N.add_0_r in Hp. simpl. by rewrite Hp.
  - simpl. destruct (make_packet ctx changes_port (path_lossy_bytes p) seq) as [q|]; [|done].
    destruct (change_packets ctx (seq + 1) paths) as [qs|] eqn:Hqs; [|done].
    intros [= <-] Hp. rewrite (IH _ _ Hqs); [done|]. rewrite <- Hp. f_equal. lia.
Qed.

(** Going on with the paths of the event taken last. *)
Lemma next_path_accounts node ctx tk snt done unsent last_emit seq :
  reported_paths (debounce node) tk = done ++ unsent →
  last_emit = last_reported (debounce node) None tk →
  change_packets ctx 0 done = Some snt → seq = N.of_nat (length done) →
  fs_accounts node ctx (next_path ctx unsent last_emit seq) tk snt.
Proof.
  intros Hpaths Hlast Hsnt ->. destruct unsent as [|path unsent]; simpl.
  - rewrite app_nil_r in Hpaths. by rewrite Hpaths.
  - destruct (make_packet _ _ _ _) as [packet|e] eqn:Hp; [|by exists done, (path :: unsent)].
    destruct (N.ltb _ _); [|by exists done, (path :: unsent)].
    split; [done|]. by exists done, path.
Qed.

Lemma fs_turn_accounts node ctx inputs outputs started watching event st w tk snt :
  fs_accounts node ctx st tk snt →
  fs_accounts node ctx (fs_turn node ctx inputs outputs started watching event st w).1
    (tk ++ taken_by event st) (snt ++ fs_sent_by ctx outputs st w).
Proof.
  intros Hacc. destruct st as [|last_emit seq|got last_emit seq|packet unsent last_emit seq|r|];
    cbn [fs_turn taken_by fs_sent_by].
  - rewrite !app_nil_r. destruct Hacc as [-> ->].
    destruct started, watching; simpl; try done; by exists [], [].
  - rewrite !app_nil_r. destruct Hacc as (Hlast & Hsnt & Hseq).
    destruct (CancellationToken.is_cancelled _ _); [by eexists _, []; rewrite app_nil_r|].
    destruct (try_recv inputs control_port w) as [[[?|]|e] w1]; simpl; [done..|].
    by eexists _, []; rewrite app_nil_r.
  - rewrite !app_nil_r. destruct Hacc as (Hlast & Hsnt & Hseq).
    destruct event as [now paths| |]; rewrite ?app_nil_r; [|done..].
    destruct (fs_reported_snoc (debounce node) tk now paths) as [Hp Hl].
    rewrite <- Hlast in Hp, Hl. destruct (within_debounce _ _ _); cbn [fst].
    + rewrite app_nil_r in Hp. simpl. rewrite Hp, Hl. done.
    + by eapply next_path_accounts; [done|done|done|].
  - rewrite app_nil_r. destruct Hacc as (Hlast & done & path & Hpaths & Hsnt & Hseq & Hp).
    destruct (poll_send _ _ _ _ _) as [[[?|e]|] w1]; cbn [fst]; rewrite ?app_nil_r.
    + apply (next_path_accounts _ _ _ _ (done ++ [path])); [|done| |].
      * by rewrite Hpaths, <- app_assoc.
      * by apply change_packets_snoc.
      * rewrite length_app. simpl. lia.
    + by exists done, (path :: unsent).
    + split; [done|]. by exists done, path.
  - by rewrite !app_nil_r.
  - by rewrite !app_nil_r.
Qed.

Lemma reported_debounced d last events : debounced d last events (concat (reported d last events).*2).
Proof.
  revert last. induction events as [|[now paths] events IH]; intros last; simpl; [constructor|].
  destruct last as [t|]; [|by constructor]. simpl. destruct (N.ltb_spec (now - t) d).
  - apply deb_dropped; [lia|apply IH].
  - apply deb_later; [lia|]. apply IH.
Qed.

Lemma make_packet_report ctx path i packet :
  make_packet ctx changes_port (path_lossy_bytes path) (N.of_nat i) = Ok packet →
  change_report ctx i path packet.
Proof.
  unfold make_packet. destruct (identifier_new _) as [id|] eqn:Hid; [|done].
  apply identifier_new_ok in Hid as [Hid _]. intros [= <-]. by split.
Qed.

Lemma change_packets_report ctx k paths packets :
  change_packets ctx (N.of_nat k) paths = Some packets → change_reports ctx k paths packets.
Proof.
  revert k packets. induction paths as [|path paths IH]; intros k packets; simpl; [by intros [= <-]|].
  destruct (make_packet _ _ _ _) as [packet|] eqn:Hp; [|done].
  replace (N.of_nat k + 1)%N with (N.of_nat (k + 1)) by lia.
  destruct (change_packets _ _ paths) as [ps|] eqn:Hps; [|done]. intros [= <-].
  split; [by apply make_packet_report|by apply IH].
Qed.

(** What the accounts of the control state say of the events taken and the packets sent. *)
Lemma fs_accounts_reports node ctx st tk snt :
  fs_accounts node ctx st tk snt →
  ∃ kept reported pending, debounced (debounce node) None tk kept
    ∧ kept = reported ++ pending ∧ change_reports ctx 0 reported snt
    ∧ match st with FsLoop _ _ | FsDrain _ _ _ | FsFinished (Ok _) => pending = [] | _ => True end.
Proof.
  pose proof (reported_debounced (debounce node) None tk) as Hd. fold (reported_paths (debounce node) tk) in Hd.
  intros Hacc. exists (reported_paths (debounce node) tk).
  assert (∃ reported pending, reported_paths (debounce node) tk = reported ++ pending
    ∧ change_packets ctx 0 reported = Some snt
    ∧ match st with FsLoop _ _ | FsDrain _ _ _ | FsFinished (Ok _) => pending = [] | _ => True end)
    as (reported & pending & Hp & Hc & Hst).
  { destruct st as [|last seq|got last seq|packet unsent last seq|[[]|e]|]; simpl in Hacc.
    - destruct Hacc as [-> ->]. by exists [], [].
    - destruct Hacc as (_ & Hc & _). eexists _, []. by rewrite app_nil_r.
    - destruct Hacc as (_ & Hc & _). eexists _, []. by rewrite app_nil_r.
    - destruct Hacc as (_ & done & path & Hp & Hc & _). by exists done, (path :: unsent).
    - eexists _, []. by rewrite app_nil_r.
    - destruct Hacc as (done & unsent & Hp & Hc). by exists done, unsent.
    - destruct Hacc as (done & unsent & Hp & Hc). by exists done, unsent. }
  exists reported, pending. split_and!; [done|done| |done]. by apply (change_packets_report ctx 0).
Qed.

(** *** Running turns, for examples *)

Fixpoint fs_turns (node : FsWatcherNode) (ctx : NodeContext) (inputs : PortsIn)
    (outputs : PortsOut) (events : list fs_event) (R : fs_run) : fs_run :=
  match events with
  | [] => R
  | event :: events =>
      let '(mk_fs_run st w tk snt) := R in
      let r := fs_turn node ctx inputs outputs (Ok tt) (Ok tt) event st w in
      fs_turns node ctx inputs outputs events
        (mk_fs_run r.1 r.2 (tk ++ taken_by event st) (snt ++ fs_sent_by ctx outputs st w))
  end.

Lemma fs_turns_steps node ctx inputs outputs events R :
  rtc (fs_step node ctx inputs outputs) R (fs_turns node ctx inputs outputs events R).
Proof.
  revert R. induction events as [|event events IH]; intros [st w tk snt]; [done|].
  eapply rtc_l; [|apply IH]. eapply fs_step_turn. apply surjective_pairing.
Qed.

(** ** Property *)

End watcher.

(** ** Examples *)

Section examples.
#[local] Instance byte_path : FsPath := {| fs_path := list byte; path_lossy_bytes := id |}.

Let node : FsWatcherNode := fs_node_new [x2f].
Let ctx : NodeContext :=
  NodeContext.mk (ident "flow") (ident "watcher")
    (ExecutionMetadata.first_attempt (ident "run-1")) (CancellationToken.mk 0).
Let inputs : PortsIn := mk_ports_in [ident "control"] [mk_input (ident "control") [0]] true None.
Let outputs : PortsOut :=
  mk_ports_out [ident "changes"] [mk_output (ident "changes") [1]] true None None.
(** Nothing on the control port, room for two packets on the output. *)
Let start : world (S := list MetadataRecord) :=
  mk_world [mk_view [] 0 1 true true; mk_view [] 0 2 true true] [] [None].
(** Two files change a nanosecond apart, and a third later. *)
Let events : list fs_event :=
  [FsEmpty; FsEmpty; FsEvent 0 [[x61]]; FsEmpty; FsEvent 1 [[x62]];
   FsEvent (debounce node) [[x63]]; FsEmpty; FsDisconnected].
Let ended : fs_run := fs_turns node ctx inputs outputs events (mk_fs_run FsBegin start [] []).


(** A change of another file a nanosecond after a reported one is never reported. *)
Example other_file_within_interval_dropped :
  (MessageEnvelope.payload <$> fs_sent (fs_turns node ctx inputs outputs
     [FsEmpty; FsEmpty; FsEvent 0 [[x61]]; FsEmpty; FsEvent 1 [[x62]]; FsDisconnected]
     (mk_fs_run FsBegin start [] []))) = [PacketPayload.Bytes [x61]].
Proof. reflexivity. Qed.

(** A control port whose senders are gone ends the node with an error. *)
Example control_disconnect_fails :
  let w := mk_world [mk_view [] 0 1 false true; mk_view [] 0 2 true true] [] [None] in
  ∃ e, (fs_turn node ctx inputs outputs (Ok tt) (Ok tt) FsEmpty (FsLoop None 0)
          (w : world (S := list MetadataRecord))).1 = FsFinished (Err e).
Proof. eexists. reflexivity. Qed.
End examples.
