(* ===== verification/CliNode.v ===== *)
(** [pureflow-cli], the nodes of a command line run
    (src/crates/pureflow-cli/src/main.rs).

    A native node of the command line drains its input ports one after the other and
    then sends one packet from each of its output ports.  Its run is a state machine
    over its suspension points, the receive and the send, as for the rule node
    (RuleNode.v).  The executors of a workflow are built from its topology. *)

From Stdlib Require Import Lia Strings.Byte.
From stdpp Require Import relations.
From S2P Require Import Prelude RustStr BTree Types Workflow Errors Json Context Message Metadata MetadataSink Channel Ports PortsSpec Wiring Engine EngineRun.

(** ** Executors *)

Module CliNativeExecutor.
Record CliNativeExecutor : Set := new {
  input_ports : list PortId;
  output_routes : btree_map PortId (list MessageEndpoint);
}.
End CliNativeExecutor.
Notation CliNativeExecutor := CliNativeExecutor.CliNativeExecutor.

(** The loop over the edges. *)
Definition add_route (routes : btree_map NodeId (btree_map PortId (list MessageEndpoint)))
    (edge : EdgeDefinition) : btree_map NodeId (btree_map PortId (list MessageEndpoint)) :=
  let source := EdgeDefinition.source edge in
  let target := EdgeDefinition.target edge in
  BTreeMap.entry_update (EdgeEndpoint.node_id source) []
    (BTreeMap.entry_update (EdgeEndpoint.port_id source) []
       (λ targets, targets ++ [MessageEndpoint.new (EdgeEndpoint.node_id target)
                                 (EdgeEndpoint.port_id target)])) routes.

(** The routes of a node, with no target for a port without edges. *)
Definition output_routes_for (routes : btree_map NodeId (btree_map PortId (list MessageEndpoint)))
    (node : NodeDefinition) : btree_map PortId (list MessageEndpoint) :=
  foldl (λ output_routes output_port,
           let targets :=
             match BTreeMap.get (NodeDefinition.id node) routes with
             | Some routes => default [] (BTreeMap.get output_port routes)
             | None => []
             end in
           BTreeMap.insert output_port targets output_routes)
    [] (NodeDefinition.output_ports node).

Definition native_registry_for_workflow (workflow : WorkflowDefinition) :
    StaticNodeExecutorRegistry CliNativeExecutor :=
  let routes_by_node := foldl add_route [] (WorkflowDefinition.edges workflow) in
  StaticNodeExecutorRegistry.new
    (foldl (λ executors node,
              BTreeMap.insert (NodeDefinition.id node)
                (CliNativeExecutor.new (NodeDefinition.input_ports node)
                   (output_routes_for routes_by_node node)) executors)
       [] (WorkflowDefinition.nodes workflow)).

(** ** The run *)

Section run.
Context `{J : JsonNumber} {S : Type} `{!MetadataSink S} `{M : !Mpsc PortPacket}.

(** [format!(..).into_bytes()]. *)
Definition text_bytes (text : rstr) : list byte :=
  (λ n, default x00 (of_N n)) <$> utf8 text.

Definition cli_message_id (ctx : NodeContext) (output_port : PortId) (output_index : nat) : rstr :=
  lit "cli-" ++ as_str (NodeContext.node_id ctx) ++ lit "-" ++ as_str output_port ++ lit "-"
  ++ show_nat output_index.

Definition cli_payload (ctx : NodeContext) (output_port : PortId) (received_count : N) : PacketPayload :=
  PacketPayload.Bytes (text_bytes
    (lit "cli-native node=" ++ as_str (NodeContext.node_id ctx) ++ lit " output="
     ++ as_str output_port ++ lit " received=" ++ show_N received_count)).

(** The packet of [send_cli_output_packet]. *)
Definition cli_output_packet (ctx : NodeContext) (output_port : PortId)
    (targets : list MessageEndpoint) (output_index : nat) (received_count : N) :
    result PortPacket PureflowError :=
  let target := default (MessageEndpoint.new (NodeContext.node_id ctx) output_port) (head targets) in
  let source := MessageEndpoint.new (NodeContext.node_id ctx) output_port in
  let route := MessageRoute.new (Some source) target in
  let? message_id := map_err PureflowError.from_identifier
    (identifier_new (cli_message_id ctx output_port output_index)) in
  Ok (MessageEnvelope.new
        (MessageMetadata.new message_id (NodeContext.workflow_id ctx)
           (NodeContext.execution ctx) route)
        (cli_payload ctx output_port received_count)).

(** The loop over the input ports, with the packets received on the ports before and
    on this one; the loop over the output ports, with the ports still to come. *)
Inductive cli_state : Type :=
| CliHead (input_port : PortId) (input_ports : list PortId) (received_count port_count : N)
| CliReceiving (input_port : PortId) (input_ports : list PortId) (received_count port_count : N)
| CliSending (output_port : PortId) (packet : PortPacket)
    (routes : list (nat * (PortId * list MessageEndpoint))) (received_count : N)
| CliFinished (r : result unit PureflowError).

(** The next iteration of the loop over the output ports. *)
Definition next_output (ctx : NodeContext) (routes : list (nat * (PortId * list MessageEndpoint)))
    (received_count : N) : cli_state :=
  match routes with
  | [] => CliFinished (Ok tt)
  | (output_index, (output_port, targets)) :: routes =>
      match cli_output_packet ctx output_port targets output_index received_count with
      | Err e => CliFinished (Err e)
      | Ok packet => CliSending output_port packet routes received_count
      end
  end.

(** The next iteration of the loop over the input ports. *)
Definition next_input (executor : CliNativeExecutor) (ctx : NodeContext)
    (input_ports : list PortId) (received_count : N) : cli_state :=
  match input_ports with
  | input_port :: input_ports => CliHead input_port input_ports received_count 0
  | [] => next_output ctx (enumerate (CliNativeExecutor.output_routes executor)) received_count
  end.

Definition cli_begin (executor : CliNativeExecutor) (ctx : NodeContext) : cli_state :=
  next_input executor ctx (CliNativeExecutor.input_ports executor) 0.

(** A poll of the receive in the loop of [drain_cli_input_port]. *)
Definition drain_cli_input_port (executor : CliNativeExecutor) (ctx : NodeContext)
    (inputs : PortsIn) (cx_cancelled : bool) (input_port : PortId) (input_ports : list PortId)
    (received_count port_count : N) (w : world (S := S)) : cli_state * world (S := S) :=
  let (r, w) := poll_recv inputs input_port (NodeContext.cancellation_token ctx) cx_cancelled w in
  match r with
  | Pending => (CliReceiving input_port input_ports received_count port_count, w)
  | Ready (Ok (Some _)) =>
      (CliHead input_port input_ports received_count (usize_saturating_add port_count 1), w)
  | Ready (Ok None) | Ready (Err (PortRecvError.Disconnected _)) =>
      (next_input executor ctx input_ports (usize_saturating_add received_count port_count), w)
  | Ready (Err e) => (CliFinished (Err (PureflowError.from_port_recv e)), w)
  end.

(** A poll of the send of [send_cli_output_packet]. *)
Definition send_cli_output_packet (ctx : NodeContext) (outputs : PortsOut) (output_port : PortId)
    (packet : PortPacket) (routes : list (nat * (PortId * list MessageEndpoint)))
    (received_count : N) (w : world (S := S)) : cli_state * world (S := S) :=
  let (r, w) := poll_send outputs output_port packet (NodeContext.cancellation_token ctx) w in
  match r with
  | Pending => (CliSending output_port packet routes received_count, w)
  | Ready (Ok _) => (next_output ctx routes received_count, w)
  | Ready (Err e) => (CliFinished (Err (PureflowError.from_port_send e)), w)
  end.

Definition cli_turn (executor : CliNativeExecutor) (ctx : NodeContext) (inputs : PortsIn)
    (outputs : PortsOut) (cx_cancelled : bool) (st : cli_state) (w : world (S := S)) :
    cli_state * world (S := S) :=
  match st with
  | CliHead input_port input_ports received_count port_count =>
      (CliReceiving input_port input_ports received_count port_count,
       start_recv inputs input_port w)
  | CliReceiving input_port input_ports received_count port_count =>
      drain_cli_input_port executor ctx inputs cx_cancelled input_port input_ports received_count
        port_count w
  | CliSending output_port packet routes received_count =>
      send_cli_output_packet ctx outputs output_port packet routes received_count w
  | CliFinished r => (CliFinished r, w)
  end.

(** ** Specification *)

Definition cli_received_by (ctx : NodeContext) (inputs : PortsIn) (cx_cancelled : bool)
    (st : cli_state) (w : world (S := S)) : list PortPacket :=
  match st with
  | CliReceiving input_port _ _ _ =>
      match (poll_recv inputs input_port (NodeContext.cancellation_token ctx) cx_cancelled w).1 with
      | Ready (Ok (Some packet)) => [packet]
      | _ => []
      end
  | _ => []
  end.

Definition cli_sent_by (ctx : NodeContext) (outputs : PortsOut) (st : cli_state)
    (w : world (S := S)) : list (PortId * PortPacket) :=
  match st with
  | CliSending output_port packet _ _ =>
      match (poll_send outputs output_port packet (NodeContext.cancellation_token ctx) w).1 with
      | Ready (Ok _) => [(output_port, packet)]
      | _ => []
      end
  | _ => []
  end.

(** The input port that a turn finds to have ended: it has no edges, or nothing is
    queued and all its senders are gone. *)
Definition cli_ended_by (ctx : NodeContext) (inputs : PortsIn) (cx_cancelled : bool)
    (st : cli_state) (w : world (S := S)) : list PortId :=
  match st with
  | CliReceiving input_port _ _ _ =>
      match (poll_recv inputs input_port (NodeContext.cancellation_token ctx) cx_cancelled w).1 with
      | Ready (Ok None) | Ready (Err (PortRecvError.Disconnected _)) => [input_port]
      | _ => []
      end
  | _ => []
  end.

Record cli_run : Type := mk_cli_run {
  cli_at : cli_state;
  cli_world : world (S := S);
  cli_ended : list PortId;
  cli_received : list PortPacket;
  cli_sent : list (PortId * PortPacket);
}.

Definition cli_run_turn (executor : CliNativeExecutor) (ctx : NodeContext) (inputs : PortsIn)
    (outputs : PortsOut) (cx_cancelled : bool) (R : cli_run) : cli_run :=
  let '(mk_cli_run st w ended rcv snt) := R in
  let r := cli_turn executor ctx inputs outputs cx_cancelled st w in
  mk_cli_run r.1 r.2 (ended ++ cli_ended_by ctx inputs cx_cancelled st w)
    (rcv ++ cli_received_by ctx inputs cx_cancelled st w) (snt ++ cli_sent_by ctx outputs st w).

(** A turn of the node, or anything the rest of the system does. *)
Inductive cli_step (executor : CliNativeExecutor) (ctx : NodeContext) (inputs : PortsIn)
    (outputs : PortsOut) : cli_run → cli_run → Prop :=
| cli_step_turn cx_cancelled R :
    cli_step executor ctx inputs outputs R
      (cli_run_turn executor ctx inputs outputs cx_cancelled R)
| cli_step_environment st w ended rcv snt w' :
    cli_step executor ctx inputs outputs (mk_cli_run st w ended rcv snt)
      (mk_cli_run st w' ended rcv snt).

(** The count the node keeps of [n] packets. *)
Definition count_of (n : nat) : N := N.min (N.of_nat n) USIZE_MAX.

(** The packets of some of the output ports, when [n] packets were received. *)
Definition route_packets (ctx : NodeContext) (n : nat)
    (routes : list (nat * (PortId * list MessageEndpoint))) :
    result (list (PortId * PortPacket)) PureflowError :=
  try_collect (λ route,
    let? packet := cli_output_packet ctx route.2.1 route.2.2 route.1 (count_of n) in
    Ok (route.2.1, packet)) routes.

(** How the packets sent relate to the output ports and to the number received. *)
Definition cli_accounts (executor : CliNativeExecutor) (ctx : NodeContext) (st : cli_state)
    (rcv : list PortPacket) (snt : list (PortId * PortPacket)) : Prop :=
  let routes := enumerate (CliNativeExecutor.output_routes executor) in
  match st with
  | CliHead _ _ before here | CliReceiving _ _ before here =>
      snt = [] ∧ ∃ n m, length rcv = n + m ∧ before = count_of n ∧ here = count_of m
  | CliSending port packet rest count =>
      ∃ done route, routes = done ++ route :: rest ∧ route.2.1 = port
        ∧ count = count_of (length rcv)
        ∧ cli_output_packet ctx port route.2.2 route.1 count = Ok packet
        ∧ route_packets ctx (length rcv) done = Ok snt
  | CliFinished (Ok _) => route_packets ctx (length rcv) routes = Ok snt
  | CliFinished (Err _) =>
      ∃ done rest, routes = done ++ rest ∧ route_packets ctx (length rcv) done = Ok snt
  end.

(** The packet that an output port is sent: its identifier names the node, the port and
    the position of the port; it goes to the first target of the port, or to the port
    itself; and its bytes report the number of packets received, at most the largest
    [usize]. *)
Record native_report (ctx : NodeContext) (received : nat)
    (route : nat * (PortId * list MessageEndpoint)) (sent : PortId * PortPacket) : Prop := {
  rep_port : sent.1 = route.2.1;
  rep_id : as_str (MessageMetadata.message_id (MessageEnvelope.metadata sent.2))
    = lit "cli-" ++ as_str (NodeContext.node_id ctx) ++ lit "-" ++ as_str sent.1 ++ lit "-"
      ++ show_nat route.1;
  rep_workflow : MessageMetadata.workflow_id (MessageEnvelope.metadata sent.2)
    = NodeContext.workflow_id ctx;
  rep_execution : MessageMetadata.execution (MessageEnvelope.metadata sent.2)
    = NodeContext.execution ctx;
  rep_source : MessageRoute.source (MessageMetadata.route (MessageEnvelope.metadata sent.2))
    = Some (MessageEndpoint.new (NodeContext.node_id ctx) sent.1);
  rep_target : MessageRoute.target (MessageMetadata.route (MessageEnvelope.metadata sent.2))
    = match route.2.2 with
      | target :: _ => target
      | [] => MessageEndpoint.new (NodeContext.node_id ctx) sent.1
      end;
  rep_payload : MessageEnvelope.payload sent.2
    = PacketPayload.Bytes (text_bytes
        (lit "cli-native node=" ++ as_str (NodeContext.node_id ctx) ++ lit " output="
         ++ as_str sent.1 ++ lit " received=" ++ show_N (N.min (N.of_nat received) (2 ^ 64 - 1))));
}.

(** How the ports that have ended relate to the loop over the input ports. *)
Definition cli_progress (executor : CliNativeExecutor) (st : cli_state) (ended : list PortId)
    (snt : list (PortId * PortPacket)) : Prop :=
  let ins := CliNativeExecutor.input_ports executor in
  match st with
  | CliHead p ps _ _ | CliReceiving p ps _ _ => ins = ended ++ p :: ps
  | CliSending _ _ _ _ | CliFinished (Ok _) => ended = ins
  | CliFinished (Err _) => ∃ later, ins = ended ++ later ∧ (snt ≠ [] → later = [])
  end.

(** ** Lemmas *)

Lemma cli_output_packet_report ctx i port targets n packet :
  cli_output_packet ctx port targets i (count_of n) = Ok packet →
  native_report ctx n (i, (port, targets)) (port, packet).
Proof.
  unfold cli_output_packet. destruct (identifier_new _) as [id|] eqn:Hid; [|done].
  apply identifier_new_ok in Hid as [Hid _]. intros [= <-].
  split; simpl; try done. by destruct targets.
Qed.

Lemma route_packets_reports ctx n routes snt :
  route_packets ctx n routes = Ok snt → Forall2 (native_report ctx n) routes snt.
Proof.
  unfold route_packets. intros Ht%try_collect_ok. eapply Forall2_impl; [exact Ht|].
  intros [i [port targets]] pp Hp. cbn [fst snd] in Hp.
  destruct (cli_output_packet _ _ _ _ _) as [packet|] eqn:Hpk; [|done]. injection Hp as <-.
  by apply cli_output_packet_report.
Qed.

Lemma next_input_progress executor ctx ports count ended :
  CliNativeExecutor.input_ports executor = ended ++ ports →
  cli_progress executor (next_input executor ctx ports count) ended [].
Proof.
  intros Hi. destruct ports as [|p ports]; [|exact Hi]. rewrite app_nil_r in Hi. simpl.
  unfold next_output. destruct (enumerate _) as [|[i [q targets]] routes]; [done|].
  destruct (cli_output_packet _ _ _ _ _); [done|]. exists []. by rewrite app_nil_r.
Qed.

Lemma next_output_progress executor ctx routes count ended snt :
  ended = CliNativeExecutor.input_ports executor →
  cli_progress executor (next_output ctx routes count) ended snt.
Proof.
  intros ->. unfold next_output. destruct routes as [|[i [q targets]] routes]; [done|].
  destruct (cli_output_packet _ _ _ _ _); [done|]. exists []. by rewrite app_nil_r.
Qed.

Lemma cli_turn_progress executor ctx inputs outputs cx st w ended rcv snt :
  cli_accounts executor ctx st rcv snt → cli_progress executor st ended snt →
  cli_progress executor (cli_turn executor ctx inputs outputs cx st w).1
    (ended ++ cli_ended_by ctx inputs cx st w) (snt ++ cli_sent_by ctx outputs st w).
Proof.
  intros Hacc Hp. destruct st as [port ports before here|port ports before here|port packet rest count|r];
    cbn [cli_turn cli_ended_by cli_sent_by]; unfold drain_cli_input_port, send_cli_output_packet;
    rewrite ?app_nil_r; [done| | |done].
  - destruct Hacc as (-> & _). simpl in Hp.
    assert (Hnext : ∀ count, cli_progress executor (next_input executor ctx ports count)
      (ended ++ [port]) []) by (intros count; apply next_input_progress; by rewrite <- app_assoc).
    destruct (poll_recv _ _ _ _ _) as [[[[packet|]|[]]|] w1]; cbn [fst]; rewrite ?app_nil_r;
      try done; by exists (port :: ports).
  - simpl in Hp. destruct (poll_send _ _ _ _ _) as [[[[]|e]|] w1]; cbn [fst].
    + by apply next_output_progress.
    + exists []. by rewrite app_nil_r.
    + done.
Qed.

Lemma usize_saturating_count n m : usize_saturating_add (count_of n) (count_of m) = count_of (n + m).
Proof. unfold usize_saturating_add, count_of. lia. Qed.

Lemma usize_saturating_next n : usize_saturating_add (count_of n) 1 = count_of (n + 1).
Proof. unfold usize_saturating_add, count_of. unfold USIZE_MAX. lia. Qed.

Lemma route_packets_snoc ctx n done route packet snt :
  route_packets ctx n done = Ok snt →
  cli_output_packet ctx route.2.1 route.2.2 route.1 (count_of n) = Ok packet →
  route_packets ctx n (done ++ [route]) = Ok (snt ++ [(route.2.1, packet)]).
Proof.
  unfold route_packets. intros Hd Hp. revert snt Hd.
  induction done as [|r done IH]; intros snt; simpl.
  - intros [= <-]. by rewrite Hp.
  - destruct (cli_output_packet ctx r.2.1 r.2.2 r.1 (count_of n)) as [x|]; simpl; [|done].
    destruct (try_collect _ done) as [xs|] eqn:Hxs; simpl; [|done].
    intros [= <-]. by rewrite (IH xs).
Qed.

Lemma next_output_accounts executor ctx done rest rcv snt :
  enumerate (CliNativeExecutor.output_routes executor) = done ++ rest →
  route_packets ctx (length rcv) done = Ok snt →
  cli_accounts executor ctx (next_output ctx rest (count_of (length rcv))) rcv snt.
Proof.
  intros Hr Hs. destruct rest as [|[i [port targets]] rest]; simpl.
  - by rewrite Hr, app_nil_r.
  - destruct (cli_output_packet _ _ _ _ _) as [packet|e] eqn:Hp; [|by exists done, ((i, (port, targets)) :: rest)].
    by exists done, (i, (port, targets)).
Qed.

Lemma next_input_accounts executor ctx ports rcv :
  cli_accounts executor ctx (next_input executor ctx ports (count_of (length rcv))) rcv [].
Proof.
  destruct ports as [|port ports]; simpl.
  - by apply (next_output_accounts executor ctx []).
  - split; [done|]. exists (length rcv), 0. split_and!; [lia|done|done].
Qed.

Lemma cli_turn_accounts executor ctx inputs outputs cx st w rcv snt :
  cli_accounts executor ctx st rcv snt →
  cli_accounts executor ctx (cli_turn executor ctx inputs outputs cx st w).1
    (rcv ++ cli_received_by ctx inputs cx st w) (snt ++ cli_sent_by ctx outputs st w).
Proof.
  intros Hacc. destruct st as [port ports before here|port ports before here|port packet rest count|r];
    cbn [cli_turn cli_received_by cli_sent_by]; unfold drain_cli_input_port, send_cli_output_packet;
    rewrite ?app_nil_r; [done| | |done].
  - destruct Hacc as (-> & n & m & Hlen & -> & ->).
    assert (Hnext : cli_accounts executor ctx
      (next_input executor ctx ports (usize_saturating_add (count_of n) (count_of m))) rcv []).
    { rewrite usize_saturating_count, <- Hlen. apply next_input_accounts. }
    destruct (poll_recv _ _ _ _ _) as [[[[packet|]|[]]|] w1]; cbn [fst]; rewrite ?app_nil_r;
      try done; try by exists [], (enumerate (CliNativeExecutor.output_routes executor)).
    + split; [done|]. exists n, (m + 1). rewrite length_app, usize_saturating_next. simpl.
      split_and!; [lia|done|done].
    + split; [done|]. by exists n, m.
  - destruct Hacc as (done & route & Hroutes & <- & -> & Hp & Hs).
    destruct (poll_send _ _ _ _ _) as [[[[]|e]|] w1]; cbn [fst]; rewrite ?app_nil_r.
    + apply (next_output_accounts executor ctx (done ++ [route])); [by rewrite <- app_assoc|].
      by apply route_packets_snoc.
    + by exists done, (route :: rest).
    + by exists done, route.
Qed.

(** What holds between any two turns. *)
Definition cli_inv (executor : CliNativeExecutor) (ctx : NodeContext) (R : cli_run) : Prop :=
  cli_accounts executor ctx (cli_at R) (cli_received R) (cli_sent R)
  ∧ cli_progress executor (cli_at R) (cli_ended R) (cli_sent R).

Lemma cli_step_inv executor ctx inputs outputs R R' :
  cli_step executor ctx inputs outputs R R' → cli_inv executor ctx R → cli_inv executor ctx R'.
Proof.
  destruct 1 as [cx [st w ended rcv snt]|]; [|done]. intros [Hacc Hp].
  split; [by apply cli_turn_accounts|by eapply cli_turn_progress].
Qed.

(** ** Property *)

(** C39. Whatever the rest of the system does between the turns of a native node of the
    command line: it receives from its input ports one after the other, and goes on to
    the next when the receive has found the port to have ended; it sends nothing before
    the last port has; then it sends one packet from each output port, in order, which
    names the node and the port and reports how many packets were received (up to the
    largest [usize]); and when it returns [Ok], every input port has ended and every
    output port has been sent its packet. *)
Theorem cli_native_node_reports (executor : CliNativeExecutor) (ctx : NodeContext)
  (inputs : PortsIn) (outputs : PortsOut) (w : world (S := S)) (R : cli_run)
  (Hrun : rtc (cli_step executor ctx inputs outputs)
            (mk_cli_run (cli_begin executor ctx) w [] [] []) R) :
  let ins := CliNativeExecutor.input_ports executor in
  let routes := enumerate (CliNativeExecutor.output_routes executor) in
  (∃ later, ins = cli_ended R ++ later)
  ∧ (cli_sent R ≠ [] ∨ cli_at R = CliFinished (Ok tt) → cli_ended R = ins)
  ∧ ∃ done rest, routes = done ++ rest
      ∧ Forall2 (native_report ctx (length (cli_received R))) done (cli_sent R)
      ∧ (cli_at R = CliFinished (Ok tt) → rest = []).
Proof.
  assert (Hinv : cli_inv executor ctx R).
  { assert (Hstart : cli_inv executor ctx (mk_cli_run (cli_begin executor ctx) w [] [] [])).
    { split; [apply (next_input_accounts executor ctx _ [])|by apply next_input_progress]. }
    clear -Hrun Hstart. induction Hrun; eauto using cli_step_inv. }
  destruct R as [st w' ended rcv snt], Hinv as [Hacc Hp]. simpl in *.
  destruct st as [p ps before here|p ps before here|p packet rest count|[[]|e]].
  1,2: destruct Hacc as (-> & _); split_and!;
    [by exists (p :: ps)|intros [|]; done|exists [], (enumerate (CliNativeExecutor.output_routes executor));
      split_and!; [done|constructor|done]].
  - destruct Hacc as (done & route & Hr & _ & _ & _ & Hs%route_packets_reports). simpl in Hp.
    split_and!; [exists []; by rewrite app_nil_r, Hp|done|by exists done, (route :: rest)].
  - apply route_packets_reports in Hacc. simpl in Hp.
    split_and!; [exists []; by rewrite app_nil_r, Hp|done|].
    eexists _, []. rewrite app_nil_r. by split_and!.
  - destruct Hacc as (done & rest & Hr & Hs%route_packets_reports), Hp as (later & Hi & Hl).
    split_and!; [by exists later| |by exists done, rest].
    intros [Hne|]; [|done]. rewrite Hi, (Hl Hne), app_nil_r. done.
Qed.
End run.

(** ** The executors of a workflow *)

(** The targets of a port, in the order of the edges. *)
Definition targets_of (edges : list EdgeDefinition) (node_id : NodeId) (port_id : PortId) :
    list MessageEndpoint :=
  (λ e, MessageEndpoint.new (EdgeEndpoint.node_id (EdgeDefinition.target e))
          (EdgeEndpoint.port_id (EdgeDefinition.target e)))
  <$> filter (λ e, EdgeDefinition.source e = EdgeEndpoint.new node_id port_id) edges.

(** The executor of a node. *)
Definition native_executor_of (workflow : WorkflowDefinition) (node : NodeDefinition) :
    CliNativeExecutor :=
  CliNativeExecutor.new (NodeDefinition.input_ports node)
    (BTreeMap.collect
       ((λ p, (p, targets_of (WorkflowDefinition.edges workflow) (NodeDefinition.id node) p))
          <$> NodeDefinition.output_ports node)).

Lemma foldl_insert_collect {A V} {K} `{RustOrd K} (k : A → K) (v : A → V) (l : list A) :
  foldl (λ m x, BTreeMap.insert (k x) (v x) m) [] l = BTreeMap.collect ((λ x, (k x, v x)) <$> l).
Proof.
  unfold BTreeMap.collect. generalize (@nil (K * V)). induction l as [|x l IH]; intros m; [done|].
  apply IH.
Qed.

Lemma routes_of_edges edges n p :
  match BTreeMap.get n (foldl add_route [] edges) with
  | Some routes => default [] (BTreeMap.get p routes)
  | None => []
  end = targets_of edges n p.
Proof.
  induction edges as [|e edges IH] using rev_ind; [done|].
  unfold targets_of in *. rewrite foldl_snoc, filter_app, fmap_app. unfold add_route at 1. cbv zeta.
  rewrite BTreeMap.get_entry_update.
  destruct e as [[sn sp] [tn tp] cap]. simpl.
  destruct (decide (n = sn)) as [->|Hn].
  - rewrite BTreeMap.get_entry_update. destruct (decide (p = sp)) as [->|Hp].
    + rewrite filter_cons_True by done. simpl. f_equal. rewrite <- IH.
      by destruct (BTreeMap.get sn (foldl add_route [] edges)).
    + rewrite filter_cons_False by (simpl; congruence). simpl. rewrite app_nil_r, <- IH.
      by destruct (BTreeMap.get sn (foldl add_route [] edges)).
  - rewrite filter_cons_False by (simpl; congruence). simpl. by rewrite app_nil_r, <- IH.
Qed.

(** The registry has the executor of every node, and no other. *)
Lemma native_registry_spec workflow node_id executor :
  NoDup (NodeDefinition.id <$> WorkflowDefinition.nodes workflow) →
  BTreeMap.get node_id (StaticNodeExecutorRegistry.executors (native_registry_for_workflow workflow))
    = Some executor
  ↔ ∃ node, node ∈ WorkflowDefinition.nodes workflow ∧ NodeDefinition.id node = node_id
      ∧ executor = native_executor_of workflow node.
Proof.
  intros Hnd. unfold native_registry_for_workflow. simpl.
  rewrite (foldl_insert_collect NodeDefinition.id (λ node, CliNativeExecutor.new _ (output_routes_for _ node))).
  rewrite BTreeMap.get_collect; [|by rewrite <- list_fmap_compose].
  assert (He : ∀ node, CliNativeExecutor.new (NodeDefinition.input_ports node)
    (output_routes_for (foldl add_route [] (WorkflowDefinition.edges workflow)) node)
    = native_executor_of workflow node).
  { intros node. unfold native_executor_of, output_routes_for. f_equal.
    rewrite (foldl_insert_collect (λ p, p)
      (λ p, match BTreeMap.get (NodeDefinition.id node)
              (foldl add_route [] (WorkflowDefinition.edges workflow)) with
            | Some routes => default [] (BTreeMap.get p routes)
            | None => []
            end)).
    f_equal. apply list_fmap_ext. intros _ p _. f_equal. apply routes_of_edges. }
  rewrite list_elem_of_fmap. setoid_rewrite He. naive_solver.
Qed.

(** ** Examples *)

Section examples.
Let executor : CliNativeExecutor :=
  CliNativeExecutor.new [ident "in"]
    [(ident "out", [MessageEndpoint.new (ident "sink") (ident "in")])].
Let ctx : NodeContext :=
  NodeContext.mk (ident "flow") (ident "middle")
    (ExecutionMetadata.first_attempt (ident "cli-run-1")) (CancellationToken.mk 0).
Let packet : PortPacket :=
  MessageEnvelope.new
    (MessageMetadata.new (ident "m1") (ident "flow")
       (ExecutionMetadata.first_attempt (ident "cli-run-1"))
       (MessageRoute.new None (MessageEndpoint.new (ident "middle") (ident "in"))))
    (PacketPayload.Control Value.Null).
Let inputs : PortsIn := mk_ports_in [ident "in"] [mk_input (ident "in") [0]] true None.
Let outputs : PortsOut := mk_ports_out [ident "out"] [mk_output (ident "out") [1]] true None None.
(** One packet waits on the input, whose senders are gone. *)
Let start : world (S := list MetadataRecord) :=
  mk_world [mk_view [packet] 0 1 false true; mk_view [] 0 1 true true] [] [None].
Let R (n : nat) : cli_run :=
  Nat.iter n (cli_run_turn executor ctx inputs outputs false)
    (mk_cli_run (cli_begin executor ctx) start [] [] []).

Lemma cli_native_node_reports_witness :
  cli_at (R 5) = CliFinished (Ok tt)
  ∧ (MessageEnvelope.payload ∘ snd <$> cli_sent (R 5))
    = [PacketPayload.Bytes (text_bytes (lit "cli-native node=middle output=out received=1"))]
  ∧ cli_ended (R 5) = [ident "in"].
Proof.
  split; [reflexivity|]. split; [reflexivity|].
  apply (cli_native_node_reports executor ctx inputs outputs start (R 5)).
  - unfold R. do 5 (eapply rtc_r; [|apply cli_step_turn]). apply rtc_refl.
  - right. reflexivity.
Defined.

(** A node whose identifier is valid but long can not send: the identifier of its
    message is too long. *)
Example long_node_id_cannot_send :
  let text := replicate 250 97%N in
  match identifier_new (kind := IdentifierKind.Node) text with
  | Ok node_id =>
      let ctx := NodeContext.mk (ident "flow") node_id
                   (ExecutionMetadata.first_attempt (ident "cli-run-1")) (CancellationToken.mk 0) in
      is_ok (cli_output_packet ctx (ident "out") [] 0 0) = false
  | Err _ => False
  end.
Proof. vm_compute. reflexivity. Qed.
End examples.
