(* ===== verification/Cli.v ===== *)
(** [pureflow-cli], the commands that read a workflow
    (src/crates/pureflow-cli/src/main.rs): errors, loading by file extension,
    [validate], [validate-manifest] and [inspect], and the choice of the tracing
    filter.

    Paths are valid UTF-8 texts with the Unix conventions of [std::path].  The text
    formats, the file system and the JSON encoder are parameters. *)

From Stdlib Require Import Lia Strings.Byte.
From S2P Require Import Prelude RustStr BTree Types Workflow Validation Capability Errors Contract Json Context Message Metadata Rules Format Introspection RuleNode Wasm.

(** ** Paths *)

(** Segments that are no component of a path, from the end of the path: empty ones
    and [.], except a leading [.]. *)
Fixpoint trim_segments (segments : list rstr) : list rstr :=
  match segments with
  | segment :: ((_ :: _) as rest) =>
      if decide (segment = [] ∨ segment = lit ".") then trim_segments rest
      else segments
  | _ => segments
  end.

(** The components of a path, last one first; the root of an absolute path is the
    empty text. *)
Definition rev_components (path : rstr) : list rstr :=
  trim_segments (reverse (split_on SLASH path)).

(** [Path::parent]. *)
Definition path_parent (path : rstr) : option rstr :=
  match rev_components path with
  | [] => None
  | [segment] => if vec_is_empty segment then None else Some []
  | _ :: segments =>
      let segments := trim_segments segments in
      Some (if decide (segments = [[]]) then [SLASH] else join [SLASH] (reverse segments))
  end.

(** [Path::file_name]. *)
Definition path_file_name (path : rstr) : option rstr :=
  match rev_components path with
  | [] => None
  | segment :: _ =>
      if decide (segment = [] ∨ segment = lit "." ∨ segment = lit "..") then None
      else Some segment
  end.

(** The text before and after the last [.]. *)
Fixpoint rsplit_dot (s : rstr) : option (rstr * rstr) :=
  match s with
  | [] => None
  | c :: s =>
      match rsplit_dot s with
      | Some (before, after) => Some (c :: before, after)
      | None => if N.eqb c 46 then Some ([], s) else None
      end
  end.

(** [path.extension().and_then(|ext| ext.to_str())]. *)
Definition path_extension (path : rstr) : option rstr :=
  match path_file_name path with
  | None => None
  | Some name =>
      match rsplit_dot name with
      | Some (_ :: _, extension) => Some extension
      | _ => None
      end
  end.

Example extension_of_path : path_extension (lit "dir.d/./flow.prod.toml/") = Some (lit "toml").
Proof. reflexivity. Qed.
Example extension_of_hidden_file : path_extension (lit "dir/.yaml") = None.
Proof. reflexivity. Qed.
Example parent_of_path :
  path_parent (lit "a//b/./c.json") = Some (lit "a//b") ∧ path_parent (lit "/c") = Some (lit "/")
  ∧ path_parent (lit "c") = Some [] ∧ path_parent (lit "/") = None.
Proof. repeat split. Qed.

(** ** Libraries *)

Record RawWasmComponentSpec : Set := mk_raw_spec {
  raw_node : rstr;
  raw_component : rstr;
  raw_fuel : option N;
}.

Module CliWasmComponentSpec.
Record CliWasmComponentSpec : Set := mk {
  node_id : NodeId;
  component_path : rstr;
  limits : WasmtimeExecutionLimits;
}.
End CliWasmComponentSpec.
Notation CliWasmComponentSpec := CliWasmComponentSpec.CliWasmComponentSpec.

(** [serde_json::to_string_pretty], and the derived decoder of
    [RawWasmComponentManifest], with the texts of their errors. *)
Class CliSerde `{J : JsonNumber} := {
  to_string_pretty : Value → result rstr rstr;
  manifest_from_str : rstr → result (list RawWasmComponentSpec) rstr;
}.

(** [tracing_subscriber::filter::Targets], with [from_str]. *)
Class TracingTargets := {
  targets : Set;
  targets_from_str : rstr → result targets rstr;
}.

Section commands.
Context `{J : JsonNumber} `{!FloatDisplay}.
Context {JD JE TD TE YD YE : Set}
  `{FJ : !TextFormat JD JE} `{FT : !TextFormat TD TE} `{FY : !TextFormat YD YE}.
Context `{RS : !RuleSetSerde} `{FS : !FileSystem} `{CS : !CliSerde}.

(** ** Errors *)

Inductive CliError : Set :=
| CliIo (action path source : rstr)
| CliWorkflowJson (source : WorkflowJsonError (DecodeError := JD) (EncodeError := JE))
| CliWorkflowToml (source : WorkflowTomlError (DecodeError := TD))
| CliWorkflowYaml (source : WorkflowYamlError (DecodeError := YD))
| CliWorkflowFormat (message : rstr)
| CliContract (source : ContractValidationError)
| CliCapability (source : CapabilityValidationError)
| CliIntrospectionJson (source : rstr)
| CliRuntime (source : PureflowError)
| CliTracing (message : rstr)
| CliWasmManifest (message : rstr)
| CliWasmManifestJson (path source : rstr).

Definition exit_code (e : CliError) : Z := 1.

Definition cli_error_fmt (e : CliError) : rstr :=
  match e with
  | CliIo action path source =>
      lit "failed to " ++ action ++ lit " `" ++ path ++ lit "`: " ++ source
  | CliWorkflowJson source => Format.json_error_fmt source
  | CliWorkflowToml source => toml_error_fmt (EncodeError := TE) source
  | CliWorkflowYaml source => yaml_error_fmt (EncodeError := YE) source
  | CliWorkflowFormat message | CliTracing message => message
  | CliContract source =>
      lit "workflow contract validation failed: " ++ ContractValidationError.fmt source
  | CliCapability source =>
      lit "workflow capability validation failed: " ++ CapabilityValidationError.fmt source
  | CliIntrospectionJson source =>
      lit "failed to encode workflow introspection JSON: " ++ source
  | CliRuntime source => PureflowError.fmt source
  | CliWasmManifest message => lit "invalid WASM component manifest: " ++ message
  | CliWasmManifestJson path source =>
      lit "failed to decode WASM component manifest `" ++ path ++ lit "`: " ++ source
  end.

Notation CliResult A := (result A CliError).

Definition from_identifier_error (e : IdentifierError) : CliError :=
  CliRuntime (PureflowError.from_identifier e).

(** ** Loading *)

Definition unsupported_extension (extension : rstr) : CliError :=
  CliWorkflowFormat (lit "unsupported workflow file extension `." ++ extension
    ++ lit "`; supported: .json, .toml, .yaml, .yml").

(** What the [match] on the extension distinguishes. *)
Inductive workflow_syntax : Set := JsonSyntax | TomlSyntax | YamlSyntax | UnknownSyntax (ext : rstr).
Definition syntax_of (path : rstr) : workflow_syntax :=
  match path_extension path with
  | None => JsonSyntax
  | Some ext =>
      if decide (ext = lit "toml") then TomlSyntax
      else if decide (ext = lit "yaml" ∨ ext = lit "yml") then YamlSyntax
      else if decide (ext = lit "json") then JsonSyntax
      else UnknownSyntax ext
  end.

Definition cli_load_workflow (input path : rstr) : exec (CliResult WorkflowDefinition) :=
  match syntax_of path with
  | TomlSyntax =>
      exec_map_err CliWorkflowToml (workflow_from_toml_str (EncodeError := TE) input)
  | YamlSyntax =>
      exec_map_err CliWorkflowYaml (workflow_from_yaml_str (EncodeError := YE) input)
  | JsonSyntax => exec_map_err CliWorkflowJson (workflow_from_json_str input)
  | UnknownSyntax ext => Done (Err (unsupported_extension ext))
  end.

Definition raw_workflow (input path : rstr) : CliResult RawWorkflowDefinition :=
  match syntax_of path with
  | TomlSyntax =>
      map_err CliWorkflowToml (raw_workflow_from_toml_str (EncodeError := TE) input)
  | YamlSyntax =>
      map_err CliWorkflowYaml (raw_workflow_from_yaml_str (EncodeError := YE) input)
  | JsonSyntax => map_err CliWorkflowJson (raw_workflow_from_json_str input)
  | UnknownSyntax ext => Err (unsupported_extension ext)
  end.

Definition load_workflow_with_rules (input path : rstr) : exec (CliResult LoadedWorkflow) :=
  let!? raw := pure (raw_workflow input path) in
  let base_dir :=
    match path_parent path with
    | Some ((_ :: _) as parent) => parent
    | _ => lit "."
    end in
  let registry := SourceRegistry.with_base_dir base_dir in
  exec_map_err (λ source, CliWorkflowFormat (WorkflowFormatError.fmt source))
    (Format.load_workflow registry raw).

(** ** [validate] *)

Definition count_nodes (workflow : WorkflowDefinition) : rstr :=
  show_nat (length (WorkflowDefinition.nodes workflow)).
Definition count_edges (workflow : WorkflowDefinition) : rstr :=
  show_nat (length (WorkflowDefinition.edges workflow)).
Definition NL : rstr := [10%N].

Definition validate_workflow_json (input path : rstr) : exec (CliResult rstr) :=
  let!? workflow := cli_load_workflow input path in
  Done (Ok (lit "valid workflow `" ++ as_str (WorkflowDefinition.id workflow) ++ lit "`" ++ NL
            ++ lit "nodes: " ++ count_nodes workflow ++ NL
            ++ lit "edges: " ++ count_edges workflow ++ NL)).

(** ** Component manifests *)

Definition resolve_manifest_component_path (manifest_dir component : rstr) : rstr :=
  if is_absolute component then component else path_join manifest_dir component.

Definition component_spec (manifest_dir : rstr) (raw : RawWasmComponentSpec) :
    CliResult CliWasmComponentSpec :=
  let? node_id := map_err from_identifier_error (identifier_new (raw_node raw)) in
  let component_path := resolve_manifest_component_path manifest_dir (raw_component raw) in
  let limits :=
    match raw_fuel raw with
    | None => WasmtimeExecutionLimits.default
    | Some fuel => WasmtimeExecutionLimits.new fuel
    end in
  Ok (CliWasmComponentSpec.mk node_id component_path limits).

Definition wasm_component_specs_from_manifest (input manifest_path : rstr) :
    CliResult (list CliWasmComponentSpec) :=
  let? components := map_err (CliWasmManifestJson manifest_path) (manifest_from_str input) in
  let manifest_dir := default [] (path_parent manifest_path) in
  try_collect (component_spec manifest_dir) components.

(** The loop that rejects repeated nodes. *)
Fixpoint reject_repeated_nodes (seen_nodes : list NodeId) (specs : list CliWasmComponentSpec) :
    CliResult unit :=
  match specs with
  | [] => Ok tt
  | spec :: specs =>
      let node_id := CliWasmComponentSpec.node_id spec in
      if BTreeSet.contains node_id seen_nodes then
        Err (CliWasmManifest (lit "duplicate component entry for node `" ++ as_str node_id
               ++ lit "`"))
      else reject_repeated_nodes (BTreeSet.insert node_id seen_nodes) specs
  end.

Definition validate_wasm_component_manifest (manifest_input manifest_path : rstr)
    (workflow_input : option rstr) (path_exists : rstr → bool) : exec (CliResult rstr) :=
  let!? specs := pure (wasm_component_specs_from_manifest manifest_input manifest_path) in
  let!? _ := pure (reject_repeated_nodes [] specs) in
  let!? _ := pure (try_for_each (λ spec,
    if path_exists (CliWasmComponentSpec.component_path spec) then Ok tt
    else Err (CliWasmManifest (lit "component path `" ++ CliWasmComponentSpec.component_path spec
                ++ lit "` for node `" ++ as_str (CliWasmComponentSpec.node_id spec)
                ++ lit "` is not readable"))) specs) in
  let valid := lit "valid manifest `" ++ manifest_path ++ lit "`" ++ NL
               ++ lit "components: " ++ show_nat (length specs) ++ NL in
  match workflow_input with
  | None => Done (Ok valid)
  | Some input =>
      let!? workflow := exec_map_err CliWorkflowJson (workflow_from_json_str input) in
      let workflow_nodes :=
        BTreeSet.collect (NodeDefinition.id <$> WorkflowDefinition.nodes workflow) in
      let!? _ := pure (try_for_each (λ spec,
        if BTreeSet.contains (CliWasmComponentSpec.node_id spec) workflow_nodes then Ok tt
        else Err (CliWasmManifest
                    (lit "manifest node `" ++ as_str (CliWasmComponentSpec.node_id spec)
                     ++ lit "` does not exist in workflow `"
                     ++ as_str (WorkflowDefinition.id workflow) ++ lit "`"))) specs) in
      Done (Ok (valid ++ lit "workflow: `" ++ as_str (WorkflowDefinition.id workflow)
                ++ lit "`" ++ NL))
  end.

(** ** [inspect] *)

Definition passive_native_contract_for_node (node : NodeDefinition) : CliResult NodeContract :=
  let ports :=
    ((λ p, PortContract.new p PortDirection.Input None) <$> NodeDefinition.input_ports node)
    ++ ((λ p, PortContract.new p PortDirection.Output None) <$> NodeDefinition.output_ports node) in
  map_err CliContract
    (NodeContract.new (NodeDefinition.id node) ports ExecutionMode.Native Determinism.Unknown
       RetryDisposition.Unknown).

Definition passive_native_capabilities_for_node (node : NodeDefinition) :
    CliResult NodeCapabilities :=
  let ports :=
    ((λ p, PortCapability.new p PortCapabilityDirection.Receive) <$> NodeDefinition.input_ports node)
    ++ ((λ p, PortCapability.new p PortCapabilityDirection.Emit)
          <$> NodeDefinition.output_ports node) in
  map_err CliCapability (NodeCapabilities.native_passive (NodeDefinition.id node) ports).

Definition passive_native_contracts_for_workflow (workflow : WorkflowDefinition) :
    CliResult (list NodeContract * list NodeCapabilities) :=
  let? contracts :=
    try_collect passive_native_contract_for_node (WorkflowDefinition.nodes workflow) in
  let? capabilities :=
    try_collect passive_native_capabilities_for_node (WorkflowDefinition.nodes workflow) in
  Ok (contracts, capabilities).

(** [workflow_introspection_to_json_string], and [?] on its error. *)
Definition introspection_to_json_string (view : WorkflowIntrospection) : CliResult rstr :=
  map_err CliIntrospectionJson (to_string_pretty (workflow_introspection_to_json_value view)).

Definition inspect_workflow_json (input path : rstr) : exec (CliResult rstr) :=
  let!? workflow := cli_load_workflow input path in
  let!? passive := pure (passive_native_contracts_for_workflow workflow) in
  let!? view := pure (map_err CliContract (introspect_workflow workflow passive.1 passive.2)) in
  let!? output := pure (introspection_to_json_string view) in
  Done (Ok (output ++ NL)).

(** ** Tracing *)

Definition PUREFLOW_TRACE_ENV : rstr := lit "PUREFLOW_TRACE".
Definition LEGACY_CONDUIT_TRACE_ENV : rstr := lit "CONDUIT_TRACE".
Definition RUST_LOG_ENV : rstr := lit "RUST_LOG".

Definition tracing_value_disables_output (value : rstr) : bool :=
  bool_decide (to_ascii_lowercase value ∈ [[]; lit "0"; lit "false"; lit "off"]).
Definition tracing_value_uses_default_filter (value : rstr) : bool :=
  bool_decide (to_ascii_lowercase value ∈ [lit "1"; lit "true"; lit "yes"]).

Definition tracing_targets_from_value `{!TracingTargets} (env_name value : rstr) :
    CliResult (option targets) :=
  let trimmed := trim value in
  if tracing_value_disables_output trimmed then Ok None
  else
    let filter := if tracing_value_uses_default_filter trimmed then lit "info" else trimmed in
    let? parsed := map_err (λ source,
      CliTracing (env_name ++ lit " has invalid tracing filter `" ++ value ++ lit "`: " ++ source))
      (targets_from_str filter) in
    Ok (Some parsed).

Definition tracing_targets_from_env `{!TracingTargets} (read_env : rstr → option rstr) :
    CliResult (option targets) :=
  match read_env PUREFLOW_TRACE_ENV with
  | Some value => tracing_targets_from_value PUREFLOW_TRACE_ENV value
  | None =>
      match read_env LEGACY_CONDUIT_TRACE_ENV with
      | Some value => tracing_targets_from_value LEGACY_CONDUIT_TRACE_ENV value
      | None =>
          match read_env RUST_LOG_ENV with
          | Some value => tracing_targets_from_value RUST_LOG_ENV value
          | None => Ok None
          end
      end
  end.
End commands.

(** ** Examples *)

Section examples.
#[local] Instance text_targets : TracingTargets := {| targets := rstr; targets_from_str := Ok |}.
Notation E := (CliError (JD := rstr) (JE := rstr) (TD := rstr) (YD := rstr)).
Let read_env (pureflow : string) (name : rstr) : option rstr :=
  if decide (name = PUREFLOW_TRACE_ENV) then Some (lit pureflow)
  else if decide (name = RUST_LOG_ENV) then Some (lit "debug") else None.

(** The first variable that is set decides, also when it disables tracing. *)
Example tracing_disabled :
  tracing_targets_from_env (read_env " OFF ") = Ok (E := E) None.
Proof. reflexivity. Qed.
Example tracing_default : tracing_targets_from_env (read_env "Yes") = Ok (E := E) (Some (lit "info")).
Proof. reflexivity. Qed.
End examples.
