(* ===== verification/CliExplain.v ===== *)
(** [pureflow-cli], the [explain] command
    (src/crates/pureflow-cli/src/main.rs): the text that describes a workflow and the
    routing of its rule sets.  Writing to a [String] does not fail. *)

From S2P Require Import Prelude RustStr BTree Types Workflow Json Context Message Metadata Rules Format IntrospectRules Cli.

(** [writeln!]. *)
Definition line (text : rstr) : rstr := text ++ NL.
Definition DASH : rstr := lit " " ++ [8212%N] ++ lit " ".
Definition ARROW : rstr := lit " " ++ [8594%N] ++ lit " ".

Definition strategy_label (strategy : EvaluationStrategy) : rstr :=
  match strategy with
  | EvaluationStrategy.FirstMatch => lit "first-match"
  | EvaluationStrategy.AllMatches => lit "all-matches"
  | EvaluationStrategy.Score => lit "score"
  end.

Definition surface_label (surfaces : ConditionSurfaceSummary) : rstr :=
  let parts :=
    (if ConditionSurfaceSummary.payload surfaces then [lit "payload"] else [])
    ++ (if ConditionSurfaceSummary.tag surfaces then [lit "tag"] else [])
    ++ (if ConditionSurfaceSummary.provenance surfaces then [lit "provenance"] else [])
    ++ (if ConditionSurfaceSummary.execution_context surfaces then [lit "execution"] else []) in
  let parts := if vec_is_empty parts then [lit "constant"] else parts in
  join (lit "+") parts.

Definition unreachable_reason_label (reason : UnreachableReason) : rstr :=
  match reason with
  | UnreachableReason.ConditionIsNever => lit "condition is never true"
  | UnreachableReason.ShadowedByAlways shadowing_rule_id =>
      lit "shadowed by always-matching rule `" ++ shadowing_rule_id ++ lit "`"
  | UnreachableReason.ExactFieldEqSubsumed shadowing_rule_id =>
      lit "duplicate condition already covered by rule `" ++ shadowing_rule_id ++ lit "`"
  end.

Section explain.
Context `{J : JsonNumber} `{!FloatDisplay}.
Context {JD JE TD TE YD YE : Set}
  `{FJ : !TextFormat JD JE} `{FT : !TextFormat TD TE} `{FY : !TextFormat YD YE}.
Context `{RS : !RuleSetSerde} `{FS : !FileSystem}.

Fixpoint format_condition (condition : Condition) : rstr :=
  match condition with
  | Condition.FieldEq path value => FieldPath.path path ++ lit " == " ++ ScalarValue.fmt value
  | Condition.FieldNeq path value => FieldPath.path path ++ lit " != " ++ ScalarValue.fmt value
  | Condition.FieldGt path value => FieldPath.path path ++ lit " > " ++ ScalarValue.fmt value
  | Condition.FieldLt path value => FieldPath.path path ++ lit " < " ++ ScalarValue.fmt value
  | Condition.FieldGte path value => FieldPath.path path ++ lit " >= " ++ ScalarValue.fmt value
  | Condition.FieldLte path value => FieldPath.path path ++ lit " <= " ++ ScalarValue.fmt value
  | Condition.FieldIn path values =>
      FieldPath.path path ++ lit " in [" ++ join (lit ", ") (ScalarValue.fmt <$> values) ++ lit "]"
  | Condition.FieldExists path => FieldPath.path path ++ lit " exists"
  | Condition.FieldAbsent path => FieldPath.path path ++ lit " absent"
  | Condition.FieldMatches path pattern =>
      FieldPath.path path ++ lit " matches " ++ GlobPattern.pattern pattern
  | Condition.TagEq key value => lit "tag " ++ key ++ lit "=" ++ ScalarValue.fmt value
  | Condition.TagExists key => lit "tag " ++ key ++ lit " exists"
  | Condition.TagAbsent key => lit "tag " ++ key ++ lit " absent"
  | Condition.SourceNode node_id => lit "from source node " ++ as_str node_id
  | Condition.ArrivedOnPort port_id => lit "arrived on port " ++ as_str port_id
  | Condition.HopCountGt n => lit "hop count > " ++ show_N n
  | Condition.HopCountLte n => lit "hop count <= " ++ show_N n
  | Condition.WorkflowIs workflow_id => lit "workflow is " ++ as_str workflow_id
  | Condition.ExecutionMetadataEq key value =>
      lit "exec metadata " ++ key ++ lit "=" ++ ScalarValue.fmt value
  | Condition.And children =>
      lit "(" ++ join (lit " and ") (map format_condition children) ++ lit ")"
  | Condition.Or children =>
      lit "(" ++ join (lit " or ") (map format_condition children) ++ lit ")"
  | Condition.Not inner => lit "not (" ++ format_condition inner ++ lit ")"
  | Condition.Always => lit "always"
  | Condition.Never => lit "never"
  end.

Definition explain_rule (rule : Rule) (rule_view : RuleIntrospection) : rstr :=
  line (lit "    rule " ++ Rule.id rule ++ lit " (priority " ++ show_N (Rule.priority rule)
        ++ lit ")" ++ DASH ++ lit "if " ++ format_condition (Rule.condition rule) ++ lit " ["
        ++ surface_label (RuleIntrospection.condition_surfaces rule_view) ++ lit "]" ++ ARROW
        ++ RuleAction.fmt (Rule.action rule)).

Definition explain_rule_set (node_id : NodeId) (rule_set : RuleSet) : rstr :=
  let introspection := introspect_rule_set rule_set in
  line (lit "  node " ++ as_str node_id ++ lit ": rule set `" ++ RuleSet.id rule_set
        ++ lit "` strategy " ++ strategy_label (RuleSet.strategy rule_set))
  ++ concat (zip_with explain_rule (RuleSet.rules rule_set)
               (RuleSetIntrospection.rules introspection))
  ++ line (lit "    default" ++ ARROW ++ RuleAction.fmt (RuleSet.default_action rule_set))
  ++ concat ((λ unreachable,
       line (lit "    ! unreachable: rule " ++ UnreachableRule.rule_id unreachable ++ DASH
             ++ unreachable_reason_label (UnreachableRule.reason unreachable)))
       <$> RuleSetIntrospection.unreachable_rules introspection).

Definition explain_node (node : NodeDefinition) : rstr :=
  line (lit "  - " ++ as_str (NodeDefinition.id node) ++ lit " inputs="
        ++ show_nat (length (NodeDefinition.input_ports node)) ++ lit " outputs="
        ++ show_nat (length (NodeDefinition.output_ports node))).

Definition explain_edge (edge : EdgeDefinition) : rstr :=
  let capacity :=
    match EdgeDefinition.capacity edge with
    | EdgeCapacity.Default => lit "default"
    | EdgeCapacity.Explicit capacity => show_N (Npos capacity)
    end in
  let source := EdgeDefinition.source edge in
  let target := EdgeDefinition.target edge in
  line (lit "  - " ++ as_str (EdgeEndpoint.node_id source) ++ lit "."
        ++ as_str (EdgeEndpoint.port_id source) ++ lit " -> "
        ++ as_str (EdgeEndpoint.node_id target) ++ lit "." ++ as_str (EdgeEndpoint.port_id target)
        ++ lit " capacity=" ++ capacity).

Definition explain_loaded (loaded : LoadedWorkflow) : rstr :=
  let workflow := workflow loaded in
  line (lit "workflow `" ++ as_str (WorkflowDefinition.id workflow) ++ lit "`")
  ++ line (lit "status: valid")
  ++ line (lit "nodes: " ++ count_nodes workflow)
  ++ line (lit "edges: " ++ count_edges workflow)
  ++ line (lit "execution: native-registry")
  ++ line (lit "metadata: jsonl lifecycle, message, and queue-pressure records with tiered control-only policy")
  ++ line (lit "node order:")
  ++ concat (explain_node <$> WorkflowDefinition.nodes workflow)
  ++ line (lit "edges:")
  ++ concat (explain_edge <$> WorkflowDefinition.edges workflow)
  ++ (if vec_is_empty (rule_sets loaded) then line (lit "rule routing: none")
      else line (lit "rule routing:")
           ++ concat ((λ entry, explain_rule_set entry.1 entry.2) <$> rule_sets loaded)).

Definition explain_workflow_json (input path : rstr) :
    exec (result rstr (CliError (JD := JD) (JE := JE) (TD := TD) (YD := YD))) :=
  let!? loaded := load_workflow_with_rules (TE := TE) (YE := YE) input path in
  Done (Ok (explain_loaded loaded)).
End explain.
