(* ===== verification/CliSchema.v ===== *)
(** [pureflow-cli], the JSON schemas it prints (src/crates/pureflow-cli/src/main.rs). *)

From S2P Require Import Prelude RustStr BTree Types Workflow Errors Json Context Message Metadata Rules Format Cli.

Inductive SchemaKind : Set := WorkflowSchema | WasmManifestSchema.

Section schema.
Context `{J : JsonNumber}.
Notation str s := (Value.String (lit s)).
Notation obj := Value.object.
Notation arr := Value.Array.
Notation num := Value.of_usize.

Definition identifier_schema_json (description : rstr) : Value :=
  obj [(lit "type", str "string"); (lit "minLength", num 1); (lit "maxLength", num 256);
       (lit "pattern", str "^\S+$"); (lit "description", Value.String description)].

Definition identifier_array_schema_json (description : rstr) : Value :=
  obj [(lit "type", str "array"); (lit "description", Value.String description);
       (lit "items", identifier_schema_json (lit "Identifier value."))].

Definition edge_endpoint_schema_json (description : rstr) : Value :=
  obj [(lit "type", str "object"); (lit "additionalProperties", Value.Bool false);
       (lit "required", arr [str "node"; str "port"]);
       (lit "description", Value.String description);
       (lit "properties",
         obj [(lit "node", identifier_schema_json (lit "Referenced node identifier."));
              (lit "port", identifier_schema_json (lit "Referenced port identifier."))])].

(** The schema of an element of [nodes]. *)
Definition node_schema_json : Value :=
  obj [(lit "type", str "object"); (lit "additionalProperties", Value.Bool false);
       (lit "required", arr [str "id"; str "inputs"; str "outputs"]);
       (lit "properties",
         obj [(lit "id", identifier_schema_json (lit "Node identifier."));
              (lit "inputs", identifier_array_schema_json (lit "Declared input port identifiers."));
              (lit "outputs",
                identifier_array_schema_json (lit "Declared output port identifiers."))])].

(** The schema of an element of [edges]. *)
Definition edge_schema_json : Value :=
  obj [(lit "type", str "object"); (lit "additionalProperties", Value.Bool false);
       (lit "required", arr [str "source"; str "target"]);
       (lit "properties",
         obj [(lit "source", edge_endpoint_schema_json (lit "Upstream output endpoint."));
              (lit "target", edge_endpoint_schema_json (lit "Downstream input endpoint."));
              (lit "capacity",
                obj [(lit "type", str "integer"); (lit "minimum", num 1);
                     (lit "description",
                       str "Optional explicit bounded capacity. Omit to use the engine default.")])])].

Definition workflow_schema_json : Value :=
  obj [(lit "$schema", str "https://json-schema.org/draft/2020-12/schema");
       (lit "$id", Value.String (lit "https://pureflow.dev/schemas/workflow-v"
                     ++ CURRENT_PUREFLOW_VERSION ++ lit ".schema.json"));
       (lit "title", str "Pureflow workflow document");
       (lit "type", str "object"); (lit "additionalProperties", Value.Bool false);
       (lit "required", arr [str "pureflow_version"; str "id"; str "nodes"; str "edges"]);
       (lit "properties",
         obj [(lit "pureflow_version",
                obj [(lit "type", str "string"); (lit "const", Value.String CURRENT_PUREFLOW_VERSION);
                     (lit "description", str "Required Pureflow workflow format version.")]);
              (lit "id", identifier_schema_json (lit "Workflow identifier."));
              (lit "nodes",
                obj [(lit "type", str "array"); (lit "description", str "Declared node topology.");
                     (lit "items", node_schema_json)]);
              (lit "edges",
                obj [(lit "type", str "array"); (lit "description", str "Declared directed edges.");
                     (lit "items", edge_schema_json)])])].

Definition wasm_component_manifest_schema_json : Value :=
  obj [(lit "$schema", str "https://json-schema.org/draft/2020-12/schema");
       (lit "$id", str "https://pureflow.dev/schemas/wasm-component-manifest.schema.json");
       (lit "title", str "Pureflow WASM component manifest");
       (lit "type", str "object"); (lit "additionalProperties", Value.Bool false);
       (lit "required", arr [str "components"]);
       (lit "properties",
         obj [(lit "components",
           obj [(lit "type", str "array");
                (lit "description", str "WASM component entries keyed by workflow node.");
                (lit "items",
                  obj [(lit "type", str "object"); (lit "additionalProperties", Value.Bool false);
                       (lit "required", arr [str "node"; str "component"]);
                       (lit "properties",
                         obj [(lit "node",
                                identifier_schema_json (lit "Workflow node served by this component."));
                              (lit "component",
                                obj [(lit "type", str "string"); (lit "minLength", num 1);
                                     (lit "description",
                                       str "Path to the component file. Relative paths resolve from the manifest directory.")]);
                              (lit "fuel",
                                obj [(lit "type", str "integer"); (lit "minimum", num 0);
                                     (lit "description",
                                       str "Optional Wasmtime fuel limit. Omit to use the runtime default.")])])])])])].

Definition schema_json_string `{!CliSerde} {JD JE TD YD : Set} (kind : SchemaKind) :
    result rstr (CliError (JD := JD) (JE := JE) (TD := TD) (YD := YD)) :=
  let schema :=
    match kind with
    | WorkflowSchema => workflow_schema_json
    | WasmManifestSchema => wasm_component_manifest_schema_json
    end in
  let? output := map_err (λ source, CliRuntime (PureflowError.execution
    (lit "failed to encode JSON Schema: " ++ source))) (to_string_pretty schema) in
  Ok (output ++ NL).
End schema.
