(* ===== verification/CliRun.v ===== *)
(** [pureflow-cli], the [run] command and the choice of the command
    (src/crates/pureflow-cli/src/main.rs): the executors of a run with WASM components,
    the run itself, and what it prints.

    A run that does not end leaves the command pending ([Poll]).  Reading and writing
    files go through the functions [dispatch_command] is given; the generator of
    completion scripts is one too. *)

From Stdlib Require Import Lia Strings.Byte.
From S2P Require Import Prelude RustStr BTree Types Workflow Errors Json Context Message Metadata MetadataSink Rules Channel Ports Wiring Engine Runtime Format BatchNode EngineRun Introspection RuleNode Wasm CliNode Cli CliExplain CliSchema.

(** ** The summary as JSON *)

Definition workflow_terminal_state_label (state : WorkflowTerminalState) : rstr :=
  match state with
  | WorkflowTerminalState.Completed => lit "completed"
  | WorkflowTerminalState.Failed => lit "failed"
  | WorkflowTerminalState.Cancelled => lit "cancelled"
  end.

Definition cli_visibility_label (visibility : ErrorVisibility) : rstr :=
  match visibility with
  | ErrorVisibility.User => lit "user"
  | ErrorVisibility.Internal => lit "internal"
  end.

Definition cli_retry_label (disposition : RetryDisposition) : rstr :=
  match disposition with
  | RetryDisposition.Never => lit "never"
  | RetryDisposition.Safe => lit "safe"
  | RetryDisposition.Unknown => lit "unknown"
  end.

Definition cycle_run_policy_label (policy : CycleRunPolicy) : rstr :=
  match policy with
  | CycleRunPolicy.Reject => lit "reject"
  | CycleRunPolicy.AllowFeedbackLoops _ => lit "allow_feedback_loops"
  end.

Definition feedback_loop_startup_label (startup : FeedbackLoopRunPolicy.FeedbackLoopStartup) : rstr :=
  match startup with FeedbackLoopRunPolicy.StartAllNodes => lit "start_all_nodes" end.

Definition feedback_loop_termination_label
    (termination : FeedbackLoopRunPolicy.FeedbackLoopTermination) : rstr :=
  match termination with FeedbackLoopRunPolicy.AllNodesComplete => lit "all_nodes_complete" end.

(** [u64::try_from(duration.as_millis()).unwrap_or(u64::MAX)]. *)
Definition cli_duration_millis (duration : Duration) : N := N.min (duration / 1000000) (2 ^ 64 - 1).

Section json.
Context `{J : JsonNumber}.
Notation str := Value.String.
Notation obj := Value.object.

Definition feedback_loop_startup_value (policy : CycleRunPolicy) : Value :=
  match policy with
  | CycleRunPolicy.Reject => Value.Null
  | CycleRunPolicy.AllowFeedbackLoops feedback_loop =>
      str (feedback_loop_startup_label (FeedbackLoopRunPolicy.startup feedback_loop))
  end.

Definition feedback_loop_termination_value (policy : CycleRunPolicy) : Value :=
  match policy with
  | CycleRunPolicy.Reject => Value.Null
  | CycleRunPolicy.AllowFeedbackLoops feedback_loop =>
      str (feedback_loop_termination_label (FeedbackLoopRunPolicy.termination feedback_loop))
  end.

Definition cli_error_to_json_value (error : PureflowError) : Value :=
  obj [(lit "code", str (ErrorCode.as_str (PureflowError.code error)));
       (lit "message", str (PureflowError.fmt error));
       (lit "visibility", str (cli_visibility_label (PureflowError.visibility error)));
       (lit "retry_disposition",
         str (cli_retry_label (PureflowError.retry_disposition error)))].

Definition workflow_deadlock_diagnostic_to_json_value (d : WorkflowDeadlockDiagnostic) : Value :=
  let policy := WorkflowDeadlockDiagnostic.cycle_policy d in
  obj [(lit "workflow_id", str (as_str (WorkflowDeadlockDiagnostic.workflow_id d)));
       (lit "scheduled_node_count",
         Value.of_usize (WorkflowDeadlockDiagnostic.scheduled_node_count d));
       (lit "pending_node_count", Value.of_usize (WorkflowDeadlockDiagnostic.pending_node_count d));
       (lit "completed_node_count",
         Value.of_usize (WorkflowDeadlockDiagnostic.completed_node_count d));
       (lit "failed_node_count", Value.of_usize (WorkflowDeadlockDiagnostic.failed_node_count d));
       (lit "cancelled_node_count",
         Value.of_usize (WorkflowDeadlockDiagnostic.cancelled_node_count d));
       (lit "bounded_edge_count", Value.of_usize (WorkflowDeadlockDiagnostic.bounded_edge_count d));
       (lit "no_progress_timeout_ms",
         Value.of_usize (cli_duration_millis (WorkflowDeadlockDiagnostic.no_progress_timeout d)));
       (lit "cycle_policy", str (cycle_run_policy_label policy));
       (lit "feedback_loop_startup", feedback_loop_startup_value policy);
       (lit "feedback_loop_termination", feedback_loop_termination_value policy)].

Definition workflow_run_summary_to_json_value (s : WorkflowRunSummary) : Value :=
  obj [(lit "terminal_state",
         str (workflow_terminal_state_label (WorkflowRunSummary.terminal_state s)));
       (lit "scheduled_node_count", Value.of_usize (WorkflowRunSummary.scheduled_node_count s));
       (lit "completed_node_count", Value.of_usize (WorkflowRunSummary.completed_node_count s));
       (lit "failed_node_count", Value.of_usize (WorkflowRunSummary.failed_node_count s));
       (lit "cancelled_node_count", Value.of_usize (WorkflowRunSummary.cancelled_node_count s));
       (lit "pending_node_count", Value.of_usize (WorkflowRunSummary.pending_node_count s));
       (lit "observed_message_count", Value.of_usize (WorkflowRunSummary.observed_message_count s));
       (lit "error_count", Value.of_usize (WorkflowRunSummary.error_count s));
       (lit "first_error",
         Value.of_option cli_error_to_json_value (WorkflowRunSummary.first_error s));
       (lit "deadlock_diagnostic",
         Value.of_option workflow_deadlock_diagnostic_to_json_value
           (WorkflowRunSummary.deadlock_diagnostic s))].
End json.

(** ** The output of a run *)

Module CliRunOutput.
Record CliRunOutput : Set := mk {
  workflow_id : rstr;
  node_count : nat;
  edge_count : nat;
  metadata_jsonl : rstr;
  record_count : nat;
  summary : WorkflowRunSummary;
}.
End CliRunOutput.
Notation CliRunOutput := CliRunOutput.CliRunOutput.

(** [text.lines().count()]. *)
Definition line_count (text : rstr) : nat :=
  let lines := split_on 10 text in
  length lines - (if decide (last lines = Some []) then 1 else 0).

(** [Vec<u8>] as a writer of text: the text whose UTF-8 encoding it holds. *)
#[export] Instance vec_writer `{J : JsonNumber} `{!JsonText} : JsonlWriter rstr := {|
  to_writer := λ w v,
    match json_to_string v with
    | Ok text => (Ok tt, w ++ text)
    | Err e => (Err (json_error_fmt e), w)
    end;
  write_all := λ w text, (Ok tt, w ++ text);
|}.

(** ** Executors *)

Inductive CliNodeExecutor `{W : Wasmtime} : Set :=
| CliNative (executor : CliNativeExecutor)
| CliWasm (executor : WasmtimeBatchComponent).

Section run.
Context `{J : JsonNumber} `{!FloatDisplay} `{!JsonText} `{D : !DurationDebug}.
Context {JD JE TD TE YD YE : Set}
  `{FJ : !TextFormat JD JE} `{FT : !TextFormat TD TE} `{FY : !TextFormat YD YE}.
Context `{RS : !RuleSetSerde} `{FS : !FileSystem} `{CS : !CliSerde} `{W : !Wasmtime}
  `{M : !Mpsc PortPacket}.
Notation CliError := (CliError (JD := JD) (JE := JE) (TD := TD) (YD := YD)).
Notation CliResult A := (result A CliError).

(** The components by node; an entry that replaces another is refused. *)
Fixpoint index_components (components_by_node : btree_map NodeId CliWasmComponentSpec)
    (components : list CliWasmComponentSpec) :
    CliResult (btree_map NodeId CliWasmComponentSpec) :=
  match components with
  | [] => Ok components_by_node
  | component :: components =>
      let node_id := CliWasmComponentSpec.node_id component in
      if BTreeMap.contains_key node_id components_by_node then
        Err (CliWasmManifest (lit "duplicate WASM component entry for node `" ++ as_str node_id
               ++ lit "`"))
      else index_components (BTreeMap.insert node_id component components_by_node) components
  end.

(** One node of the loop: the component of the manifest, or the native executor. *)
Definition node_executor (native_registry : StaticNodeExecutorRegistry CliNativeExecutor)
    (read_bytes : rstr → CliResult (list byte)) (component : option CliWasmComponentSpec)
    (node_id : NodeId) : CliResult CliNodeExecutor :=
  match component with
  | Some component =>
      let? component_bytes := read_bytes (CliWasmComponentSpec.component_path component) in
      let? wasm_component := map_err CliRuntime
        (from_component_bytes_with_limits component_bytes (CliWasmComponentSpec.limits component)) in
      Ok (CliWasm wasm_component)
  | None =>
      let? native_executor := ok_or
        (BTreeMap.get node_id (StaticNodeExecutorRegistry.executors native_registry))
        (CliWasmManifest (lit "failed to construct native executor for workflow node `"
           ++ as_str node_id ++ lit "`")) in
      Ok (CliNative native_executor)
  end.

Fixpoint node_executors (native_registry : StaticNodeExecutorRegistry CliNativeExecutor)
    (read_bytes : rstr → CliResult (list byte)) (nodes : list NodeDefinition)
    (components_by_node : btree_map NodeId CliWasmComponentSpec)
    (executors : btree_map NodeId CliNodeExecutor) :
    CliResult (btree_map NodeId CliWasmComponentSpec * btree_map NodeId CliNodeExecutor) :=
  match nodes with
  | [] => Ok (components_by_node, executors)
  | node :: nodes =>
      let node_id := NodeDefinition.id node in
      let? executor := node_executor native_registry read_bytes
        (BTreeMap.get node_id components_by_node) node_id in
      node_executors native_registry read_bytes nodes
        (BTreeMap.remove node_id components_by_node) (BTreeMap.insert node_id executor executors)
  end.

Definition mixed_registry_for_workflow (workflow : WorkflowDefinition)
    (components : list CliWasmComponentSpec) (read_bytes : rstr → CliResult (list byte)) :
    CliResult (StaticNodeExecutorRegistry CliNodeExecutor) :=
  let native_registry := native_registry_for_workflow workflow in
  let? components_by_node := index_components [] components in
  let? built := node_executors native_registry read_bytes (WorkflowDefinition.nodes workflow)
    components_by_node [] in
  match BTreeMap.keys built.1 with
  | node_id :: _ =>
      Err (CliWasmManifest (lit "WASM component manifest references unknown workflow node `"
             ++ as_str node_id ++ lit "`"))
  | [] => Ok (StaticNodeExecutorRegistry.new built.2)
  end.

(** ** Runs *)

Notation CliSink := (TieredMetadataSink (JsonlMetadataSink rstr)).
Notation CliWorld := (world (S := CliSink)).
Notation steps_of E := (CancellationHandle → list (NodeRun E NoopLifecycleHook) →
  list ((CliWorld → CliWorld) * WatchdogEvent)).

(** What the runtime does: whether it starts, what the node runs do, and whether they
    have given up their references to the sink when the run has ended. *)
Record cli_runtime (E : Type) : Type := mk_cli_runtime {
  runtime_new : result unit PureflowError;
  runtime_steps : steps_of E;
  sink_released : bool;
}.

Definition start_world : CliWorld :=
  mk_world [] (TieredMetadataSink.new (JsonlMetadataSink.new [])) [].

Definition run_workflow_with_registry_json {R E : Type} `{!NodeExecutorRegistry R E}
    (runtime : cli_runtime E) (workflow : WorkflowDefinition) (registry : R) :
    exec (Poll (CliResult CliRunOutput)) :=
  match runtime_new E runtime, map_err from_identifier_error (identifier_new (lit "cli-run-1")) with
  | Err e, _ => Done (Ready (Err (CliRuntime e)))
  | Ok _, Err e => Done (Ready (Err e))
  | Ok _, Ok execution_id =>
      let execution := ExecutionMetadata.first_attempt execution_id in
      let! ended := run_workflow_with_registry_and_metadata_sink_summary
        (runtime_steps E runtime) workflow execution registry start_world in
      Done (match ended.1 with
            | Pending => Pending
            | Ready (Err e) => Ready (Err (CliRuntime e))
            | Ready (Ok summary) =>
                if sink_released E runtime then
                  let metadata_jsonl := JsonlMetadataSink.writer
                    (TieredMetadataSink.inner (w_sink ended.2)) in
                  Ready (Ok (CliRunOutput.mk (as_str (WorkflowDefinition.id workflow))
                    (length (WorkflowDefinition.nodes workflow))
                    (length (WorkflowDefinition.edges workflow))
                    metadata_jsonl (line_count metadata_jsonl) summary))
                else Ready (Err (CliRuntime (PureflowError.metadata
                       (lit "metadata sink still has active references"))))
            end)
  end.

Definition run_workflow_json (runtime : cli_runtime CliNativeExecutor) (input path : rstr) :
    exec (Poll (CliResult CliRunOutput)) :=
  let! loaded := cli_load_workflow (TE := TE) (YE := YE) input path in
  match loaded with
  | Err e => Done (Ready (Err e))
  | Ok workflow =>
      run_workflow_with_registry_json runtime workflow (native_registry_for_workflow workflow)
  end.

Definition run_workflow_json_with_wasm_components (runtime : cli_runtime CliNodeExecutor)
    (input path : rstr) (components : list CliWasmComponentSpec)
    (read_bytes : rstr → CliResult (list byte)) : exec (Poll (CliResult CliRunOutput)) :=
  let! loaded := cli_load_workflow (TE := TE) (YE := YE) input path in
  match loaded with
  | Err e => Done (Ready (Err e))
  | Ok workflow =>
      match mixed_registry_for_workflow workflow components read_bytes with
      | Err e => Done (Ready (Err e))
      | Ok registry => run_workflow_with_registry_json runtime workflow registry
      end
  end.

Definition cli_run_output_to_json_string (run : CliRunOutput) (metadata_path : rstr) :
    CliResult rstr :=
  let summary := CliRunOutput.summary run in
  let? output := map_err (λ source, CliRuntime (PureflowError.metadata
      (lit "failed to encode run summary JSON: " ++ source)))
    (to_string_pretty (Value.object
      [(lit "status", Value.String
          (workflow_terminal_state_label (WorkflowRunSummary.terminal_state summary)));
       (lit "error",
          Value.of_option cli_error_to_json_value (WorkflowRunSummary.first_error summary));
       (lit "workflow", Value.object
          [(lit "id", Value.String (CliRunOutput.workflow_id run));
           (lit "node_count", Value.of_usize (N.of_nat (CliRunOutput.node_count run)));
           (lit "edge_count", Value.of_usize (N.of_nat (CliRunOutput.edge_count run)))]);
       (lit "metadata", Value.object
          [(lit "path", Value.String metadata_path);
           (lit "record_count", Value.of_usize (N.of_nat (CliRunOutput.record_count run)))]);
       (lit "summary", workflow_run_summary_to_json_value summary)])) in
  Ok (output ++ NL).

(** The report of a run without [--json]. *)
Definition run_report (run : CliRunOutput) (metadata_path : rstr) : rstr :=
  line (lit "ran workflow `" ++ CliRunOutput.workflow_id run ++ lit "`")
  ++ line (lit "nodes: " ++ show_nat (CliRunOutput.node_count run))
  ++ line (lit "edges: " ++ show_nat (CliRunOutput.edge_count run))
  ++ line (lit "metadata: " ++ metadata_path)
  ++ line (lit "records: " ++ show_nat (CliRunOutput.record_count run)).

(** ** Commands *)

Inductive Commands : Set :=
| Validate (workflow : rstr)
| Inspect (workflow : rstr)
| Explain (workflow : rstr)
| Run (json : bool) (wasm_components : option rstr) (workflow metadata : rstr)
| ValidateManifest (workflow : option rstr) (manifest : rstr)
| Schema (schema : SchemaKind)
| Completions (shell : rstr).

(** [generate(shell, ..)] and [String::from_utf8]. *)
Variable completion_script : rstr → result rstr rstr.
Variables (native_runtime : cli_runtime CliNativeExecutor) (mixed_runtime : cli_runtime CliNodeExecutor).

(** The files, and the functions the command reads and writes them with. *)
Context {F : Type} (read : rstr → F → CliResult rstr)
  (read_bytes : rstr → F → CliResult (list byte))
  (write : rstr → rstr → F → CliResult unit * F).

(** The [Run] branch after the run has ended. *)
Definition report_run (json : bool) (metadata : rstr) (files : F) (run : CliRunOutput) :
    CliResult rstr * F :=
  let (written, files) := write metadata (CliRunOutput.metadata_jsonl run) files in
  (let? _ := written in
   if json then cli_run_output_to_json_string run metadata else Ok (run_report run metadata), files).

Definition finish_run (json : bool) (metadata : rstr) (files : F)
    (ended : exec (Poll (CliResult CliRunOutput))) : exec (Poll (CliResult rstr) * F) :=
  let! ended := ended in
  Done (match ended with
        | Pending => (Pending, files)
        | Ready (Err e) => (Ready (Err e), files)
        | Ready (Ok run) =>
            let (r, files) := report_run json metadata files run in (Ready r, files)
        end).

(** A branch that only reads. *)
Definition read_only (files : F) (r : exec (CliResult rstr)) : exec (Poll (CliResult rstr) * F) :=
  let! r := r in Done (Ready r, files).

Definition dispatch_command (cmd : Commands) (files : F) : exec (Poll (CliResult rstr) * F) :=
  match cmd with
  | Validate workflow =>
      read_only files (let!? input := pure (read workflow files) in
                       validate_workflow_json (TE := TE) (YE := YE) input workflow)
  | Inspect workflow =>
      read_only files (let!? input := pure (read workflow files) in
                       inspect_workflow_json (TE := TE) (YE := YE) input workflow)
  | Explain workflow =>
      read_only files (let!? input := pure (read workflow files) in
                       explain_workflow_json (TE := TE) (YE := YE) input workflow)
  | ValidateManifest workflow manifest =>
      read_only files
        (let!? manifest_input := pure (read manifest files) in
         let!? workflow_input := pure
           match workflow with
           | None => Ok None
           | Some workflow => let? input := read workflow files in Ok (Some input)
           end in
         validate_wasm_component_manifest manifest_input manifest workflow_input path_exists)
  | Schema schema => read_only files (pure (schema_json_string schema))
  | Completions shell =>
      read_only files (pure (map_err (λ source, CliRuntime (PureflowError.execution
        (lit "completion script was not valid UTF-8: " ++ source))) (completion_script shell)))
  | Run json wasm_components workflow metadata =>
      match read workflow files, wasm_components with
      | Err e, _ => Done (Ready (Err e), files)
      | Ok input, Some wasm_path =>
          match (let? manifest_input := read wasm_path files in
                 wasm_component_specs_from_manifest manifest_input wasm_path) with
          | Err e => Done (Ready (Err e), files)
          | Ok components =>
              finish_run json metadata files
                (run_workflow_json_with_wasm_components mixed_runtime input workflow components
                   (λ path, read_bytes path files))
          end
      | Ok input, None =>
          finish_run json metadata files (run_workflow_json native_runtime input workflow)
      end
  end.

(** [main]: the exit status, with what is printed. *)
Definition main_exit (r : CliResult rstr) : Z * rstr :=
  match r with
  | Ok output => (0%Z, output)
  | Err error => (exit_code error, line (lit "error: " ++ cli_error_fmt (TE := TE) (YE := YE) error))
  end.
End run.
