(* ===== verification/CliInspect.v ===== *)
(** What [pureflow inspect] promises (Cli.v): the contracts and descriptors it makes
    up for a workflow are accepted, so every workflow that loads is described. *)

From S2P Require Import Prelude RustStr BTree Types Workflow Structure Topology Cycle Validation Capability Errors Contract Json Context Message Metadata Rules Format FormatSpec Introspection Cli.

(** ** Specification *)

Definition capability_of (d : PortDirection) : PortCapabilityDirection :=
  match d with
  | PortDirection.Input => PortCapabilityDirection.Receive
  | PortDirection.Output => PortCapabilityDirection.Emit
  end.

Definition passive_contract (node : NodeDefinition) : NodeContract :=
  NodeContract.mk (NodeDefinition.id node)
    ((λ pd, PortContract.new pd.1 pd.2 None) <$> directed_ports node)
    ExecutionMode.Native Determinism.Unknown RetryDisposition.Unknown.
Definition passive_capabilities (node : NodeDefinition) : NodeCapabilities :=
  NodeCapabilities.mk (NodeDefinition.id node)
    ((λ pd, PortCapability.new pd.1 (capability_of pd.2)) <$> directed_ports node) [].

(** The view of a workflow of which nothing but the topology is known. *)
Definition passive_node_view (node : NodeDefinition) : NodeIntrospection :=
  NodeIntrospection.mk (NodeDefinition.id node)
    ((λ pd, PortIntrospection.mk pd.1 pd.2 None (capability_of pd.2)) <$> directed_ports node)
    ExecutionMode.Native EnforcementLevel.Advisory Determinism.Unknown RetryDisposition.Unknown [].
Definition passive_edge_view (e : EdgeDefinition) : EdgeIntrospection :=
  EdgeIntrospection.mk (EndpointIntrospection.from_endpoint (EdgeDefinition.source e))
    (EndpointIntrospection.from_endpoint (EdgeDefinition.target e))
    (EdgeDefinition.capacity e) None None.
Definition passive_view (w : WorkflowDefinition) : WorkflowIntrospection :=
  WorkflowIntrospection.mk (WorkflowDefinition.id w)
    (passive_node_view <$> WorkflowDefinition.nodes w)
    (passive_edge_view <$> WorkflowDefinition.edges w).

(** ** The contracts and descriptors *)

Lemma directed_ports_nodup node : node_wf node → NoDup (directed_ports node).*1.
Proof. unfold node_wf, directed_ports. by rewrite fmap_app, <- !list_fmap_compose, !list_fmap_id. Qed.

Lemma passive_contract_wf node : node_wf node → contract_wf (passive_contract node).
Proof.
  intros Hn. unfold contract_wf, passive_contract. simpl. rewrite <- list_fmap_compose.
  by apply directed_ports_nodup.
Qed.

Section passive.
Context {JD JE TD YD : Set}.
Notation CliError := (CliError (JD := JD) (JE := JE) (TD := TD) (YD := YD)).

Lemma passive_contract_ok node :
  node_wf node → passive_native_contract_for_node node = Ok (E := CliError) (passive_contract node).
Proof.
  intros Hn. unfold passive_native_contract_for_node. cbv zeta.
  set (ports := _ ++ _). assert (Hports : ports = NodeContract.ports (passive_contract node)).
  { unfold ports, passive_contract, directed_ports. simpl. by rewrite fmap_app, <- !list_fmap_compose. }
  pose proof (node_contract_new_spec (NodeDefinition.id node) ports ExecutionMode.Native
    Determinism.Unknown RetryDisposition.Unknown) as Hs.
  destruct (NodeContract.new _ ports _ _ _) as [c|e].
  - destruct Hs as [-> _]. unfold passive_contract. simpl in *. by rewrite Hports.
  - destruct Hs as (p & (l1 & l2 & Heq & Hp & _)%first_repeat_some & _). exfalso.
    pose proof (passive_contract_wf node Hn) as Hwf. unfold contract_wf in Hwf.
    rewrite <- Hports, Heq in Hwf. apply NoDup_app in Hwf as (_ & Hd & _).
    apply (Hd p); [done|left].
Qed.

Lemma fst_determines {A B} `{EqDecision A} (l : list (A * B)) x y y' :
  NoDup l.*1 → (x, y) ∈ l → (x, y') ∈ l → y = y'.
Proof.
  intros Hnd [i Hi]%list_elem_of_lookup [j Hj]%list_elem_of_lookup.
  assert (i = j) as ->; [|by simplify_eq].
  eapply NoDup_lookup; [exact Hnd|rewrite list_lookup_fmap, Hi; done|by rewrite list_lookup_fmap, Hj].
Qed.

Lemma passive_port_direction node p c :
  node_wf node → PortCapability.new p c ∈ NodeCapabilities.ports (passive_capabilities node) →
  ∀ d, (p, d) ∈ directed_ports node → c = capability_of d.
Proof.
  intros Hn ([q d] & [= <- ->] & Hq)%list_elem_of_fmap d' Hp.
  by rewrite (fst_determines _ p d d' (directed_ports_nodup node Hn) Hq Hp).
Qed.

Lemma passive_capabilities_ok node :
  node_wf node →
  passive_native_capabilities_for_node node = Ok (E := CliError) (passive_capabilities node).
Proof.
  intros Hn. unfold passive_native_capabilities_for_node, NodeCapabilities.native_passive. cbv zeta.
  set (ports := _ ++ _). assert (Hports : ports = NodeCapabilities.ports (passive_capabilities node)).
  { unfold ports, passive_capabilities, directed_ports. simpl. by rewrite fmap_app, <- !list_fmap_compose. }
  assert (Hnd : NoDup ports).
  { apply (NoDup_fmap_1 PortCapability.port_id). rewrite Hports. simpl. rewrite <- list_fmap_compose.
    by apply directed_ports_nodup. }
  pose proof (node_capabilities_new_spec (NodeDefinition.id node) ports []) as Hs.
  destruct (NodeCapabilities.new _ ports []) as [c|e]; simpl.
  - destruct Hs as [-> _]. unfold passive_capabilities. simpl in *. by rewrite Hports.
  - exfalso. destruct e; try done.
    + by destruct Hs as [_ [=]].
    + destruct Hs as (_ & _ & Hr).
      by rewrite (proj2 (first_repeat_none [] ports)) in Hr by (split; [done|set_solver]).
    + destruct Hs as (_ & _ & _ & [Hrecv Hemit] & _). rewrite Hports in Hrecv, Hemit.
      pose proof Hrecv as ([q d] & [= -> _] & Hq)%list_elem_of_fmap.
      pose proof (passive_port_direction node _ _ Hn Hrecv d Hq) as H1.
      pose proof (passive_port_direction node _ _ Hn Hemit d Hq) as H2. by rewrite <- H2 in H1.
Qed.

Lemma try_collect_all {A B E} (f : A → result B E) (g : A → B) l :
  (∀ x, x ∈ l → f x = Ok (g x)) → try_collect f l = Ok (g <$> l).
Proof.
  intros Hf. apply try_collect_ok, Forall2_fmap_r, Forall_Forall2_diag, Forall_forall, Hf.
Qed.

Lemma passive_contracts_ok w :
  Forall node_wf (WorkflowDefinition.nodes w) →
  passive_native_contracts_for_workflow w
  = Ok (E := CliError) (passive_contract <$> WorkflowDefinition.nodes w,
        passive_capabilities <$> WorkflowDefinition.nodes w).
Proof.
  intros Hn. rewrite Forall_forall in Hn. unfold passive_native_contracts_for_workflow.
  rewrite (try_collect_all _ passive_contract) by auto using passive_contract_ok. simpl.
  by rewrite (try_collect_all _ passive_capabilities) by auto using passive_capabilities_ok.
Qed.
End passive.

(** ** They are accepted *)

(** The element a key stands for, when the keys are distinct. *)
Lemma last_filter_key {A B K} `{EqDecision K, RustOrd K} (key : B → K) (f : A → B) (l : list A) x :
  NoDup ((key ∘ f) <$> l) → x ∈ l → last (filter (λ y, key y = key (f x)) (f <$> l)) = Some (f x).
Proof.
  intros Hnd Hx. rewrite <- BTreeMap.get_collect_last. apply BTreeMap.get_collect.
  - by rewrite <- !list_fmap_compose.
  - apply list_elem_of_fmap. exists (f x). split; [done|]. by apply list_elem_of_fmap_2.
Qed.

Section accepted.
Variable w : WorkflowDefinition.
Hypothesis Hw : workflow_wf w.
Notation contracts := (passive_contract <$> WorkflowDefinition.nodes w).
Notation capabilities := (passive_capabilities <$> WorkflowDefinition.nodes w).

Lemma passive_contract_for node :
  node ∈ WorkflowDefinition.nodes w →
  contract_for contracts (NodeDefinition.id node) = Some (passive_contract node)
  ∧ capability_for capabilities (NodeDefinition.id node) = Some (passive_capabilities node).
Proof.
  intros Hn. destruct Hw as [[Hnd _] _]. split.
  - by apply (last_filter_key NodeContract.id passive_contract).
  - by apply (last_filter_key NodeCapabilities.node_id passive_capabilities).
Qed.

Lemma passive_contract_port node p d s :
  PortContract.new p d s ∈ NodeContract.ports (passive_contract node)
  ↔ s = None ∧ p ∈ ports_of d node.
Proof.
  simpl. rewrite <- directed_ports_elem, list_elem_of_fmap. split.
  - intros ([q e] & [= -> -> ->] & Hq). done.
  - intros [-> Hp]. by exists (p, d).
Qed.

Lemma passive_contracts_valid : contracts_valid w contracts capabilities.
Proof.
  split.
  - apply Forall_fmap, Forall_forall. intros node Hn. exists node. split_and!; [done|done|].
    intros [p c] ([q d] & [= -> ->] & Hq%directed_ports_elem)%list_elem_of_fmap.
    by destruct d.
  - intros node Hn. destruct (passive_contract_for node Hn) as [Hc Hcap].
    exists (passive_contract node), (passive_capabilities node). split_and!; [done|done| |by left].
    intros p d. setoid_rewrite passive_contract_port. naive_solver.
  - intros c (node & -> & Hn)%list_elem_of_fmap. apply list_elem_of_fmap. by exists node.
  - apply Forall_forall. intros e _ cs ct ss ts Hcs _ Hs _. exfalso.
    apply last_Some_elem_of, list_elem_of_filter in Hcs as [_ (node & -> & _)%list_elem_of_fmap].
    by apply passive_contract_port in Hs as [? _].
Qed.

(** ** The description *)

Lemma passive_port_view node pd :
  node_wf node → pd ∈ directed_ports node →
  introspect_port (NodeDefinition.id node) (NodeContract.port_map (passive_contract node))
    (capability_port_map (passive_capabilities node)) pd
  = Ok (PortIntrospection.mk pd.1 pd.2 None (capability_of pd.2)).
Proof.
  destruct pd as [p d]. intros Hn Hp. unfold introspect_port.
  rewrite (proj2 (port_map_get (passive_contract node) p (PortContract.new p d None)
    (passive_contract_wf node Hn))).
  2: { split; [|done]. apply passive_contract_port. split; [done|]. by apply directed_ports_elem. }
  simpl. assert (Hclaim : port_claimed (passive_capabilities node) p).
  { unfold port_claimed. simpl. rewrite <- list_fmap_compose. apply list_elem_of_fmap. by exists (p, d). }
  apply capability_port_map_claimed in Hclaim as [[q c] Hq]. rewrite Hq. simpl.
  apply capability_port_map_get in Hq as [Hin Hid]. simpl in Hid. subst q.
  by rewrite (passive_port_direction node p c Hn Hin d Hp).
Qed.

Lemma passive_nodes_view :
  try_collect (describe_node contracts capabilities) (WorkflowDefinition.nodes w)
  = Ok (passive_node_view <$> WorkflowDefinition.nodes w).
Proof.
  apply try_collect_all. intros node Hn. destruct (passive_contract_for node Hn) as [Hc Hcap].
  rewrite (describe_node_eq _ _ node _ _ Hc Hcap). unfold introspect_node.
  destruct Hw as [_ Hwf]. rewrite Forall_forall in Hwf.
  by rewrite (try_collect_all _ (λ pd, PortIntrospection.mk pd.1 pd.2 None (capability_of pd.2)))
    by (intros pd; apply passive_port_view; by apply Hwf).
Qed.

Lemma passive_edge_schema endpoint :
  endpoint_schema endpoint (contracts_by_node contracts) = None.
Proof.
  unfold endpoint_schema. destruct (BTreeMap.get _ _) as [c|] eqn:Hc; [|done].
  unfold contracts_by_node in Hc. rewrite BTreeMap.get_collect_last in Hc.
  apply last_Some_elem_of, list_elem_of_filter in Hc as [_ (node & -> & _)%list_elem_of_fmap].
  destruct (iter_find _ _) as [[p d s]|] eqn:Hf; [|done].
  apply iter_find_elem in Hf as [Hin _]. by apply passive_contract_port in Hin as [-> _].
Qed.

Lemma passive_workflow_view : introspect_workflow w contracts capabilities = Ok (passive_view w).
Proof.
  assert (Hwf : Forall contract_wf contracts).
  { apply Forall_fmap. eapply Forall_impl; [exact (proj2 Hw)|]. apply passive_contract_wf. }
  unfold introspect_workflow.
  rewrite (proj2 (validate_workflow_contracts_ok w contracts capabilities Hw Hwf)
             passive_contracts_valid).
  simpl. pose proof passive_nodes_view as Hn. unfold describe_node, contracts_by_node in Hn.
  rewrite Hn. simpl. unfold passive_view. do 2 f_equal. apply list_fmap_ext. intros _ e _.
  unfold introspect_edge, passive_edge_view. fold (contracts_by_node contracts).
  by rewrite !passive_edge_schema.
Qed.
End accepted.

(** ** Property *)

Section properties.
Context `{J : JsonNumber} {JD JE TD TE YD YE : Set}
  `{FJ : !TextFormat JD JE} `{FT : !TextFormat TD TE} `{FY : !TextFormat YD YE} `{CS : !CliSerde}.

(** A workflow that loads, whatever its format, is one the program can hold. *)
Lemma load_workflow_valid input path w :
  cli_load_workflow (TE := TE) (YE := YE) input path = Done (Ok w) → valid_workflow w.
Proof.
  unfold cli_load_workflow. destruct (syntax_of path); [..|done];
    intros (raw & _ & [_ Hw]%exec_map_err_ok%to_workflow_ok)%exec_map_err_ok%exec_try_ok; exact Hw.
Qed.

Lemma valid_workflow_wf w : valid_workflow w → workflow_wf w.
Proof.
  intros Hw. split; [apply Hw|]. eapply Forall_impl; [exact (vw_nodes _ Hw)|].
  intros node Hn. apply (vn_distinct _ Hn).
Qed.

(** C29. [pureflow inspect] describes every workflow that loads: the contracts and
    capability descriptors it makes up are accepted for any workflow, and what it
    prints is the JSON text of the view with every node, port and edge of the
    workflow, native, advisory and without schemas; it fails only where loading or
    the JSON encoder does. *)
Theorem inspect_describes_every_workflow (input path : rstr) (w : WorkflowDefinition)
  (Hload : cli_load_workflow (TE := TE) (YE := YE) input path = Done (Ok w)) :
  inspect_workflow_json (TE := TE) (YE := YE) input path
  = Done (let? output := introspection_to_json_string (passive_view w) in Ok (output ++ NL)).
Proof.
  pose proof (valid_workflow_wf w (load_workflow_valid input path w Hload)) as Hw.
  unfold inspect_workflow_json. rewrite Hload. simpl.
  rewrite passive_contracts_ok by apply Hw. simpl. rewrite passive_workflow_view by done. simpl.
  by destruct (introspection_to_json_string _).
Qed.
End properties.

(** ** Examples *)

Section examples.
#[local] Existing Instance literal_number.

(** A parser that reads one document. *)
#[local] Instance sample_format : TextFormat rstr rstr := {
  decode_document _ := Ok sample_raw;
  decode_error_text e := e;
  encode_document _ := Err (lit "read only");
  encode_error_text e := e;
}.
(** An encoder that prints the identifier of the workflow. *)
#[local] Instance id_serde : CliSerde := {
  to_string_pretty v :=
    match Value.get v (lit "workflow_id") with
    | Some (Value.String id) => Ok id
    | _ => Err (lit "no id")
    end;
  manifest_from_str _ := Err (lit "no manifest");
}.

Lemma inspect_describes_every_workflow_witness :
  inspect_workflow_json (JD := rstr) (TD := rstr) (TE := rstr) (YD := rstr) (YE := rstr)
    (lit "document") (lit "flow.toml")
  = Done (Ok (lit "flow" ++ NL)).
Proof.
  exact (inspect_describes_every_workflow (lit "document") (lit "flow.toml") sample_workflow
           (eq_refl (Done (Ok sample_workflow)))).
Defined.
End examples.
