(* ===== verification/CliRunSpec.v ===== *)
(** What [pureflow run] promises (CliRun.v): a manifest that [validate-manifest]
    accepts for a workflow gives every node an executor, and what the command reports
    of a run. *)

From Stdlib Require Import Lia Strings.Byte.
From S2P Require Import Prelude RustStr BTree Types Workflow Structure Topology Cycle Validation Capability Errors Json Context Message Metadata MetadataSink Rules Channel Ports Wiring Engine Runtime Format FormatSpec BatchNode EngineRun RuleNode Wasm CliNode Cli CliExplain CliSchema CliRun CliInspect.

Section manifest.
Context `{J : JsonNumber} `{!FloatDisplay} `{!JsonText}.
Context {JD JE TD TE YD YE : Set}
  `{FJ : !TextFormat JD JE} `{FT : !TextFormat TD TE} `{FY : !TextFormat YD YE}.
Context `{CS : !CliSerde} `{W : !Wasmtime}.
Notation CliError := (CliError (JD := JD) (JE := JE) (TD := TD) (YD := YD)).
Notation CliResult A := (result A CliError).
Notation spec_node := CliWasmComponentSpec.node_id.
Implicit Types (specs : list CliWasmComponentSpec) (read_bytes : rstr → CliResult (list byte)).

(** ** Specification *)

(** The executor a manifest entry stands for. *)
Definition component_executor read_bytes (spec : CliWasmComponentSpec) : CliResult CliNodeExecutor :=
  let? bytes := read_bytes (CliWasmComponentSpec.component_path spec) in
  let? component := map_err CliRuntime
    (from_component_bytes_with_limits bytes (CliWasmComponentSpec.limits spec)) in
  Ok (CliWasm component).

(** The executor of a node: of its manifest entry, or native. *)
Definition executor_given read_bytes (workflow : WorkflowDefinition) specs (node : NodeDefinition) :
    CliResult CliNodeExecutor :=
  match iter_find (λ spec, bool_decide (spec_node spec = NodeDefinition.id node)) specs with
  | Some spec => component_executor read_bytes spec
  | None => Ok (CliNative (native_executor_of workflow node))
  end.

(** ** Manifests *)

Lemma reject_repeated_nodes_ok seen specs u :
  reject_repeated_nodes seen specs = Ok (E := CliError) u ↔
  NoDup (spec_node <$> specs) ∧ ∀ spec, spec ∈ specs → spec_node spec ∉ seen.
Proof.
  revert seen. induction specs as [|spec specs IH]; intros seen; simpl.
  - destruct u. split; [|done]. intros _. split; [constructor|set_solver].
  - destruct (BTreeSet.contains _ _) eqn:Hc.
    + apply BTreeSet.contains_true in Hc. split; [done|]. intros [_ Hs].
      by destruct (Hs spec ltac:(left)).
    + apply BTreeSet.contains_false in Hc. rewrite IH, NoDup_cons.
      setoid_rewrite BTreeSet.elem_of_insert. setoid_rewrite elem_of_cons.
      setoid_rewrite list_elem_of_fmap. naive_solver.
Qed.

Lemma index_components_ok specs m :
  NoDup (spec_node <$> specs) → (∀ spec, spec ∈ specs → spec_node spec ∉ BTreeMap.keys m) →
  ∃ m', index_components m specs = Ok (E := CliError) m'
    ∧ ∀ k, BTreeMap.get k m'
           = match iter_find (λ spec, bool_decide (spec_node spec = k)) specs with
             | Some spec => Some spec
             | None => BTreeMap.get k m
             end.
Proof.
  revert m. induction specs as [|spec specs IH]; intros m; [by exists m|].
  intros [Hs Hnd]%NoDup_cons Hfresh. simpl.
  destruct (BTreeMap.contains_key (spec_node spec) m) eqn:Hc.
  { apply BTreeMap.contains_key_true, BTreeMap.get_Some_keys in Hc.
    by destruct (Hfresh spec ltac:(left)). }
  destruct (IH (BTreeMap.insert (spec_node spec) spec m) Hnd) as (m' & -> & Hm').
  { intros s Hin. rewrite BTreeMap.elem_of_keys_insert. intros [He|Hk].
    - apply Hs, list_elem_of_fmap. by exists s.
    - apply (Hfresh s); [by right|done]. }
  exists m'. split; [done|]. intros k. rewrite Hm', BTreeMap.get_insert.
  destruct (decide (k = spec_node spec)) as [->|Hne].
  - rewrite bool_decide_true by done.
    destruct (iter_find _ specs) as [s|] eqn:Hf; [|done]. exfalso.
    apply iter_find_elem in Hf as [Hin He%bool_decide_eq_true]. apply Hs, list_elem_of_fmap. by exists s.
  - by rewrite bool_decide_false by congruence.
Qed.

(** ** Executors *)

Section nodes.
Variables (native_registry : StaticNodeExecutorRegistry CliNativeExecutor)
  (read_bytes : rstr → CliResult (list byte)).
Notation build m node := (node_executor native_registry read_bytes
  (BTreeMap.get (NodeDefinition.id node) m) (NodeDefinition.id node)).

Lemma build_remove m k node :
  NodeDefinition.id node ≠ k → build (BTreeMap.remove k m) node = build m node.
Proof. intros Hne. rewrite BTreeMap.get_remove. by rewrite decide_False. Qed.

Lemma node_executors_spec nodes m executors :
  NoDup (NodeDefinition.id <$> nodes) →
  match node_executors native_registry read_bytes nodes m executors with
  | Err e => ∃ node, node ∈ nodes ∧ build m node = Err e
  | Ok (m', executors') =>
      (∀ k, BTreeMap.get k m'
            = if decide (k ∈ NodeDefinition.id <$> nodes) then None else BTreeMap.get k m)
      ∧ (∀ k, k ∉ NodeDefinition.id <$> nodes → BTreeMap.get k executors' = BTreeMap.get k executors)
      ∧ ∀ node, node ∈ nodes → ∃ e, build m node = Ok e
          ∧ BTreeMap.get (NodeDefinition.id node) executors' = Some e
  end.
Proof.
  revert m executors. induction nodes as [|node nodes IH]; intros m executors.
  { intros _. simpl. split_and!; [done|done|set_solver]. }
  rewrite fmap_cons. intros [Hn Hnd]%NoDup_cons. simpl.
  destruct (build m node) as [e|err] eqn:Hb; simpl; [|exists node; split; [left|done]].
  specialize (IH (BTreeMap.remove (NodeDefinition.id node) m)
    (BTreeMap.insert (NodeDefinition.id node) e executors) Hnd).
  assert (Hother : ∀ n, n ∈ nodes →
    build (BTreeMap.remove (NodeDefinition.id node) m) n = build m n).
  { intros n Hin. apply build_remove. intros He. apply Hn, list_elem_of_fmap. by exists n. }
  destruct (node_executors _ _ nodes _ _) as [[m' executors']|err].
  - destruct IH as (Hm & Hrest & Hbuilt). split_and!.
    + intros k. rewrite Hm, BTreeMap.get_remove. repeat case_decide; set_solver.
    + intros k Hk. rewrite Hrest, BTreeMap.get_insert, decide_False by set_solver. done.
    + intros n [->|Hin]%elem_of_cons.
      * exists e. split; [done|]. rewrite Hrest by done. by rewrite BTreeMap.get_insert_eq.
      * rewrite <- Hother by done. by apply Hbuilt.
  - destruct IH as (n & Hin & He). exists n. split; [by right|]. by rewrite <- Hother.
Qed.
End nodes.

Lemma node_executor_given workflow specs read_bytes m node :
  NoDup (NodeDefinition.id <$> WorkflowDefinition.nodes workflow) →
  node ∈ WorkflowDefinition.nodes workflow →
  BTreeMap.get (NodeDefinition.id node) m
    = iter_find (λ spec, bool_decide (spec_node spec = NodeDefinition.id node)) specs →
  node_executor (native_registry_for_workflow workflow) read_bytes
    (BTreeMap.get (NodeDefinition.id node) m) (NodeDefinition.id node)
  = executor_given read_bytes workflow specs node.
Proof.
  intros Hnd Hin ->. unfold executor_given, node_executor. destruct (iter_find _ specs); [done|].
  by rewrite (proj2 (native_registry_spec workflow _ (native_executor_of workflow node) Hnd))
    by (by exists node).
Qed.

Lemma keys_nil {K V} `{EqDecision K, RustOrd K} (m : btree_map K V) :
  (∀ k, BTreeMap.get k m = None) → BTreeMap.keys m = [].
Proof.
  intros Hg. destruct m as [|[k v] m]; [done|]. exfalso.
  by apply (proj1 (BTreeMap.get_None_keys k ((k, v) :: m)) (Hg k)); left.
Qed.

(** What the registry holds when every entry names a node of its own. *)
Lemma mixed_registry_outcome workflow specs read_bytes :
  NoDup (NodeDefinition.id <$> WorkflowDefinition.nodes workflow) →
  NoDup (spec_node <$> specs) →
  (∀ spec, spec ∈ specs → spec_node spec ∈ NodeDefinition.id <$> WorkflowDefinition.nodes workflow) →
  match mixed_registry_for_workflow workflow specs read_bytes with
  | Err e => ∃ node, node ∈ WorkflowDefinition.nodes workflow
      ∧ executor_given read_bytes workflow specs node = Err e
  | Ok registry => ∀ node, node ∈ WorkflowDefinition.nodes workflow →
      ∃ e, executor_given read_bytes workflow specs node = Ok e
        ∧ executor_for registry (NodeDefinition.id node) = Ok e
  end.
Proof.
  intros Hnd Hspecs Hknown. unfold mixed_registry_for_workflow. cbv zeta.
  destruct (index_components_ok specs [] Hspecs) as (m & -> & Hm); [set_solver|]. simpl.
  assert (Hgiven : ∀ node, node ∈ WorkflowDefinition.nodes workflow → _ = _)
    by (intros node Hin; apply (node_executor_given workflow specs read_bytes m node Hnd Hin);
        rewrite Hm; by destruct (iter_find _ specs)).
  pose proof (node_executors_spec (native_registry_for_workflow workflow) read_bytes
    (WorkflowDefinition.nodes workflow) m [] Hnd) as Hb.
  destruct (node_executors _ _ _ m []) as [[m' executors]|e]; simpl.
  - destruct Hb as (Hm' & _ & Hbuilt). rewrite (keys_nil m').
    + intros node Hin. rewrite <- Hgiven by done. destruct (Hbuilt node Hin) as (e & He & Hget).
      exists e. split; [done|]. unfold executor_for, static_registry. simpl. by rewrite Hget.
    + intros k. rewrite Hm'. case_decide as Hk; [done|]. rewrite Hm.
      destruct (iter_find _ specs) as [spec|] eqn:Hf; [|done].
      apply iter_find_elem in Hf as [Hin <-%bool_decide_eq_true]. by destruct Hk; apply Hknown.
  - destruct Hb as (node & Hin & He). exists node. split; [done|]. by rewrite <- Hgiven.
Qed.

Lemma executor_given_err read_bytes workflow specs node e :
  executor_given read_bytes workflow specs node = Err e →
  ∃ spec, spec ∈ specs ∧ component_executor read_bytes spec = Err e.
Proof.
  unfold executor_given. destruct (iter_find _ specs) as [spec|] eqn:Hf; [|done].
  apply iter_find_elem in Hf as [Hin _]. intros He. by exists spec.
Qed.

(** What [validate-manifest --workflow] has checked. *)
Lemma validated_manifest manifest_input manifest_path workflow_input exists_ text :
  validate_wasm_component_manifest manifest_input manifest_path (Some workflow_input) exists_
    = Done (Ok (E := CliError) text) →
  ∃ specs workflow,
    wasm_component_specs_from_manifest manifest_input manifest_path = Ok (E := CliError) specs
    ∧ workflow_from_json_str (DecodeError := JD) (EncodeError := JE) workflow_input
      = Done (Ok workflow)
    ∧ NoDup (spec_node <$> specs)
    ∧ ∀ spec, spec ∈ specs →
        spec_node spec ∈ NodeDefinition.id <$> WorkflowDefinition.nodes workflow.
Proof.
  intros (specs & Hspecs%pure_ok & (_ & [Hnd _]%pure_ok%reject_repeated_nodes_ok
    & (_ & _ & (workflow & Hw%exec_map_err_ok & ([] & Hk%pure_ok & _)%exec_try_ok)%exec_try_ok)
    %exec_try_ok)%exec_try_ok)%exec_try_ok.
  exists specs, workflow. split_and!; [done|done|done|]. intros spec Hin.
  apply try_for_each_ok in Hk. rewrite Forall_forall in Hk. specialize (Hk spec Hin).
  destruct (BTreeSet.contains _ _) eqn:Hc; [|done].
  apply BTreeSet.contains_true in Hc. exact (proj1 (BTreeSet.elem_of_collect _ _) Hc).
Qed.

(** ** Properties *)

(** C28. A component manifest that [pureflow validate-manifest --workflow] accepts is
    one [pureflow run --wasm-components] can start from: every node of the workflow
    gets an executor, the component of the one manifest entry that names it or, when
    none does, the native executor of its ports and edges; and the only error left is
    that of a component that cannot be read or compiled. *)
Theorem validated_manifest_gives_executors (manifest_input manifest_path workflow_input : rstr)
  (exists_ : rstr → bool) (text : rstr)
  (Hvalid : validate_wasm_component_manifest manifest_input manifest_path (Some workflow_input)
              exists_ = Done (Ok (E := CliError) text)) :
  ∃ specs workflow,
    wasm_component_specs_from_manifest manifest_input manifest_path = Ok (E := CliError) specs
    ∧ workflow_from_json_str (DecodeError := JD) (EncodeError := JE) workflow_input
      = Done (Ok workflow)
    ∧ ∀ read_bytes,
        match mixed_registry_for_workflow workflow specs read_bytes with
        | Ok registry => ∀ node, node ∈ WorkflowDefinition.nodes workflow →
            ∃ e, executor_given read_bytes workflow specs node = Ok e
              ∧ executor_for registry (NodeDefinition.id node) = Ok e
        | Err e => ∃ spec, spec ∈ specs ∧ component_executor read_bytes spec = Err e
        end.
Proof.
  destruct (validated_manifest _ _ _ _ _ Hvalid) as (specs & workflow & Hs & Hw & Hnd & Hknown).
  exists specs, workflow. split_and!; [done|done|]. intros read_bytes.
  assert (Hids : NoDup (NodeDefinition.id <$> WorkflowDefinition.nodes workflow)).
  { apply exec_try_ok in Hw as (raw & _ & [_ Hv]%exec_map_err_ok%to_workflow_ok).
    apply (vw_structure _ Hv). }
  pose proof (mixed_registry_outcome workflow specs read_bytes Hids Hnd Hknown) as Hm.
  destruct (mixed_registry_for_workflow _ _ _) as [registry|e]; [done|].
  destruct Hm as (node & _ & He). by eapply executor_given_err.
Qed.
End manifest.

(** ** What a run reports *)

Section report.
Context `{J : JsonNumber} `{!FloatDisplay} `{!JsonText} `{D : !DurationDebug}.
Context {JD JE TD TE YD YE : Set}
  `{FJ : !TextFormat JD JE} `{FT : !TextFormat TD TE} `{FY : !TextFormat YD YE}.
Context `{RS : !RuleSetSerde} `{FS : !FileSystem} `{CS : !CliSerde} `{W : !Wasmtime}
  `{M : !Mpsc PortPacket}.
Notation CliError := (CliError (JD := JD) (JE := JE) (TD := TD) (YD := YD)).
Notation CliResult A := (result A CliError).
Context (completion_script : rstr → result rstr rstr)
  (native_runtime : cli_runtime CliNativeExecutor) (mixed_runtime : cli_runtime CliNodeExecutor).
Context {F : Type} (read : rstr → F → CliResult rstr)
  (read_bytes : rstr → F → CliResult (list byte))
  (write : rstr → rstr → F → CliResult unit * F).

(** The exit status and the text printed for a command that ended. *)
Definition ended_command (cmd : Commands) (files : F) : option (Z * rstr) :=
  match dispatch_command (TE := TE) (YE := YE) completion_script native_runtime mixed_runtime read
          read_bytes write cmd files with
  | Done (Ready r, _) => Some (main_exit (TE := TE) (YE := YE) r)
  | _ => None
  end.

(** A run whose engine returned a summary exits with 0 and prints the same report
    whatever the summary says: a workflow whose nodes failed looks like one whose
    nodes completed. *)
Theorem run_exit_ignores_failures input workflow metadata files files' run summary :
  read workflow files = Ok input →
  run_workflow_json (TE := TE) (YE := YE) native_runtime input workflow
    = Done (Ready (Ok (E := CliError) run)) →
  write metadata (CliRunOutput.metadata_jsonl run) files = (Ok tt, files') →
  ended_command (Run false None workflow metadata) files = Some (0%Z, run_report run metadata)
  ∧ run_report (CliRunOutput.mk (CliRunOutput.workflow_id run) (CliRunOutput.node_count run)
      (CliRunOutput.edge_count run) (CliRunOutput.metadata_jsonl run)
      (CliRunOutput.record_count run) summary) metadata
    = run_report run metadata.
Proof.
  intros Hread Hrun Hwrite. split; [|done].
  unfold ended_command, dispatch_command. rewrite Hread. unfold finish_run. rewrite Hrun. simpl.
  unfold report_run. by rewrite Hwrite.
Qed.

(** [explain] accepts no workflow that [validate] rejects. *)
Theorem explained_workflow_validates input path text :
  explain_workflow_json (TE := TE) (YE := YE) input path = Done (Ok (E := CliError) text) →
  ∃ report, validate_workflow_json (TE := TE) (YE := YE) input path
            = Done (Ok (E := CliError) report).
Proof.
  intros (loaded & Hl & _)%exec_try_ok.
  apply exec_try_ok in Hl as (raw & Hraw%pure_ok & (workflow & Hw & _)%exec_map_err_ok%exec_try_ok).
  assert (Hload : cli_load_workflow (TE := TE) (YE := YE) input path = Done (Ok (E := CliError) workflow)).
  { revert Hraw. unfold raw_workflow, cli_load_workflow.
    destruct (syntax_of path); intros Hraw; [..|done];
      apply map_err_ok in Hraw; apply exec_map_err_ok, exec_try_ok; exists raw;
      split; [by apply pure_ok|by apply exec_map_err_ok|by apply pure_ok|by apply exec_map_err_ok
             |by apply pure_ok|by apply exec_map_err_ok]. }
  unfold validate_workflow_json. rewrite Hload. by eexists.
Qed.
End report.

(** ** Examples *)

Section examples.
#[local] Existing Instance literal_number.

#[local] Instance sample_json : TextFormat rstr rstr := {
  decode_document _ := Ok sample_raw;
  decode_error_text e := e;
  encode_document _ := Err (lit "read only");
  encode_error_text e := e;
}.
(** A manifest with a component for one of the three nodes. *)
#[local] Instance gate_manifest : CliSerde := {
  to_string_pretty _ := Err (lit "no printer");
  manifest_from_str _ := Ok [mk_raw_spec (lit "gate") (lit "gate.wasm") (Some 5%N)];
}.
(** A Wasmtime whose components are their bytes. *)
#[local] Instance byte_components : Wasmtime := {|
  wasm_error := rstr;
  wasm_error_fmt := id;
  wasm_component := list byte;
  wasm_instance := unit;
  export_index := unit;
  wasm_func := unit;
  engine_new := Ok tt;
  component_from_binary := Ok;
  store_set_fuel _ := Ok tt;
  instantiate _ := Ok tt;
  get_export_index _ _ _ := None;
  get_func _ _ := None;
|}.
Notation E := (CliError (JD := rstr) (JE := rstr) (TD := rstr) (YD := rstr)).
Let valid : rstr :=
  lit "valid manifest `m/wasm.json`" ++ NL ++ lit "components: 1" ++ NL ++ lit "workflow: `flow`" ++ NL.

Lemma validated_manifest_gives_executors_witness :
  validate_wasm_component_manifest (lit "..") (lit "m/wasm.json") (Some (lit "..")) (λ _, true)
    = Done (Ok (E := E) valid)
  ∧ ∃ specs workflow,
    wasm_component_specs_from_manifest (lit "..") (lit "m/wasm.json") = Ok (E := E) specs
    ∧ workflow_from_json_str (DecodeError := rstr) (EncodeError := rstr) (lit "..")
      = Done (Ok workflow)
    ∧ ∀ read_bytes,
        match mixed_registry_for_workflow (JD := rstr) (JE := rstr) (TD := rstr) (YD := rstr)
                workflow specs read_bytes with
        | Ok registry => ∀ node, node ∈ WorkflowDefinition.nodes workflow →
            ∃ e, executor_given read_bytes workflow specs node = Ok e
              ∧ executor_for registry (NodeDefinition.id node) = Ok e
        | Err e => ∃ spec, spec ∈ specs ∧ component_executor read_bytes spec = Err e
        end.
Proof.
  split; [reflexivity|].
  apply (validated_manifest_gives_executors (lit "..") (lit "m/wasm.json") (lit "..") (λ _, true)
           valid).
  reflexivity.
Defined.

(** With the component read, the node of the manifest runs it and the others are
    native. *)
Example mixed_registry_executors :
  let gate := CliWasmComponentSpec.mk (ident "gate") (lit "m/gate.wasm")
                (WasmtimeExecutionLimits.new 5) in
  match mixed_registry_for_workflow sample_workflow [gate] (λ _, Ok (E := E) [x00]) with
  | Ok registry =>
      executor_for registry (ident "gate")
        = Ok (CliWasm (mk_batch_component [x00] (WasmtimeExecutionLimits.new 5)))
      ∧ executor_for registry (ident "filter")
        = Ok (CliNative (CliNativeExecutor.new [ident "in"] []))
  | Err _ => False
  end.
Proof. split; reflexivity. Qed.

(** A node that the manifest names and the workflow lacks is refused. *)
Example unknown_manifest_node :
  let gone := CliWasmComponentSpec.mk (ident "gone") (lit "gone.wasm")
                WasmtimeExecutionLimits.default in
  mixed_registry_for_workflow sample_workflow [gone] (λ _, Ok [x00])
  = Err (E := E) (CliWasmManifest
      (lit "WASM component manifest references unknown workflow node `gone`")).
Proof. reflexivity. Qed.
End examples.
