(* ===== verification/CliSystem.v ===== *)
(** The nodes of a run of the command line as futures
    (src/crates/pureflow-cli/src/main.rs, [CliNativeExecutor], [CliNodeExecutor];
    src/crates/pureflow-engine/src/lib.rs, [BatchNodeExecutor]).

    The interface [NodeFuture] for native nodes (CliNode.v), for batch nodes
    (BatchNode.v) and for a choice between two kinds of nodes, which is what
    [CliNodeExecutor] is; and the promise [OneShot] for each: a native node sends one
    packet on each output port, a batch node at most one when its executor answers
    with at most one for each declared port; it fails when its executor does. *)

From Stdlib Require Import Lia.
From S2P Require Import Prelude RustStr BTree Types Workflow Errors Json Context Message Metadata MetadataSink Channel Ports PortsSpec Traffic Wiring Engine Runtime EngineRun BatchNode NodeSystem OneShot CliNode.

(** ** Polls under a cancelled token *)

Section cancelled.
Context `{J : JsonNumber} {S : Type} `{!MetadataSink S} `{M : !Mpsc PortPacket}.
Context (token : CancellationToken) (w : world (S := S))
  (Hcancelled : CancellationToken.is_cancelled (w_signals w) token = true).

(** Nothing is received and nothing is waited for. *)
Lemma poll_recv_cancelled inputs p cx :
  let r := poll_recv inputs p token cx w in
  w_signals r.2 = w_signals w ∧ (r.1 = Ready (Ok None) ∨ ∃ e, r.1 = Ready (Err e)).
Proof.
  unfold poll_recv. destruct (find_input inputs p) as [h|]; [|simpl; eauto].
  unfold input_poll_recv. destruct (vec_is_empty (receivers h)).
  - simpl. split; [|by left]. by apply record_to_unchanged.
  - rewrite Hcancelled. simpl. eauto.
Qed.

Lemma poll_recv_any_cancelled inputs cx :
  let r := poll_recv_any inputs token cx w in
  r.2 = w ∧ (r.1 = Ready (Ok None) ∨ ∃ e, r.1 = Ready (Err e)).
Proof.
  unfold poll_recv_any. destruct (in_ports inputs); [|rewrite Hcancelled]; simpl; eauto.
Qed.

Lemma poll_send_cancelled outputs p x :
  let r := poll_send outputs p x token w in r.2 = w ∧ ∃ e, r.1 = Ready (Err e).
Proof.
  unfold poll_send, poll_reserve, output_poll_reserve.
  destruct (find_output outputs p); [rewrite Hcancelled|]; simpl; eauto.
Qed.
End cancelled.

(** ** Native nodes *)

Section native.
Context `{J : JsonNumber} {S : Type} `{!MetadataSink S} `{M : !Mpsc PortPacket}.
Implicit Types w : world (S := S).

#[export] Instance native_future : NodeFuture (S := S) CliNativeExecutor cli_state := {|
  node_begin := cli_begin;
  node_turn := cli_turn;
  node_result := λ st, match st with CliFinished r => Some r | _ => None end;
  node_received := λ ctx inputs cx st w,
    match st with
    | CliReceiving p _ _ _ => pair p <$> cli_received_by ctx inputs cx st w
    | _ => []
    end;
  node_sent := cli_sent_by;
|}.

Notation routes_of e := (enumerate (CliNativeExecutor.output_routes e)).

(** The identifier of every message of a node can be made; it is longer than the
    identifiers of the node and the port, which may be as long as allowed. *)
Definition messages_named (executor : CliNativeExecutor) (ctx : NodeContext) : bool :=
  forallb (λ route, is_ok (identifier_new (kind := IdentifierKind.Message)
                             (cli_message_id ctx route.2.1 route.1))) (routes_of executor).

Record native_admissible (executor : CliNativeExecutor) (ctx : NodeContext)
    (ins outs : list PortId) : Prop := {
  na_inputs : CliNativeExecutor.input_ports executor = ins;
  na_outputs : ∀ p, p ∈ (routes_of executor).*2.*1 ↔ p ∈ outs;
  na_distinct : NoDup (routes_of executor).*2.*1;
  na_messages : messages_named executor ctx = true;
}.

Definition native_pending (st : cli_state) : list PortId :=
  match st with CliHead p ps _ _ | CliReceiving p ps _ _ => p :: ps | _ => [] end.

Definition native_owed (st : cli_state) (p : PortId) : nat :=
  match st with
  | CliHead _ _ _ _ | CliReceiving _ _ _ _ => 1
  | CliSending q _ rest _ => if decide (p ∈ q :: rest.*2.*1) then 1 else 0
  | CliFinished _ => 0
  end.

Definition native_weight (executor : CliNativeExecutor) (st : cli_state) : nat :=
  let k := length (routes_of executor) in
  match st with
  | CliHead _ ps _ _ => 2 * length ps + k + 2
  | CliReceiving _ ps _ _ => 2 * length ps + k + 1
  | CliSending _ _ rest _ => length rest + 1
  | CliFinished _ => 0
  end.

Definition native_accounts (executor : CliNativeExecutor) (ctx : NodeContext) (st : cli_state)
    (rcv snt : list (PortId * PortPacket)) : Prop :=
  cli_accounts executor ctx st rcv.*2 snt ∧ ∀ e, st ≠ CliFinished (Err e).

Lemma native_owed_le st p : native_owed st p ≤ 1.
Proof. destruct st; simpl; try case_decide; lia. Qed.

Lemma next_output_shape executor ctx done rest count :
  messages_named executor ctx = true → routes_of executor = done ++ rest →
  let st := next_output ctx rest count in
  native_pending st = []
  ∧ (∀ p, native_owed st p = if decide (p ∈ rest.*2.*1) then 1 else 0)
  ∧ (∀ e, st ≠ CliFinished (Err e)) ∧ native_weight executor st = length rest.
Proof.
  intros Hm Hr st. destruct rest as [|[i [p targets]] rest]; [done|].
  unfold messages_named in Hm. apply Is_true_eq_left, forallb_True in Hm. rewrite Forall_forall in Hm.
  specialize (Hm (i, (p, targets)) ltac:(rewrite Hr; set_solver)). cbn [fst snd] in Hm.
  assert (∃ packet, cli_output_packet ctx p targets i count = Ok packet) as [packet Hp].
  { unfold cli_output_packet. destruct (identifier_new _) as [id|]; [|done]. simpl. eauto. }
  unfold st. cbn [next_output]. rewrite Hp. split_and!; try done. simpl. lia.
Qed.

Lemma next_input_shape executor ctx ps count :
  messages_named executor ctx = true →
  let st := next_input executor ctx ps count in
  native_pending st = ps ∧ (∀ e, st ≠ CliFinished (Err e))
  ∧ native_weight executor st ≤ 2 * length ps + length (routes_of executor).
Proof.
  intros Hm st. destruct ps as [|p ps].
  - destruct (next_output_shape executor ctx [] (routes_of executor) count Hm eq_refl)
      as (H1 & _ & H3 & H4).
    split_and!; [done|done|]. unfold st. simpl in *. lia.
  - split_and!; try done. unfold st. simpl. lia.
Qed.

Lemma native_received_snd ctx inputs cx st w :
  (node_received (E := CliNativeExecutor) ctx inputs cx st w).*2 = cli_received_by ctx inputs cx st w.
Proof.
  destruct st as [|p ps before here| |]; try done.
  change ((pair p <$> cli_received_by ctx inputs cx (CliReceiving p ps before here) w).*2
    = cli_received_by ctx inputs cx (CliReceiving p ps before here) w).
  rewrite <- list_fmap_compose. apply list_fmap_id.
Qed.

Lemma native_accounts_turn executor ctx inputs outputs st w rcv snt :
  native_accounts executor ctx st rcv snt →
  let r := cli_turn executor ctx inputs outputs false st w in
  (∀ e, r.1 ≠ CliFinished (Err e)) →
  native_accounts executor ctx r.1
    (rcv ++ node_received (E := CliNativeExecutor) ctx inputs false st w)
    (snt ++ cli_sent_by ctx outputs st w).
Proof.
  intros [Hacc _] r Hr. split; [|done]. rewrite fmap_app, native_received_snd.
  by apply cli_turn_accounts.
Qed.

(** The poll of a receive. *)
Lemma native_receiving_turn executor ctx ins outs received due inputs outputs p ps before here w :
  native_admissible executor ctx ins outs → p ∈ ins →
  node_ready ctx ins outs inputs outputs (λ _, 1) received due w →
  let st := CliReceiving p ps before here in
  let r := cli_turn executor ctx inputs outputs false st w in
  one_turn outs inputs outputs native_pending native_owed (native_weight executor) st w r.1 r.2
    (node_received (E := CliNativeExecutor) ctx inputs false st w) []
  ∧ ∀ e, r.1 ≠ CliFinished (Err e).
Proof.
  intros Hadm Hp [Hact Hins Hhandles _ _ _] st.
  destruct (Hins p Hp) as [h Hf].
  assert (Hh : h ∈ in_ports inputs) by (unfold find_input in Hf; by apply iter_find_elem in Hf as [? _]).
  destruct (Hhandles h Hh) as (_ & _ & Hst).
  destruct (poll_recv_spec inputs p h (NodeContext.cancellation_token ctx) w Hf Hst Hact) as [Hr He].
  unfold st. cbn [cli_turn]. unfold node_received, native_future, cli_received_by, drain_cli_input_port.
  destruct (poll_recv inputs p _ false w) as [r w1]. simpl in Hr, He. subst r.
  unfold recv_result, scan_effect in *.
  assert (Hclose : Forall (drained w) (receivers h) → unchanged w w1 →
    let st' := next_input executor ctx ps (usize_saturating_add before here) in
    one_turn outs inputs outputs native_pending native_owed (native_weight executor) st w st' w1 [] []
    ∧ ∀ e, st' ≠ CliFinished (Err e)).
  { intros Hd Hu. destruct (next_input_shape executor ctx ps (usize_saturating_add before here)
      (na_messages _ _ _ _ Hadm)) as (H1 & H2 & H3). split; [|done].
    apply turn_quiet; [done| | |intros; apply native_owed_le|unfold st; simpl in *; lia].
    - intros q. rewrite H1. unfold st. simpl. set_solver.
    - intros q j Hq Hn (h' & Hf' & Hj). rewrite H1 in Hn. unfold st in Hq. simpl in Hq.
      assert (q = p) as -> by set_solver. rewrite Hf in Hf'. injection Hf' as <-.
      rewrite Forall_forall in Hd. by apply Hd. }
  destruct (first_ready w (receivers h)) as [[j x]|] eqn:Hfr.
  - destruct (first_ready_packet _ _ _ _ Hfr) as [Hj (v & q & Hv & Hq)].
    assert (Hne : vec_is_empty (receivers h) = false) by (by destruct (receivers h); [set_solver|]).
    rewrite Hne. cbn [fst snd]. split; [|done].
    eapply (turn_receive _ _ _ _ _ _ _ _ _ _ p j v x q); try done; [simpl; by left|by exists h|].
    simpl. lia.
  - destruct (vec_is_empty (receivers h)) eqn:Hempty; [|case_bool_decide as Hd]; cbn [fst snd].
    + apply Hclose; [|done]. destruct (receivers h); [constructor|done].
    + by apply Hclose.
    + destruct (not_ready_waits w (receivers h) Hst Hfr Hd) as (j & v & Hj & Hv & Hq & Hs).
      split; [|done]. eapply (turn_wait _ _ _ _ _ _ _ _ _ p j v); try done; [simpl; by left|by exists h].
Qed.

(** The poll of a send. *)
Lemma native_sending_turn executor ctx ins outs due inputs outputs p packet rest count w rcv snt :
  native_admissible executor ctx ins outs →
  let st := CliSending p packet rest count in
  native_accounts executor ctx st rcv snt →
  node_ready ctx ins outs inputs outputs (native_owed st) (length rcv) due w →
  let r := cli_turn executor ctx inputs outputs false st w in
  one_turn outs inputs outputs native_pending native_owed (native_weight executor) st w r.1 r.2
    [] (cli_sent_by ctx outputs st w)
  ∧ ∀ e, r.1 ≠ CliFinished (Err e).
Proof.
  intros Hadm st [(done & route & Hroutes & Hport & _) _] [Hact _ _ Houts Hval _].
  pose proof (na_distinct _ _ _ _ Hadm) as Hnd. rewrite Hroutes, !fmap_app, !fmap_cons in Hnd.
  apply NoDup_app in Hnd as (_ & _ & [Hnew _]%NoDup_cons). rewrite Hport in Hnew.
  assert (Hp : p ∈ outs).
  { apply (na_outputs _ _ _ _ Hadm). rewrite Hroutes, <- Hport, !fmap_app, !fmap_cons. set_solver. }
  assert (Hone : native_owed st p = 1) by (unfold st; simpl; by rewrite decide_True by set_solver).
  destruct (Houts p Hp Hone) as (h & Hf & Hnd & Hst & Hroom).
  pose proof (poll_send_effect outputs p h packet (NodeContext.cancellation_token ctx) w Hf Hnd Hst)
    as Hs.
  rewrite Hact, Hval in Hs. unfold send_outcome in Hs. rewrite Hroom in Hs.
  unfold st. cbn [cli_turn]. unfold cli_sent_by, send_cli_output_packet.
  destruct (poll_send outputs p packet _ w) as [r w1]. simpl in Hs. destruct Hs as [-> Hch].
  cbn [fst snd].
  destruct (next_output_shape executor ctx (done ++ [route]) rest count (na_messages _ _ _ _ Hadm))
    as (H1 & H2 & H3 & H4); [by rewrite <- app_assoc|]. split; [|done].
  eapply (turn_send _ _ _ _ _ _ _ _ _ _ p h packet); [done|done|exact Hch|done| | | |].
  - by rewrite H2, decide_False.
  - intros q. by rewrite H1.
  - intros q _. rewrite H2. unfold native_owed. repeat case_decide; set_solver || lia.
  - rewrite H4. simpl. lia.
Qed.

Lemma native_not_failed (st : cli_state) :
  (∀ e, st ≠ CliFinished (Err e)) → not_failed (E := CliNativeExecutor) st.
Proof. intros H err. destruct st; try done. intros [= ->]. by apply (H err). Qed.

Lemma native_begins executor ctx ins outs :
  native_admissible executor ctx ins outs →
  let st := cli_begin executor ctx in
  native_accounts executor ctx st [] [] ∧ (∀ p, p ∈ native_pending st ↔ p ∈ ins)
  ∧ (∀ p, p ∈ outs → native_owed st p ≤ 1) ∧ not_failed (E := CliNativeExecutor) st.
Proof.
  intros Hadm st.
  destruct (next_input_shape executor ctx (CliNativeExecutor.input_ports executor) 0
    (na_messages _ _ _ _ Hadm)) as (H1 & H2 & _).
  split_and!; [split; [apply (next_input_accounts executor ctx _ [])|done]| |
    intros; apply native_owed_le|by apply native_not_failed].
  intros p. unfold st, cli_begin. by rewrite H1, (na_inputs _ _ _ _ Hadm).
Qed.

Lemma native_returns (outs : list PortId) st :
  node_result (E := CliNativeExecutor) st = Some (Ok tt) →
  native_pending st = [] ∧ ∀ p, p ∈ outs → native_owed st p = 0.
Proof. by destruct st. Qed.

Lemma native_turns executor ctx ins outs due inputs outputs st rcv snt w :
  native_admissible executor ctx ins outs → native_accounts executor ctx st rcv snt →
  node_result (E := CliNativeExecutor) st = None →
  (∀ p, p ∈ native_pending st → p ∈ ins) →
  node_ready ctx ins outs inputs outputs (native_owed st) (length rcv) due w →
  let r := cli_turn executor ctx inputs outputs false st w in
  let rcv' := node_received (E := CliNativeExecutor) ctx inputs false st w in
  let snt' := cli_sent_by ctx outputs st w in
  one_turn outs inputs outputs native_pending native_owed (native_weight executor) st w r.1 r.2
    rcv' snt'
  ∧ native_accounts executor ctx r.1 (rcv ++ rcv') (snt ++ snt')
  ∧ not_failed (E := CliNativeExecutor) r.1.
Proof.
  intros Hadm Hacc Hres Hpend Hready r rcv' snt'.
  cut (one_turn outs inputs outputs native_pending native_owed (native_weight executor) st w r.1 r.2
    rcv' snt' ∧ ∀ e, r.1 ≠ CliFinished (Err e)).
  { intros [Hturn Hne]. split_and!; [done|by apply native_accounts_turn|by apply native_not_failed]. }
  destruct st as [p ps before here|p ps before here|p packet rest count|res]; [| | |done].
  - split; [|done]. apply turn_quiet; [|done|done|done|simpl; lia].
    simpl. unfold start_recv. destruct (find_input _ p); [apply record_to_unchanged|apply changes_refl].
  - eapply native_receiving_turn; [done| |done]. apply Hpend. simpl. by left.
  - by eapply native_sending_turn.
Qed.

(** Once the run is cancelled, a receive or a send ends the node, or the node goes on
    to the next port. *)
Lemma native_cancelled executor ctx ins outs inputs outputs st w :
  native_admissible executor ctx ins outs → node_result (E := CliNativeExecutor) st = None →
  CancellationToken.is_cancelled (w_signals w) (NodeContext.cancellation_token ctx) = true →
  let r := cli_turn executor ctx inputs outputs false st w in
  w_signals r.2 = w_signals w ∧ native_weight executor r.1 < native_weight executor st.
Proof.
  intros Hadm Hres Hc. destruct st as [p ps before here|p ps before here|p packet rest count|]; [| | |done];
    cbn [cli_turn].
  - split; [|simpl; lia]. unfold start_recv. cbn [snd].
    destruct (find_input _ p); [by apply record_to_unchanged|done].
  - pose proof (poll_recv_cancelled _ w Hc inputs p false) as Hp. unfold drain_cli_input_port.
    destruct (poll_recv inputs p _ false w) as [r w1]. cbn [fst snd] in Hp.
    pose proof (proj2 (proj2 (next_input_shape executor ctx ps (usize_saturating_add before here)
      (na_messages _ _ _ _ Hadm)))) as Hn.
    destruct Hp as [Hs [->|[[] ->]]]; cbn [fst snd]; (split; [exact Hs|simpl in *; lia]).
  - pose proof (poll_send_cancelled _ w Hc outputs p packet) as Hp. unfold send_cli_output_packet.
    destruct (poll_send outputs p packet _ w) as [r w1]. cbn [fst snd] in Hp.
    destruct Hp as [-> [e ->]]. simpl. split; [done|lia].
Qed.

#[export] Instance native_one_shot : OneShot CliNativeExecutor cli_state := {|
  admissible := λ executor ctx ins outs _, native_admissible executor ctx ins outs;
  pending := λ _, native_pending;
  owed := native_owed;
  weight := λ executor _, native_weight executor;
  accounts := native_accounts;
  fails := λ _ _ _ _, False;
  runs := λ _ _, True;
  one_shot_runs_begin := λ _ _, I;
  one_shot_runs_turn := λ _ _ _ _ _ _ _, I;
  one_shot_begin := λ executor ctx ins outs _, native_begins executor ctx ins outs;
  one_shot_result := λ _ _ _ outs _ st _ _ _ _, native_returns outs st;
  one_shot_turn := λ executor ctx ins outs due inputs outputs st rcv snt w Hadm Hacc Hres Hp Hready,
    or_introl (native_turns executor ctx ins outs due inputs outputs st rcv snt w Hadm Hacc Hres Hp
                 Hready);
  one_shot_cancelled := λ executor ctx ins outs _ inputs outputs st w Hadm _,
    native_cancelled executor ctx ins outs inputs outputs st w Hadm;
|}.
End native.

(** ** Batch nodes *)

Section batch.
Context `{J : JsonNumber} {S : Type} `{!MetadataSink S} `{M : !Mpsc PortPacket}.
Implicit Types w : world (S := S).

#[export] Instance batch_future : NodeFuture (S := S) BatchExecutor batch_state := {|
  node_begin := λ _ _, BatchHead Batch.new;
  node_turn := batch_turn;
  node_result := λ st, match st with BatchFinished r => Some r | _ => None end;
  node_received := batch_received_by;
  node_sent := batch_sent_by;
|}.

(** The executor fails, or answers with at most one packet for each declared port. *)
Definition batch_admissible (invoke : BatchExecutor) (outs : list PortId) : Prop :=
  ∀ b out, invoke b = Ok out →
    NoDup (batch_packets out).*1 ∧ ∀ p, p ∈ (batch_packets out).*1 → p ∈ outs.

Definition batch_pending (ins : list PortId) (st : batch_state) : list PortId :=
  match st with BatchHead _ | BatchReceiving _ => ins | _ => [] end.

(** The packets that are still to be sent once the executor has answered. *)
Definition batch_unsent (st : batch_state) : list (PortId * PortPacket) :=
  match st with
  | BatchSending p x xs ports => (p, x) :: port_packets ((p, xs) :: ports)
  | _ => []
  end.

Definition batch_owed (st : batch_state) (p : PortId) : nat :=
  match st with
  | BatchHead _ | BatchReceiving _ => 1
  | st => if decide (p ∈ (batch_unsent st).*1) then 1 else 0
  end.

Definition batch_weight (outs : list PortId) (st : batch_state) : nat :=
  match st with
  | BatchHead _ => length outs + 2
  | BatchReceiving _ => length outs + 1
  | st => length (batch_unsent st)
  end.

Definition batch_accounted (invoke : BatchExecutor) (st : batch_state)
    (rcv snt : list (PortId * PortPacket)) : Prop :=
  batch_accounts invoke st rcv snt ∧ ∀ e, st ≠ BatchFinished (Err e).

Lemma batch_owed_le st p : batch_owed st p ≤ 1.
Proof. unfold batch_owed. destruct st; try case_decide; lia. Qed.

(** The loop over the answer: nothing is received any more, and it ends well. *)
Lemma send_batch_outputs_shape ports outs :
  let st := send_batch_outputs ports in
  (∀ ins, batch_pending ins st = []) ∧ batch_unsent st = port_packets ports
  ∧ (∀ p, batch_owed st p = if decide (p ∈ (port_packets ports).*1) then 1 else 0)
  ∧ batch_weight outs st = length (port_packets ports) ∧ ∀ e, st ≠ BatchFinished (Err e).
Proof.
  induction ports as [|[p [|x xs]] ports IH]; [done|exact IH|]. intros st. by split_and!.
Qed.

Lemma batch_packets_bound invoke outs b out :
  batch_admissible invoke outs → invoke b = Ok out → length (batch_packets out) ≤ length outs.
Proof.
  intros Hadm Hi. destruct (Hadm b out Hi) as [Hnd Hin].
  rewrite <- (length_fmap fst (batch_packets out)). apply submseteq_length.
  by apply NoDup_submseteq.
Qed.

(** Everything has been received: the executor answers. *)
Definition batch_answer (invoke : BatchExecutor) (b : Batch) : batch_state :=
  match invoke b with
  | Ok out => send_batch_outputs (Batch.packets_by_port out)
  | Err e => BatchFinished (Err e)
  end.

Lemma batch_answer_weight invoke outs b :
  batch_admissible invoke outs → batch_weight outs (batch_answer invoke b) ≤ length outs.
Proof.
  intros Hadm. unfold batch_answer. destruct (invoke b) as [out|] eqn:Hi; [|simpl; lia].
  destruct (send_batch_outputs_shape (Batch.packets_by_port out) outs) as (_ & _ & _ & -> & _).
  exact (batch_packets_bound invoke outs b out Hadm Hi).
Qed.

(** A turn of a node that has not failed. *)
Notation turn_ok ins outs inputs outputs st w r rcv snt :=
  (one_turn outs inputs outputs (batch_pending ins) batch_owed (batch_weight outs) st w r.1 r.2 rcv snt
   ∧ ∀ e, r.1 ≠ BatchFinished (Err e)).

Lemma batch_answer_turn invoke ins outs inputs outputs b w w' :
  batch_admissible invoke outs → unchanged w w' →
  (∀ p j, p ∈ ins → reads inputs p j → drained w j) →
  let r := (batch_answer invoke b, w') in
  turn_ok ins outs inputs outputs (BatchReceiving b) w r [] []
  ∨ ∃ e, r.1 = BatchFinished (Err e) ∧ invoke b = Err e.
Proof.
  intros Hadm Hu Hd r. pose proof (batch_answer_weight invoke outs b Hadm) as Hw.
  unfold r, batch_answer in *. cbn [fst snd]. destruct (invoke b) as [out|e]; [left|right; eauto].
  destruct (send_batch_outputs_shape (Batch.packets_by_port out) outs) as (H1 & _ & _ & _ & H5).
  split; [|done]. apply turn_quiet; [done| | |intros; apply batch_owed_le|simpl; lia].
  - intros p. rewrite H1. set_solver.
  - intros p j Hp _ Hr. by eapply Hd.
Qed.

Lemma reads_handle ctx ins outs inputs outputs owes received due w p j :
  node_ready ctx ins outs inputs outputs owes received due w → reads inputs p j →
  ∃ h, h ∈ in_ports inputs ∧ in_port_id h = p ∧ j ∈ receivers h.
Proof.
  intros Hr (h & Hf & Hj). exists h. unfold find_input in Hf. apply iter_find_elem in Hf as [Hh Hp].
  by apply bool_decide_eq_true in Hp.
Qed.

Lemma batch_turn_receiving invoke ctx inputs outputs cx b w :
  batch_turn invoke ctx inputs outputs cx (BatchReceiving b) w
  = let (r, w) := poll_recv_any inputs (NodeContext.cancellation_token ctx) cx w in
    match r with
    | Pending => (BatchReceiving b, w)
    | Ready (Ok (Some (p, x))) => (BatchHead (Batch.push b p x), w)
    | Ready (Ok None) => (batch_answer invoke b, w)
    | Ready (Err e) => (BatchFinished (Err (PureflowError.from_port_recv e)), w)
    end.
Proof.
  cbn [batch_turn]. destruct (poll_recv_any _ _ _ _) as [[[[[]|]|]|] w1]; try done.
  unfold batch_answer. by destruct (invoke b).
Qed.

(** The poll of a receive. *)
Lemma batch_receiving_turn invoke ctx ins outs received due inputs outputs b w :
  batch_admissible invoke outs → node_ready ctx ins outs inputs outputs (λ _, 1) received due w →
  let st := BatchReceiving b in
  let r := batch_turn invoke ctx inputs outputs false st w in
  let rcv := batch_received_by ctx inputs false st w in
  turn_ok ins outs inputs outputs st w r rcv []
  ∨ ∃ e, r.1 = BatchFinished (Err e) ∧ invoke b = Err e ∧ rcv = [] ∧ unchanged w r.2.
Proof.
  intros Hadm Hready st. pose proof Hready as [Hact _ Hhandles _ _ _].
  unfold st. rewrite batch_turn_receiving. cbn [batch_received_by].
  assert (Hanswer : ∀ w1, unchanged w w1 →
    (∀ h, h ∈ in_ports inputs → Forall (drained w) (receivers h)) →
    let r := (batch_answer invoke b, w1) in
    turn_ok ins outs inputs outputs st w r [] []
    ∨ ∃ e, r.1 = BatchFinished (Err e) ∧ invoke b = Err e ∧ @nil (PortId * PortPacket) = []
           ∧ unchanged w r.2).
  { intros w1 Hu Hd. destruct (batch_answer_turn invoke ins outs inputs outputs b w w1 Hadm Hu)
      as [Ha|(e & He & Hi)]; [|by left|right; by exists e].
    intros p j _ Hr. destruct (reads_handle _ _ _ _ _ _ _ _ _ _ _ Hready Hr) as (h & Hh & _ & Hj).
    specialize (Hd h Hh). rewrite Forall_forall in Hd. by apply Hd. }
  destruct (decide (in_ports inputs = [])) as [Hnil|Hne].
  { unfold poll_recv_any. rewrite Hnil. cbn [fst snd]. apply Hanswer; [apply changes_refl|].
    rewrite Hnil. set_solver. }
  pose proof (poll_recv_any_spec inputs (NodeContext.cancellation_token ctx) w Hne
    (λ h Hh, proj2 (proj2 (Hhandles h Hh))) Hact) as Hp.
  destruct (poll_recv_any inputs _ false w) as [r w1].
  destruct (first_ready_port w (in_ports inputs)) as [[h x]|] eqn:Hf.
  - destruct Hp as [-> He]. destruct (first_ready_port_elem _ _ _ _ Hf) as (Hh & j & Hfr).
    unfold scan_effect in He. rewrite Hfr in He.
    destruct (first_ready_packet _ _ _ _ Hfr) as [Hj (v & q & Hv & Hq)].
    destruct (Hhandles h Hh) as (Hin & Hfi & _). cbn [fst snd]. left. split; [|done].
    eapply (turn_receive _ _ _ _ _ _ _ _ _ _ (in_port_id h) j v x q); try done; [by exists h|].
    simpl. lia.
  - destruct Hp as [Hu ->]. case_bool_decide as Hd; cbn [fst snd].
    + apply Hanswer; [done|]. rewrite Forall_forall in Hd. exact Hd.
    + left. split; [|done]. apply not_Forall_Exists in Hd; [|apply _].
      apply Exists_exists in Hd as (h & Hh & Hd). destruct (Hhandles h Hh) as (Hin & Hfi & Hst).
      destruct (not_ready_waits w (receivers h) Hst (first_ready_port_none _ _ _ Hf Hh) Hd)
        as (j & v & Hj & Hv & Hq & Hs).
      eapply (turn_wait _ _ _ _ _ _ _ _ _ (in_port_id h) j v); try done. by exists h.
Qed.

(** The poll of a send. *)
Lemma batch_sending_turn invoke ctx ins outs due inputs outputs p x xs ports w rcv snt :
  batch_admissible invoke outs →
  let st := BatchSending p x xs ports in
  batch_accounted invoke st rcv snt →
  node_ready ctx ins outs inputs outputs (batch_owed st) (length rcv) due w →
  let r := batch_turn invoke ctx inputs outputs false st w in
  turn_ok ins outs inputs outputs st w r [] (batch_sent_by ctx outputs st w).
Proof.
  intros Hadm st [(out & Hi & Hout) _] [Hact _ _ Houts Hval _].
  destruct (Hadm (batch_of rcv) out Hi) as [Hnd Hin]. rewrite Hout, fmap_app, fmap_cons in Hnd, Hin. simpl in Hnd, Hin.
  apply NoDup_app in Hnd as (_ & _ & [Hnew _]%NoDup_cons).
  assert (Hp : p ∈ outs) by (apply Hin; set_solver).
  assert (Hone : batch_owed st p = 1).
  { unfold st, batch_owed. rewrite decide_True; [done|]. simpl. by left. }
  destruct (Houts p Hp Hone) as (h & Hf & Hndh & Hst & Hroom).
  pose proof (poll_send_effect outputs p h x (NodeContext.cancellation_token ctx) w Hf Hndh Hst) as Hs.
  rewrite Hact, Hval in Hs. unfold send_outcome in Hs. rewrite Hroom in Hs.
  unfold st. cbn [batch_turn batch_sent_by].
  destruct (poll_send outputs p x _ w) as [r w1]. simpl in Hs. destruct Hs as [-> Hch].
  cbn [fst snd].
  destruct (send_batch_outputs_shape ((p, xs) :: ports) outs) as (H1 & _ & H3 & H4 & H5).
  split; [|done].
  eapply (turn_send _ _ _ _ _ _ _ _ _ _ p h x); [done|done|exact Hch|done| | | |].
  - by rewrite H3, decide_False.
  - intros q. by rewrite H1.
  - intros q _. rewrite H3. case_decide as Hq; [|lia]. unfold batch_owed.
    rewrite decide_True; [done|]. simpl. by right.
  - rewrite H4. simpl. lia.
Qed.

Lemma batch_not_failed (st : batch_state) :
  (∀ e, st ≠ BatchFinished (Err e)) → not_failed (E := BatchExecutor) st.
Proof. intros H err. destruct st; try done. intros [= ->]. by apply (H err). Qed.

Lemma batch_turns invoke ctx ins outs due inputs outputs st rcv snt w :
  batch_admissible invoke outs → batch_accounted invoke st rcv snt →
  node_result (E := BatchExecutor) st = None →
  node_ready ctx ins outs inputs outputs (batch_owed st) (length rcv) due w →
  let r := batch_turn invoke ctx inputs outputs false st w in
  let rcv' := batch_received_by ctx inputs false st w in
  let snt' := batch_sent_by ctx outputs st w in
  (one_turn outs inputs outputs (batch_pending ins) batch_owed (batch_weight outs) st w r.1 r.2
     rcv' snt'
   ∧ batch_accounted invoke r.1 (rcv ++ rcv') (snt ++ snt') ∧ not_failed (E := BatchExecutor) r.1)
  ∨ ∃ err, node_result (E := BatchExecutor) r.1 = Some (Err err) ∧ invoke (batch_of (rcv ++ rcv')) = Err err
           ∧ w_signals r.2 = w_signals w.
Proof.
  intros Hadm Hacc Hres Hready r rcv' snt'.
  assert (Hgood : turn_ok ins outs inputs outputs st w r rcv' snt' →
    one_turn outs inputs outputs (batch_pending ins) batch_owed (batch_weight outs) st w r.1 r.2
      rcv' snt'
    ∧ batch_accounted invoke r.1 (rcv ++ rcv') (snt ++ snt') ∧ not_failed (E := BatchExecutor) r.1).
  { intros [Hturn Hne]. split_and!; [done| |by apply batch_not_failed]. split; [|done].
    by apply batch_turn_accounts, Hacc. }
  destruct st as [b|b|p x xs ports|res]; [| | |done].
  - left. apply Hgood. split; [|done]. apply turn_quiet; [|done|done|done|simpl; lia].
    apply start_recv_any_unchanged.
  - destruct Hacc as [[-> _] _].
    destruct (batch_receiving_turn invoke ctx ins outs _ due inputs outputs (batch_of rcv) w Hadm Hready)
      as [Ht|(e & He & Hi & Hr & Hu)]; [left; by apply Hgood|right].
    exists e. split_and!; [| |apply Hu].
    + unfold r. by rewrite He.
    + unfold rcv'. rewrite Hr, app_nil_r. exact Hi.
  - left. apply Hgood. by eapply batch_sending_turn.
Qed.

Lemma batch_begins invoke (ins outs : list PortId) :
  let st := BatchHead Batch.new in
  batch_accounted invoke st [] [] ∧ (∀ p, p ∈ batch_pending ins st ↔ p ∈ ins)
  ∧ (∀ p, p ∈ outs → batch_owed st p ≤ 1) ∧ not_failed (E := BatchExecutor) st.
Proof. done. Qed.

Lemma batch_returns ins (outs : list PortId) st :
  node_result (E := BatchExecutor) st = Some (Ok tt) →
  batch_pending ins st = [] ∧ ∀ p, p ∈ outs → batch_owed st p = 0.
Proof. by destruct st. Qed.

(** Once the run is cancelled, a receive or a send ends the node; without inputs the
    executor is still asked. *)
Lemma batch_cancelled invoke ctx outs inputs outputs st w :
  batch_admissible invoke outs → node_result (E := BatchExecutor) st = None →
  CancellationToken.is_cancelled (w_signals w) (NodeContext.cancellation_token ctx) = true →
  let r := batch_turn invoke ctx inputs outputs false st w in
  w_signals r.2 = w_signals w ∧ batch_weight outs r.1 < batch_weight outs st.
Proof.
  intros Hadm Hres Hc. destruct st as [b|b|p x xs ports|]; [| | |done].
  - split; [apply start_recv_any_unchanged|simpl; lia].
  - rewrite batch_turn_receiving. pose proof (poll_recv_any_cancelled _ w Hc inputs false) as Hp.
    destruct (poll_recv_any inputs _ false w) as [r w1]. cbn [fst snd] in Hp.
    pose proof (batch_answer_weight invoke outs b Hadm) as Hw.
    destruct Hp as [-> [->|[e ->]]]; cbn [fst snd]; (split; [done|simpl in *; lia]).
  - cbn [batch_turn]. pose proof (poll_send_cancelled _ w Hc outputs p x) as Hp.
    destruct (poll_send outputs p x _ w) as [r w1]. cbn [fst snd] in Hp.
    destruct Hp as [-> [e ->]]. simpl. split; [done|lia].
Qed.

#[export] Instance batch_one_shot : OneShot BatchExecutor batch_state := {|
  admissible := λ invoke _ _ outs _, batch_admissible invoke outs;
  pending := batch_pending;
  owed := batch_owed;
  weight := λ _ outs, batch_weight outs;
  accounts := λ invoke _, batch_accounted invoke;
  fails := λ invoke _ rcv err, invoke (batch_of rcv) = Err err;
  runs := λ _ _, True;
  one_shot_runs_begin := λ _ _, I;
  one_shot_runs_turn := λ _ _ _ _ _ _ _, I;
  one_shot_begin := λ invoke _ ins outs _ _, batch_begins invoke ins outs;
  one_shot_result := λ _ _ ins outs _ st _ _ _ _, batch_returns ins outs st;
  one_shot_turn := λ invoke ctx ins outs due inputs outputs st rcv snt w Hadm Hacc Hres _,
    batch_turns invoke ctx ins outs due inputs outputs st rcv snt w Hadm Hacc Hres;
  one_shot_cancelled := λ invoke ctx _ outs _ inputs outputs st w Hadm _,
    batch_cancelled invoke ctx outs inputs outputs st w Hadm;
|}.
End batch.

(** ** Nodes of either kind *)

Section choice.
Context `{J : JsonNumber} {S : Type} `{!MetadataSink S} `{M : !Mpsc PortPacket}.
Context {E1 St1 E2 St2 : Type} `{NF1 : !NodeFuture (S := S) E1 St1}
  `{NF2 : !NodeFuture (S := S) E2 St2}.
Implicit Types w : world (S := S).

(** [CliNodeExecutor::run] runs the executor it holds. *)
#[export] Instance choice_future : NodeFuture (S := S) (E1 + E2) (St1 + St2) := {|
  node_begin := λ e ctx,
    match e with inl e => inl (node_begin e ctx) | inr e => inr (node_begin e ctx) end;
  node_turn := λ e ctx inputs outputs cx st w,
    match e, st with
    | inl e, inl st => let r := node_turn e ctx inputs outputs cx st w in (inl r.1, r.2)
    | inr e, inr st => let r := node_turn e ctx inputs outputs cx st w in (inr r.1, r.2)
    | _, _ => (st, w)
    end;
  node_result := λ st,
    match st with
    | inl st => node_result (E := E1) st
    | inr st => node_result (E := E2) st
    end;
  node_received := λ ctx inputs cx st w,
    match st with
    | inl st => node_received (E := E1) ctx inputs cx st w
    | inr st => node_received (E := E2) ctx inputs cx st w
    end;
  node_sent := λ ctx outputs st w,
    match st with
    | inl st => node_sent (E := E1) ctx outputs st w
    | inr st => node_sent (E := E2) ctx outputs st w
    end;
|}.

Context `{O1 : !OneShot E1 St1} `{O2 : !OneShot E2 St2}.

Definition choice_admissible (e : E1 + E2) (ctx : NodeContext) (ins outs : list PortId) (due : nat) :
    Prop :=
  match e with inl e => admissible e ctx ins outs due | inr e => admissible e ctx ins outs due end.
Definition choice_pending (ins : list PortId) (st : St1 + St2) : list PortId :=
  match st with inl st => pending ins st | inr st => pending ins st end.
Definition choice_owed (st : St1 + St2) (p : PortId) : nat :=
  match st with inl st => owed st p | inr st => owed st p end.
Definition choice_weight (e : E1 + E2) (outs : list PortId) (st : St1 + St2) : nat :=
  match e, st with
  | inl e, inl st => weight e outs st
  | inr e, inr st => weight e outs st
  | _, _ => 0
  end.
Definition choice_accounts (e : E1 + E2) (ctx : NodeContext) (st : St1 + St2)
    (rcv snt : list (PortId * PortPacket)) : Prop :=
  match e, st with
  | inl e, inl st => accounts e ctx st rcv snt
  | inr e, inr st => accounts e ctx st rcv snt
  | _, _ => False
  end.

Definition choice_fails (e : E1 + E2) (ctx : NodeContext) (rcv : list (PortId * PortPacket))
    (err : PureflowError) : Prop :=
  match e with inl e => fails e ctx rcv err | inr e => fails e ctx rcv err end.

(** An executor of one kind has states of that kind only. *)
Definition choice_runs (e : E1 + E2) (st : St1 + St2) : Prop :=
  match e, st with
  | inl e, inl st => runs e st
  | inr e, inr st => runs e st
  | _, _ => False
  end.

Lemma choice_runs_begin e ctx : choice_runs e (node_begin e ctx).
Proof. destruct e; apply one_shot_runs_begin. Qed.

Lemma choice_runs_turn e ctx inputs outputs st w :
  choice_runs e st → choice_runs e (node_turn e ctx inputs outputs false st w).1.
Proof. destruct e, st; try done; apply one_shot_runs_turn. Qed.

Lemma choice_begins e ctx ins outs due :
  choice_admissible e ctx ins outs due →
  let st := node_begin e ctx in
  choice_accounts e ctx st [] [] ∧ (∀ p, p ∈ choice_pending ins st ↔ p ∈ ins)
  ∧ (∀ p, p ∈ outs → choice_owed st p ≤ 1) ∧ not_failed (E := E1 + E2) st.
Proof. destruct e as [e|e]; intros H; exact (one_shot_begin e ctx ins outs due H). Qed.

Lemma choice_returns e ctx ins outs due st rcv snt :
  choice_admissible e ctx ins outs due → choice_accounts e ctx st rcv snt →
  node_result st = Some (Ok tt) →
  choice_pending ins st = [] ∧ ∀ p, p ∈ outs → choice_owed st p = 0.
Proof.
  destruct e as [e|e], st as [st|st]; try done; intros Hadm Hacc Hres;
    exact (one_shot_result e ctx ins outs due st rcv snt Hadm Hacc Hres).
Qed.

(** The turns of one kind of node are turns of a node of either kind. *)
Lemma one_turn_map {A B} (inj : A → B) outs inputs outputs (pa : A → list PortId)
    (pb : B → list PortId) oa ob wa wb st w st' w' rcv snt :
  (∀ s, pb (inj s) = pa s) → (∀ s, ob (inj s) = oa s) → (∀ s, wb (inj s) = wa s) →
  one_turn outs inputs outputs pa oa wa st w st' w' rcv snt →
  one_turn outs inputs outputs pb ob wb (inj st) w (inj st') w' rcv snt.
Proof.
  intros Hp Ho Hw H. destruct H.
  - apply turn_quiet; rewrite ?Hp, ?Ho, ?Hw; done.
  - eapply turn_receive; rewrite ?Hp, ?Ho, ?Hw; done.
  - eapply turn_send; rewrite ?Hp, ?Ho, ?Hw; done.
  - eapply turn_wait; rewrite ?Hp; done.
Qed.

Lemma choice_turns e ctx ins outs due inputs outputs st rcv snt w :
  choice_admissible e ctx ins outs due → choice_accounts e ctx st rcv snt →
  node_result st = None → (∀ p, p ∈ choice_pending ins st → p ∈ ins) →
  node_ready ctx ins outs inputs outputs (choice_owed st) (length rcv) due w →
  let r := node_turn e ctx inputs outputs false st w in
  let rcv' := node_received ctx inputs false st w in
  let snt' := node_sent ctx outputs st w in
  (one_turn outs inputs outputs (choice_pending ins) choice_owed (choice_weight e outs) st w r.1 r.2
     rcv' snt'
   ∧ choice_accounts e ctx r.1 (rcv ++ rcv') (snt ++ snt') ∧ not_failed (E := E1 + E2) r.1)
  ∨ ∃ err, node_result r.1 = Some (Err err) ∧ choice_fails e ctx (rcv ++ rcv') err
           ∧ w_signals r.2 = w_signals w.
Proof.
  destruct e as [e|e], st as [st|st]; try done; intros Hadm Hacc Hres Hp Hready;
    destruct (one_shot_turn e ctx ins outs due inputs outputs st rcv snt w Hadm Hacc Hres Hp Hready)
      as [[Hturn Hrest]|Hfail]; [left; split; [|exact Hrest]|by right|left; split; [|exact Hrest]|by right].
  - by eapply (one_turn_map inl).
  - by eapply (one_turn_map inr).
Qed.

Lemma choice_cancelled e ctx ins outs due inputs outputs st w :
  choice_admissible e ctx ins outs due → choice_runs e st → node_result st = None →
  CancellationToken.is_cancelled (w_signals w) (NodeContext.cancellation_token ctx) = true →
  let r := node_turn e ctx inputs outputs false st w in
  w_signals r.2 = w_signals w ∧ choice_weight e outs r.1 < choice_weight e outs st.
Proof.
  destruct e as [e|e], st as [st|st]; try done; intros Hadm Hst Hres Hc;
    exact (one_shot_cancelled e ctx ins outs due inputs outputs st w Hadm Hst Hres Hc).
Qed.

#[export] Instance choice_one_shot : OneShot (E1 + E2) (St1 + St2) := {|
  admissible := choice_admissible;
  pending := choice_pending;
  owed := choice_owed;
  weight := choice_weight;
  accounts := choice_accounts;
  fails := choice_fails;
  runs := choice_runs;
  one_shot_runs_begin := choice_runs_begin;
  one_shot_runs_turn := choice_runs_turn;
  one_shot_begin := choice_begins;
  one_shot_result := choice_returns;
  one_shot_turn := choice_turns;
  one_shot_cancelled := choice_cancelled;
|}.
End choice.
