(* ===== verification/CliCompletes.v ===== *)
(** Whole runs of the command line end.

    A run without a component manifest has native nodes only, one with a manifest has
    batch nodes too.  Both kinds keep the promise of [OneShot] (CliSystem.v), so their
    runs end with the collector's summary (RunEnds.v): all nodes completed, or the error
    of a component.  A component that sends more packets on a port than its edge holds
    can make a run wait for ever. *)

From Stdlib Require Import Lia.
From stdpp Require Import functions.
From S2P Require Import Prelude RustStr BTree Types Workflow Structure Topology Validation Errors Json Context Message Metadata MetadataSink Channel Ports PortsSpec Traffic Wiring Engine Runtime EngineRun BatchNode NodeSystem OneShot RunInvariant RunCompletes RunEnds CliNode CliSystem.

(** The output ports of a native node, in the order it sends on them. *)
Definition routes_of (workflow : WorkflowDefinition) (node : NodeDefinition) :
    list (nat * (PortId * list MessageEndpoint)) :=
  enumerate (CliNativeExecutor.output_routes (native_executor_of workflow node)).

(** The turns that a native node and a batch node may take besides those for packets. *)
Definition native_bound (workflow : WorkflowDefinition) (node : NodeDefinition) : nat :=
  2 * length (NodeDefinition.input_ports node) + length (routes_of workflow node).
Definition batch_bound (node : NodeDefinition) : nat := length (NodeDefinition.output_ports node) + 2.

(** The rounds that are enough for a run whose nodes may take [bound] turns besides. *)
Definition run_bound (workflow : WorkflowDefinition) (bound : NodeDefinition → nat) : nat :=
  sum_list_with (λ node, 2 * indegree workflow (NodeDefinition.id node) + bound node + 2)
    (WorkflowDefinition.nodes workflow).

(** ** Native nodes of a workflow *)

Section native.
Context `{J : JsonNumber} {S : Type} `{!MetadataSink S} `{M : !Mpsc PortPacket}.
Context (workflow : WorkflowDefinition) (execution : ExecutionMetadata).
Notation executor_of := (native_executor_of workflow).

Definition node_context (token : CancellationToken) (node : NodeDefinition) : NodeContext :=
  NodeContext.mk (WorkflowDefinition.id workflow) (NodeDefinition.id node) execution token.

(** The identifiers of the messages of a node can be made. *)
Definition node_messages_named (node : NodeDefinition) : bool :=
  messages_named (executor_of node) (node_context (CancellationToken.mk 0) node).

Lemma routes_ports node : (routes_of workflow node).*2.*1
  = BTreeMap.keys (CliNativeExecutor.output_routes (executor_of node)).
Proof. unfold routes_of. by rewrite enumerate_snd. Qed.

Lemma elem_of_routes_ports node p :
  p ∈ (routes_of workflow node).*2.*1 ↔ p ∈ NodeDefinition.output_ports node.
Proof.
  rewrite routes_ports. simpl. rewrite BTreeMap.elem_of_keys_collect, <- list_fmap_compose.
  rewrite list_elem_of_fmap. simpl. naive_solver.
Qed.

Lemma NoDup_routes_ports node : NoDup (routes_of workflow node).*2.*1.
Proof. rewrite routes_ports. apply BTreeMap.sorted_map_NoDup, BTreeMap.sorted_map_collect. Qed.

Lemma native_node_admissible node token :
  node_messages_named node = true →
  native_admissible (executor_of node) (node_context token node) (NodeDefinition.input_ports node)
    (NodeDefinition.output_ports node)
  ∧ native_weight (executor_of node) (cli_begin (executor_of node) (node_context token node))
    ≤ native_bound workflow node.
Proof.
  intros Hm. split; [split|].
  - done.
  - apply elem_of_routes_ports.
  - apply NoDup_routes_ports.
  - exact Hm.
  - by apply next_input_shape.
Qed.

Lemma native_executor_found node :
  NoDup (NodeDefinition.id <$> WorkflowDefinition.nodes workflow) →
  node ∈ WorkflowDefinition.nodes workflow →
  executor_for (native_registry_for_workflow workflow) (NodeDefinition.id node)
  = Ok (executor_of node).
Proof.
  intros Hnd Hnode. unfold executor_for, static_registry. apply ok_or_ok.
  apply native_registry_spec; [done|]. by exists node.
Qed.

(** A native node that has sent everything has sent one packet from each port. *)
Lemma route_packets_ports ctx n routes snt :
  route_packets ctx n routes = Ok snt → snt.*1 = routes.*2.*1.
Proof.
  unfold route_packets. revert snt. induction routes as [|r routes IH]; intros snt; simpl.
  { by intros [= <-]. }
  destruct (cli_output_packet ctx r.2.1 r.2.2 r.1 (count_of n)) as [x|]; simpl; [|done].
  destruct (try_collect _ routes) as [xs|] eqn:Hxs; simpl; [|done].
  intros [= <-]. rewrite !fmap_cons. f_equal. by apply IH.
Qed.

Lemma sent_from_once p (snt : list (PortId * PortPacket)) :
  NoDup snt.*1 → p ∈ snt.*1 → length (sent_from p snt) = 1.
Proof.
  unfold sent_from. rewrite length_fmap. induction snt as [|[q x] snt IH]; [set_solver|].
  rewrite fmap_cons, filter_cons. intros [Hq Hnd]%NoDup_cons Hp. simpl in *.
  case_decide as Heq; [|apply IH; set_solver]. subst q. simpl. f_equal.
  destruct (filter _ snt) as [|y l] eqn:Hf; [done|]. exfalso. apply Hq.
  assert (Hy : y ∈ y :: l) by left. rewrite <- Hf in Hy.
  apply list_elem_of_filter in Hy as [<- Hy]. by apply list_elem_of_fmap_2.
Qed.
End native.

(** ** Properties *)

Section property.
Context `{J : JsonNumber} {S : Type} `{!MetadataSink S} `{M : !Mpsc PortPacket}
  `{!MpscDrop PortPacket}.
Context (workflow : WorkflowDefinition) (execution : ExecutionMetadata) (w : world (S := S))
  (rounds : list (list NodeId))
  (Hsink : ∀ sig (s : S) r, (sink_record sig s r).1 = Ok tt)
  (Hvalid : structurally_valid (WorkflowDefinition.nodes workflow)
              (WorkflowDefinition.edges workflow))
  (Hports : Forall ports_distinct (WorkflowDefinition.nodes workflow))
  (Hacyclic : acyclic (arcs (WorkflowDefinition.edges workflow)))
  (Hsimple : NoDup (arcs (WorkflowDefinition.edges workflow)))
  (Hfits : (N.of_nat (length (WorkflowDefinition.nodes workflow)) ≤ USIZE_MAX)%N)
  (Hrounds : Forall (round workflow) rounds).
Notation nodes := (WorkflowDefinition.nodes workflow).

(** The summary of a run all of whose nodes have completed. *)
Definition all_completed : WorkflowRunSummary :=
  let n := N.of_nat (length nodes) in
  WorkflowRunSummary.mk WorkflowTerminalState.Completed n n 0 0 0 0 None None.

(** The nodes of a run in turns and the collector of their results, from the start
    until every node has had its turns in each round. *)
Definition whole_run {E St : Type} `{NF : !NodeFuture (S := S) E St} (c : CancellationHandle)
    (starts : list (NodeStart E)) (w' : world (S := S)) : collected_run (S := S) St :=
  run_collected (mk_collection c workflow execution WorkflowRunPolicy.default) starts
    (concat rounds) (collection_start (length nodes) w').

(** C4. A run of native nodes always completes.  For a valid workflow whose message
    identifiers fit, with a sink that accepts its records, the engine prepares the
    run; and whatever the order of the turns of the node tasks, once every task has
    had [run_bound] rounds of turns, the collector's summary counts every node as
    completed, and every node has returned [Ok], has received exactly one packet from
    each edge into it, and has sent on each output port the packet that reports this
    number: no deadlock, no lost packet, and a result that does not depend on the
    schedule. *)
Theorem native_run_completes
  (Hmessages : Forall (node_messages_named workflow execution) nodes)
  (Henough : run_bound workflow (native_bound workflow) ≤ length rounds) :
  ∃ c starts w',
    prepare_run workflow execution (executor_for (native_registry_for_workflow workflow))
      WorkflowRunPolicy.default None w = Done (Ok (c, starts), w')
    ∧ let C := whole_run c starts w' in
      let R := col_system C in
      col_summary C = Ok all_completed
      ∧ ∀ node, node ∈ nodes →
        let n := NodeDefinition.id node in
        let ctx := node_context workflow execution (CancellationHandle.token c) node in
        task_at (sys_tasks R n) = TaskEnded (Ok tt)
        ∧ length (task_received (sys_tasks R n)) = indegree workflow n
        ∧ route_packets ctx (indegree workflow n) (routes_of workflow node)
          = Ok (task_sent (sys_tasks R n)).
Proof.
  rewrite Forall_forall in Hmessages.
  destruct (one_shot_run_ends workflow execution (native_executor_of workflow)
    (executor_for (native_registry_for_workflow workflow)) (native_bound workflow) w rounds
    Hsink Hvalid Hports Hacyclic Hsimple Hfits) as (c & starts & w' & Hprep & Hend & Hall);
    [|intros node token Hnode; by apply native_node_admissible, Is_true_eq_true, Hmessages|done|done|].
  { intros node. by apply native_executor_found, Hvalid. }
  exists c, starts, w'. split; [exact Hprep|]. intros C R. fold (whole_run c starts w') in Hend, Hall.
  fold C in Hend, Hall. destruct Hall as [[Herr Hall]|(nd & err & _ & _ & _ & [])].
  split; [exact (run_ended_completed workflow C Hend Herr)|].
  assert (Hsent : ∀ node, node ∈ nodes →
    let t := sys_tasks R (NodeDefinition.id node) in
    route_packets (node_context workflow execution (CancellationHandle.token c) node)
      (length (task_received t)) (routes_of workflow node) = Ok (task_sent t)).
  { intros node Hnode t. destruct (Hall node Hnode) as (_ & _ & st & Hres & Hacc & _).
    destruct st as [| | |r]; simplify_eq/=. by rewrite length_fmap in Hacc. }
  intros node Hnode n ctx. destruct (Hall node Hnode) as (Ht & Hflow & _).
  assert (Hrcv : length (task_received (sys_tasks R n)) = indegree workflow n).
  { etrans; [exact (Permutation_length Hflow)|]. rewrite length_arriving. apply sum_list_with_const.
    intros ie [Hie Htn]%elem_of_in_edges. unfold sent_on.
    destruct (edge_source_node workflow Hvalid ie Hie) as (nd & Hnd & Hid & Hp).
    rewrite <- Hid. specialize (Hsent nd Hnd). apply route_packets_ports in Hsent.
    apply sent_from_once; fold R; rewrite Hsent; [apply NoDup_routes_ports|by apply elem_of_routes_ports]. }
  split_and!; [done|done|]. rewrite <- Hrcv. by apply Hsent.
Qed.

(** *** Runs with components *)

Context (components : NodeId → option BatchExecutor).

(** The executors of a run with a manifest: [components] gives the batch executor of
    each node the manifest names. *)
Definition mixed_executor (n : NodeId) : result (CliNativeExecutor + BatchExecutor) PureflowError :=
  match components n with
  | Some invoke => Ok (inr invoke)
  | None => let? executor := executor_for (native_registry_for_workflow workflow) n in
            Ok (inl executor)
  end.

Definition mixed_bound (node : NodeDefinition) : nat :=
  match components (NodeDefinition.id node) with
  | Some _ => batch_bound node
  | None => native_bound workflow node
  end.

(** The node has returned [Ok]; it has received exactly the packets that the nodes
    upstream have sent on the edges into it, each on the port its edge leads to; a
    component node has sent what its component makes of the batch it received, and a
    native node one packet on each output port, which reports how many it received. *)
Definition node_completed (token : CancellationToken)
    (R : run_system (S := S) (cli_state + batch_state)) (node : NodeDefinition) : Prop :=
  let n := NodeDefinition.id node in
  let t := sys_tasks R n in
  task_at t = TaskEnded (Ok tt)
  ∧ task_received t ≡ₚ arriving workflow (sent_on R) n
  ∧ match components n with
    | Some invoke =>
        ∃ out, invoke (batch_of (task_received t)) = Ok out ∧ task_sent t = batch_packets out
    | None =>
        route_packets (node_context workflow execution token node)
          (length (task_received t)) (routes_of workflow node) = Ok (task_sent t)
    end.

(** The node has returned the error of its component. *)
Definition component_failed (R : run_system (S := S) (cli_state + batch_state))
    (node : NodeDefinition) (err : PureflowError) : Prop :=
  let t := sys_tasks R (NodeDefinition.id node) in
  task_at t = TaskEnded (Err err)
  ∧ ∃ invoke, components (NodeDefinition.id node) = Some invoke
              ∧ invoke (batch_of (task_received t)) = Err err.

Context
  (Hmessages : ∀ node, node ∈ nodes → components (NodeDefinition.id node) = None →
     node_messages_named workflow execution node = true)
  (Hcomponents : ∀ node invoke, node ∈ nodes → components (NodeDefinition.id node) = Some invoke →
     batch_admissible invoke (NodeDefinition.output_ports node))
  (Henough : run_bound workflow mixed_bound ≤ length rounds).

Lemma mixed_run_ended :
  ∃ c starts w',
    prepare_run workflow execution mixed_executor WorkflowRunPolicy.default None w
    = Done (Ok (c, starts), w')
    ∧ let C := whole_run c starts w' in
      let R := col_system C in
      run_ended workflow C
      ∧ ((errors_of (col_results C).*2 = []
          ∧ ∀ node, node ∈ nodes → node_completed (CancellationHandle.token c) R node)
         ∨ ∃ node err, node ∈ nodes ∧ head (errors_of (col_results C).*2) = Some err
                       ∧ component_failed R node err).
Proof.
  set (executor_of := λ node, match components (NodeDefinition.id node) with
                              | Some invoke => inr invoke
                              | None => inl (native_executor_of workflow node)
                              end : CliNativeExecutor + BatchExecutor).
  destruct (one_shot_run_ends workflow execution executor_of mixed_executor mixed_bound w rounds
    Hsink Hvalid Hports Hacyclic Hsimple Hfits) as (c & starts & w' & Hprep & Hend & Hall);
    [| |done|done|].
  { intros node Hnode. unfold mixed_executor, executor_of.
    destruct (components _); [done|]. by rewrite native_executor_found by (done || apply Hvalid). }
  { intros node token Hnode. specialize (Hmessages node Hnode). specialize (Hcomponents node).
    unfold executor_of, mixed_bound. destruct (components _) as [invoke|].
    - by split; [apply Hcomponents|].
    - by apply native_node_admissible, Hmessages. }
  exists c, starts, w'. split; [exact Hprep|]. intros C R. fold (whole_run c starts w') in Hend, Hall.
  fold C R in Hend, Hall. split; [exact Hend|].
  destruct Hall as [[Herr Hall]|(node & err & Hnode & Herr & Ht & Hf)]; [left|right].
  - split; [exact Herr|]. intros node Hnode. unfold node_completed.
    destruct (Hall node Hnode) as (Ht & Hflow & st & Hres & Hacc).
    split_and!; [done|done|]. unfold executor_of in Hacc.
    destruct (components _) as [invoke|], st as [st|st]; try done; destruct Hacc as [Hacc _].
    + destruct st as [| | |[]]; simplify_eq/=. destruct Hacc as (out & Hi & <-). by exists out.
    + destruct st as [| | |[]]; simplify_eq/=. by rewrite length_fmap in Hacc.
  - exists node, err. split_and!; [done|done|]. split; [done|]. unfold executor_of in Hf.
    destruct (components _) as [invoke|]; [|by destruct Hf]. by exists invoke.
Qed.

End property.

(** ** Examples *)

Section examples.
Let port (s : string) : PortId := ident s.
Let endpoint (n p : string) : EdgeEndpoint := EdgeEndpoint.new (ident n) (ident p).
Let edge (n p m q : string) : EdgeDefinition := EdgeDefinition.new (endpoint n p) (endpoint m q).
Let execution : ExecutionMetadata := ExecutionMetadata.first_attempt (ident "cli-run-1").
Let start : world (S := list MetadataRecord) := mk_world [] [] [].

(** A diamond, whose sink is declared first. *)
Let nodes : list NodeDefinition :=
  [NodeDefinition.mk (ident "sink") [port "l"; port "r"] [];
   NodeDefinition.mk (ident "left") [port "in"] [port "out"];
   NodeDefinition.mk (ident "right") [port "in"] [port "out"];
   NodeDefinition.mk (ident "feed") [] [port "out"]].
Let edges : list EdgeDefinition :=
  [edge "feed" "out" "left" "in"; edge "feed" "out" "right" "in";
   edge "left" "out" "sink" "l"; edge "right" "out" "sink" "r"].
Let wf : WorkflowDefinition := WorkflowDefinition.new (ident "flow") (WorkflowGraph.mk nodes edges).
Let rounds : list (list NodeId) :=
  replicate 29 [ident "sink"; ident "feed"; ident "right"; ident "left"; ident "feed"].

Lemma diamond_valid :
  structurally_valid nodes edges ∧ acyclic (arcs edges) ∧ NoDup (arcs edges)
  ∧ Forall ports_distinct nodes ∧ Forall (round wf) rounds
  ∧ ∀ node, node ∈ nodes → node_messages_named wf execution node = true.
Proof.
  assert (Hg : WorkflowGraph.new nodes edges = Done (Ok (WorkflowGraph.mk nodes edges)))
    by (vm_compute; reflexivity).
  destruct (graph_new_outcome nodes edges) as [(_ & Hv & Ha & Hn)|(e & He & _)];
    [|rewrite Hg in He; discriminate He].
  split_and!; [exact Hv|exact Ha|exact Hn|repeat constructor; set_solver| |].
  - apply Forall_replicate. intros n Hn'. unfold node_names in Hn'. simpl in Hn'. set_solver.
  - intros node Hnode.
    repeat (apply elem_of_cons in Hnode as [->|Hnode]; [reflexivity|]). by inversion Hnode.
Qed.

Lemma diamond_fits : (N.of_nat (length nodes) ≤ USIZE_MAX)%N.
Proof. by vm_compute. Qed.

Lemma native_run_completes_witness :
  run_bound wf (native_bound wf) = 27
  ∧ ∃ c starts w',
      prepare_run wf execution (executor_for (native_registry_for_workflow wf))
        WorkflowRunPolicy.default None start = Done (Ok (c, starts), w')
      ∧ let C := whole_run wf execution rounds c starts w' in
        col_summary C = Ok (all_completed wf)
        ∧ length (task_received (sys_tasks (col_system C) (ident "sink"))) = 2.
Proof.
  split; [reflexivity|]. destruct diamond_valid as (Hv & Ha & Hn & Hp & Hr & Hm).
  destruct (native_run_completes wf execution start rounds ltac:(done) Hv Hp Ha Hn diamond_fits Hr)
    as (c & starts & w' & Hprep & Hsum & Hend).
  - apply Forall_forall. intros node Hnode. rewrite (Hm node Hnode). exact I.
  - apply (bool_decide_eq_true_1 _). reflexivity.
  - exists c, starts, w'. split; [exact Hprep|]. split; [exact Hsum|].
    destruct (Hend (NodeDefinition.mk (ident "sink") [port "l"; port "r"] [])) as (_ & H2 & _);
      [left|exact H2].
Defined.

(** The component of the node on the left passes its input on. *)
Let relay : BatchExecutor := λ b,
  Ok (Batch.from_packets
        [(port "out", match Batch.packets b (port "in") with x :: _ => [x] | [] => [] end)]).
Let components (n : NodeId) : option BatchExecutor :=
  if decide (n = ident "left") then Some relay else None.

Lemma relay_admissible : batch_admissible relay [port "out"].
Proof.
  intros b out [= <-].
  destruct (Batch.packets b (port "in")) as [|x l].
  - split; [constructor|]. intros p Hp. by apply not_elem_of_nil in Hp.
  - split; [apply NoDup_singleton|]. intros p Hp. exact Hp.
Qed.

(** The component of the node on the left fails. *)
Let refusal : PureflowError := PureflowError.execution (lit "refused").
Let refusing (n : NodeId) : option BatchExecutor :=
  if decide (n = ident "left") then Some (λ _, Err refusal) else None.

End examples.

(** ** A run that waits for ever *)

(** The edges of a workflow hold one packet unless their capacity is given, a native
    node reads its input ports one after the other, and a batch node sends its answer
    port by port.  Here the component sends two packets to [last] on its first port,
    while [last] reads the port fed by [relay] first, and [relay] waits for the second
    port of the component. *)
Section deadlock.
Let port (s : string) : PortId := ident s.
Let edge (n p m q : string) : EdgeDefinition :=
  EdgeDefinition.new (EdgeEndpoint.new (ident n) (ident p)) (EdgeEndpoint.new (ident m) (ident q)).
Let nodes : list NodeDefinition :=
  [NodeDefinition.mk (ident "wasm") [] [port "x"; port "y"];
   NodeDefinition.mk (ident "relay") [port "in"] [port "out"];
   NodeDefinition.mk (ident "last") [port "slow"; port "fast"] []].
Let edges : list EdgeDefinition :=
  [edge "wasm" "x" "last" "fast"; edge "wasm" "y" "relay" "in"; edge "relay" "out" "last" "slow"].
Let wf : WorkflowDefinition := WorkflowDefinition.new (ident "flow") (WorkflowGraph.mk nodes edges).
Let execution : ExecutionMetadata := ExecutionMetadata.first_attempt (ident "cli-run-1").
Let packet (id : string) : PortPacket :=
  MessageEnvelope.new
    (MessageMetadata.new (ident id) (ident "flow") execution
       (MessageRoute.new None (MessageEndpoint.new (ident "last") (ident "fast"))))
    (PacketPayload.Control Value.Null).
Let answer : BatchExecutor := λ _, Ok (Batch.from_packets [(port "x", [packet "m1"; packet "m2"])]).
Let components (n : NodeId) : option BatchExecutor :=
  if decide (n = ident "wasm") then Some answer else None.
Let start : world (S := NoopMetadataSink) := mk_world [] noop_sink [].

Let executor_of (node : NodeDefinition) : CliNativeExecutor + BatchExecutor :=
  match components (NodeDefinition.id node) with
  | Some invoke => inr invoke
  | None => inl (native_executor_of wf node)
  end.
Let starts := start_for wf execution executor_of 0 (CancellationToken.mk 0) <$> nodes.
(** Three empty channels, one for each edge, and the signals of the run and its nodes. *)
Let ready : world (S := NoopMetadataSink) :=
  mk_world (replicate 3 (mk_view [] 0 1 true true)) noop_sink (replicate 4 None).
(** Every node has had six turns. *)
Let stuck := run_schedule starts (concat (replicate 6 (node_names nodes))) (spawned ready).

Lemma stuck_tasks :
  sys_tasks stuck (ident "wasm")
    = mk_task (TaskRunning (inr (BatchSending (port "x") (packet "m2") [] [])))
        [] [(port "x", packet "m1")]
  ∧ sys_tasks stuck (ident "relay") = mk_task (TaskRunning (inl (CliReceiving (port "in") [] 0 0))) [] []
  ∧ sys_tasks stuck (ident "last")
    = mk_task (TaskRunning (inl (CliReceiving (port "slow") [port "fast"] 0 0))) [] []
  ∧ sys_world stuck
    = mk_world [mk_view [packet "m1"] 0 1 true true; mk_view [] 0 1 true true;
                mk_view [] 0 1 true true] noop_sink (replicate 4 None).
Proof. split_and!; reflexivity. Qed.

(** The workflow is accepted and its run is prepared; but from there on no order of
    turns makes any of the three nodes return. *)
Example component_run_deadlocks :
  WorkflowGraph.new nodes edges = Done (Ok (WorkflowGraph.mk nodes edges))
  ∧ prepare_run wf execution (mixed_executor wf components) WorkflowRunPolicy.default None start
    = Done (Ok (CancellationHandle.mk (CancellationToken.mk 0), starts), ready)
  ∧ ∀ schedule n, n ∈ node_names nodes →
      task_ended (sys_tasks (run_schedule starts schedule stuck) n) = false.
Proof.
  split_and!; [vm_compute; reflexivity|reflexivity|]. intros schedule n Hn.
  destruct stuck_tasks as (H1 & H2 & H3 & Hw).
  assert (Hsame : same_system stuck (run_schedule starts schedule stuck)).
  { apply schedule_of_each_same. unfold starts, nodes. cbn [fmap list_fmap].
    rewrite Hw. repeat constructor. }
  rewrite <- (proj1 Hsame n).
  repeat (apply elem_of_cons in Hn as [->|Hn]; [cbn [NodeDefinition.id];
    first [rewrite H1|rewrite H2|rewrite H3]; reflexivity|]). by inversion Hn.
Qed.
End deadlock.
