(* ===== verification/RuleSystem.v ===== *)
(** Rule nodes in a run
    (src/crates/pureflow-rules/src/node.rs, [NodeExecutor for RuleNode]).

    The interfaces [NodeFuture] and [OneShot] for rule nodes (RuleNode.v).  A rule node
    sends at most one packet for each packet it receives, so it keeps the promise of
    [OneShot] where it has the one input port it reads, at most one packet is sent to
    it, and its actions name output ports it has, which is what the contract layer
    checks (RuleDeployment.v). *)

From Stdlib Require Import Lia.
From S2P Require Import Prelude RustStr BTree Types Workflow Errors Json Context Message Metadata MetadataSink Rules RuleEval Channel Ports PortsSpec Traffic RuleContract RuleNode RuleDeployment Wiring Engine Runtime EngineRun NodeSystem OneShot CliSystem.

Section rule.
Context `{J : JsonNumber} `{!JsonDisplay} `{F : FloatDisplay} {S : Type} `{!MetadataSink S}
  `{M : !Mpsc PortPacket}.
Implicit Types w : world (S := S).

(** A run of a rule node: the node with its packet counter, where the run is, and the
    packets it has received with the numbers they drew. *)
Record rule_future : Type := mk_rule_future {
  rf_node : RuleNode;
  rf_state : run_state;
  rf_received : list (N * PortPacket);
}.

#[export] Instance rule_node_future : NodeFuture (S := S) RuleNode rule_future := {|
  node_begin := λ node _, mk_rule_future node Begin [];
  node_turn := λ _ ctx inputs outputs cx st w,
    let '(node, st', w') := turn ctx inputs outputs cx (rf_node st) (rf_state st) w in
    (mk_rule_future node st'
       (rf_received st ++ received_by ctx inputs cx (rf_node st) (rf_state st) w), w');
  node_result := λ st, match rf_state st with Finished r => Some r | _ => None end;
  node_received := λ ctx inputs cx st w,
    match rf_state st with
    | Receiving p => (λ sp, (p, sp.2)) <$> received_by ctx inputs cx (rf_node st) (rf_state st) w
    | _ => []
    end;
  node_sent := λ ctx outputs st w, sent_by ctx outputs (rf_state st) w;
|}.

(** ** The answer to a packet *)

(** What the rule set makes of a packet: the send it needs, if any, or the error. *)
Definition rule_answer (ctx : NodeContext) (node : RuleNode) (packet : PortPacket) :
    result (option (SendKind * PortId * PortPacket)) PureflowError :=
  let? decision :=
    map_err (λ e, PureflowError.execution (lit "rule evaluation error: " ++ RuleError.fmt e))
      (evaluate (rule_set node) packet (packet_context ctx packet)) in
  start_action (RuleDecision.action decision) ctx (packet_counter node) packet.

Lemma process_packet_answer ctx node packet w :
  let '(node', r, w') := process_packet ctx node packet w in
  r = rule_answer ctx node packet ∧ rule_set node' = rule_set node ∧ unchanged w w'.
Proof.
  unfold process_packet, rule_answer.
  destruct (evaluate_ok (rule_set node) packet (packet_context ctx packet)) as [d ->]. simpl.
  split_and!; [done|done|apply record_to_unchanged].
Qed.

Lemma routed_packet_port ctx rs seq packet port forwarded :
  (port, forwarded) ∈ routed_packet ctx rs seq packet →
  ∃ site a, action_at rs site a ∧ action_port a = Some port.
Proof.
  unfold routed_packet. destruct (evaluate rs packet _) as [d|] eqn:Hd; [|set_solver].
  destruct (decision_site _ _ _ _ Hd) as [site Hs]. intros Hin. exists site, (RuleDecision.action d).
  split; [done|]. destruct (RuleDecision.action d); try set_solver;
    destruct (forward_packet _ _ _ _); try set_solver;
    apply list_elem_of_singleton in Hin; by injection Hin as -> _.
Qed.

(** ** The promise *)

Record rule_admissible (node : RuleNode) (ins outs : list PortId) (due : nat) : Prop := {
  ra_inputs : ins = [ident "in"];
  ra_due : due ≤ 1;
  ra_ports : ∀ site a port,
    action_at (rule_set node) site a → action_port a = Some port → port ∈ outs;
}.

Definition rule_pending (ins : list PortId) (st : rule_future) : list PortId :=
  match rf_state st with Finished _ => [] | _ => ins end.

(** A packet is owed as long as none has been received, and while one is being sent. *)
Definition rule_owed (st : rule_future) (p : PortId) : nat :=
  match rf_state st, rf_received st with
  | Sending _ _ q _, _ => if decide (p = q) then 1 else 0
  | Finished _, _ => 0
  | _, [] => 1
  | _, _ => 0
  end.

Definition rule_weight (st : rule_future) : nat :=
  match rf_state st, rf_received st with
  | Begin, _ => 5
  | LoopHead _, [] => 4
  | LoopHead _, _ => 2
  | Receiving _, [] => 3
  | Receiving _, _ => 1
  | Sending _ _ _ _, _ => 3
  | Finished _, _ => 0
  end.

(** At most one packet has been received, and the rule set has an answer to it. *)
Definition rule_taken (ctx : NodeContext) (node : RuleNode) (st : rule_future) : Prop :=
  match rf_received st with
  | [] => packet_counter (rf_node st) = packet_counter node
  | [(seq, packet)] => seq = packet_counter node ∧ is_ok (rule_answer ctx node packet) = true
  | _ => False
  end.

Record rule_accounts (node : RuleNode) (ctx : NodeContext) (st : rule_future)
    (rcv snt : list (PortId * PortPacket)) : Prop := {
  rac_rules : rule_set (rf_node st) = rule_set node;
  rac_received : rcv = (λ sp, (ident "in", sp.2)) <$> rf_received st;
  rac_taken : rule_taken ctx node st;
  rac_sent : run_accounts ctx (rule_set node) (rf_state st) (rf_received st) snt;
  rac_port : match rf_state st with
             | LoopHead p | Receiving p | Sending p _ _ _ => p = ident "in"
             | _ => True
             end;
  rac_ok : not_failed (E := RuleNode) st;
}.

(** The error is the answer to the packet received. *)
Definition rule_fails (node : RuleNode) (ctx : NodeContext) (rcv : list (PortId * PortPacket))
    (err : PureflowError) : Prop :=
  ∃ packet, rcv = [(ident "in", packet)] ∧ rule_answer ctx node packet = Err err.

Lemma rule_owed_le st p : rule_owed st p ≤ 1.
Proof. unfold rule_owed. repeat (case_match || case_decide); lia. Qed.

(** After a packet an active run goes round the loop. *)
Lemma after_packet_active ctx p w :
  CancellationToken.is_cancelled (w_signals w) (NodeContext.cancellation_token ctx) = false →
  after_packet ctx p w = LoopHead p.
Proof. intros Hact. unfold after_packet. by rewrite Hact. Qed.

Lemma rule_accounts_turn node ctx inputs outputs st w rcv snt :
  rule_accounts node ctx st rcv snt →
  let r := node_turn node ctx inputs outputs false st w in
  run_accounts ctx (rule_set node) (rf_state r.1) (rf_received r.1)
    (snt ++ node_sent (E := RuleNode) ctx outputs st w)
  ∧ rule_set (rf_node r.1) = rule_set node.
Proof.
  intros Hacc r. unfold r. cbn [node_turn node_sent rule_node_future].
  pose proof (turn_accounts ctx inputs outputs false (rf_node st) (rf_state st) w (rf_received st) snt)
    as Ht.
  pose proof (turn_node ctx inputs outputs false (rf_node st) (rf_state st) w) as [Hn _].
  rewrite (rac_rules _ _ _ _ _ Hacc) in Ht, Hn. specialize (Ht (rac_sent _ _ _ _ _ Hacc)).
  destruct (turn _ _ _ _ _ _ _) as [[node' st'] w']. by split.
Qed.

Notation turn_ok e ctx ins outs inputs outputs st w r rcv snt rcv' snt' :=
  (one_turn outs inputs outputs (rule_pending ins) rule_owed rule_weight st w r.1 r.2 rcv' snt'
   ∧ rule_accounts e ctx r.1 (rcv ++ rcv') (snt ++ snt')).

(** The poll of a receive. *)
Lemma rule_receiving_turn node ctx ins outs due inputs outputs n p taken rcv snt w :
  rule_admissible node ins outs due →
  let st := mk_rule_future n (Receiving p) taken in
  rule_accounts node ctx st rcv snt →
  node_ready ctx ins outs inputs outputs (rule_owed st) (length rcv) due w →
  let r := node_turn node ctx inputs outputs false st w in
  let rcv' := node_received (E := RuleNode) ctx inputs false st w in
  turn_ok node ctx ins outs inputs outputs st w r rcv snt rcv' []
  ∨ ∃ err, node_result (E := RuleNode) r.1 = Some (Err err)
           ∧ rule_fails node ctx (rcv ++ rcv') err ∧ w_signals r.2 = w_signals w.
Proof.
  intros Hadm st Hacc [Hact Hins Hhandles _ _ Hdue] r rcv'.
  pose proof (rule_accounts_turn node ctx inputs outputs st w rcv snt Hacc) as Hsent. cbv zeta in Hsent.
  fold r in Hsent. destruct Hsent as [Hsent Hrules].
  pose proof (rac_port _ _ _ _ _ Hacc) as Hp. simpl in Hp. subst p.
  assert (Hin : ident "in" ∈ ins) by (rewrite (ra_inputs _ _ _ _ Hadm); by left).
  destruct (Hins _ Hin) as [h Hf].
  assert (Hh : h ∈ in_ports inputs) by (unfold find_input in Hf; by apply iter_find_elem in Hf as [? _]).
  destruct (Hhandles h Hh) as (_ & _ & Hst).
  destruct (poll_recv_spec inputs (ident "in") h (NodeContext.cancellation_token ctx) w Hf Hst Hact)
    as [Hr He].
  revert r rcv' Hsent Hrules. unfold st.
  cbn [node_turn node_received node_sent node_result rule_node_future rf_node rf_state rf_received turn
    received_by sent_by].
  destruct (poll_recv inputs (ident "in") _ false w) as [o w1]. simpl in Hr, He. subst o.
  unfold recv_result, scan_effect in *.
  destruct (first_ready w (receivers h)) as [[j x]|] eqn:Hfr.
  - destruct (first_ready_packet _ _ _ _ Hfr) as [Hj (v & q & Hv & Hq)].
    assert (Hne : vec_is_empty (receivers h) = false) by (by destruct (receivers h); [set_solver|]).
    rewrite Hne. clear Hne.
    assert (taken = [] ∧ rcv = [] ∧ packet_counter n = packet_counter node) as (-> & -> & Hcount).
    { pose proof (Hdue _ j v x q Hin (ex_intro _ h (conj Hf Hj)) Hv Hq) as Hlt.
      pose proof (ra_due _ _ _ _ Hadm). rewrite (rac_received _ _ _ _ _ Hacc) in Hlt |- *.
      pose proof (rac_taken _ _ _ _ _ Hacc) as Htk. unfold rule_taken in Htk. simpl in *.
      rewrite length_fmap in Hlt. destruct taken; [done|simpl in Hlt; lia]. }
    assert (Hanswer : rule_answer ctx n x = rule_answer ctx node x).
    { unfold rule_answer. pose proof (rac_rules _ _ _ _ _ Hacc) as Hrs. simpl in Hrs.
      by rewrite Hrs, Hcount. }
    pose proof (process_packet_answer ctx n x w1) as Hpr.
    destruct (process_packet ctx n x w1) as [[n' o] w2]. destruct Hpr as (Ho & Hrs & Hu).
    rewrite Hanswer in Ho. subst o. assert (Hch : changes after_recv [j] w w2)
      by (by eapply changes_unchanged_r).
    assert (Hsig : w_signals w2 = w_signals w) by apply Hch.
    rewrite after_packet_active by (by rewrite Hsig).
    destruct (rule_answer ctx node x) as [o|err] eqn:Ha.
    2: { intros _ _. right. exists err. split_and!; [done| |done]. by exists x. }
    assert (Hgood : ∀ st', (st' = LoopHead (ident "in") ∨ ∃ kind q f, st' = Sending (ident "in") kind q f) →
      run_accounts ctx (rule_set node) st' [(packet_counter n, x)] (snt ++ []) →
      turn_ok node ctx ins outs inputs outputs st w
        (mk_rule_future n' st' [(packet_counter n, x)], w2) [] snt [(ident "in", x)] []).
    { intros st' Hshape Hs. split; cbn [fst snd].
      - eapply (turn_receive _ _ _ _ _ _ _ _ _ _ (ident "in") j v x q); try done.
        + by exists h.
        + intros q'. unfold rule_pending. by destruct Hshape as [->|(? & ? & ? & ->)].
        + intros q' _. apply rule_owed_le.
        + unfold rule_weight. destruct Hshape as [->|(? & ? & ? & ->)]; simpl; lia.
      - split; [exact (eq_trans Hrs (rac_rules _ _ _ _ _ Hacc))|done| |exact Hs| |].
        + unfold rule_taken. simpl. by rewrite Ha, Hcount.
        + by destruct Hshape as [->|(? & ? & ? & ->)].
        + by destruct Hshape as [->|(? & ? & ? & ->)]. }
    intros Hsent _. left. destruct o as [[[kind port] f]|]; (apply Hgood; [|exact Hsent]); eauto 6.
  - assert (Hclose : Forall (drained w) (receivers h) → unchanged w w1 →
      let st' := mk_rule_future n (Finished (Ok tt)) (taken ++ []) in
      run_accounts ctx (rule_set node) (rf_state st') (rf_received st') (snt ++ []) →
      turn_ok node ctx ins outs inputs outputs st w (st', w1) rcv snt [] []).
    { intros Hd Hu st' Hs. split.
      - apply turn_quiet; [done|set_solver| | |].
        + intros p j Hp _ (h' & Hf' & Hj). unfold rule_pending in Hp. simpl in Hp.
          rewrite (ra_inputs _ _ _ _ Hadm) in Hp. apply list_elem_of_singleton in Hp as ->.
          rewrite Hf in Hf'. injection Hf' as <-. rewrite Forall_forall in Hd. by apply Hd.
        + intros p _. unfold rule_owed at 1. simpl. lia.
        + unfold rule_weight. simpl. destruct taken; lia.
      - destruct Hacc as [H1 H2 H3 _ _ _]. unfold rule_taken in H3. rewrite !app_nil_r. unfold st' in *.
        rewrite !app_nil_r in *. by split. }
    destruct (vec_is_empty (receivers h)) eqn:Hempty; [|case_bool_decide as Hd]; cbn [fst snd];
      intros Hsent _; left.
    + apply Hclose; [|done|exact Hsent]. destruct (receivers h); [constructor|done].
    + by apply Hclose.
    + destruct (not_ready_waits w (receivers h) Hst Hfr Hd) as (j & v & Hj & Hv & Hq & Hs).
      rewrite !app_nil_r. split; [|done].
      eapply (turn_wait _ _ _ _ _ _ _ _ _ (ident "in") j v); try done. by exists h.
Qed.

(** The poll of a send: the port is one the node has, and it has room. *)
Lemma rule_sending_turn node ctx ins outs due inputs outputs n p kind port x taken rcv snt w :
  rule_admissible node ins outs due →
  let st := mk_rule_future n (Sending p kind port x) taken in
  rule_accounts node ctx st rcv snt →
  node_ready ctx ins outs inputs outputs (rule_owed st) (length rcv) due w →
  let r := node_turn node ctx inputs outputs false st w in
  let snt' := node_sent (E := RuleNode) ctx outputs st w in
  turn_ok node ctx ins outs inputs outputs st w r rcv snt [] snt'.
Proof.
  intros Hadm st Hacc [Hact _ _ Houts Hval _] r snt'.
  pose proof (rule_accounts_turn node ctx inputs outputs st w rcv snt Hacc) as Hsent. cbv zeta in Hsent.
  fold r snt' in Hsent. destruct Hsent as [Hsent Hrules].
  pose proof (rac_port _ _ _ _ _ Hacc) as Hp. simpl in Hp. subst p.
  pose proof (rac_taken _ _ _ _ _ Hacc) as Htk. unfold rule_taken in Htk. simpl in Htk.
  pose proof (rac_sent _ _ _ _ _ Hacc) as Hrouted. simpl in Hrouted.
  assert (Hport : (port, x) ∈ routed ctx (rule_set node) taken) by (rewrite Hrouted; set_solver).
  destruct taken as [|[seq packet] [|]]; [by apply not_elem_of_nil in Hport| |done].
  unfold routed in Hport. simpl in Hport. rewrite app_nil_r in Hport.
  destruct (routed_packet_port _ _ _ _ _ _ Hport) as (site & a & Ha & Hap).
  pose proof (ra_ports _ _ _ _ Hadm site a port Ha Hap) as Hout.
  assert (Hone : rule_owed st port = 1) by (unfold rule_owed; simpl; by rewrite decide_True).
  destruct (Houts port Hout Hone) as (h & Hf & Hndh & Hst & Hroom).
  pose proof (poll_send_effect outputs port h x (NodeContext.cancellation_token ctx) w Hf Hndh Hst)
    as Hs.
  rewrite Hact, Hval in Hs. unfold send_outcome in Hs. rewrite Hroom in Hs.
  revert r snt' Hsent Hrules. unfold st.
  cbn [node_turn node_sent rule_node_future rf_node rf_state rf_received turn received_by sent_by].
  destruct (poll_send outputs port x _ w) as [o w1]. simpl in Hs. destruct Hs as [-> Hch].
  assert (Hsig : w_signals w1 = w_signals w) by apply Hch.
  rewrite after_packet_active by (by rewrite Hsig). cbn [fst snd]. rewrite !app_nil_r.
  intros Hsent Hrules. split.
  - eapply (turn_send _ _ _ _ _ _ _ _ _ _ port h x); [done|done|exact Hch|done|done|done| |].
    + intros q _. unfold rule_owed at 1. simpl. lia.
    + unfold rule_weight. simpl. lia.
  - split; [exact Hrules|apply Hacc|exact (rac_taken _ _ _ _ _ Hacc)|exact Hsent|done|done].
Qed.

Lemma rule_begins node ctx ins outs due :
  rule_admissible node ins outs due →
  let st := node_begin node ctx in
  rule_accounts node ctx st [] [] ∧ (∀ p, p ∈ rule_pending ins st ↔ p ∈ ins)
  ∧ (∀ p, p ∈ outs → rule_owed st p ≤ 1) ∧ not_failed (E := RuleNode) st.
Proof. intros _. split_and!; [by split|done|intros; apply rule_owed_le|done]. Qed.

Lemma rule_returns ins (outs : list PortId) st :
  node_result (E := RuleNode) st = Some (Ok tt) →
  rule_pending ins st = [] ∧ ∀ p, p ∈ outs → rule_owed st p = 0.
Proof.
  destruct st as [n st taken]. cbn [node_result rule_node_future rf_state].
  unfold rule_pending, rule_owed. by destruct st.
Qed.

Lemma rule_turns node ctx ins outs due inputs outputs st rcv snt w :
  rule_admissible node ins outs due → rule_accounts node ctx st rcv snt →
  node_result (E := RuleNode) st = None →
  node_ready ctx ins outs inputs outputs (rule_owed st) (length rcv) due w →
  let r := node_turn node ctx inputs outputs false st w in
  let rcv' := node_received (E := RuleNode) ctx inputs false st w in
  let snt' := node_sent (E := RuleNode) ctx outputs st w in
  (one_turn outs inputs outputs (rule_pending ins) rule_owed rule_weight st w r.1 r.2 rcv' snt'
   ∧ rule_accounts node ctx r.1 (rcv ++ rcv') (snt ++ snt') ∧ not_failed (E := RuleNode) r.1)
  ∨ ∃ err, node_result (E := RuleNode) r.1 = Some (Err err)
           ∧ rule_fails node ctx (rcv ++ rcv') err ∧ w_signals r.2 = w_signals w.
Proof.
  intros Hadm Hacc Hres Hready r rcv' snt'.
  cut (turn_ok node ctx ins outs inputs outputs st w r rcv snt rcv' snt'
    ∨ ∃ err, node_result (E := RuleNode) r.1 = Some (Err err)
             ∧ rule_fails node ctx (rcv ++ rcv') err ∧ w_signals r.2 = w_signals w).
  { intros [[Hturn Ha]|Hfail]; [left|by right]. split_and!; [done|done|apply Ha]. }
  pose proof (rule_accounts_turn node ctx inputs outputs st w rcv snt Hacc) as Hsent. cbv zeta in Hsent.
  fold r snt' in Hsent. destruct Hsent as [Hsent Hrules].
  destruct st as [n [|p|p|p kind port x|res] taken]; [| |by eapply rule_receiving_turn
    |left; by eapply rule_sending_turn|done]; left; revert r rcv' snt' Hsent Hrules;
    cbn [node_turn node_received node_sent rule_node_future rf_node rf_state rf_received turn
      received_by sent_by]; rewrite ?in_port_ok; cbn [map_err]; rewrite !app_nil_r;
    intros Hsent Hrules; (split; [apply turn_quiet; cbn [fst snd]|]).
  - apply changes_refl.
  - done.
  - done.
  - intros q _. unfold rule_owed. simpl. by destruct taken.
  - unfold rule_weight. simpl. destruct taken; lia.
  - split; [exact Hrules|apply Hacc|exact (rac_taken _ _ _ _ _ Hacc)|exact Hsent|done|done].
  - unfold start_recv. destruct (find_input _ p); [apply record_to_unchanged|apply changes_refl].
  - done.
  - done.
  - done.
  - unfold rule_weight. simpl. destruct taken; lia.
  - split; [exact Hrules|apply Hacc|exact (rac_taken _ _ _ _ _ Hacc)|exact Hsent
      |exact (rac_port _ _ _ _ _ Hacc)|done].
Qed.

(** Once the run is cancelled, a receive or a send ends the node. *)
Lemma rule_cancelled (node : RuleNode) ctx inputs outputs st w :
  node_result (E := RuleNode) st = None →
  CancellationToken.is_cancelled (w_signals w) (NodeContext.cancellation_token ctx) = true →
  let r := node_turn node ctx inputs outputs false st w in
  w_signals r.2 = w_signals w ∧ rule_weight r.1 < rule_weight st.
Proof.
  intros Hres Hc. destruct st as [n [|p|p|p kind port x|res] taken]; [| | | |done];
    cbn [node_turn rule_node_future rf_node rf_state rf_received turn received_by].
  - rewrite in_port_ok. cbn [map_err fst snd]. split; [done|]. unfold rule_weight. simpl.
    destruct (taken ++ []); lia.
  - rewrite app_nil_r. split; [|unfold rule_weight; simpl; destruct taken; lia].
    cbn [snd]. unfold start_recv. destruct (find_input _ p); [by apply record_to_unchanged|done].
  - pose proof (poll_recv_cancelled _ w Hc inputs p false) as Hp.
    destruct (poll_recv inputs p _ false w) as [r w1]. cbn [fst snd] in Hp.
    destruct Hp as [Hs [->|[[] ->]]]; cbn [fst snd]; (split; [exact Hs|]); unfold rule_weight;
      simpl; destruct taken; lia.
  - pose proof (poll_send_cancelled _ w Hc outputs port x) as Hp.
    destruct (poll_send outputs port x _ w) as [r w1]. cbn [fst snd] in Hp.
    destruct Hp as [-> [e ->]]. split; [done|]. unfold rule_weight. simpl. lia.
Qed.

#[export] Instance rule_one_shot : OneShot RuleNode rule_future := {|
  admissible := λ node _ ins outs due, rule_admissible node ins outs due;
  pending := rule_pending;
  owed := rule_owed;
  weight := λ _ _, rule_weight;
  accounts := rule_accounts;
  fails := rule_fails;
  runs := λ _ _, True;
  one_shot_runs_begin := λ _ _, I;
  one_shot_runs_turn := λ _ _ _ _ _ _ _, I;
  one_shot_begin := rule_begins;
  one_shot_result := λ _ _ ins outs _ st _ _ _ _, rule_returns ins outs st;
  one_shot_turn := λ node ctx ins outs due inputs outputs st rcv snt w Hadm Hacc Hres _,
    rule_turns node ctx ins outs due inputs outputs st rcv snt w Hadm Hacc Hres;
  one_shot_cancelled := λ node ctx _ _ _ inputs outputs st w _ _,
    rule_cancelled node ctx inputs outputs st w;
|}.
End rule.
