(* ===== verification/RuleRun.v ===== *)
(** Whole runs of the engine with rule nodes.

    A registry gives every node a rule node, a batch executor or a native executor.  The
    rule sets have been accepted by the contract layer (RuleContract.v), which is what
    keeps a rule node from sending to a port it does not have (RuleDeployment.v); with
    the promise of RuleSystem.v the runs end as RunEnds.v says. *)

From Stdlib Require Import Lia.
From stdpp Require Import functions.
From S2P Require Import Prelude RustStr BTree Types Workflow Structure Topology Validation Errors Json Context Message Metadata MetadataSink Rules RuleEval Channel Ports PortsSpec Traffic RuleContract RuleNode RuleDeployment Wiring Engine Runtime EngineRun BatchNode NodeSystem OneShot RunInvariant RunCompletes RunEnds CliNode CliSystem CliCompletes RuleSystem.

Section property.
Context `{J : JsonNumber} `{!JsonDisplay} `{F : FloatDisplay} {S : Type} `{!MetadataSink S}
  `{M : !Mpsc PortPacket} `{!MpscDrop PortPacket}.
Context (workflow : WorkflowDefinition) (execution : ExecutionMetadata) (w : world (S := S))
  (rounds : list (list NodeId)).
Notation nodes := (WorkflowDefinition.nodes workflow).
Notation edges := (WorkflowDefinition.edges workflow).

(** What the registry gives a node other than the native executor. *)
Context (assigned : NodeId → option (BatchExecutor + RuleNode)).

Definition routed_executor (node : NodeDefinition) :
    (CliNativeExecutor + BatchExecutor) + RuleNode :=
  match assigned (NodeDefinition.id node) with
  | None => inl (inl (native_executor_of workflow node))
  | Some (inl invoke) => inl (inr invoke)
  | Some (inr rule_node) => inr rule_node
  end.

Definition routed_bound (node : NodeDefinition) : nat :=
  match assigned (NodeDefinition.id node) with
  | None => native_bound workflow node
  | Some (inl _) => batch_bound node
  | Some (inr _) => 5
  end.

(** What a node of each kind has sent when it has completed.  A rule node has found an
    answer to each packet, and has sent the packets its rule set routes. *)
Definition sent_as_told (token : CancellationToken) (node : NodeDefinition)
    (rcv snt : list (PortId * PortPacket)) : Prop :=
  let ctx := node_context workflow execution token node in
  match assigned (NodeDefinition.id node) with
  | None => route_packets ctx (length rcv) (routes_of workflow node) = Ok snt
  | Some (inl invoke) => ∃ out, invoke (batch_of rcv) = Ok out ∧ snt = batch_packets out
  | Some (inr rule_node) =>
      Forall (λ pp, is_ok (rule_answer ctx rule_node pp.2) = true) rcv
      ∧ snt = routed ctx (rule_set rule_node) ((λ pp, (packet_counter rule_node, pp.2)) <$> rcv)
  end.

(** The error a node of each kind may end the run with. *)
Definition own_error (token : CancellationToken) (node : NodeDefinition)
    (rcv : list (PortId * PortPacket)) (err : PureflowError) : Prop :=
  let ctx := node_context workflow execution token node in
  match assigned (NodeDefinition.id node) with
  | None => False
  | Some (inl invoke) => invoke (batch_of rcv) = Err err
  | Some (inr rule_node) =>
      ∃ packet, rcv = [(ident "in", packet)] ∧ rule_answer ctx rule_node packet = Err err
  end.

(** A rule node that the contract layer has accepted, and that is sent one packet at
    most. *)
Definition rule_node_deployed (node : NodeDefinition) (rule_node : RuleNode) : Prop :=
  NodeDefinition.input_ports node = [ident "in"]
  ∧ indegree workflow (NodeDefinition.id node) ≤ 1
  ∧ validate_rule_set workflow (NodeDefinition.id node) (rule_set rule_node) = Done (Ok tt).

Lemma deployed_admissible node rule_node :
  NoDup (node_names nodes) → node ∈ nodes → rule_node_deployed node rule_node →
  rule_admissible rule_node (NodeDefinition.input_ports node) (NodeDefinition.output_ports node)
    (indegree workflow (NodeDefinition.id node)).
Proof.
  intros Hnd Hnode (Hin & Hdeg & Hacc). split; [done|done|]. intros site a port.
  eapply accepted_action_port; [exact Hacc|]. by apply node_by_id_unique.
Qed.

Lemma completed_sent token node st rcv snt :
  node_result (E := (CliNativeExecutor + BatchExecutor) + RuleNode) st = Some (Ok tt) →
  accounts (routed_executor node) (node_context workflow execution token node) st rcv snt →
  sent_as_told token node rcv snt.
Proof.
  unfold sent_as_told, routed_executor.
  destruct (assigned _) as [[invoke|rule_node]|], st as [[st|st]|st]; try done; intros Hres Hacc.
  - destruct Hacc as [Hacc _]. destruct st as [| | |[]]; simplify_eq/=.
    destruct Hacc as (out & Hi & <-). by exists out.
  - destruct Hacc as [_ -> Htaken Hsent _ _]. destruct st as [n st taken].
    unfold rule_taken in Htaken. simpl in *. destruct st as [| | | |[]]; simplify_eq/=.
    destruct taken as [|[seq packet] [|]]; [by split|simpl|done].
    destruct Htaken as [-> Hok]. by split; [repeat constructor|].
  - destruct Hacc as [Hacc _]. destruct st as [| | |[]]; simplify_eq/=.
    by rewrite length_fmap in Hacc.
Qed.

(** C5. A run of the engine with rule nodes, components and native nodes ends, when: the
    workflow is valid and has no two edges between the same two nodes; the registry has
    an executor for each of its nodes; each rule node has one input port, [in], at most
    one edge into it, and a rule set that the contract layer accepts for it; each
    component fails or answers with at most one packet for each output port of its node;
    the message identifiers of the native nodes fit into an identifier; and the sink
    takes every record.  (Without the condition on components a run may wait for ever, see
    [component_run_deadlocks].)  Whatever the order of the turns, once every task has had
    enough rounds of turns every node has returned.  The result is [Ok] only when every
    node has completed: it has received exactly what was sent on the edges into it, and has sent
    what it is there for, a rule node the packet that its rule set routes.  Otherwise
    the result is the error of a component, or of a rule set that halts the run or
    routes a packet that no message identifier can be made for; it is never that a port
    is missing. *)
Theorem routed_run_ends
  (lookup : NodeId → result ((CliNativeExecutor + BatchExecutor) + RuleNode) PureflowError)
  (Hsink : ∀ sig (s : S) r, (sink_record sig s r).1 = Ok tt)
  (Hvalid : structurally_valid nodes edges) (Hports : Forall ports_distinct nodes)
  (Hacyclic : acyclic (arcs edges)) (Hsimple : NoDup (arcs edges))
  (Hfits : (N.of_nat (length nodes) ≤ USIZE_MAX)%N)
  (Hrounds : Forall (round workflow) rounds)
  (Hregistry : ∀ node, node ∈ nodes → lookup (NodeDefinition.id node) = Ok (routed_executor node))
  (Hmessages : ∀ node, node ∈ nodes → assigned (NodeDefinition.id node) = None →
     node_messages_named workflow execution node = true)
  (Hcomponents : ∀ node invoke, node ∈ nodes →
     assigned (NodeDefinition.id node) = Some (inl invoke) →
     batch_admissible invoke (NodeDefinition.output_ports node))
  (Hrules : ∀ node rule_node, node ∈ nodes →
     assigned (NodeDefinition.id node) = Some (inr rule_node) → rule_node_deployed node rule_node)
  (Henough : run_bound workflow routed_bound ≤ length rounds) :
  ∃ c starts w',
    prepare_run workflow execution lookup WorkflowRunPolicy.default None w
    = Done (Ok (c, starts), w')
    ∧ let C := whole_run workflow execution rounds c starts w' in
      let R := col_system C in
      let task node := sys_tasks R (NodeDefinition.id node) in
      (∀ node, node ∈ nodes → task_ended (task node) = true)
      ∧ match run_result C with
        | Ok _ => col_summary C = Ok (all_completed workflow)
            ∧ ∀ node, node ∈ nodes →
              task_at (task node) = TaskEnded (Ok tt)
              ∧ task_received (task node) ≡ₚ arriving workflow (sent_on R) (NodeDefinition.id node)
              ∧ sent_as_told (CancellationHandle.token c) node (task_received (task node))
                  (task_sent (task node))
        | Err err => ∃ node, node ∈ nodes ∧ task_at (task node) = TaskEnded (Err err)
            ∧ own_error (CancellationHandle.token c) node (task_received (task node)) err
        end.
Proof.
  destruct (one_shot_run_ends workflow execution routed_executor lookup routed_bound w rounds
    Hsink Hvalid Hports Hacyclic Hsimple Hfits Hregistry) as (c & starts & w' & Hprep & Hend & Hall);
    [|done|done|].
  { intros node token Hnode. specialize (Hmessages node Hnode). specialize (Hcomponents node).
    specialize (Hrules node). unfold routed_executor, routed_bound.
    destruct (assigned _) as [[invoke|rule_node]|].
    - by split; [apply Hcomponents|].
    - split; [|simpl; unfold rule_weight; simpl; lia].
      apply deployed_admissible; [apply Hvalid|done|by apply Hrules].
    - by apply native_node_admissible, Hmessages. }
  exists c, starts, w'. split; [exact Hprep|]. intros C R task.
  fold (whole_run workflow execution rounds c starts w') in Hend, Hall. fold C in Hend, Hall.
  split; [intros node; exact (run_ended_tasks workflow C node Hend)|].
  rewrite (run_ended_result workflow C Hend).
  destruct Hall as [[Herr Hall]|(node & err & Hnode & -> & Ht & Hf)].
  - rewrite Herr. split; [exact (run_ended_completed workflow C Hend Herr)|].
    intros node Hnode. destruct (Hall node Hnode) as (Ht & Hflow & st & Hres & Hacc).
    split_and!; [done|done|]. by eapply completed_sent.
  - exists node. split_and!; [done|done|]. unfold routed_executor in Hf. unfold own_error.
    destruct (assigned _) as [[invoke|rule_node]|]; exact Hf.
Qed.
End property.

(** ** Examples *)

Section examples.
#[local] Instance no_float_text : FloatDisplay := λ _, lit "float".
#[local] Instance no_json_text : JsonDisplay := λ _, lit "json".
Let edge (n p m q : string) : EdgeDefinition :=
  EdgeDefinition.new (EdgeEndpoint.new (ident n) (ident p)) (EdgeEndpoint.new (ident m) (ident q)).
Let execution : ExecutionMetadata := ExecutionMetadata.first_attempt (ident "run-1").
Let start : world (S := list MetadataRecord) := mk_world [] [] [].

(** A source, a router and two sinks. *)
Let router : NodeDefinition :=
  NodeDefinition.mk (ident "router") [ident "in"] [ident "high"; ident "low"].
Let nodes : list NodeDefinition :=
  [NodeDefinition.mk (ident "feed") [] [ident "out"]; router;
   NodeDefinition.mk (ident "first") [ident "in"] []; NodeDefinition.mk (ident "second") [ident "in"] []].
Let edges : list EdgeDefinition :=
  [edge "feed" "out" "router" "in"; edge "router" "high" "first" "in";
   edge "router" "low" "second" "in"].
Let wf : WorkflowDefinition := WorkflowDefinition.new (ident "flow") (WorkflowGraph.mk nodes edges).
Let rounds : list (list NodeId) := replicate 25 (node_names nodes).

Let rules (action : RuleAction) : RuleNode :=
  rule_node_new (RuleSet.mk (lit "orders") EvaluationStrategy.FirstMatch
    [Rule.mk (lit "all") (Condition.SourceNode (ident "feed")) action 0 []] RuleAction.Drop false).
Let assigned (action : RuleAction) (n : NodeId) : option (BatchExecutor + RuleNode) :=
  if decide (n = ident "router") then Some (inr (rules action)) else None.
Let lookup (action : RuleAction) (n : NodeId) :
    result ((CliNativeExecutor + BatchExecutor) + RuleNode) PureflowError :=
  match node_by_id nodes n with
  | Some node => Ok (routed_executor wf (assigned action) node)
  | None => Err (PureflowError.execution (lit "unknown node"))
  end.

Lemma router_valid :
  structurally_valid nodes edges ∧ acyclic (arcs edges) ∧ NoDup (arcs edges)
  ∧ Forall ports_distinct nodes ∧ Forall (round wf) rounds
  ∧ ∀ node, node ∈ nodes → node_messages_named wf execution node = true.
Proof.
  assert (Hg : WorkflowGraph.new nodes edges = Done (Ok (WorkflowGraph.mk nodes edges)))
    by (vm_compute; reflexivity).
  destruct (graph_new_outcome nodes edges) as [(_ & Hv & Ha & Hn)|(e & He & _)];
    [|rewrite Hg in He; discriminate He].
  split_and!; [exact Hv|exact Ha|exact Hn| |apply Forall_replicate; by intros n Hin|].
  { repeat apply Forall_cons_2; [..|constructor]; split; apply (bool_decide_eq_true_1 _); reflexivity. }
  intros node Hnode. repeat (apply elem_of_cons in Hnode as [->|Hnode]; [reflexivity|]). by inversion Hnode.
Qed.

(** The answer of the rule set to a packet is always to route it, or to drop it. *)
Lemma route_answers ctx packet :
  NodeContext.node_id ctx = ident "router" →
  is_ok (rule_answer ctx (rules (RuleAction.Route (ident "high"))) packet) = true.
Proof.
  intros Hid. unfold rule_answer.
  destruct (evaluate_ok (rule_set (rules (RuleAction.Route (ident "high")))) packet
    (packet_context ctx packet)) as [d Hd].
  rewrite Hd. destruct (decision_site _ _ _ _ Hd) as [[id|] Hs]; simpl in Hs.
  - destruct Hs as (r & Hin%list_elem_of_singleton & _ & Ha). subst r. simpl in Ha.
    simpl. rewrite <- Ha. simpl. unfold forward_packet. rewrite Hid. reflexivity.
  - simpl. by rewrite <- Hs.
Qed.

(** The run completes, and the router has sent what its rule set routes. *)
Lemma routed_run_ends_witness :
  run_bound wf (routed_bound wf (assigned (RuleAction.Route (ident "high")))) = 24
  ∧ let action := RuleAction.Route (ident "high") in
    ∃ c starts w',
      prepare_run wf execution (lookup action) WorkflowRunPolicy.default None start
      = Done (Ok (c, starts), w')
      ∧ let C := whole_run wf execution rounds c starts w' in
        let t := sys_tasks (col_system C) (ident "router") in
        run_result C = Ok tt
        ∧ task_sent t = routed (node_context wf execution (CancellationHandle.token c) router)
            (rule_set (rules action)) ((λ pp, (0%N, pp.2)) <$> task_received t).
Proof.
  destruct router_valid as (Hv & Ha & Hn & Hp & Hr & Hm).
  split; [reflexivity|]. intros action.
  destruct (routed_run_ends wf execution start rounds (assigned action) (lookup action)
    ltac:(done) Hv Hp Ha Hn ltac:(by vm_compute) Hr) as (c & starts & w' & Hprep & _ & Hres).
  - intros node Hnode. unfold lookup. by rewrite (node_by_id_unique nodes node (proj1 Hv) Hnode).
  - intros node Hnode _. exact (Hm node Hnode).
  - intros node invoke _. unfold assigned. destruct (decide _); discriminate.
  - intros node rule_node Hnode.
    repeat (apply elem_of_cons in Hnode as [->|Hnode]; [first [discriminate|
      intros [= <-]; split_and!; [reflexivity|apply (bool_decide_eq_true_1 _); reflexivity
        |vm_compute; reflexivity]]|]). by inversion Hnode.
  - apply (bool_decide_eq_true_1 _). reflexivity.
  - exists c, starts, w'. split; [exact Hprep|]. intros C. fold C in Hres. cbv zeta in Hres.
    destruct (run_result C) as [[]|err].
    + split; [reflexivity|]. destruct Hres as [_ Hall].
      destruct (Hall router ltac:(right; left)) as (_ & _ & _ & Hsent). exact Hsent.
    + exfalso. destruct Hres as (node & _ & _ & Hown). unfold own_error, assigned in Hown.
      destruct (decide (NodeDefinition.id node = ident "router")) as [Hid|]; [|exact Hown].
      destruct Hown as (packet & _ & Herr).
      pose proof (route_answers (node_context wf execution (CancellationHandle.token c) node) packet
        Hid) as Hok. fold action in Hok. rewrite Herr in Hok. discriminate Hok.
Defined.
End examples.
