(* ===== verification/TestKit.v ===== *)
(** [pureflow-test-kit] (src/crates/pureflow-test-kit/src/lib.rs): builders, test
    doubles and the strategy for identifiers.

    [expect] panics on an error.  The executors that wait are state machines over their
    suspension points; what they record is shared by their clones and is passed
    explicitly. *)

From Stdlib Require Import Lia Strings.Byte.
From stdpp Require Import relations.
From S2P Require Import Prelude RustStr BTree Types Workflow Structure Topology Validation Errors Json Context Message Metadata MetadataSink Channel Ports PortsSpec.

(** [Result::expect]. *)
Definition expect {A E} (r : result A E) : exec A :=
  match r with Ok a => Done a | Err _ => Panic end.

(** ** Identifiers *)

Definition workflow_id (value : rstr) : exec WorkflowId := expect (identifier_new value).
Definition node_id (value : rstr) : exec NodeId := expect (identifier_new value).
Definition port_id (value : rstr) : exec PortId := expect (identifier_new value).
Definition execution_metadata (value : rstr) : exec ExecutionMetadata :=
  let! id := expect (identifier_new value) in Done (ExecutionMetadata.first_attempt id).

Definition IDENTIFIER_ALPHABET : rstr :=
  lit "abcdefghijklmnopqrstuvwxyzABCDEFGHIJKLMNOPQRSTUVWXYZ0123456789-_./".

(** The strings [valid_identifier_strategy] may produce. *)
Definition valid_identifier_strategy (value : rstr) : Prop :=
  1 ≤ length value < 16 ∧ Forall (λ c, c ∈ IDENTIFIER_ALPHABET) value.

(** ** Builders *)

Module NodeBuilder.
Record NodeBuilder : Set := mk {
  id : NodeId;
  input_ports : list PortId;
  output_ports : list PortId;
}.
Definition new (id : rstr) : exec NodeBuilder := let! id := node_id id in Done (mk id [] []).
Definition input (b : NodeBuilder) (name : rstr) : exec NodeBuilder :=
  let! port := port_id name in Done (mk (id b) (input_ports b ++ [port]) (output_ports b)).
Definition output (b : NodeBuilder) (name : rstr) : exec NodeBuilder :=
  let! port := port_id name in Done (mk (id b) (input_ports b) (output_ports b ++ [port])).
Definition build (b : NodeBuilder) : exec NodeDefinition :=
  expect (NodeDefinition.new (id b) (input_ports b) (output_ports b)).
End NodeBuilder.
Notation NodeBuilder := NodeBuilder.NodeBuilder.

Module WorkflowBuilder.
Record WorkflowBuilder : Set := mk {
  id : WorkflowId;
  nodes : list NodeDefinition;
  edges : list EdgeDefinition;
}.
Definition new (id : rstr) : exec WorkflowBuilder := let! id := workflow_id id in Done (mk id [] []).
Definition node (b : WorkflowBuilder) (node : NodeDefinition) : WorkflowBuilder :=
  mk (id b) (nodes b ++ [node]) (edges b).
Definition add_edge (make : EdgeEndpoint → EdgeEndpoint → EdgeDefinition) (b : WorkflowBuilder)
    (source_node source_port target_node target_port : rstr) : exec WorkflowBuilder :=
  let! sn := node_id source_node in
  let! sp := port_id source_port in
  let! tn := node_id target_node in
  let! tp := port_id target_port in
  Done (mk (id b) (nodes b)
          (edges b ++ [make (EdgeEndpoint.new sn sp) (EdgeEndpoint.new tn tp)])).
Definition edge : WorkflowBuilder → rstr → rstr → rstr → rstr → exec WorkflowBuilder :=
  add_edge EdgeDefinition.new.
Definition edge_with_capacity (b : WorkflowBuilder)
    (source_node source_port target_node target_port : rstr) (capacity : NonZeroUsize) :
    exec WorkflowBuilder :=
  add_edge (λ s t, EdgeDefinition.with_capacity s t capacity) b source_node source_port
    target_node target_port.
Definition build (b : WorkflowBuilder) : exec WorkflowDefinition :=
  let! r := WorkflowDefinition.from_parts (id b) (nodes b) (edges b) in expect r.
End WorkflowBuilder.
Notation WorkflowBuilder := WorkflowBuilder.WorkflowBuilder.

(** ** Executors that do not wait *)

Section executors.
Context `{J : JsonNumber} {S : Type} `{!MetadataSink S} `{M : !Mpsc PortPacket}.
Implicit Types w : world (S := S).

Record RecordingExecutor : Type := mk_recording {
  contexts : list NodeContext;
  inputs : list PortsIn;
  outputs : list PortsOut;
}.
Definition recording_default : RecordingExecutor := mk_recording [] [] [].
Definition recording_run (e : RecordingExecutor) (ctx : NodeContext) (inp : PortsIn)
    (out : PortsOut) : result unit PureflowError * RecordingExecutor :=
  (Ok tt, mk_recording (contexts e ++ [ctx]) (inputs e ++ [inp]) (outputs e ++ [out])).
Definition visited_contexts (e : RecordingExecutor) : list NodeContext := contexts e.
Definition visited_nodes (e : RecordingExecutor) : list NodeId :=
  NodeContext.node_id <$> visited_contexts e.
Definition visited_node_names (e : RecordingExecutor) : list rstr := as_str <$> visited_nodes e.
Definition visited_input_port_names (e : RecordingExecutor) : list (list rstr) :=
  (λ ports, as_str <$> in_port_ids ports) <$> inputs e.
Definition visited_output_port_names (e : RecordingExecutor) : list (list rstr) :=
  (λ ports, as_str <$> out_port_ids ports) <$> outputs e.

Record FailingExecutor : Set := failing_new { error : PureflowError }.
Definition failing_execution (message : rstr) : FailingExecutor :=
  failing_new (PureflowError.execution message).
Definition failing_run (e : FailingExecutor) (ctx : NodeContext) (inp : PortsIn)
    (out : PortsOut) : result unit PureflowError := Err (error e).

(** ** Packets *)

Definition test_packet (payload : list byte) : exec PortPacket :=
  let! sn := node_id (lit "source") in
  let! sp := port_id (lit "out") in
  let! tn := node_id (lit "sink") in
  let! tp := port_id (lit "in") in
  let route := MessageRoute.new (Some (MessageEndpoint.new sn sp)) (MessageEndpoint.new tn tp) in
  let! execution := execution_metadata (lit "test-run") in
  let! message_id := expect (identifier_new (lit "test-msg-1")) in
  let! workflow := workflow_id (lit "test-flow") in
  Done (MessageEnvelope.new (MessageMetadata.new message_id workflow execution route)
          (PacketPayload.Bytes payload)).

(** ** Draining ports *)

(** [drain_port] at its suspension point: before and in a receive, with the packets so
    far; and what it returned. *)
Inductive drain_state : Type :=
| DrainHead (packets : list PortPacket)
| DrainReceiving (packets : list PortPacket)
| Drained (r : result (list PortPacket) PureflowError).

Definition drain_port (inputs : PortsIn) (port : PortId) (cancellation : CancellationToken)
    (cx_cancelled : bool) (st : drain_state) w : drain_state * world (S := S) :=
  match st with
  | DrainHead packets => (DrainReceiving packets, start_recv inputs port w)
  | DrainReceiving packets =>
      let (r, w) := poll_recv inputs port cancellation cx_cancelled w in
      (match r with
       | Pending => DrainReceiving packets
       | Ready (Ok (Some packet)) => DrainHead (packets ++ [packet])
       | Ready (Ok None) | Ready (Err (PortRecvError.Disconnected _)) => Drained (Ok packets)
       | Ready (Err err) => Drained (Err (PureflowError.from_port_recv err))
       end, w)
  | Drained r => (Drained r, w)
  end.

(** The packet a turn of it takes, if any. *)
Definition drained_by (inputs : PortsIn) (port : PortId) (cancellation : CancellationToken)
    (cx_cancelled : bool) (st : drain_state) w : list PortPacket :=
  match st with
  | DrainReceiving _ =>
      match (poll_recv inputs port cancellation cx_cancelled w).1 with
      | Ready (Ok (Some packet)) => [packet]
      | _ => []
      end
  | _ => []
  end.

(** ** The sink *)

(** The loop over the input ports, and the store the clones share. *)
Inductive sink_state : Type :=
| SinkDraining (port : PortId) (ports : list PortId) (st : drain_state)
| SinkFinished (r : result unit PureflowError).

Definition sink_next (ports : list PortId) : sink_state :=
  match ports with
  | [] => SinkFinished (Ok tt)
  | port :: ports => SinkDraining port ports (DrainHead [])
  end.
Definition sink_begin (inputs : PortsIn) : sink_state := sink_next (in_port_ids inputs).

Definition sink_turn (ctx : NodeContext) (inputs : PortsIn) (cx_cancelled : bool)
    (st : sink_state) (received : list PortPacket) w :
    sink_state * list PortPacket * world (S := S) :=
  match st with
  | SinkDraining port ports drain =>
      let (drain, w) := drain_port inputs port (NodeContext.cancellation_token ctx) cx_cancelled
                          drain w in
      match drain with
      | Drained (Ok packets) => (sink_next ports, received ++ packets, w)
      | Drained (Err err) => (SinkFinished (Err err), received, w)
      | drain => (SinkDraining port ports drain, received, w)
      end
  | SinkFinished r => (SinkFinished r, received, w)
  end.

Definition sink_packet_count (received : list PortPacket) : nat := length received.
Definition sink_drain_received (received : list PortPacket) : list PortPacket * list PortPacket :=
  (received, []).

(** ** The source *)

Record SourceExecutor : Set := mk_source {
  payloads_by_port : btree_map PortId (list (list byte));
}.
Definition source_new : SourceExecutor := mk_source [].
Definition with_port_payloads (e : SourceExecutor) (port : rstr) (payloads : list (list byte)) :
    exec SourceExecutor :=
  let! port := port_id port in
  Done (mk_source (BTreeMap.insert port payloads (payloads_by_port e))).

(** What the two loops go over. *)
Definition source_outputs (e : SourceExecutor) : list (PortId * (nat * list byte)) :=
  payloads_by_port e ≫= λ entry, (λ ip, (entry.1, ip)) <$> enumerate entry.2.

Definition source_packet (ctx : NodeContext) (out_port : PortId) (index : nat)
    (payload : list byte) : result PortPacket PureflowError :=
  let source := MessageEndpoint.new (NodeContext.node_id ctx) out_port in
  let target := MessageEndpoint.new (NodeContext.node_id ctx) out_port in
  let route := MessageRoute.new (Some source) target in
  let? message_id :=
    map_err (λ e, PureflowError.execution
                    (lit "failed to build test message id: " ++ IdentifierError.fmt e))
      (identifier_new (lit "test-" ++ as_str (NodeContext.node_id ctx) ++ lit "-"
                       ++ as_str out_port ++ lit "-" ++ show_nat index)) in
  Ok (MessageEnvelope.new
        (MessageMetadata.new message_id (NodeContext.workflow_id ctx) (NodeContext.execution ctx)
           route)
        (PacketPayload.Bytes payload)).

Inductive source_state : Type :=
| SourceDraining (port : PortId) (ports : list PortId) (st : drain_state)
| SourceSending (port : PortId) (packet : PortPacket) (rest : list (PortId * (nat * list byte)))
| SourceFinished (r : result unit PureflowError).

Definition source_next_output (ctx : NodeContext) (rest : list (PortId * (nat * list byte))) :
    source_state :=
  match rest with
  | [] => SourceFinished (Ok tt)
  | (port, (index, payload)) :: rest =>
      match source_packet ctx port index payload with
      | Err e => SourceFinished (Err e)
      | Ok packet => SourceSending port packet rest
      end
  end.
Definition source_next_input (e : SourceExecutor) (ctx : NodeContext) (ports : list PortId) :
    source_state :=
  match ports with
  | [] => source_next_output ctx (source_outputs e)
  | port :: ports => SourceDraining port ports (DrainHead [])
  end.
Definition source_begin (e : SourceExecutor) (ctx : NodeContext) (inputs : PortsIn) : source_state :=
  source_next_input e ctx (in_port_ids inputs).

Definition source_turn (e : SourceExecutor) (ctx : NodeContext) (inputs : PortsIn)
    (outputs : PortsOut) (cx_cancelled : bool) (st : source_state) w :
    source_state * world (S := S) :=
  match st with
  | SourceDraining port ports drain =>
      let (drain, w) := drain_port inputs port (NodeContext.cancellation_token ctx) cx_cancelled
                          drain w in
      match drain with
      | Drained (Ok _) => (source_next_input e ctx ports, w)
      | Drained (Err err) => (SourceFinished (Err err), w)
      | drain => (SourceDraining port ports drain, w)
      end
  | SourceSending port packet rest =>
      let (r, w) := poll_send outputs port packet (NodeContext.cancellation_token ctx) w in
      match r with
      | Pending => (SourceSending port packet rest, w)
      | Ready (Ok _) => (source_next_output ctx rest, w)
      | Ready (Err err) => (SourceFinished (Err (PureflowError.from_port_send err)), w)
      end
  | SourceFinished r => (SourceFinished r, w)
  end.
End executors.

(** ** Identifiers and builders *)

(** Every string the strategy may produce is a valid identifier. *)
Theorem identifier_strategy_sound (value : rstr) (Hgen : valid_identifier_strategy value) :
  valid_identifier value.
Proof.
  destruct Hgen as [Hlen Hall].
  assert (Hplain : Forall (λ c, is_whitespace c = false ∧ is_control c = false
                                ∧ length (utf8_encode c) = 1) value).
  { eapply Forall_impl; [exact Hall|]. cbn beta.
    assert (Hall' : Forall (λ c, is_whitespace c = false ∧ is_control c = false
      ∧ length (utf8_encode c) = 1) IDENTIFIER_ALPHABET).
    { apply (bool_decide_eq_true_1 _). vm_compute. reflexivity. }
    rewrite Forall_forall in Hall'. exact Hall'. }
  split.
  - intros ->. simpl in Hlen. lia.
  - assert (str_len value = length value) as ->; [|unfold MAX_IDENTIFIER_LEN; lia].
    clear -Hplain. induction Hplain as [|c value (_ & _ & Hc) _ IH]; [done|].
    change (c :: value) with ([c] ++ value). rewrite str_len_app, IH. simpl.
    unfold str_len, utf8. simpl. rewrite app_nil_r, Hc. lia.
  - eapply Forall_impl; [exact Hplain|]. naive_solver.
  - eapply Forall_impl; [exact Hplain|]. naive_solver.
Qed.

(** The workflow builder returns the workflow that was described exactly when
    [WorkflowGraph::new] would accept it, and panics otherwise. *)
Theorem workflow_builder_builds (b : WorkflowBuilder) :
  let accepted := structurally_valid (WorkflowBuilder.nodes b) (WorkflowBuilder.edges b)
    ∧ acyclic (arcs (WorkflowBuilder.edges b)) ∧ NoDup (arcs (WorkflowBuilder.edges b)) in
  (accepted ∧ WorkflowBuilder.build b
     = Done (WorkflowDefinition.new (WorkflowBuilder.id b)
               (WorkflowGraph.mk (WorkflowBuilder.nodes b) (WorkflowBuilder.edges b))))
  ∨ ¬ accepted ∧ WorkflowBuilder.build b = Panic.
Proof.
  intros accepted. unfold WorkflowBuilder.build, WorkflowDefinition.from_parts.
  destruct (graph_new_outcome (WorkflowBuilder.nodes b) (WorkflowBuilder.edges b))
    as [(-> & Hok)|(e & -> & Hno)]; simpl; [by left|right].
  split; [|done]. unfold accepted. naive_solver.
Qed.

(** ** Runs of the sink and the source *)

Section runs.
Context `{J : JsonNumber} {S : Type} `{!MetadataSink S} `{M : !Mpsc PortPacket}.
Implicit Types w : world (S := S).

(** A drain keeps what it takes. *)
Lemma drain_port_packets inputs port token cx packets w :
  match (drain_port inputs port token cx (DrainReceiving packets) w).1 with
  | DrainHead packets' | DrainReceiving packets' | Drained (Ok packets') =>
      packets' = packets ++ drained_by inputs port token cx (DrainReceiving packets) w
  | Drained (Err _) => drained_by inputs port token cx (DrainReceiving packets) w = []
  end.
Proof.
  cbn [drain_port drained_by]. destruct (poll_recv _ _ _ _ _) as [[[[x|]|[]]|] w1];
    simpl; by rewrite ?app_nil_r.
Qed.

(** The packets a drain has taken and not yet returned. *)
Definition drain_packets (st : drain_state) : list PortPacket :=
  match st with
  | DrainHead packets | DrainReceiving packets | Drained (Ok packets) => packets
  | Drained (Err _) => []
  end.

(** *** The sink *)

Record sink_run : Type := mk_sink_run {
  sink_at : sink_state;
  sink_store : list PortPacket;
  sink_world : world (S := S);
  sink_taken : list PortPacket;
}.

Definition sink_taken_by (ctx : NodeContext) (inputs : PortsIn) (cx : bool) (st : sink_state) w :
    list PortPacket :=
  match st with
  | SinkDraining port _ drain =>
      drained_by inputs port (NodeContext.cancellation_token ctx) cx drain w
  | SinkFinished _ => []
  end.

(** A turn of the sink, or anything the rest of the system does. *)
Inductive sink_step (ctx : NodeContext) (inputs : PortsIn) : sink_run → sink_run → Prop :=
| sink_step_turn cx st store w taken :
    let r := sink_turn ctx inputs cx st store w in
    sink_step ctx inputs (mk_sink_run st store w taken)
      (mk_sink_run r.1.1 r.1.2 r.2 (taken ++ sink_taken_by ctx inputs cx st w))
| sink_step_environment st store w taken w' :
    sink_step ctx inputs (mk_sink_run st store w taken) (mk_sink_run st store w' taken).

(** What is taken is in the store or in the drain of the current port; an error leaves
    behind what the drain held. *)
Definition sink_accounts (R : sink_run) : Prop :=
  match sink_at R with
  | SinkDraining _ _ drain => sink_taken R = sink_store R ++ drain_packets drain
      ∧ ∀ r, drain ≠ Drained r
  | SinkFinished (Ok _) => sink_taken R = sink_store R
  | SinkFinished (Err _) => ∃ lost, sink_taken R = sink_store R ++ lost
  end.

Lemma sink_next_accounts ports store w :
  sink_accounts (mk_sink_run (sink_next ports) store w store).
Proof. destruct ports; unfold sink_accounts; simpl; by rewrite ?app_nil_r. Qed.

Lemma sink_step_accounts ctx inputs R R' :
  sink_step ctx inputs R R' → sink_accounts R → sink_accounts R'.
Proof.
  destruct 1 as [cx st store w taken r|]; [|done].
  destruct st as [port ports [packets|packets|d]|res]; intros Hacc; unfold r; clear r.
  - destruct Hacc as [Hacc _]. simpl in *. by rewrite app_nil_r.
  - destruct Hacc as [Hacc _]. unfold sink_taken_by, sink_turn.
    pose proof (drain_port_packets inputs port (NodeContext.cancellation_token ctx) cx packets w)
      as Hd. destruct (drain_port _ _ _ _ _ w) as [drain w1]. cbn [fst] in Hd. simpl in Hacc.
    subst taken.
    destruct drain as [ps|ps|[ps|e]]; cbn [fst snd].
    + subst ps. unfold sink_accounts. cbn [sink_at sink_taken sink_store drain_packets].
      by rewrite app_assoc.
    + subst ps. unfold sink_accounts. cbn [sink_at sink_taken sink_store drain_packets].
      by rewrite app_assoc.
    + rewrite <- app_assoc, <- Hd. apply sink_next_accounts.
    + rewrite Hd, app_nil_r. by exists packets.
  - destruct Hacc as [_ Hacc]. by destruct (Hacc d).
  - unfold sink_accounts in *. simpl in *. by rewrite app_nil_r.
Qed.

(** In any environment the store of a sink that has ended well is everything it took,
    in the order taken; while it runs, or after an error, it is the packets of the ports
    that had ended. *)
Theorem sink_records_what_it_takes (ctx : NodeContext) (inputs : PortsIn) (w : world (S := S))
  (R : sink_run)
  (Hrun : rtc (sink_step ctx inputs) (mk_sink_run (sink_begin inputs) [] w []) R) :
  sink_accounts R.
Proof.
  assert (H0 : sink_accounts (mk_sink_run (sink_begin inputs) [] w [])) by apply sink_next_accounts.
  clear -Hrun H0. induction Hrun; eauto using sink_step_accounts.
Qed.

(** *** The source *)

Definition source_sent_by (ctx : NodeContext) (outputs : PortsOut) (st : source_state) w :
    list (PortId * PortPacket) :=
  match st with
  | SourceSending port packet _ =>
      match (poll_send outputs port packet (NodeContext.cancellation_token ctx) w).1 with
      | Ready (Ok _) => [(port, packet)]
      | _ => []
      end
  | _ => []
  end.

Record source_run : Type := mk_source_run {
  source_at : source_state;
  source_world : world (S := S);
  source_sent : list (PortId * PortPacket);
}.

Inductive source_step (e : SourceExecutor) (ctx : NodeContext) (inputs : PortsIn)
    (outputs : PortsOut) : source_run → source_run → Prop :=
| source_step_turn cx st w sent :
    let r := source_turn e ctx inputs outputs cx st w in
    source_step e ctx inputs outputs (mk_source_run st w sent)
      (mk_source_run r.1 r.2 (sent ++ source_sent_by ctx outputs st w))
| source_step_environment st w sent w' :
    source_step e ctx inputs outputs (mk_source_run st w sent) (mk_source_run st w' sent).

(** The packets of some of the configured payloads. *)
Definition source_packets (ctx : NodeContext) (l : list (PortId * (nat * list byte))) :
    result (list (PortId * PortPacket)) PureflowError :=
  try_collect (λ o, let? packet := source_packet ctx o.1 o.2.1 o.2.2 in Ok (o.1, packet)) l.

Definition source_accounts (e : SourceExecutor) (ctx : NodeContext) (R : source_run) : Prop :=
  match source_at R with
  | SourceDraining _ _ _ => source_sent R = []
  | SourceSending port packet rest => ∃ done o,
      source_outputs e = done ++ o :: rest ∧ o.1 = port
      ∧ source_packet ctx o.1 o.2.1 o.2.2 = Ok packet
      ∧ source_packets ctx done = Ok (source_sent R)
  | SourceFinished (Ok _) => source_packets ctx (source_outputs e) = Ok (source_sent R)
  | SourceFinished (Err _) => ∃ done rest,
      source_outputs e = done ++ rest ∧ source_packets ctx done = Ok (source_sent R)
  end.

Lemma try_collect_snoc {A B E} (f : A → result B E) l x ys y :
  try_collect f l = Ok ys → f x = Ok y → try_collect f (l ++ [x]) = Ok (ys ++ [y]).
Proof.
  intros Hl Hx. revert ys Hl. induction l as [|a l IH]; intros ys; simpl.
  - intros [= <-]. by rewrite Hx.
  - destruct (f a) as [b|]; simpl; [|done].
    destruct (try_collect f l) as [bs|]; simpl; [|done]. intros [= <-]. by rewrite (IH bs).
Qed.

Lemma source_next_output_accounts e ctx done rest w sent :
  source_outputs e = done ++ rest → source_packets ctx done = Ok sent →
  source_accounts e ctx (mk_source_run (source_next_output ctx rest) w sent).
Proof.
  intros Ho Hs. destruct rest as [|[port [i payload]] rest]; unfold source_accounts; simpl.
  - by rewrite Ho, app_nil_r.
  - destruct (source_packet ctx port i payload) as [packet|err] eqn:Hp; simpl.
    + by exists done, (port, (i, payload)).
    + by exists done, ((port, (i, payload)) :: rest).
Qed.

Lemma source_step_accounts e ctx inputs outputs R R' :
  source_step e ctx inputs outputs R R' → source_accounts e ctx R → source_accounts e ctx R'.
Proof.
  destruct 1 as [cx st w sent r|]; [|done]. unfold r; clear r.
  destruct st as [port ports drain|port packet rest|res]; intros Hacc.
  - unfold source_accounts in Hacc. simpl in Hacc. subst sent. unfold source_turn. simpl.
    destruct (drain_port _ _ _ _ drain w) as [[ps|ps|[ps|err]] w1]; [done|done| |].
    + destruct ports; [|done]. by apply (source_next_output_accounts e ctx []).
    + by exists [], (source_outputs e).
  - destruct Hacc as (done & o & Ho & <- & Hp & Hs). unfold source_turn, source_sent_by.
    destruct (poll_send _ _ _ _ w) as [[[[]|err]|] w1]; cbn [fst snd]; rewrite ?app_nil_r.
    + apply (source_next_output_accounts e ctx (done ++ [o])); [by rewrite <- app_assoc|].
      apply try_collect_snoc; [done|]. by rewrite Hp.
    + by exists done, (o :: rest).
    + by exists done, o.
  - unfold source_accounts in *. simpl in *. by rewrite app_nil_r.
Qed.

(** In any environment a source sends nothing before its input ports have ended, and
    then the configured payloads, port by port and in order; all of them when it ends
    well. *)
Theorem source_sends_its_payloads (e : SourceExecutor) (ctx : NodeContext) (inputs : PortsIn)
  (outputs : PortsOut) (w : world (S := S)) (R : source_run)
  (Hrun : rtc (source_step e ctx inputs outputs)
            (mk_source_run (source_begin e ctx inputs) w []) R) :
  source_accounts e ctx R.
Proof.
  assert (H0 : source_accounts e ctx (mk_source_run (source_begin e ctx inputs) w [])).
  { unfold source_begin. destruct (in_port_ids inputs); [|done].
    by apply (source_next_output_accounts e ctx []). }
  clear -Hrun H0. induction Hrun; eauto using source_step_accounts.
Qed.
End runs.

(** ** Examples *)

Section examples.
Let ctx : NodeContext :=
  NodeContext.mk (ident "flow") (ident "sink")
    (ExecutionMetadata.first_attempt (ident "run-1")) (CancellationToken.mk 0).
Let packet : PortPacket :=
  MessageEnvelope.new
    (MessageMetadata.new (ident "test-msg-1") (ident "test-flow")
       (ExecutionMetadata.first_attempt (ident "test-run"))
       (MessageRoute.new (Some (MessageEndpoint.new (ident "source") (ident "out")))
          (MessageEndpoint.new (ident "sink") (ident "in"))))
    (PacketPayload.Bytes [x68; x69]).
Let inputs : PortsIn := mk_ports_in [ident "in"] [mk_input (ident "in") [0]] false None.
Let waiting : chan_view PortPacket := mk_view [packet] 0 1 true true.
Let start (signal : option CancellationRequest) : world (S := list MetadataRecord) :=
  mk_world [waiting] [] [signal].

Example test_packet_built : test_packet [x68; x69] = Done packet.
Proof. reflexivity. Qed.

(** A cancellation that comes after a packet was taken, and before its port has ended,
    loses the packet. *)
Example sink_cancelled_loses_packet :
  let r1 := sink_turn ctx inputs false (sink_begin inputs) [] (start None) in
  let r2 := sink_turn ctx inputs false r1.1.1 r1.1.2 r1.2 in
  let cancelled := mk_world (w_chans r2.2) (w_sink r2.2)
                     [Some (CancellationRequest.new (lit "stop"))] in
  let r3 := sink_turn ctx inputs false r2.1.1 r2.1.2 cancelled in
  let r4 := sink_turn ctx inputs false r3.1.1 r3.1.2 r3.2 in
  sink_taken_by ctx inputs false r1.1.1 r1.2 = [packet]
  ∧ r4.1.2 = []
  ∧ match r4.1.1 with SinkFinished (Err _) => True | _ => False end.
Proof. split; [reflexivity|]. split; [reflexivity|exact I]. Qed.
End examples.
