(* ===== verification/GuestAlloc.v ===== *)
(** The allocator and the C runtime of the WASM guests
    (src/crates/pureflow-wasm/fixtures/rules-guest/src/lib.rs; the uppercase guest has
    the same text).

    The target is wasm32, so [usize] has 32 bits and a pointer is an address of the
    linear memory.  The heap is the static [HEAP_NEXT], the size of the memory in pages
    and its contents.  The address of [__heap_base], which the linker chooses, and the
    host's answer to a request for more pages are parameters.  [blocks_ordered] is the
    allocator's contract: along every sequence of calls the blocks handed out are
    aligned, inside the memory, and never overlap. *)

From Stdlib Require Import Lia Strings.Byte.
From stdpp Require Import relations sorting.
From S2P Require Import Prelude.

Open Scope N_scope.

(** ** [usize] *)

Definition USIZE32_MAX : N := 4294967295.
Definition checked_add (a b : N) : option N := if a + b <=? USIZE32_MAX then Some (a + b) else None.
Definition checked_sub (a b : N) : option N := if b <=? a then Some (a - b) else None.
Definition saturating_mul (a b : N) : N := N.min (a * b) USIZE32_MAX.
Definition div_ceil (a b : N) : N := (a + (b - 1)) / b.
Definition is_power_of_two (n : N) : bool := n =? 2 ^ N.log2 n.
Definition checked_next_power_of_two (n : N) : option N :=
  let p := 2 ^ N.log2_up n in if p <=? USIZE32_MAX then Some p else None.

(** ** The allocator *)

Definition WASM_PAGE_SIZE : N := 65536.

(** [value & !(align - 1)] clears the bits of [align - 1]. *)
Definition align_up (value align : N) : option N :=
  match checked_sub align 1 with
  | None => None
  | Some mask => (λ value, N.ldiff value mask) <$> checked_add value mask
  end.

Definition normalize_align (align : N) : option N :=
  let align := N.max align 1 in
  if is_power_of_two align then Some align else checked_next_power_of_two align.

Record guest_heap : Type := mk_heap {
  heap_next : N;
  pages : N;
  memory : N → byte;
}.

Section allocator.
Context (heap_base : N) (host_grows : N → N → bool).

(** [memory_grow(0, delta)]: the size before, or [usize::MAX]. *)
Definition memory_grow (delta : N) (h : guest_heap) : N * guest_heap :=
  if host_grows (pages h) delta
  then (pages h, mk_heap (heap_next h) (pages h + delta) (memory h))
  else (USIZE32_MAX, h).

Definition grow_memory_to (required_end : N) (h : guest_heap) : bool * guest_heap :=
  let current_size := saturating_mul (pages h) WASM_PAGE_SIZE in
  if required_end <=? current_size then (true, h)
  else
    match checked_sub required_end current_size with
    | None => (false, h)
    | Some additional_bytes =>
        let additional_pages := div_ceil additional_bytes WASM_PAGE_SIZE in
        let (r, h) := memory_grow additional_pages h in
        (negb (r =? USIZE32_MAX), h)
    end.

(** [if HEAP_NEXT == 0 { HEAP_NEXT = heap_base(); }]. *)
Definition started (h : guest_heap) : guest_heap :=
  if heap_next h =? 0 then mk_heap heap_base (pages h) (memory h) else h.

(** [BumpAllocator::alloc] of a layout; zero is the null pointer. *)
Definition alloc (size align : N) (h : guest_heap) : N * guest_heap :=
  match normalize_align align with
  | None => (0, h)
  | Some align =>
      if size =? 0 then (align, h)
      else
        let h := started h in
        match align_up (heap_next h) align with
        | None => (0, h)
        | Some aligned =>
            match checked_add aligned size with
            | None => (0, h)
            | Some next =>
                let (grown, h) := grow_memory_to next h in
                if negb grown then (0, h)
                else (aligned, mk_heap next (pages h) (memory h))
            end
        end
  end.

Definition dealloc (ptr size align : N) (h : guest_heap) : guest_heap := h.

(** [ptr::copy_nonoverlapping]. *)
Definition copy_nonoverlapping (src dst count : N) (m : N → byte) : N → byte :=
  λ a, if (dst <=? a) && (a <? dst + count) then m (src + (a - dst)) else m a.

(** [BumpAllocator::realloc]. *)
Definition realloc (ptr size align new_size : N) (h : guest_heap) : N * guest_heap :=
  if new_size =? 0 then (align, h)
  else
    let (new_ptr, h) := alloc new_size align h in
    if negb (new_ptr =? 0)
    then (new_ptr, mk_heap (heap_next h) (pages h)
                     (copy_nonoverlapping ptr new_ptr (N.min size new_size) (memory h)))
    else (new_ptr, h).

Definition cabi_realloc (old_ptr old_len align new_len : N) (h : guest_heap) : N * guest_heap :=
  match normalize_align align with
  | None => (0, h)
  | Some align =>
      if old_len =? 0 then
        if new_len =? 0 then (align, h) else alloc new_len align h
      else realloc old_ptr old_len align new_len h
  end.

(** ** [memcmp] *)

(** [i32::from(lhs) - i32::from(rhs)], which does not overflow. *)
Definition byte_diff (lhs rhs : byte) : Z := (Z.of_N (to_N lhs) - Z.of_N (to_N rhs))%Z.

(** The loop, with [rest] bytes to go. *)
Fixpoint memcmp_loop (a b index : N) (rest : nat) (m : N → byte) : Z :=
  match rest with
  | O => 0%Z
  | S rest =>
      let lhs := m (a + index) in
      let rhs := m (b + index) in
      if negb (Byte.eqb lhs rhs) then byte_diff lhs rhs
      else memcmp_loop a b (index + 1) rest m
  end.
Definition memcmp (a b n : N) (m : N → byte) : Z := memcmp_loop a b 0 (N.to_nat n) m.

(** ** Lemmas *)

Lemma Byte_to_N_inj x y : to_N x = to_N y → x = y.
Proof.
  intros H. assert (Hxy : Some x = Some y) by (rewrite <- !of_to_N; by rewrite H). congruence.
Qed.

Lemma normalize_align_spec align al :
  align <= USIZE32_MAX → normalize_align align = Some al →
  align <= al <= USIZE32_MAX ∧ ∃ k, al = 2 ^ k.
Proof.
  unfold normalize_align, is_power_of_two, checked_next_power_of_two. intros Hmax.
  assert (Hbig : 1 <= USIZE32_MAX) by done. revert Hmax Hbig. generalize USIZE32_MAX. intros M Hmax Hbig.
  destruct (N.eqb_spec (N.max align 1) (2 ^ N.log2 (N.max align 1))) as [Heq|_].
  - intros [= <-]. split; [lia|]. by eexists.
  - destruct (N.leb_spec (2 ^ N.log2_up (N.max align 1)) M) as [Hle|]; [|done].
    intros [= <-]. split; [|by eexists].
    pose proof (N.le_max_l align 1). destruct (N.eq_dec (N.max align 1) 1) as [Heq|Hne].
    { rewrite Heq in Hle |- *. change (2 ^ N.log2_up 1) with 1 in *. lia. }
    pose proof (N.log2_up_spec (N.max align 1) ltac:(lia)). lia.
Qed.

(** Rounding up to a multiple of a power of two. *)
Lemma align_up_spec value k p :
  align_up value (2 ^ k) = Some p → value <= p < value + 2 ^ k ∧ (2 ^ k | p).
Proof.
  unfold align_up, checked_sub, checked_add.
  assert (Hk : 1 <= 2 ^ k) by (pose proof (N.pow_nonzero 2 k); lia).
  destruct (N.leb_spec 1 (2 ^ k)); [|lia].
  destruct (N.leb_spec (value + (2 ^ k - 1)) USIZE32_MAX); [|done]. intros [= <-].
  replace (2 ^ k - 1) with (N.ones k) by (rewrite N.ones_equiv; lia).
  rewrite N.ldiff_ones_r, N.shiftl_mul_pow2, N.shiftr_div_pow2, N.ones_equiv.
  set (x := value + _). pose proof (N.div_mod x (2 ^ k) ltac:(lia)) as Hx.
  pose proof (N.mod_lt x (2 ^ k) ltac:(lia)) as Hm.
  split; [|apply N.divide_factor_r]. revert Hx Hm.
  generalize (x / 2 ^ k) (x mod 2 ^ k). subst x. intros q r Hx Hm. lia.
Qed.

Lemma div_ceil_spec a b : 0 < b → a <= div_ceil a b * b.
Proof.
  intros Hb. unfold div_ceil. pose proof (N.div_mod (a + (b - 1)) b ltac:(lia)) as Hx.
  pose proof (N.mod_lt (a + (b - 1)) b ltac:(lia)) as Hm. revert Hx Hm.
  generalize ((a + (b - 1)) / b) ((a + (b - 1)) mod b). intros q r Hx Hm. lia.
Qed.

(** Where the next block may start. *)
Definition heap_start (h : guest_heap) : N :=
  if heap_next h =? 0 then heap_base else heap_next h.
Definition memory_size (h : guest_heap) : N := pages h * WASM_PAGE_SIZE.

Record heap_ok (h : guest_heap) : Prop := {
  ok_pages : pages h <= 65536;
  ok_next : heap_next h = 0 ∨ heap_base <= heap_next h;
  ok_size : heap_start h <= memory_size h;
}.

(** The heap starts after address zero, and a memory has at most 65536 pages. *)
Context (Hbase : 0 < heap_base) (Hgrow : ∀ p d, host_grows p d = true → p + d <= 65536).

Lemma grow_memory_spec required_end h :
  pages h <= 65536 → required_end <= USIZE32_MAX →
  let (grown, h') := grow_memory_to required_end h in
  heap_next h' = heap_next h ∧ memory h' = memory h ∧ pages h <= pages h' <= 65536
  ∧ (grown = true → required_end <= memory_size h').
Proof.
  intros Hp Hr. unfold grow_memory_to, saturating_mul, checked_sub, memory_size.
  destruct (N.leb_spec required_end (N.min (pages h * WASM_PAGE_SIZE) USIZE32_MAX)) as [Hle|Hgt].
  { split_and!; [done|done|done|done|]. intros _. lia. }
  rewrite N.min_l in * by lia. destruct (N.leb_spec (pages h * WASM_PAGE_SIZE) required_end); [|lia].
  unfold memory_grow. destruct (host_grows _ _) eqn:Hg; simpl.
  - apply Hgrow in Hg. split_and!; [done|done|lia|lia|]. intros _.
    pose proof (div_ceil_spec (required_end - pages h * WASM_PAGE_SIZE) WASM_PAGE_SIZE ltac:(done)).
    lia.
  - by split_and!.
Qed.

Lemma started_spec h :
  heap_ok h →
  heap_ok (started h) ∧ heap_next (started h) = heap_start h ∧ heap_start (started h) = heap_start h
  ∧ memory (started h) = memory h ∧ 0 < heap_start h ∧ heap_base <= heap_start h.
Proof.
  intros [Hp Hn Hs]. unfold started, heap_start in *.
  destruct (N.eqb_spec (heap_next h) 0) as [E|E].
  - split_and!; [split|..]; unfold heap_start; simpl;
      destruct (N.eqb_spec heap_base 0); lia || done || (right; lia).
  - split_and!; [split|..]; unfold heap_start; try done;
      destruct (N.eqb_spec (heap_next h) 0); lia || done.
Qed.

(** A block of memory handed out. *)
Definition block_at (al : N) (h h' : guest_heap) (p size : N) : Prop :=
  heap_start h <= p ∧ heap_next h' = p + size ∧ p + size <= memory_size h' ∧ (al | p).

Lemma alloc_spec size align h :
  heap_ok h → 0 < size → align <= USIZE32_MAX →
  let (p, h') := alloc size align h in
  heap_ok h' ∧ memory h' = memory h ∧ heap_start h <= heap_start h'
  ∧ (p ≠ 0 → ∃ al, normalize_align align = Some al ∧ block_at al h h' p size).
Proof.
  intros Hok Hsize Halign. unfold alloc.
  assert (Hsame : heap_ok h ∧ memory h = memory h ∧ heap_start h <= heap_start h
    ∧ (0 ≠ 0 → ∃ al, normalize_align align = Some al ∧ block_at al h h 0 size)) by done.
  destruct (normalize_align align) as [al|] eqn:Hal; [|done].
  destruct (N.eqb_spec size 0); [lia|].
  apply normalize_align_spec in Hal as [Hle [k ->]]; [|done].
  destruct (started_spec h Hok) as (Hok0 & Hn0 & Hs0 & Hm0 & Hpos & Hbase_le).
  set (h0 := started h) in *.
  assert (Hfail : heap_ok h0 ∧ memory h0 = memory h ∧ heap_start h <= heap_start h0
    ∧ (0 ≠ 0 → ∃ al, Some (2 ^ k) = Some al ∧ block_at al h h0 0 size)) by (split_and!; [done|done|lia|done]).
  destruct (align_up (heap_next h0) (2 ^ k)) as [p|] eqn:Hp; [|done].
  unfold checked_add at 1. destruct (N.leb_spec (p + size) USIZE32_MAX) as [Hfit|]; [|done].
  pose proof (grow_memory_spec (p + size) h0 (ok_pages _ Hok0) Hfit) as Hg.
  destruct (grow_memory_to (p + size) h0) as [grown h1]. destruct Hg as (G1 & G2 & G3 & G4).
  apply align_up_spec in Hp as [Hp Hdiv]. rewrite Hn0 in Hp.
  destruct grown; simpl.
  - specialize (G4 eq_refl). unfold memory_size in *.
    assert (Hstart1 : heap_start (mk_heap (p + size) (pages h1) (memory h1)) = p + size).
    { unfold heap_start. simpl. destruct (N.eqb_spec (p + size) 0); [lia|done]. }
    split_and!; [split| | |].
    + simpl. lia.
    + right. simpl. lia.
    + rewrite Hstart1. exact G4.
    + simpl. congruence.
    + rewrite Hstart1. lia.
    + intros _. exists (2 ^ k). split; [done|]. split_and!; [lia|done|exact G4|done].
  - assert (Hstart1 : heap_start h1 = heap_start h) by (unfold heap_start in *; by rewrite G1).
    split_and!; [split|congruence|lia|done].
    + lia.
    + rewrite G1. apply Hok0.
    + rewrite Hstart1. destruct Hok0 as [_ _ Hs]. rewrite Hs0 in Hs. unfold memory_size, WASM_PAGE_SIZE in *. lia.
Qed.

(** ** Blocks *)

Record block : Set := mk_block { b_ptr : N; b_size : N; b_align : N }.
Definition b_end (b : block) : N := b_ptr b + b_size b.

(** The blocks after a call that returned [p]. *)
Definition handed_out (p size align : N) (bs : list block) : list block :=
  if p =? 0 then bs else bs ++ [mk_block p size align].

(** The calls of the guest and of the canonical ABI, and the guest's writes, which stay
    inside its blocks. *)
Inductive heap_step : guest_heap * list block → guest_heap * list block → Prop :=
| step_alloc size align h bs :
    0 < size → align <= USIZE32_MAX →
    let r := alloc size align h in
    heap_step (h, bs) (r.2, handed_out r.1 size align bs)
| step_realloc b align new_size h bs :
    b ∈ bs → 0 < new_size → align <= USIZE32_MAX →
    let r := realloc (b_ptr b) (b_size b) align new_size h in
    heap_step (h, bs) (r.2, handed_out r.1 new_size align bs)
| step_cabi_alloc align new_len h bs :
    0 < new_len → align <= USIZE32_MAX →
    let r := cabi_realloc 0 0 align new_len h in
    heap_step (h, bs) (r.2, handed_out r.1 new_len align bs)
| step_cabi_realloc b align new_len h bs :
    b ∈ bs → 0 < new_len → align <= USIZE32_MAX →
    let r := cabi_realloc (b_ptr b) (b_size b) align new_len h in
    heap_step (h, bs) (r.2, handed_out r.1 new_len align bs)
| step_dealloc b h bs :
    b ∈ bs → heap_step (h, bs) (dealloc (b_ptr b) (b_size b) (b_align b) h, bs)
| step_write b m h bs :
    b ∈ bs → (∀ a, ¬ (b_ptr b <= a < b_end b) → m a = memory h a) →
    heap_step (h, bs) (mk_heap (heap_next h) (pages h) m, bs).

Definition block_ok (h : guest_heap) (b : block) : Prop :=
  heap_base <= b_ptr b ∧ 0 < b_size b ∧ b_end b <= heap_start h
  ∧ ∃ al, normalize_align (b_align b) = Some al ∧ (al | b_ptr b).

(** Blocks lie one behind the other. *)
Definition blocks_ordered (bs : list block) : Prop :=
  StronglySorted (λ b c, b_end b <= b_ptr c) bs.

Record blocks_inv (s : guest_heap * list block) : Prop := {
  bi_heap : heap_ok s.1;
  bi_blocks : Forall (block_ok s.1) s.2;
  bi_ordered : blocks_ordered s.2;
}.

(** What a call does to the heap, blocks aside. *)
Definition extends (align : N) (h h' : guest_heap) (p size : N) : Prop :=
  heap_ok h' ∧ heap_start h <= heap_start h'
  ∧ (p ≠ 0 → ∃ al, normalize_align align = Some al ∧ block_at al h h' p size).

Lemma ordered_lookup bs i j b c :
  blocks_ordered bs → (i < j)%nat → bs !! i = Some b → bs !! j = Some c → b_end b <= b_ptr c.
Proof.
  intros Ho. revert i j. induction Ho as [|x bs _ IH Hx]; intros i j Hlt Hi Hj; [done|].
  destruct j as [|j]; [lia|]. destruct i as [|i]; simpl in *.
  - simplify_eq. rewrite Forall_forall in Hx. apply Hx. by eapply list_elem_of_lookup_2.
  - apply (IH i j); [lia|done|done].
Qed.

Lemma block_end_start h b : block_ok h b → b_end b <= heap_start h.
Proof. by intros (_ & _ & ? & _). Qed.

Lemma handed_out_inv align h h' p size bs :
  blocks_inv (h, bs) → 0 < size → extends align h h' p size →
  blocks_inv (h', handed_out p size align bs).
Proof.
  intros [Hh Hb Ho] Hsize (Hok & Hle & Hp). simpl in *.
  assert (Hb' : Forall (block_ok h') bs).
  { eapply Forall_impl; [exact Hb|]. intros b (? & ? & ? & ?). split_and!; try done. lia. }
  unfold handed_out. destruct (N.eqb_spec p 0) as [|Hne]; [by split|].
  destruct (Hp Hne) as (al & Hal & Hstart & Hnext & Hsize' & Hdiv).
  destruct (started_spec h Hh) as (_ & _ & _ & _ & _ & Hbl).
  split; simpl; [done| |].
  - apply Forall_app. split; [done|]. apply Forall_singleton. unfold block_ok, b_end. simpl.
    split_and!; [lia|done| |by exists al].
    unfold heap_start. rewrite Hnext. destruct (N.eqb_spec (p + size) 0); lia.
  - apply StronglySorted_app. split_and!; [|done|by repeat constructor].
    intros b c Hin ->%list_elem_of_singleton. rewrite Forall_forall in Hb.
    apply Hb, block_end_start in Hin. simpl. lia.
Qed.

Lemma alloc_extends size align h :
  heap_ok h → 0 < size → align <= USIZE32_MAX →
  let r := alloc size align h in extends align h r.2 r.1 size.
Proof.
  intros Hok Hs Ha r. pose proof (alloc_spec size align h Hok Hs Ha) as H. unfold r.
  destruct (alloc size align h) as [p h']. destruct H as (? & _ & ? & ?). by split_and!.
Qed.

Lemma realloc_extends ptr size align new_size h :
  heap_ok h → 0 < new_size → align <= USIZE32_MAX →
  let r := realloc ptr size align new_size h in extends align h r.2 r.1 new_size.
Proof.
  intros Hok Hs Ha r. unfold r, realloc. destruct (N.eqb_spec new_size 0); [lia|].
  pose proof (alloc_extends new_size align h Hok Hs Ha) as H.
  destruct (alloc new_size align h) as [p h']. destruct (negb (p =? 0)); [|done].
  destruct H as ([Hp Hn Hz] & Hle & Hb). split_and!; [by split|done|done].
Qed.

(** The ABI normalises an alignment that [alloc] normalises again. *)
Lemma normalize_align_twice align al :
  align <= USIZE32_MAX → normalize_align align = Some al → normalize_align al = Some al.
Proof.
  intros Hmax H. apply normalize_align_spec in H as [Hle [k ->]]; [|done].
  assert (Hk : 1 <= 2 ^ k) by (pose proof (N.pow_nonzero 2 k); lia).
  unfold normalize_align, is_power_of_two. rewrite N.max_l, N.log2_pow2 by lia.
  by rewrite N.eqb_refl.
Qed.

Lemma extends_normalized align al h h' p size :
  align <= USIZE32_MAX → normalize_align align = Some al →
  extends al h h' p size → extends align h h' p size.
Proof.
  intros Hmax Hal (Hok & Hle & Hp). split_and!; [done|done|]. intros Hne.
  destruct (Hp Hne) as (al' & Hal' & Hb). rewrite (normalize_align_twice align al) in Hal' by done.
  exists al'. split; [congruence|done].
Qed.

Lemma cabi_realloc_extends old_ptr old_len align new_len h :
  heap_ok h → 0 < new_len → align <= USIZE32_MAX →
  let r := cabi_realloc old_ptr old_len align new_len h in extends align h r.2 r.1 new_len.
Proof.
  intros Hok Hs Ha r. unfold r, cabi_realloc.
  destruct (normalize_align align) as [al|] eqn:Hal; [|split_and!; [done|simpl; lia|done]].
  pose proof (normalize_align_spec align al Ha Hal) as [Hle _].
  destruct (N.eqb_spec new_len 0); [lia|].
  destruct (old_len =? 0); eapply extends_normalized; try done;
    [apply alloc_extends|apply realloc_extends]; done || lia.
Qed.

Lemma heap_step_inv s s' : heap_step s s' → blocks_inv s → blocks_inv s'.
Proof.
  destruct 1; intros Hinv; pose proof (bi_heap _ Hinv) as Hok; simpl in Hok.
  - eapply handed_out_inv; [done|done|]. by apply alloc_extends.
  - eapply handed_out_inv; [done|done|]. by apply realloc_extends.
  - eapply handed_out_inv; [done|done|]. by apply cabi_realloc_extends.
  - eapply handed_out_inv; [done|done|]. by apply cabi_realloc_extends.
  - done.
  - destruct Hinv as [[Hp Hn Hz] Hb Ho]. by split.
Qed.

(** ** Reallocation *)

Lemma realloc_copies b align new_size h bs :
  blocks_inv (h, bs) → b ∈ bs → 0 < new_size → align <= USIZE32_MAX →
  let (p, h') := realloc (b_ptr b) (b_size b) align new_size h in
  p ≠ 0 →
  (∀ i, i < N.min (b_size b) new_size → memory h' (p + i) = memory h (b_ptr b + i))
  ∧ ∀ c a, c ∈ bs → b_ptr c <= a < b_end c → memory h' a = memory h a.
Proof.
  intros [Hok Hb _] Hin Hs Ha. simpl in Hok, Hb. unfold realloc.
  destruct (N.eqb_spec new_size 0); [lia|].
  pose proof (alloc_spec new_size align h Hok Hs Ha) as H.
  destruct (alloc new_size align h) as [p h']. destruct H as (_ & Hm & _ & Hp).
  destruct (N.eqb_spec p 0) as [|Hne]; [done|]. cbn [negb memory]. intros _.
  destruct (Hp Hne) as (al & _ & Hstart & _). rewrite Hm. unfold copy_nonoverlapping. split.
  - intros i Hi. destruct (N.leb_spec p (p + i)), (N.ltb_spec (p + i) (p + N.min (b_size b) new_size));
      simpl; try lia. f_equal. lia.
  - intros c a Hc Ha'. rewrite Forall_forall in Hb. apply Hb, block_end_start in Hc.
    destruct (N.leb_spec p a); [lia|done].
Qed.

(** ** [memcmp] *)

(** The result of comparing the bytes from [lo] up to [hi]. *)
Definition compares (m : N → byte) (a b lo hi : N) (r : Z) : Prop :=
  (r = 0%Z ↔ ∀ i, lo <= i < hi → m (a + i) = m (b + i))
  ∧ (r ≠ 0%Z → ∃ i, lo <= i < hi ∧ (∀ j, lo <= j < i → m (a + j) = m (b + j))
       ∧ r = byte_diff (m (a + i)) (m (b + i))).

Lemma byte_diff_zero x y : byte_diff x y = 0%Z → x = y.
Proof. unfold byte_diff. intros Hz. apply Byte_to_N_inj. lia. Qed.

Lemma memcmp_loop_spec a b m rest index :
  compares m a b index (index + N.of_nat rest) (memcmp_loop a b index rest m).
Proof.
  revert index. induction rest as [|rest IH]; intros index; cbn [memcmp_loop].
  { split; [split; [intros _ i Hi; lia|done]|done]. }
  destruct (Byte.eqb (m (a + index)) (m (b + index))) eqn:He; cbn [negb].
  - apply Byte.byte_dec_bl in He. destruct (IH (index + 1)) as [H1 H2]. split.
    + rewrite H1. split; intros H i Hi; [|apply H; lia].
      destruct (N.eq_dec i index) as [->|]; [done|apply H; lia].
    + intros (i & Hi & Hj & Hr)%H2. exists i. split_and!; [lia|lia| |done].
      intros j Hj'. destruct (N.eq_dec j index) as [->|]; [done|apply Hj; lia].
  - assert (Hne : m (a + index) ≠ m (b + index)).
    { intros Heq. rewrite Heq in He. by rewrite Byte.byte_dec_lb in He. }
    split; [split|].
    + by intros Hz%byte_diff_zero.
    + intros H. destruct Hne. apply H. lia.
    + intros _. exists index. split_and!; [lia|lia|intros j Hj; lia|done].
Qed.

(** [memcmp] is zero exactly on equal bytes, and otherwise the difference of the first
    bytes that differ. *)
Theorem memcmp_compares (a b n : N) (m : N → byte) : compares m a b 0 n (memcmp a b n m).
Proof.
  unfold memcmp. pose proof (memcmp_loop_spec a b m (N.to_nat n) 0) as H.
  by rewrite N2Nat.id, N.add_0_l in H.
Qed.

(** ** Property *)

(** C27. The allocator of the guests, along every sequence of allocations, reallocations
    through Rust or through the canonical ABI, deallocations, and writes of the guest
    into its blocks: every block handed out is aligned as asked, starts behind the
    guest's static data and ends inside the linear memory; no two blocks overlap, freed
    ones included; and a reallocation copies the old contents to the new block and
    leaves every other block as it was. *)
Theorem guest_blocks_disjoint (h0 h : guest_heap) (bs : list block) (Hstart : heap_ok h0)
  (Hrun : rtc heap_step (h0, []) (h, bs)) :
  (∀ b, b ∈ bs → heap_base <= b_ptr b ∧ b_end b <= memory_size h
     ∧ ∃ al, normalize_align (b_align b) = Some al ∧ (al | b_ptr b))
  ∧ (∀ i j b c, bs !! i = Some b → bs !! j = Some c → i ≠ j →
       b_end b <= b_ptr c ∨ b_end c <= b_ptr b)
  ∧ ∀ b align new_size, b ∈ bs → 0 < new_size → align <= USIZE32_MAX →
      let (p, h') := realloc (b_ptr b) (b_size b) align new_size h in
      p ≠ 0 →
      (∀ i, i < N.min (b_size b) new_size → memory h' (p + i) = memory h (b_ptr b + i))
      ∧ ∀ c a, c ∈ bs → b_ptr c <= a < b_end c → memory h' a = memory h a.
Proof.
  assert (Hinv : blocks_inv (h, bs)).
  { assert (H0 : blocks_inv (h0, [])) by (split; [done|done|constructor]).
    clear -Hrun H0 Hbase Hgrow. induction Hrun; eauto using heap_step_inv. }
  pose proof Hinv as [Hok Hb Ho]. simpl in *. split_and!.
  - intros b Hin. rewrite Forall_forall in Hb. destruct (Hb b Hin) as (H1 & _ & H2 & H3).
    pose proof (ok_size _ Hok). split_and!; [done|lia|done].
  - intros i j b c Hi Hj Hne. destruct (Nat.lt_total i j) as [Hlt|[?|Hlt]]; [|done|].
    + left. by eapply ordered_lookup.
    + right. by eapply ordered_lookup.
  - intros b align new_size Hin Hs Ha. by apply (realloc_copies b align new_size h bs).
Qed.
End allocator.

(** ** Examples *)

Section examples.
Let host_grows (p d : N) : bool := p + d <=? 65536.
Let h0 : guest_heap := mk_heap 0 1 (λ _, x00).
(** Two blocks, of which the second needs more memory, and the reallocation of the
    first. *)
Let r1 := alloc 1025 host_grows 10 8 h0.
Let r2 := alloc 1025 host_grows 70000 12 r1.2.
Let r3 := cabi_realloc 1025 host_grows 1032 10 8 20 r2.2.
Let blocks : list block := [mk_block 1032 10 8; mk_block 1056 70000 12; mk_block 71056 20 8].

Lemma guest_blocks_disjoint_witness :
  (r1.1, r2.1, r3.1, pages r3.2) = (1032, 1056, 71056, 2)
  ∧ ∀ i j b c, blocks !! i = Some b → blocks !! j = Some c → i ≠ j →
      b_end b <= b_ptr c ∨ b_end c <= b_ptr b.
Proof.
  split; [vm_compute; reflexivity|].
  refine (proj1 (proj2 (guest_blocks_disjoint 1025 host_grows _ _ h0 r3.2 blocks _ _))).
  - lia.
  - intros p d H. apply N.leb_le. exact H.
  - split; [discriminate|by left|discriminate].
  - eapply rtc_l; [apply (step_alloc 1025 host_grows 10 8 h0 []); [lia|discriminate]|].
    eapply rtc_l; [apply (step_alloc 1025 host_grows 70000 12 r1.2 [mk_block 1032 10 8]);
      [lia|discriminate]|].
    eapply rtc_l; [apply (step_cabi_realloc 1025 host_grows (mk_block 1032 10 8) 8 20 r2.2
      [mk_block 1032 10 8; mk_block 1056 70000 12]); [left|lia|discriminate]|].
    apply rtc_refl.
Defined.

(** A request that does not fit fails, and the heap can still be used. *)
Example exhausted_heap :
  let r := alloc 1025 host_grows 4294967295 1 h0 in
  r.1 = 0 ∧ (alloc 1025 host_grows 10 8 r.2).1 = 1032.
Proof. vm_compute. split; reflexivity. Qed.
End examples.
