(* ===== verification/UppercaseGuest.v ===== *)
(** The uppercase guest
    (src/crates/pureflow-wasm/fixtures/uppercase-guest/src/lib.rs), the sample batch
    component; its allocator is that of GuestAlloc.v.

    The guest works on the shapes of wit/pureflow-batch.wit, which the host's codec
    (Wasm.v) has as [WitPortBatch]; it never looks at the metadata of a packet.  The
    theorem joins the two sides: what the host makes of the guest's answer. *)

From Stdlib Require Import Lia Strings.Byte.
From S2P Require Import Prelude RustStr BTree Types Errors Json Context Message RuleNode Wasm WasmSpec.

(** [u8::to_ascii_uppercase]. *)
Definition to_ascii_uppercase (b : byte) : byte :=
  if N.leb 97 (to_N b) && N.leb (to_N b) 122 then default b (of_N (to_N b - 32)) else b.

Definition uppercase_ascii (bytes : list byte) : list byte := to_ascii_uppercase <$> bytes.

Module BatchError.
Inductive BatchError : Set := GuestFailure (message : rstr) | UnsupportedPayload (message : rstr).
End BatchError.
Notation BatchError := BatchError.BatchError.

(** The body of the loops of [invoke]. *)
Definition uppercase_packet (packet : WitPacket) : result WitPacket BatchError :=
  match WitPacket.payload packet with
  | WitPayload.Bytes bytes =>
      Ok (WitPacket.mk (WitPacket.metadata packet) (WitPayload.Bytes (uppercase_ascii bytes)))
  | WitPayload.Control _ =>
      Err (BatchError.UnsupportedPayload (lit "uppercase guest accepts only bytes payloads"))
  end.

(** The two loops go over the packets of all ports. *)
Definition invoke (inputs : list WitPortBatch) : result (list WitPortBatch) BatchError :=
  let? packets := try_collect uppercase_packet (inputs ≫= WitPortBatch.packets) in
  Ok [WitPortBatch.mk (lit "out") packets].

(** The values of the types of wit/pureflow-batch.wit, as the component model passes them
    between host and guest: each record with its fields in the order of the interface,
    each variant by the name of its case. *)
Definition abi_endpoint (endpoint : MessageEndpoint) : Val :=
  ValRecord [(lit "node-id", ValString (as_str (MessageEndpoint.node_id endpoint)));
             (lit "port-id", ValString (as_str (MessageEndpoint.port_id endpoint)))].
Definition abi_packet (packet : WitPacket) : Val :=
  let metadata := WitPacket.metadata packet in
  let execution := MessageMetadata.execution metadata in
  let route := MessageMetadata.route metadata in
  ValRecord
    [(lit "metadata", ValRecord
        [(lit "message-id", ValString (as_str (MessageMetadata.message_id metadata)));
         (lit "workflow-id", ValString (as_str (MessageMetadata.workflow_id metadata)));
         (lit "execution", ValRecord
            [(lit "execution-id", ValString (as_str (ExecutionMetadata.execution_id execution)));
             (lit "attempt", ValU32 (ExecutionAttempt.get (ExecutionMetadata.attempt execution)))]);
         (lit "route", ValRecord
            [(lit "source", ValOption (abi_endpoint <$> MessageRoute.source route));
             (lit "target", abi_endpoint (MessageRoute.target route))])]);
     (lit "payload",
        match WitPacket.payload packet with
        | WitPayload.Bytes bytes => ValVariant (lit "bytes") (Some (ValList (ValU8 <$> bytes)))
        | WitPayload.Control value => ValVariant (lit "control") (Some (ValString value))
        end)].
Definition abi_port_batch (batch : WitPortBatch) : Val :=
  ValRecord [(lit "port-id", ValString (WitPortBatch.port_id batch));
             (lit "packets", ValList (abi_packet <$> WitPortBatch.packets batch))].

(** The value of the answer, as the component model gives it to the host. *)
Definition answer_val (answer : result (list WitPortBatch) BatchError) : Val :=
  ValResult
    (match answer with
     | Ok batches => Ok (Some (ValList (abi_port_batch <$> batches)))
     | Err (BatchError.GuestFailure message) =>
         Err (Some (ValVariant (lit "guest-failure") (Some (ValString message))))
     | Err (BatchError.UnsupportedPayload message) =>
         Err (Some (ValVariant (lit "unsupported-payload") (Some (ValString message))))
     end).

(** ** Specification *)

Section spec.
Context `{J : JsonNumber} `{!JsonText} `{!JsonDisplay}.

Definition is_bytes (packet : PortPacket) : bool :=
  match MessageEnvelope.payload packet with
  | PacketPayload.Bytes _ => true
  | PacketPayload.Control _ => false
  end.

(** A byte in upper case: the codes from 97 to 122, the lower case letters of ASCII, are
    those of the upper case letters and 32; no other byte changes. *)
Definition upper_byte (b b' : byte) : Prop :=
  ((97 ≤ to_N b ≤ 122)%N ∧ to_N b = (to_N b' + 32)%N)
  ∨ (((to_N b < 97)%N ∨ (122 < to_N b)%N) ∧ b' = b).

(** The packet that answers a packet: the same metadata, and the bytes in upper case. *)
Definition upper_packet (packet packet' : PortPacket) : Prop :=
  MessageEnvelope.metadata packet' = MessageEnvelope.metadata packet
  ∧ ∃ bytes bytes', MessageEnvelope.payload packet = PacketPayload.Bytes bytes
      ∧ MessageEnvelope.payload packet' = PacketPayload.Bytes bytes'
      ∧ Forall2 upper_byte bytes bytes'.

(** What the guest makes of a packet. *)
Definition uppercased (packet : PortPacket) : PortPacket :=
  match MessageEnvelope.payload packet with
  | PacketPayload.Bytes bytes =>
      MessageEnvelope.new (MessageEnvelope.metadata packet)
        (PacketPayload.Bytes (uppercase_ascii bytes))
  | PacketPayload.Control _ => packet
  end.

(** All packets of a batch, port by port. *)
Definition all_packets (b : Batch) : list PortPacket := Batch.packets_by_port b ≫= snd.

Definition out_port : PortId := ident "out".

Lemma upper_byte_ok b : upper_byte b (to_ascii_uppercase b).
Proof. unfold upper_byte. destruct b; (left; split; [split|]; done) || (right; split; [|reflexivity]; by left + by right). Qed.

Lemma uppercased_ok packet : is_bytes packet = true → upper_packet packet (uppercased packet).
Proof.
  unfold is_bytes, uppercased, upper_packet. destruct (MessageEnvelope.payload packet) as [bytes|]; [|done].
  intros _. split; [done|]. exists bytes, (uppercase_ascii bytes). split_and!; [done|done|].
  apply Forall2_fmap_r, Forall_Forall2_diag, Forall_true. apply upper_byte_ok.
Qed.

(** The host encodes a batch as the interface has it. *)
Lemma batch_inputs_abi b :
  batch_inputs_to_val b = Ok (ValList (abi_port_batch <$> wit_batches b)).
Proof. unfold batch_inputs_to_val. rewrite to_wit_port_batches_eq. done. Qed.

Lemma wit_batches_packets b :
  (wit_batches b ≫= WitPortBatch.packets) = wit_packet <$> all_packets b.
Proof.
  unfold wit_batches, all_packets. destruct b as [m]. simpl.
  induction m as [|[p packets] m IH]; [done|].
  rewrite fmap_cons, !bind_cons, fmap_app, <- IH. done.
Qed.

Lemma uppercase_packet_bytes packet :
  is_bytes packet = true → uppercase_packet (wit_packet packet) = Ok (wit_packet (uppercased packet)).
Proof.
  unfold is_bytes, uppercase_packet, uppercased, wit_packet. simpl.
  by destruct (MessageEnvelope.payload packet).
Qed.

Lemma invoke_bytes b :
  Forall (λ p, is_bytes p = true) (all_packets b) →
  invoke (wit_batches b)
  = Ok (wit_batches (Batch.from_packets [(out_port, uppercased <$> all_packets b)])).
Proof.
  intros Hb. unfold invoke. rewrite wit_batches_packets.
  assert (try_collect uppercase_packet (wit_packet <$> all_packets b)
    = Ok (wit_packet <$> (uppercased <$> all_packets b))) as ->; [|done].
  apply try_collect_ok. rewrite Forall2_fmap_l, !Forall2_fmap_r.
  apply Forall_Forall2_diag. eapply Forall_impl; [exact Hb|]. apply uppercase_packet_bytes.
Qed.

Lemma refused_packet l :
  forallb is_bytes l = false →
  try_collect uppercase_packet (wit_packet <$> l)
  = Err (BatchError.UnsupportedPayload (lit "uppercase guest accepts only bytes payloads")).
Proof.
  induction l as [|p l IH]; [done|]. cbn [forallb]. rewrite fmap_cons. cbn [try_collect].
  destruct (is_bytes p) eqn:Hp; cbn [andb].
  - intros Hl. rewrite uppercase_packet_bytes by done. cbn [result_bind]. by rewrite IH.
  - intros _. revert Hp. unfold is_bytes, uppercase_packet, wit_packet. simpl.
    by destruct (MessageEnvelope.payload p).
Qed.

Lemma uppercased_valid packet :
  is_bytes packet = true → packet_valid packet → packet_valid (uppercased packet).
Proof.
  unfold is_bytes, uppercased, packet_valid. destruct (MessageEnvelope.payload packet) eqn:E; [|done].
  intros _ [Hm _]. by split.
Qed.

(** ** Property *)

(** C40. A batch of packets whose identifiers are valid, sent through the WASM boundary to
    the uppercase guest: the host encodes it as a value of the interface, and the guest is
    called with what that value stands for.  If all payloads are bytes, the host decodes
    from the guest's answer a batch that has, on the port [out] and nowhere else, a packet
    for every packet of the batch, port by port and in order, with the same metadata and
    with every ASCII letter of its bytes in upper case and every other byte unchanged; if
    some payload is not, the call fails with the guest's refusal and nothing is returned. *)
Theorem uppercase_component_answers (b : Batch)
  (Hvalid : Forall packet_valid (all_packets b)) :
  ∃ inputs, batch_inputs_to_val b = Ok (ValList (abi_port_batch <$> inputs))
  ∧ let answer := batch_outputs_from_result_val (answer_val (invoke inputs)) in
    if forallb is_bytes (all_packets b) then
      ∃ b', answer = Ok b'
        ∧ Forall2 upper_packet (all_packets b) (Batch.packets b' (ident "out"))
        ∧ ∀ p, p ≠ ident "out" → Batch.packets b' p = []
    else answer = Err (PureflowError.execution
    (lit "guest returned unsupported-payload: uppercase guest accepts only bytes payloads")).
Proof.
  exists (wit_batches b). split; [apply batch_inputs_abi|].
  intros answer. destruct (forallb is_bytes (all_packets b)) eqn:Hb.
  - apply Is_true_true, forallb_True in Hb.
    assert (Hall : Forall (λ p, is_bytes p = true) (all_packets b))
      by (eapply Forall_impl; [exact Hb|]; intros p; apply Is_true_true).
    assert (Hout : Forall packet_valid (uppercased <$> all_packets b)).
    { rewrite Forall_fmap, Forall_forall in *. intros p Hp. apply uppercased_valid; auto. }
    assert (Hm : Forall (λ pp, valid_identifier (as_str pp.1) ∧ Forall packet_valid pp.2)
      [(out_port, uppercased <$> all_packets b)]).
    { apply Forall_singleton. split; [|done].
      apply (validate_identifier_ok IdentifierKind.Port). reflexivity. }
    unfold answer. rewrite invoke_bytes by done.
    cbn [answer_val batch_outputs_from_result_val port_batches_from_val].
    assert (try_collect port_batch_from_val (abi_port_batch
      <$> wit_batches (Batch.from_packets [(out_port, uppercased <$> all_packets b)]))
      = Ok (wit_batches (Batch.from_packets [(out_port, uppercased <$> all_packets b)]))) as ->.
    { change abi_port_batch with port_batch_to_val.
      apply try_collect_ok, Forall2_fmap_l, Forall_Forall2_diag, Forall_fmap, (Forall_impl _ _ _ Hm).
      intros [p packets] [_ Hp]. apply port_batch_roundtrip, Forall_fmap, (Forall_impl _ _ _ Hp).
      by intros packet [? _]. }
    cbn [result_bind]. unfold from_wit_port_batches. rewrite push_wit_batches_ok by done.
    assert (Hat : ∀ p, Batch.packets (foldl (λ b pp, Batch.push b pp.1 pp.2) Batch.new
      (batch_packets [(out_port, uppercased <$> all_packets b)])) p
      = if decide (p = out_port) then uppercased <$> all_packets b else []).
    { intros p. rewrite Batch.packets_pushes, batch_packets_at
        by (constructor; [set_solver|constructor]). simpl. repeat case_decide; congruence. }
    eexists. split; [done|]. split.
    + change (ident "out") with out_port. rewrite Hat, decide_True by done.
      apply Forall2_fmap_r, Forall_Forall2_diag. by eapply Forall_impl; [exact Hall|apply uppercased_ok].
    + intros p Hp. by rewrite Hat, decide_False.
  - unfold answer, invoke. by rewrite wit_batches_packets, refused_packet.
Qed.
End spec.

(** Upper case letters, and only ASCII letters change. *)
Example uppercase_hello :
  uppercase_ascii [x68; x69; x20; xe9; x5a] = [x48; x49; x20; xe9; x5a].
Proof. reflexivity. Qed.

Lemma uppercase_idempotent bytes :
  uppercase_ascii (uppercase_ascii bytes) = uppercase_ascii bytes.
Proof.
  unfold uppercase_ascii. rewrite <- list_fmap_compose. apply list_fmap_ext.
  intros i b _. by destruct b.
Qed.

(** ** Examples *)

Section examples.
#[local] Instance no_json_text : JsonText :=
  {| json_error := unit; json_error_fmt := λ _, lit "json";
     json_from_str := λ _, Ok Value.Null; json_to_string := λ _, Ok (lit "null") |}.
#[local] Instance null_display : JsonDisplay := λ _, lit "null".
Let packet (payload : PacketPayload) : PortPacket :=
  MessageEnvelope.new
    (MessageMetadata.new (ident "m1") (ident "flow")
       (ExecutionMetadata.first_attempt (ident "run-1"))
       (MessageRoute.new (Some (MessageEndpoint.new (ident "a") (ident "out")))
          (MessageEndpoint.new (ident "b") (ident "in"))))
    payload.
Let batch : Batch :=
  Batch.from_packets
    [(ident "in", [packet (PacketPayload.Bytes [x68; x69])]);
     (ident "side", [packet (PacketPayload.Bytes [x61])])].

Lemma example_packet_valid payload : payload_prints_back payload → packet_valid (packet payload).
Proof.
  intros Hp. split; [|exact Hp].
  assert (Hid : ∀ value, validate_identifier IdentifierKind.Node value = Ok tt → valid_identifier value)
    by (intros value; apply validate_identifier_ok).
  split; simpl; try (apply Hid; reflexivity).
  - intros e [= <-]. split; apply Hid; reflexivity.
  - split; apply Hid; reflexivity.
Qed.

Lemma uppercase_component_answers_witness :
  ∃ inputs, batch_inputs_to_val batch = Ok (ValList (abi_port_batch <$> inputs))
  ∧ ∃ b', batch_outputs_from_result_val (answer_val (invoke inputs)) = Ok b'
    ∧ Forall2 upper_packet
        [packet (PacketPayload.Bytes [x68; x69]); packet (PacketPayload.Bytes [x61])]
        (Batch.packets b' (ident "out")).
Proof.
  destruct (uppercase_component_answers batch) as (inputs & Hi & Ha).
  - repeat (apply Forall_cons; split; [by apply example_packet_valid|]). constructor.
  - destruct Ha as (b' & Hb & Hp & _). exists inputs. split; [exact Hi|].
    exists b'. split; [exact Hb|exact Hp].
Defined.
End examples.
